(* ===== verification/_CoqProject ===== *)
-Q . S2P
Prelude.v
DnsTypes.v
DnsLib.v
Less.v
Tree.v
TreeInsert.v
TreeDelete.v
TreeQuery.v
Ip.v
Store.v
StoreFacts.v
Serve.v
Snapshot.v
Http.v
Auth.v
Providers.v
ProviderFacts.v
Api.v
ApiFacts.v
CfClient.v
CfSync.v
Watcher.v
WatcherFacts.v
Typify.v
ShardCache.v
CachePlugin.v
CacheFacts.v
FileZone.v
FileFacts.v
Xfer.v
FileSame.v
Secondary.v
ZoneCopy.v
TransferFacts.v
UpdateFacts.v
FileServeFacts.v
Server.v
ServerFacts.v
Filters.v
FilterFacts.v
GoStrings.v
Rewrite.v
RewriteParse.v
RewriteFacts.v
Backend.v
BackendFacts.v
Etcd.v
EtcdFacts.v
Proxy.v
ProxyFacts.v
Forward.v
ForwardFacts.v
GoNet.v
ForwardSetup.v
Hosts.v
HostsFacts.v
KubeObjects.v
KubeControlFacts.v
Kubernetes.v
KubeFacts.v
KubeExternal.v
KubeExternalFacts.v
Operator.v
OperatorFacts.v
OperatorSample.v
Register.v
RegisterFacts.v
Weighted.v
WeightedFacts.v
Tsig.v
Transports.v
TransportFacts.v
Autopath.v
Dnssec.v
DnssecFacts.v
