(* ===== verification/Prelude.v ===== *)
(** * Hanzo DNS: a verification development

    The repository is a fork of CoreDNS: a DNS server that passes each query
    along a chain of plugins, with a plugin of its own (hanzodns) that serves
    the zones of many organisations from a store behind a REST API, and tools
    that push zones from a database to that server and to Cloudflare.  This
    development models the parts that hold, serve, copy and synchronise zones
    as Rocq functions and transition systems, translated from the Go sources
    (all paths below are under src/), and proves what makes them correct.

    ** The parts and the files that model them

    - Names and records.  DnsTypes.v has the records and messages of
      github.com/miekg/dns as data, and its functions on names as the class
      [DnsNames] with the laws [DnsNamesSpec]; DnsLib.v its functions on
      messages ([DnsLib], [DnsLibSpec]) and the accessors of
      request/request.go.  Ip.v is [net.ParseIP]; Http.v text, URL and base64
      functions of the Go library.
    - The zone tree (plugin/file/tree).  Less.v: the order of names,
      less.go.  Tree.v: elem.go, tree.go, all.go and walk.go; a node is an
      inductive type and a pointer operation returns [NilDeref] where Go would
      panic.  TreeInsert.v, TreeDelete.v and TreeQuery.v hold the theorems.
    - The file plugin (plugin/file).  FileZone.v: zones, [Insert] and [Lookup]
      (zone.go, lookup.go, closest.go, dname.go, wildcard.go, rrutil,
      tree/glue.go).  Secondary.v: the query handler and [Parse] (file.go),
      sending and fetching zones (xfr.go, secondary.go), the update loop,
      reload.go, notify.go, and the start of a secondary (plugin/secondary).
      Xfer.v: plugin/transfer.  Theorems: FileFacts.v (lookups), FileSame.v
      (a lookup depends on the data of a zone alone), ZoneCopy.v (filing a zone
      again), TransferFacts.v (primary to secondary), UpdateFacts.v (a
      secondary over time), FileServeFacts.v (the handler).
    - The cache plugin.  ShardCache.v: plugin/pkg/cache.  Typify.v:
      plugin/pkg/response and plugin/pkg/dnsutil/ttl.go.  CachePlugin.v:
      plugin/cache, with items in a heap, since the caches and the goroutines
      share them, and pending goroutines as jobs of the state.  CacheFacts.v:
      the theorems.
    - The tenant store (plugin/hanzodns).  Store.v: store.go and
      store_sync.go; StoreFacts.v its theorems.  Serve.v: hanzodns.go and
      the helpers of package plugin.  Snapshot.v: store_snapshot.go, with
      concurrent requests, the creation, writing and renaming of the temporary
      file, failing calls and restarts at any point as the steps of a
      transition system.
    - The REST API (plugin/hanzodns).  Auth.v: oidc.go and the middleware.
      Providers.v: provider.go, cloudflare.go, kms.go.  Api.v: api.go and
      api_sync.go.  Theorems in ProviderFacts.v and ApiFacts.v.
    - The server and small plugins.  Server.v: the sites, plugin chains and
      multiplexer of core/dnsserver/server.go, with the reply helpers of
      package request; ServerFacts.v its theorems.  Filters.v: the handlers of
      plugin/acl, any, dns64, loadbalance and minimal, a Module each, with
      FilterFacts.v.  Weighted.v: the weights (weighted.go) and preferred
      networks (prefer.go) of plugin/loadbalance, with WeightedFacts.v.
    - From the configuration to servers.  Register.v: zone names in all their
      notations (plugin/normalize.go, plugin/pkg/cidr), the check for
      overlapping zones (core/dnsserver/address.go) and the making of
      configurations and servers (core/dnsserver/register.go), which are those
      of Server.v; RegisterFacts.v.
    - The rewrite plugin (plugin/rewrite).  Rewrite.v: the rules, the handler
      and the reverter, which changes the records of a reply in place and is
      modelled with the records in a heap; RewriteParse.v: rules from words;
      RewriteFacts.v: the theorems.  GoStrings.v and GoNet.v: more of packages
      strings, strconv and net of the Go library.
    - Service back ends.  Backend.v: the interface of plugin/backend.go as the
      class [ServiceBackend], the lookups of plugin/backend_lookup.go over it,
      and the services and keys of plugin/etcd/msg; BackendFacts.v proves the
      lookups for every instance.  Etcd.v: plugin/etcd, the instance
      [etcd_backend], its handler, and plugin/pkg/upstream; EtcdFacts.v.
    - Forwarding.  Proxy.v: plugin/pkg/proxy and plugin/pkg/up, with
      ProxyFacts.v.  Forward.v: the policies and the handler of plugin/forward,
      with ForwardFacts.v.  ForwardSetup.v: its resolve.go, the destinations of
      setup.go, plugin/pkg/parse and plugin/pkg/transport.
    - The hosts plugin.  Hosts.v: plugin/hosts and
      plugin/pkg/dnsutil/reverse.go; HostsFacts.v.
    - The kubernetes and k8s_external plugins.  KubeObjects.v: the objects the
      plugin keeps (plugin/kubernetes/object), the processor of changes and the
      controller, a store per kind of object, as a transition system
      (controller.go); KubeControlFacts.v its theorems, which discharge the
      class [dnsController] that the rest is proved against.  Kubernetes.v:
      what a name asks for, lookups, reverse lookups, the instance
      [kube_backend] of [ServiceBackend], the handler, autopath and zone
      transfers, with KubeFacts.v.  KubeExternal.v: external.go and
      plugin/k8s_external, with KubeExternalFacts.v.
    - The Kubernetes operator (operator).  Operator.v: its objects, its
      Cloudflare client and its reconcilers, as computations of a monad of state
      and errors; OperatorFacts.v: the promises of the API server and of
      Cloudflare as the class [OpSpec], with others acting between any two
      calls, and the theorems by postconditions ([wp]); OperatorSample.v: both
      in memory, an instance of the promises.
    - Encrypted transports and signed requests.  Transports.v: plugin/pkg/doh
      and the HTTPS, HTTP/3, QUIC and gRPC servers of core/dnsserver, from bytes
      to bytes, with the multiplexer as an argument.  Tsig.v: plugin/tsig.
      TransportFacts.v: the theorems of both, with the server whose sites begin
      with tsig ([signed_serve]).
    - Signed replies.  Dnssec.v: plugin/dnssec, with its signatures in the cache
      of ShardCache.v; DnssecFacts.v.
    - Search paths.  Autopath.v: plugin/autopath, with
      its theorem.
    - Synchronisation.  CfClient.v: pkg/cloudflare, with CfSync.v for the
      reconciliation of a zone.  Watcher.v: pkg/sync, with WatcherFacts.v.

    The server routes a request to the chain of a site; a chain is a list of
    plugins, each given the rest of the chain, and the protocol of package
    plugin says who writes the reply.  The DNS handlers use the accessors of
    DnsLib.v; the file, hanzodns, etcd, hosts and kubernetes handlers use zone
    matching and fallthrough of Serve.v; the etcd and kubernetes plugins answer
    through the lookups of Backend.v, which ask the server again for names outside the zone; the
    forward plugin exchanges messages through Proxy.v; the transfer plugin
    calls the file plugin through the interface [Transferer]; the REST
    handlers call the store and, for zones backed by a provider, the
    connector; the watcher calls the REST API and the Cloudflare client.

    ** How the code is modelled

    A Go function is a function of its arguments and of the state it reads; it
    returns its results and the new state.  An error is a value of [result],
    and so is a panic ([go_fault]), so that the absence of panics is a theorem.
    Operations under a lock are one step; goroutines are steps of a relation.
    Integers are [Z] with the wrap-around of their width written out where it
    can occur; strings are byte strings; maps are [gmap], and the order in
    which Go ranges over a map is any order ([MapOrder]).  Code that is not in
    the repository (the DNS library, JSON, HTTP transports, signatures,
    databases) is a parameter of the definitions that use it, with the laws
    the code relies on as a class or as hypotheses; every theorem with a
    hypothesis has a closed instance that applies it to concrete values.

    ** What the theorems show

    - Isolation and authentication: what one organisation observes of the
      store is a function of its own requests; a request changes no other
      organisation's zones; a request without an accepted credential reaches
      no handler; provider tokens stay in the Authorization header.
    - The store: a well-formedness invariant over all operations, the
      behaviour of the record operations on every branch, and bulk
      replacement.  Snapshots: round trip, durability after an acknowledged
      save, and crash consistency, whenever the process is killed; a power
      failure that loses data not yet on disk is not modelled.
    - The tree: insertion and deletion keep the red-black invariant, never
      dereference nil and change only the name they touch; neighbours and
      traversals follow the order of names; searches are logarithmic.
    - Lookups: they always return; a name at or below a zone cut is referred;
      every record is filed in its place, and what was inserted is found;
      denials are right; the handler never panics and keeps its zones well
      formed.
    - Transfers: a zone is sent whole, in order, in messages that fit, to
      listed clients only; a secondary that receives it answers every query
      like its primary; the update loop catches up with a newer serial.
    - The cache: a hit answers with what was received for the same question
      and flags, within its lifetime, but for what a verification of a stale
      entry sends instead; caches stay within their capacity; the
      sharded cache refines a map that may forget.
    - The server: every request gets exactly one reply when the plugins keep
      the protocol, which hanzodns, acl without drop, any, dns64 and
      loadbalance are shown to do; routing is a reference definition over the
      suffixes of the name.  The access list decides by the first policy that
      applies; dns64 embeds addresses reversibly as RFC 6052 lays down;
      loadbalance permutes and can reach every order; with weights, which stay
      valid whatever the file holds, an address comes first in as many draws as
      its weight; preferred networks are a stable order by the first network
      that has an address.
    - Transports: a message survives its way into an HTTPS request or a QUIC
      stream and out of it; accepted requests are bounded in size; over each
      transport a request that has to be signed and is not verified gets a reply
      in which the rest of the chain has no part, and signed requests get signed
      replies.  autopath answers with the first name of the search path that
      exists.
    - Signed replies: each set of records is signed with each key that is to
      sign it, by signatures that stay valid for two days, from the cache or
      not, up to equal hashes, or the library fails to sign it; a denial has a signed record of the name asked for that does not list
      the type.
    - Registration: configurations are accepted exactly when no two claims of a
      zone are in conflict, so that a server has at most one site without
      filters for a zone; the networks a prefix is split into partition it.
    - The rewrite plugin: a request that was changed is answered with the
      question of the client, and a reply to a renamed question has its names
      changed back.
    - Service back ends: following CNAME records ends whatever is stored; the
      records of an answer hang together; SRV answers have a record and an
      address for every service.  etcd: what is stored is served, what is not
      is denied, lifetimes of leases are bounded, keys and names correspond.
    - Forwarding: a reply comes from an upstream, answers the question and has
      the id of the request; an upstream that is down is left alone while
      another is up; loops end and nothing panics; connections are neither
      lost nor shared, cleaning them up by bisection is exact, a probe has one
      check in flight, and the limit on queries holds under concurrency.  The
      zone of a destination is read back from its address.
    - The hosts plugin: the maps are those of the entries of the file, and
      lookups by name and by address agree.  The etcd, forward and hosts
      plugins keep the protocol of plugins.
    - The kubernetes plugins: the controller keeps exactly the objects of the
      cluster that it should, converted; answers come from objects of exposed
      namespaces; services are served and transferred, hidden namespaces are
      denied, and reverse lookups agree with forward ones.  When a transfer
      ends, and when it panics, is settled.
    - Synchronisation: reconciliation leaves exactly the desired and the
      protected records; the watcher converges once the database is quiet and
      a server accepts what it posts.
    - The operator: whoever else acts and whichever calls fail, whether or not
      a failed call was done, it leaves at most one record behind at Cloudflare
      for each reconciliation that runs without a token or ends in a lost answer
      of Cloudflare or a failed write of a status; a
      reconciliation that nothing disturbs brings Cloudflare up to date, and the
      domain of a Pages project reaches it.
    - Where the code does not do what it says, a theorem shows it: names that
      cross organisations, expired zones that never recover, transfers that
      mix primaries, cache exceptions that are bypassed, a minimal plugin that
      panics when the rest of the chain declines, failover that never settles
      for the last reply, zones of a back end that chase each other's aliases
      without end, rewritten questions that are not put back, and others.

    ** Bounds and fuel

    [less_loop] has fuel one more than the two lengths together, and each turn
    shortens a name; the deletions of the tree have the size of the tree;
    [walk_loop] and [closest_loop] have the length of the query name, which
    bounds its labels, and so has [route_loop]; [Lookup_total],
    [Search_Delete], [route_reference] and [less_label_order] prove that the
    fuel never runs out.  CNAME chains are followed eight times, which is the
    code's own bound, as are the three tries of a notification.  A chain of
    names in a back end is at most eleven records long, so that twelve calls
    are enough ([lookup_terminates]); the exchanges with an upstream use up
    the connections kept, those that other requests give back meanwhile and at
    most three more ([exchange_total]).  The loop
    over upstreams is structural in the turns before its deadline, which are
    an input.  Everything else is structural recursion.

    ** Not modelled

    Sockets, TLS and the protocols of connections, the configuration parsers (setup.go of every
    plugin, built on Caddy), metrics, tracing and log output.  The zone file
    syntax is the DNS library's: [Parse] starts from the records the parser
    yields.  AuthWalk and printing of the tree.  The random jitter of the
    update loop: its ticks happen at any time from the due time on.  The rest
    of the server (core/dnsserver): listeners, and the handlers registered by
    plugin name.  In forward, the options of a block (parseBlock,
    built on Caddy), dnstap and tracing; the white space that separates the
    fields of a hosts file is that of ASCII.  The list and watch calls of the
    kubernetes plugin are client-go's: the changes they deliver are the input of
    the controller.  The plugins of upstream CoreDNS
    that the zone serving does not use, among them sign, the
    cloud back ends and the other message filters; the command of the
    operator and its polling of PostgreSQL, which does nothing yet; and
    generated code. *)

From Stdlib Require Import Ascii ZArith Lia.
From stdpp Require Import base numbers gmap strings fin_maps list.

#[export] Set Warnings "-clear-no-such-hyp".

(** ** Results: Go's [(value, error)] pairs and panics *)

(** A call that returns a value or an error.  The error type says which
    errors (or which run-time panics) the modelled code can produce. *)
Inductive result (E A : Type) : Type :=
| Ok (a : A)
| Err (e : E).
Arguments Ok {E A} a.
Arguments Err {E A} e.

#[export] Instance result_ret E : MRet (result E) := fun _ a => Ok a.
#[export] Instance result_bind E : MBind (result E) := fun _ _ k c =>
  match c with Ok a => k a | Err e => Err e end.
#[export] Instance result_fmap E : FMap (result E) := fun _ _ f c =>
  match c with Ok a => Ok (f a) | Err e => Err e end.

Definition is_ok {E A} (r : result E A) : bool :=
  match r with Ok _ => true | Err _ => false end.

(** How a shallow Go function can fail to return: a nil-pointer dereference, an
    index out of range, a failed type assertion, a ticker with no positive
    interval, and (in the model only) running out of recursion fuel. *)
Inductive go_fault : Type := NilDeref | IndexOutOfRange | BadAssertion | BadInterval | OutOfFuel.

Lemma bind_ok_inv {E A B} (c : result E A) (k : A -> result E B) b :
  c ≫= k = Ok b -> exists a, c = Ok a /\ k a = Ok b.
Proof. destruct c; simpl; naive_solver. Qed.

(** ** Go maps

    [for k, v := range m] visits the entries of a map in an order the
    language leaves open.  [map_range] is that order: any list of the
    entries, each once. *)
Class MapOrder := {
  map_range : forall (K : Type) `{Countable K} (V : Type), gmap K V -> list (K * V);
  map_range_perm : forall (K : Type) `{Countable K} (V : Type) (m : gmap K V),
    map_range K V m ≡ₚ map_to_list m
}.
Arguments map_range {_} {K _ _ V} m.
Arguments map_range_perm {_} {K _ _ V} m.

(** The order of [map_to_list], for concrete examples. *)
Definition list_order : MapOrder := {|
  map_range := fun K _ _ V m => map_to_list m;
  map_range_perm := fun K _ _ V m => reflexivity _ |}.

Lemma elem_of_map_range {MO : MapOrder} `{Countable K} {V} (m : gmap K V) k v :
  (k, v) ∈ map_range m <-> m !! k = Some v.
Proof. by rewrite (map_range_perm m), elem_of_map_to_list. Qed.

Lemma fmap_ext_on {A B} (f g : A -> B) (l : list A) :
  (forall x, x ∈ l -> f x = g x) -> f <$> l = g <$> l.
Proof.
  induction l as [|x l IH]; intros Hl; [done|]. rewrite !fmap_cons, (Hl x) by by left.
  f_equal. apply IH. intros. apply Hl. by right.
Qed.

Section map_range.
Context {MO : MapOrder} `{Countable K} {V : Type}.

Lemma map_range_NoDup (m : gmap K V) : NoDup (map_range m).
Proof. rewrite (map_range_perm m). apply NoDup_map_to_list. Qed.

Lemma map_range_keys_NoDup (m : gmap K V) : NoDup (map_range m).*1.
Proof. rewrite (map_range_perm m). apply NoDup_fst_map_to_list. Qed.

Lemma map_range_length (m : gmap K V) : length (map_range m) = size m.
Proof. by rewrite (map_range_perm m), length_map_to_list. Qed.

Lemma map_range_filter (P : K * V -> Prop) `{!forall x, Decision (P x)} (m : gmap K V) :
  filter P (map_range m) ≡ₚ map_range (filter P m).
Proof.
  apply NoDup_Permutation; [apply NoDup_filter, map_range_NoDup|apply map_range_NoDup|].
  intros [k v]. rewrite list_elem_of_filter, !elem_of_map_range, map_lookup_filter_Some. tauto.
Qed.

Lemma filter_snd (Q : V -> Prop) `{!forall x, Decision (Q x)} (l : list (K * V)) :
  filter Q l.*2 = (filter (fun kv => Q kv.2) l).*2.
Proof.
  induction l as [|[k v] l IH]; [done|]. rewrite fmap_cons, !filter_cons. simpl.
  case_decide; [|done]. rewrite fmap_cons. by f_equal.
Qed.

End map_range.

(** A loop that inserts the entries of a list one by one, keys distinct. *)
Lemma foldl_insert `{Countable K} {A V} (f : A -> K) (g : A -> V) (l : list A) (acc : gmap K V) :
  NoDup (f <$> l) ->
  foldl (fun m x => <[f x := g x]> m) acc l = list_to_map ((fun x => (f x, g x)) <$> l) ∪ acc.
Proof.
  revert acc. induction l as [|x l IH]; intros acc; [simpl; by rewrite map_empty_union|].
  rewrite fmap_cons. intros [Hx Hd]%NoDup_cons. simpl. rewrite IH by done.
  rewrite <-insert_union_l, <-insert_union_r; [done|]. apply not_elem_of_list_to_map_1.
  by rewrite <-list_fmap_compose.
Qed.

Lemma lookup_list_to_map_fmap `{Countable K} {A V} (f : A -> K) (g : A -> V) (l : list A) k v :
  NoDup (f <$> l) ->
  (list_to_map ((fun x => (f x, g x)) <$> l) : gmap K V) !! k = Some v
  <-> exists x, x ∈ l /\ k = f x /\ v = g x.
Proof.
  intros Hd. rewrite <-elem_of_list_to_map by (by rewrite <-list_fmap_compose).
  rewrite list_elem_of_fmap. naive_solver.
Qed.

(** ** Machine integers *)

Definition u8 (z : Z) : Z := z mod 2 ^ 8.
Definition u16 (z : Z) : Z := z mod 2 ^ 16.
Definition u32 (z : Z) : Z := z mod 2 ^ 32.
Definition u64 (z : Z) : Z := z mod 2 ^ 64.

Lemma u32_range z : (0 <= u32 z < 2 ^ 32)%Z.
Proof. apply Z.mod_pos_bound. lia. Qed.
Lemma u32_small z : (0 <= z < 2 ^ 32)%Z -> u32 z = z.
Proof. intros. by apply Z.mod_small. Qed.

(** ** Go strings

    A Go string is a sequence of bytes; [string] is the same thing.  The
    functions below are the ones of package [strings] the sources use, on
    bytes: [ToLower], [EqualFold] and [TrimSpace] map and trim the ASCII
    letters and spaces and leave bytes above 0x7f alone. *)

Definition dot : string := ".".

Definition byte_of (c : ascii) : Z := Z.of_nat (nat_of_ascii c).

Definition ascii_lower (c : ascii) : ascii :=
  let n := nat_of_ascii c in
  if decide (65 <= n <= 90) then ascii_of_nat (n + 32) else c.

Fixpoint ToLower (s : string) : string :=
  match s with
  | EmptyString => EmptyString
  | String c s => String (ascii_lower c) (ToLower s)
  end.

Definition EqualFold (a b : string) : bool := bool_decide (ToLower a = ToLower b).

Fixpoint HasPrefix (s p : string) {struct p} : bool :=
  match p, s with
  | EmptyString, _ => true
  | String c p', String d s' => bool_decide (c = d) && HasPrefix s' p'
  | String _ _, EmptyString => false
  end.

Fixpoint HasSuffix (s suf : string) : bool :=
  bool_decide (s = suf) ||
  match s with
  | EmptyString => false
  | String _ s' => HasSuffix s' suf
  end.

Fixpoint Contains (s sub : string) : bool :=
  HasPrefix s sub ||
  match s with
  | EmptyString => false
  | String _ s' => Contains s' sub
  end.

Fixpoint drop_str (n : nat) (s : string) : string :=
  match n, s with
  | O, _ => s
  | S n', String _ s' => drop_str n' s'
  | S _, EmptyString => EmptyString
  end.

Fixpoint take_str (n : nat) (s : string) : string :=
  match n, s with
  | S n', String c s' => String c (take_str n' s')
  | _, _ => EmptyString
  end.

Definition TrimPrefix (s p : string) : string :=
  if HasPrefix s p then drop_str (String.length p) s else s.

Definition TrimSuffix (s suf : string) : string :=
  if HasSuffix s suf then take_str (String.length s - String.length suf) s else s.

Fixpoint trim_left (s : string) : string :=
  match s with
  | EmptyString => EmptyString
  | String c s' => if Ascii.is_space c then trim_left s' else s
  end.

Fixpoint trim_right (s : string) : string :=
  match s with
  | EmptyString => EmptyString
  | String c s' =>
      match trim_right s' with
      | EmptyString => if Ascii.is_space c then EmptyString else String c EmptyString
      | t => String c t
      end
  end.

Definition TrimSpace (s : string) : string := trim_right (trim_left s).

(** [strings.Split] on a one-byte separator. *)
Fixpoint Split (s : string) (sep : ascii) : list string :=
  match s with
  | EmptyString => [EmptyString]
  | String c s' =>
      if decide (c = sep) then EmptyString :: Split s' sep
      else match Split s' sep with
           | [] => [String c EmptyString]
           | w :: ws => String c w :: ws
           end
  end.

(** [strings.SplitN] on a one-byte separator, [n > 0] parts at most. *)
Fixpoint SplitN (s : string) (sep : ascii) (n : nat) : list string :=
  match n with
  | O => []
  | S O => [s]
  | S n' =>
      (fix go (s : string) : list string :=
         match s with
         | EmptyString => [EmptyString]
         | String c s' =>
             if decide (c = sep) then EmptyString :: SplitN s' sep n'
             else match go s' with
                  | [] => [String c EmptyString]
                  | w :: ws => String c w :: ws
                  end
         end) s
  end.

(** [strings.Fields]: the maximal runs of non-space bytes. *)
Fixpoint fields_aux (s : string) (cur : string) : list string :=
  match s with
  | EmptyString => if decide (cur = EmptyString) then [] else [cur]
  | String c s' =>
      if Ascii.is_space c
      then if decide (cur = EmptyString) then fields_aux s' EmptyString
           else cur :: fields_aux s' EmptyString
      else fields_aux s' (String.append cur (String c EmptyString))
  end.
Definition Fields (s : string) : list string := fields_aux s EmptyString.

(** [strconv.ParseUint s 10 bits]. *)
Definition digit_of (c : ascii) : option Z :=
  let n := byte_of c in
  if decide (48 <= n <= 57)%Z then Some (n - 48)%Z else None.

Fixpoint parse_digits (s : string) (acc : Z) : option Z :=
  match s with
  | EmptyString => Some acc
  | String c s' =>
      match digit_of c with
      | None => None
      | Some d => parse_digits s' (acc * 10 + d)%Z
      end
  end.

Definition ParseUint (s : string) (bits : Z) : option Z :=
  match s with
  | EmptyString => None
  | _ => match parse_digits s 0 with
         | Some n => if decide (n < 2 ^ bits)%Z then Some n else None
         | None => None
         end
  end.

(** ** Byte strings as lists of bytes *)

Fixpoint bytes (s : string) : list Z :=
  match s with
  | EmptyString => []
  | String c s' => byte_of c :: bytes s'
  end.

(** [bytes.Compare]: -1, 0 or 1, lexicographically. *)
Fixpoint Compare (a b : list Z) : Z :=
  match a, b with
  | [], [] => 0
  | [], _ :: _ => -1
  | _ :: _, [] => 1
  | x :: a', y :: b' =>
      if decide (x < y)%Z then (-1)%Z
      else if decide (y < x)%Z then 1%Z
      else Compare a' b'
  end%Z.

(** ** Lemmas on strings *)

Lemma str_app_cons c a b : String.append (String c a) b = String c (String.append a b).
Proof. done. Qed.
Lemma str_app_nil_l b : String.append EmptyString b = b.
Proof. done. Qed.
Lemma str_app_nil_r a : String.append a EmptyString = a.
Proof. induction a; [done|]. by rewrite str_app_cons, IHa. Qed.
Lemma str_app_assoc a b c :
  String.append a (String.append b c) = String.append (String.append a b) c.
Proof. induction a; [done|]. by rewrite !str_app_cons, IHa. Qed.
Lemma str_length_app a b :
  String.length (String.append a b) = String.length a + String.length b.
Proof. induction a; [done|]. rewrite str_app_cons. simpl. lia. Qed.
Lemma str_app_inj_r a b c : String.append a c = String.append b c -> a = b.
Proof.
  revert b. induction a as [|x a IH]; intros [|y b]; rewrite ?str_app_cons; simpl; intros H.
  - done.
  - apply (f_equal String.length) in H. rewrite str_app_nil_l in H. simpl in H.
    rewrite str_length_app in H. lia.
  - apply (f_equal String.length) in H. rewrite str_app_nil_l in H. simpl in H.
    rewrite str_length_app in H. lia.
  - simplify_eq. f_equal. by apply IH.
Qed.

Lemma ascii_lower_idemp c : ascii_lower (ascii_lower c) = ascii_lower c.
Proof. destruct c as [[][][][][][][][]]; reflexivity. Qed.
Lemma ToLower_idemp s : ToLower (ToLower s) = ToLower s.
Proof. induction s; simpl; [done|]. by rewrite ascii_lower_idemp, IHs. Qed.
Lemma ToLower_app a b : ToLower (String.append a b) = String.append (ToLower a) (ToLower b).
Proof. induction a; [done|]. rewrite str_app_cons. simpl. by rewrite IHa, str_app_cons. Qed.
Lemma ToLower_length s : String.length (ToLower s) = String.length s.
Proof. induction s; simpl; auto. Qed.

Lemma filter_all {A} (P : A -> Prop) `{!forall x, Decision (P x)} l : Forall P l -> filter P l = l.
Proof. induction 1; [done|]. rewrite filter_cons_True by done. by f_equal. Qed.
Lemma filter_none {A} (P : A -> Prop) `{!forall x, Decision (P x)} (l : list A) : (forall x, x ∈ l -> ~ P x) -> filter P l = [].
Proof. induction l as [|x l IH]; intros HP; [done|]. rewrite filter_cons_False by (apply HP; by left). apply IH. set_solver. Qed.
Lemma filter_in_ext {A} (P Q : A -> Prop) `{!forall x, Decision (P x), !forall x, Decision (Q x)} (l : list A) :
  (forall x, x ∈ l -> P x <-> Q x) -> filter P l = filter Q l.
Proof.
  induction l as [|a l IH]; intros HPQ; [done|]. assert (P a <-> Q a) as Ha by (apply HPQ; left).
  rewrite !filter_cons, IH by (intros; apply HPQ; by right). repeat case_decide; tauto || done.
Qed.

Lemma Split_some (a : string) c : Split a c <> [].
Proof. destruct a; simpl; [done|]. case_decide; [done|]. by destruct (Split _ _). Qed.

Lemma Split_app_sep (a b : string) c : Split (String.append a (String c b)) c = Split a c ++ Split b c.
Proof.
  induction a as [|x a IH]; simpl; [by rewrite decide_True|]. rewrite IH. case_decide; [done|].
  pose proof (Split_some a c). by destruct (Split a c).
Qed.

Lemma HasSuffix_spec s suf : HasSuffix s suf = true <-> exists p, s = String.append p suf.
Proof.
  induction s as [|c s IH]; simpl; rewrite orb_true_iff, bool_decide_eq_true.
  - split; [intros [<-|Hf]; [by exists EmptyString|discriminate Hf]|].
    intros [p Hp]. left. destruct p; [by rewrite str_app_nil_l in Hp|].
    by rewrite str_app_cons in Hp.
  - rewrite IH. split.
    + intros [<-|[p ->]]; [by exists EmptyString|]. by exists (String c p).
    + intros [[|d p] Hp]; [left; by rewrite str_app_nil_l in Hp|].
      rewrite str_app_cons in Hp. right. exists p. by simplify_eq.
Qed.
Lemma HasSuffix_app p suf : HasSuffix (String.append p suf) suf = true.
Proof. apply HasSuffix_spec. by exists p. Qed.
Lemma HasSuffix_refl s : HasSuffix s s = true.
Proof. apply HasSuffix_spec. by exists EmptyString. Qed.

Lemma HasPrefix_spec s p : HasPrefix s p = true <-> exists t, s = String.append p t.
Proof.
  revert s. induction p as [|c p IH]; intros s; simpl.
  - split; [|done]. intros _. exists s. by destruct s.
  - destruct s as [|d s].
    + split; [done|]. intros [t Ht]. by rewrite str_app_cons in Ht.
    + rewrite andb_true_iff, bool_decide_eq_true, IH. split.
      * intros [-> [t ->]]. by exists t.
      * intros [t Ht]. rewrite str_app_cons in Ht. simplify_eq. eauto.
Qed.

Lemma take_drop_str n s : String.append (take_str n s) (drop_str n s) = s.
Proof.
  revert n. induction s as [|c s IH]; intros [|n]; simpl; try done.
  by rewrite str_app_cons, IH.
Qed.
Lemma take_str_length n s : n <= String.length s -> String.length (take_str n s) = n.
Proof. revert n. induction s as [|c s IH]; intros [|n]; simpl; intros; try lia. rewrite IH; lia. Qed.
Lemma take_str_all n s : String.length s <= n -> take_str n s = s.
Proof.
  revert n. induction s as [|c s IH]; intros [|n]; simpl; intros; try (done || lia).
  f_equal. apply IH. lia.
Qed.
Lemma take_take_str n m s : n <= m -> take_str n (take_str m s) = take_str n s.
Proof.
  revert n m. induction s as [|c s IH]; intros [|n] [|m]; simpl; intros; try (done || lia).
  f_equal. apply IH. lia.
Qed.
Lemma drop_str_length n s : String.length (drop_str n s) = String.length s - n.
Proof. revert n. induction s as [|c s IH]; intros [|n]; simpl; intros; auto; lia. Qed.

Lemma bytes_length s : length (bytes s) = String.length s.
Proof. induction s; simpl; auto. Qed.

(** *** Trimming *)

Definition head_not_space (s : string) : Prop :=
  match s with String c _ => Ascii.is_space c = false | EmptyString => True end.

Lemma trim_left_head s : head_not_space (trim_left s).
Proof. induction s as [|c s IH]; simpl; [done|]. by destruct (Ascii.is_space c) eqn:?. Qed.
Lemma trim_left_id s : head_not_space s -> trim_left s = s.
Proof. destruct s; simpl; [done|]. by intros ->. Qed.
Lemma trim_right_app_dot s : trim_right (String.append s dot) = String.append s dot.
Proof. induction s as [|c s IH]; [done|]. rewrite str_app_cons. simpl. rewrite IH. by destruct s. Qed.
Lemma trim_right_head s : head_not_space s -> head_not_space (trim_right s).
Proof. destruct s as [|c s]; simpl; [done|]. intros H. rewrite H. by destruct (trim_right s). Qed.
Lemma lower_space c : Ascii.is_space (ascii_lower c) = Ascii.is_space c.
Proof. destruct c as [[][][][][][][][]]; reflexivity. Qed.
Lemma trim_right_cons c s : trim_right (String c s) =
  match trim_right s with
  | EmptyString => if Ascii.is_space c then EmptyString else String c EmptyString
  | t => String c t
  end.
Proof. done. Qed.
Lemma trim_right_idemp s : trim_right (trim_right s) = trim_right s.
Proof.
  induction s as [|c s IH]; [done|]. rewrite trim_right_cons.
  destruct (trim_right s) as [|d t].
  - destruct (Ascii.is_space c) eqn:Ec; [done|]. rewrite trim_right_cons. simpl. by rewrite Ec.
  - by rewrite trim_right_cons, IH.
Qed.
Lemma trim_left_lower s : trim_left (ToLower s) = ToLower (trim_left s).
Proof. induction s as [|c s IH]; simpl; [done|]. rewrite lower_space. by destruct (Ascii.is_space c). Qed.
Lemma trim_right_lower s : trim_right (ToLower s) = ToLower (trim_right s).
Proof.
  induction s as [|c s IH]; simpl; [done|]. rewrite lower_space, IH.
  destruct (trim_right s); simpl; [by destruct (Ascii.is_space c)|done].
Qed.
Lemma TrimSpace_lower s : TrimSpace (ToLower s) = ToLower (TrimSpace s).
Proof. unfold TrimSpace. by rewrite trim_left_lower, trim_right_lower. Qed.
Lemma TrimSpace_idemp s : TrimSpace (TrimSpace s) = TrimSpace s.
Proof.
  unfold TrimSpace. rewrite (trim_left_id (trim_right _)), trim_right_idemp; [done|].
  apply trim_right_head, trim_left_head.
Qed.
Lemma TrimSpace_app_dot s :
  TrimSpace s = s -> TrimSpace (String.append s dot) = String.append s dot.
Proof.
  intros H. unfold TrimSpace. rewrite trim_left_id; [apply trim_right_app_dot|].
  destruct s as [|c s]; [done|]. rewrite str_app_cons. simpl.
  unfold TrimSpace in H. destruct (Ascii.is_space c) eqn:E; [|done].
  pose proof (trim_right_head _ (trim_left_head (String c s))) as Hh.
  rewrite H in Hh. simpl in Hh. congruence.
Qed.
