(* ===== verification/DnsTypes.v ===== *)
(** * The DNS data the sources work on, and the name functions they call

    The resource records, headers and messages of github.com/miekg/dns as
    data, with the record types the sources switch on, and the functions of
    that package on domain names as the operations of a type class.  The
    package is not part of the repository: a theorem that needs one of its
    functions takes the class as an argument and relies on nothing but the
    laws of [DnsNamesSpec], each of which states what the package documents.
    [Plain.names] is an instance on names without escapes, for the concrete
    examples. *)

From Stdlib Require Import Ascii ZArith Lia.
From stdpp Require Import base gmap strings list numbers.
From S2P Require Import Prelude.

Local Open Scope Z_scope.

(** ** Record types, classes, opcodes and response codes (IANA numbers) *)

Definition TypeA : Z := 1.
Definition TypeNS : Z := 2.
Definition TypeCNAME : Z := 5.
Definition TypeSOA : Z := 6.
Definition TypePTR : Z := 12.
Definition TypeMX : Z := 15.
Definition TypeTXT : Z := 16.
Definition TypeAAAA : Z := 28.
Definition TypeSRV : Z := 33.
Definition TypeNAPTR : Z := 35.
Definition TypeDNAME : Z := 39.
Definition TypeOPT : Z := 41.
Definition TypeDS : Z := 43.
Definition TypeRRSIG : Z := 46.
Definition TypeNSEC : Z := 47.
Definition TypeNSEC3 : Z := 50.
Definition TypeNSEC3PARAM : Z := 51.
Definition TypeSVCB : Z := 64.
Definition TypeHTTPS : Z := 65.
Definition TypeIXFR : Z := 251.
Definition TypeAXFR : Z := 252.
Definition TypeCAA : Z := 257.

Definition ClassINET : Z := 1.

Definition OpcodeQuery : Z := 0.
Definition OpcodeNotify : Z := 4.
Definition OpcodeUpdate : Z := 5.

Definition RcodeSuccess : Z := 0.
Definition RcodeServerFailure : Z := 2.
Definition RcodeNameError : Z := 3.
Definition RcodeNotImplemented : Z := 4.
Definition RcodeRefused : Z := 5.

(** ** Resource records *)

Record RR_Header := mkHdr {
  Name : string;
  Rrtype : Z;
  Class_ : Z;
  Ttl : Z }.

(** The options of an OPT record, by the type the library gives them. *)
Definition EDNS0NSID : Z := 3.
Definition EDNS0SUBNET : Z := 8.
Definition EDNS0EDE : Z := 15.

Inductive EDNS0 : Type :=
| EDNS0_NSID (Nsid : string)
| EDNS0_SUBNET (Family SourceNetmask SourceScope : Z) (Address : list Z)
| EDNS0_EDE (InfoCode : Z)
| EDNS0_LOCAL (Code : Z) (Data : list Z)
| EDNS0_other (Code : Z) (wire : list Z).

(** [Option()] *)
Definition opt_code (o : EDNS0) : Z :=
  match o with
  | EDNS0_NSID _ => EDNS0NSID
  | EDNS0_SUBNET _ _ _ _ => EDNS0SUBNET
  | EDNS0_EDE _ => EDNS0EDE
  | EDNS0_LOCAL c _ | EDNS0_other c _ => c
  end.

(** The signature of a message. *)
Record TSIG := mkTSIG {
  t_Algorithm : string;
  t_TimeSigned : Z;
  t_Fudge : Z;
  t_MACSize : Z;
  t_MAC : string;
  t_OrigId : Z;
  t_Error : Z;
  t_OtherLen : Z;
  t_OtherData : string }.

Inductive rdata : Type :=
| RA (A : list Z)
| RAAAA (AAAA : list Z)
| RCNAME (Target : string)
| RNS (Ns : string)
| RSOA (Ns Mbox : string) (Serial Refresh Retry Expire Minttl : Z)
| RMX (Preference : Z) (Mx : string)
| RSRV (Priority Weight Port : Z) (Target : string)
| RTXT (Txt : list string)
| RCAA (Flag : Z) (Tag Value : string)
| RDNAME (Target : string)
| RRRSIG (TypeCovered Inception Expiration : Z)
| RSVCB (Target : string)
| RHTTPS (Target : string)
| RHINFO (Cpu Os : string)
| RPTR (Ptr : string)
| RNAPTR (Order Preference : Z) (Flags Service Regexp Replacement : string)
| ROPT (Option_ : list EDNS0)
| RTSIG (t : TSIG)
| RNSEC (NextDomain : string) (TypeBitMap : list Z)
| RDNSKEY (Flags Protocol Algorithm : Z) (PublicKey : string)
| ROther (wire : list Z).

Record RR := mkRR { Hdr : RR_Header; Data : rdata }.

Definition rr_name (r : RR) : string := Name (Hdr r).
Definition rr_type (r : RR) : Z := Rrtype (Hdr r).
Definition rr_ttl (r : RR) : Z := Ttl (Hdr r).

Definition set_name (n : string) (r : RR) : RR :=
  mkRR (mkHdr n (Rrtype (Hdr r)) (Class_ (Hdr r)) (Ttl (Hdr r))) (Data r).
Definition set_ttl (t : Z) (r : RR) : RR :=
  mkRR (mkHdr (Name (Hdr r)) (Rrtype (Hdr r)) (Class_ (Hdr r)) t) (Data r).

#[export] Instance RR_Header_eq_dec : EqDecision RR_Header.
Proof. solve_decision. Defined.
#[export] Instance EDNS0_eq_dec : EqDecision EDNS0.
Proof. solve_decision. Defined.
#[export] Instance TSIG_eq_dec : EqDecision TSIG.
Proof. solve_decision. Defined.
#[export] Instance rdata_eq_dec : EqDecision rdata.
Proof. solve_decision. Defined.
#[export] Instance RR_eq_dec : EqDecision RR.
Proof. solve_decision. Defined.

(** ** Messages *)

Record Question_ := mkQ { QName : string; Qtype : Z; Qclass : Z }.

Record Msg := mkMsg {
  Id : Z;
  Response : bool;
  Opcode : Z;
  Authoritative : bool;
  Truncated : bool;
  RecursionDesired : bool;
  RecursionAvailable : bool;
  AuthenticatedData : bool;
  CheckingDisabled : bool;
  Rcode : Z;
  Question : list Question_;
  Answer : list RR;
  Ns_ : list RR;
  Extra : list RR }.

(** ** The name functions of github.com/miekg/dns *)

Class DnsNames := {
  PrevLabel : string -> nat -> nat * bool;
  NextLabel : string -> nat -> nat * bool;
  IsSubDomain : string -> string -> bool
}.

(** What the package documents of them.  [PrevLabel s 1] is the index of
    the last label of [s] and its flag says that the start of the string
    was overshot, which on one label happens only for the empty string.
    [NextLabel s off] is the start of the label after [off]; its flag says
    that the end has been reached, and otherwise the index is inside [s]
    and beyond [off].  A name is a subdomain of itself. *)
Class DnsNamesSpec (N : DnsNames) : Prop := {
  PrevLabel_empty : PrevLabel EmptyString 1 = (0%nat, true);
  PrevLabel_some s : s <> EmptyString ->
    exists i, PrevLabel s 1 = (i, false) /\ (i < String.length s)%nat;
  NextLabel_some s off i : NextLabel s off = (i, false) ->
    (off < i < String.length s)%nat;
  IsSubDomain_refl s : IsSubDomain s s = true
}.

(** ** An instance for names without escapes *)

Module Plain.

(** The index after the last dot of [s], 0 when there is none. *)
Fixpoint last_dot (s : string) (pos best : nat) : nat :=
  match s with
  | EmptyString => best
  | String c s' =>
      last_dot s' (S pos) (if decide (c = "."%char) then S pos else best)
  end.

(** From the right, one label at a time. *)
Fixpoint prev_label (s : string) (n : nat) : nat * bool :=
  match n with
  | O => (String.length s, bool_decide (s = EmptyString))
  | S n' =>
      match fst (prev_label s n') with
      | O => (0%nat, true)
      | S j => (last_dot (take_str j s) 0 0, false)
      end
  end.

(** The index after the first dot at or after [off]. *)
Fixpoint first_dot (s : string) (pos : nat) : option nat :=
  match s with
  | EmptyString => None
  | String c s' => if decide (c = "."%char) then Some (S pos) else first_dot s' (S pos)
  end.

Definition next_label (s : string) (off : nat) : nat * bool :=
  match first_dot (drop_str off s) off with
  | Some i => if decide (i < String.length s)%nat then (i, false) else (String.length s, true)
  | None => (String.length s, true)
  end.

Definition is_sub_domain (parent child : string) : bool :=
  let p := ToLower parent in
  let c := ToLower child in
  bool_decide (p = c) || bool_decide (p = dot) || HasSuffix c (String.append dot p).

Definition names : DnsNames := {|
  PrevLabel := prev_label; NextLabel := next_label; IsSubDomain := is_sub_domain |}.

Lemma last_dot_bound s pos best :
  (best <= pos)%nat -> (last_dot s pos best <= pos + String.length s)%nat.
Proof.
  revert pos best. induction s as [|c s IH]; intros pos best H; simpl; [lia|].
  etransitivity; [apply IH|simpl; lia]. case_decide; lia.
Qed.

Lemma first_dot_bound s pos i : first_dot s pos = Some i -> (pos < i)%nat.
Proof.
  revert pos. induction s as [|c s IH]; intros pos; simpl; [done|].
  case_decide; [naive_solver lia|]. intros H'%IH. lia.
Qed.

#[export] Instance names_spec : DnsNamesSpec names.
Proof.
  split.
  - done.
  - intros s Hs. destruct s as [|c s]; [done|]. exists (last_dot (take_str (String.length s) (String c s)) 0 0). split; [done|].
    pose proof (last_dot_bound (take_str (String.length s) (String c s)) 0 0) as Hb.
    rewrite take_str_length in Hb by (simpl; lia). cbn [String.length]. lia.
  - intros s off i. unfold NextLabel, names, next_label.
    destruct (first_dot _ _) as [j|] eqn:E; [|done].
    apply first_dot_bound in E. case_decide; [|done]. intros. simplify_eq. lia.
  - intros s. unfold IsSubDomain, names, is_sub_domain. by rewrite bool_decide_true.
Qed.

End Plain.
