(* ===== verification/DnsLib.v ===== *)
(** * The message functions of github.com/miekg/dns

    The operations on messages and records the plugins call, as a type class;
    the package is not part of the repository.  [DnsLibSpec] states what the
    package documents of them; [PlainLib.lib] is a concrete instance. *)

From Stdlib Require Import Ascii ZArith Lia.
From stdpp Require Import base numbers gmap strings list.
From S2P Require Import Prelude DnsTypes.

Local Open Scope Z_scope.

Class DnsLib := {
  NameString : string -> string;          (* Name.String *)
  Fqdn : string -> string;
  CountLabel : string -> nat;
  SplitDomainName : string -> list string;
  RepackName : string -> option string;   (* UnpackDomainName of PackDomainName *)
  SetReply : Msg -> Msg;                  (* new(Msg).SetReply(request) *)
  IsEdns0 : Msg -> option RR;
  OptDo : RR -> bool;                     (* OPT.Do *)
  UDPSize : RR -> Z;                      (* OPT.UDPSize *)
  ValidityPeriod : RR -> Z -> bool        (* RRSIG.ValidityPeriod *)
}.

(** A reply has the id, opcode and first question of its request, is marked
    as a response, and has no records.  The OPT record of a message is one of
    its additional section. *)
Class DnsLibSpec (L : DnsLib) : Prop := {
  SetReply_law r :
    Id (SetReply r) = Id r /\ Response (SetReply r) = true /\ Opcode (SetReply r) = Opcode r /\
    Truncated (SetReply r) = false /\ Rcode (SetReply r) = RcodeSuccess /\
    Question (SetReply r) = take 1 (Question r) /\
    Answer (SetReply r) = [] /\ Ns_ (SetReply r) = [] /\ Extra (SetReply r) = [];
  IsEdns0_law m o : IsEdns0 m = Some o -> o ∈ Extra m /\ rr_type o = TypeOPT
}.

(** ** The request (request/request.go) *)

Section request.
Context {L : DnsLib}.

Definition Name_ (r : Msg) : string :=
  match Question r with
  | [] => dot
  | q :: _ => ToLower (NameString (QName q))
  end.

Definition QName_ (r : Msg) : string :=
  match Question r with [] => dot | q :: _ => NameString (QName q) end.

Definition QType_ (r : Msg) : Z :=
  match Question r with [] => 0 | q :: _ => Qtype q end.

(** The DNSSEC OK bit of the request's OPT record. *)
Definition Do (r : Msg) : bool :=
  match IsEdns0 r with Some o => OptDo o | None => false end.

(** [edns.Size], and [Request.Size] over it. *)
Definition edns_Size (proto : string) (size : Z) : Z :=
  if decide (proto = "tcp") then 65535
  else if decide (size < 512) then 512 else size.

Definition Size_ (proto : string) (r : Msg) : Z :=
  edns_Size proto (match IsEdns0 r with Some o => UDPSize o | None => 0 end).

(** plugin.Name.Normalize *)
Definition Normalize (n : string) : string := ToLower (Fqdn n).

(** Does the reply answer the question of the request? *)
Definition Match_ (r reply : Msg) : bool :=
  match Question reply with
  | [q] =>
      if negb (Response reply) then false
      else if negb (bool_decide (ToLower (QName q) = Name_ r)) then false
      else if negb (bool_decide (Qtype q = QType_ r)) then false
      else true
  | _ => false
  end.

Lemma Match_inv r reply :
  Match_ r reply = true -> exists q, Question reply = [q] /\ ToLower (QName q) = Name_ r /\ Qtype q = QType_ r.
Proof.
  unfold Match_. destruct (Question reply) as [|q [|]]; try done.
  destruct (Response reply); [|done]. do 2 (case_bool_decide; [|done]). naive_solver.
Qed.

End request.

(** ** A concrete instance *)

Module PlainLib.

Definition reply_to (r : Msg) : Msg :=
  let query := bool_decide (Opcode r = OpcodeQuery) in
  mkMsg (Id r) true (Opcode r) false false (query && RecursionDesired r) false false
    (query && CheckingDisabled r) RcodeSuccess (take 1 (Question r)) [] [] [].

(** RFC 6891: the DO bit is bit 15 of the TTL of the OPT record, its class
    the payload size.  RFC 4034: signature times are seconds. *)
Definition lib : DnsLib := {|
  NameString := fun s => s;
  Fqdn := fun s => if HasSuffix s dot then s else String.append s dot;
  CountLabel := fun s => if decide (s = dot) then 0%nat else length (filter (fun c => c = "."%char) (String.list_ascii_of_string s));
  SplitDomainName := fun s => if decide (s = dot) then [] else Split (TrimSuffix s dot) "."%char;
  RepackName := fun s => Some s;
  SetReply := reply_to;
  IsEdns0 := fun m => snd <$> list_find (fun r => rr_type r = TypeOPT) (Extra m);
  OptDo := fun o => Z.testbit (rr_ttl o) 15;
  UDPSize := fun o => Class_ (Hdr o);
  ValidityPeriod := fun r t =>
    match Data r with
    | RRRSIG _ inc exp => bool_decide (inc <= t ÷ 10 ^ 9 <= exp)
    | _ => false
    end |}.

#[export] Instance lib_spec : DnsLibSpec lib.
Proof.
  split.
  - intros r. by split_and!.
  - intros m o. simpl. intros ([i o'] & Hf & ->)%fmap_Some.
    apply list_find_Some in Hf as (Hl & Ht & _). split; [by eapply list_elem_of_lookup_2|done].
Qed.

End PlainLib.
