(* ===== verification/Less.v ===== *)
(** * Canonical name order (plugin/file/tree/less.go)

    [less] walks two names label by label from the right, lower-casing each
    label and rewriting its [\DDD] escapes in place ([doDDD]), and compares
    the label bytes.  [label_keys] is the reference: the list of normalised
    labels from the right; [less] is proved to terminate and to be the
    lexicographic comparison of those lists ([less_keys]), hence a total
    preorder on names, which is what the tree needs ([NameOrder]). *)

From Stdlib Require Import Ascii ZArith Lia.
From stdpp Require Import base gmap strings list numbers.
From S2P Require Import Prelude DnsTypes.

Local Open Scope Z_scope.

(** ** Escapes *)

Definition isDigit (b : Z) : bool := (48 <=? b) && (b <=? 57).

(** [dddToByte(b[i:])] on bytes: every operation wraps at 8 bits. *)
Definition dddToByte (b : list Z) (i : nat) : Z :=
  u8 (u8 (u8 (b !!! (i + 1)%nat - 48) * 100) + u8 (u8 (b !!! (i + 2)%nat - 48) * 10)
      + u8 (b !!! (i + 3)%nat - 48)).

(** [for j := i + 1; j < lb-3; j++ { b[j] = b[j+3] }], [k] iterations left. *)
Fixpoint shift3 (k j : nat) (b : list Z) : list Z :=
  match k with
  | O => b
  | S k' => shift3 k' (S j) (<[j := b !!! (j + 3)%nat]> b)
  end.

(** The guard of the loop body of [doDDD]. *)
Definition is_ddd (b : list Z) (i lb : nat) : bool :=
  bool_decide (i + 3 < lb)%nat && (b !!! i =? 92) && isDigit (b !!! (i + 1)%nat)
  && isDigit (b !!! (i + 2)%nat) && isDigit (b !!! (i + 3)%nat).

(** The loop of [doDDD]: the slice keeps its length, only [lb] shrinks. *)
Fixpoint doDDD_loop (fuel i lb : nat) (b : list Z) : list Z :=
  match fuel with
  | O => b
  | S fuel' =>
      if bool_decide (i < lb)%nat then
        if is_ddd b i lb then
          doDDD_loop fuel' (S i) (lb - 3)
            (shift3 (lb - 3 - (i + 1)) (i + 1) (<[i := dddToByte b i]> b))
        else doDDD_loop fuel' (S i) lb b
      else b
  end.

Definition doDDD (b : list Z) : list Z := doDDD_loop (length b) 0 (length b) b.

(** ** The comparison *)

(** [[]byte(strings.ToLower(a[ai:aj]))] after [doDDD]. *)
Definition norm_label (a : string) (ai aj : nat) : list Z :=
  doDDD (bytes (ToLower (drop_str ai (take_str aj a)))).

Section less.
Context {N : DnsNames}.

Fixpoint less_loop (fuel : nat) (a b : string) (aj bj : nat) : option Z :=
  match fuel with
  | O => None
  | S fuel' =>
      let '(ai, oka) := PrevLabel (take_str aj a) 1 in
      let '(bi, okb) := PrevLabel (take_str bj b) 1 in
      if oka && okb then Some 0
      else
        let ab := norm_label a ai aj in
        let bb := norm_label b bi bj in
        let res := Compare ab bb in
        if bool_decide (res = 0) then less_loop fuel' a b ai bi else Some res
  end.

(** Each turn of the loop shortens one of the two names, so the sum of their
    lengths bounds the number of turns ([less_terminates]). *)
Definition less (a b : string) : Z :=
  default 0 (less_loop (S (String.length a + String.length b)) a b
               (String.length a) (String.length b)).

(** ** Reference: the normalised labels of a name, from the right *)

Fixpoint label_keys_loop (fuel : nat) (a : string) (aj : nat) : list (list Z) :=
  match fuel with
  | O => []
  | S fuel' =>
      let '(ai, ok) := PrevLabel (take_str aj a) 1 in
      if ok then [] else norm_label a ai aj :: label_keys_loop fuel' a ai
  end.

Definition label_keys (a : string) : list (list Z) :=
  label_keys_loop (S (String.length a)) a (String.length a).

End less.

(** Lexicographic comparison of lists of labels; a proper prefix is less. *)
Fixpoint Compare_keys (a b : list (list Z)) : Z :=
  match a, b with
  | [], [] => 0
  | [], _ :: _ => -1
  | _ :: _, [] => 1
  | x :: a', y :: b' =>
      if bool_decide (Compare x y = 0) then Compare_keys a' b' else Compare x y
  end.

(** ** What a name order promises to the tree *)

Class NameOrder (cmp : string -> string -> Z) : Prop := {
  cmp_flip a b : cmp a b < 0 <-> 0 < cmp b a;
  cmp_le_trans a b c : cmp a b <= 0 -> cmp b c <= 0 -> cmp a c <= 0
}.

(** ** [Compare] and [Compare_keys] are total preorders *)

Lemma Compare_range a b : Compare a b = -1 \/ Compare a b = 0 \/ Compare a b = 1.
Proof. revert b. induction a as [|x a IH]; intros [|y b]; simpl; auto. repeat case_decide; auto. Qed.

Lemma Compare_opp a b : Compare b a = - Compare a b.
Proof.
  revert b. induction a as [|x a IH]; intros [|y b]; simpl; try done.
  repeat case_decide; try lia. apply IH.
Qed.

Lemma Compare_eq a b : Compare a b = 0 <-> a = b.
Proof.
  revert b. induction a as [|x a IH]; intros [|y b]; simpl; try done.
  repeat case_decide; try (split; [lia|intros [= -> ->]; lia]).
  rewrite IH. split; [intros ->; f_equal; lia|by intros [= _ ->]].
Qed.

Lemma Compare_le_trans a b c : Compare a b <= 0 -> Compare b c <= 0 -> Compare a c <= 0.
Proof.
  revert b c. induction a as [|x a IH]; intros [|y b] [|z c]; simpl; try lia.
  repeat case_decide; try lia. apply IH.
Qed.

Lemma Compare_keys_eq a b : Compare_keys a b = 0 <-> a = b.
Proof.
  revert b. induction a as [|x a IH]; intros [|y b]; simpl; try done.
  case_bool_decide as E.
  - apply Compare_eq in E as ->. rewrite IH. split; [by intros ->|by intros [= ->]].
  - split; [done|]. intros [= -> _]. by destruct E; apply Compare_eq.
Qed.

Lemma Compare_keys_opp a b : Compare_keys b a = - Compare_keys a b.
Proof.
  revert b. induction a as [|x a IH]; intros [|y b]; simpl; try done.
  rewrite (Compare_opp x y). repeat case_bool_decide; try lia. apply IH.
Qed.

Lemma Compare_keys_le_trans a b c :
  Compare_keys a b <= 0 -> Compare_keys b c <= 0 -> Compare_keys a c <= 0.
Proof.
  revert b c. induction a as [|x a IH]; intros [|y b] [|z c]; simpl; try lia.
  pose proof (Compare_le_trans x y z). pose proof (Compare_le_trans z x y).
  pose proof (Compare_le_trans y z x).
  pose proof (Compare_opp x y). pose proof (Compare_opp y z). pose proof (Compare_opp x z).
  repeat case_bool_decide; try lia. apply IH.
Qed.

(** ** [doDDD] keeps the length, and changes nothing without a backslash *)

Lemma shift3_length k j b : length (shift3 k j b) = length b.
Proof. revert j b. induction k; intros; simpl; [done|]. by rewrite IHk, length_insert. Qed.

Lemma doDDD_loop_length fuel i lb b : length (doDDD_loop fuel i lb b) = length b.
Proof.
  revert i lb b. induction fuel as [|fuel IH]; intros; simpl; [done|].
  case_bool_decide; [|done]. destruct (is_ddd _ _ _); rewrite IH; [|done].
  by rewrite shift3_length, length_insert.
Qed.

Lemma doDDD_length b : length (doDDD b) = length b.
Proof. apply doDDD_loop_length. Qed.

Lemma doDDD_loop_id fuel i lb b :
  (forall p, (i <= p < lb)%nat -> b !!! p <> 92) -> doDDD_loop fuel i lb b = b.
Proof.
  revert i. induction fuel as [|fuel IH]; intros i Hb; simpl; [done|].
  case_bool_decide as Hi; [|done].
  assert (is_ddd b i lb = false) as ->; [|apply IH; intros; apply Hb; lia].
  unfold is_ddd. rewrite (proj2 (Z.eqb_neq _ _)) by (apply Hb; lia). by rewrite andb_false_r.
Qed.

Lemma doDDD_id b : 92 ∉ b -> doDDD b = b.
Proof.
  intros Hb. apply doDDD_loop_id. intros p Hp Hq. apply Hb. rewrite <-Hq.
  apply list_elem_of_lookup_total_2. lia.
Qed.

(** ** Escapes leave their tail behind *)

Lemma shift3_lookup k j b p :
  (j + k + 3 <= length b)%nat ->
  shift3 k j b !! p = if decide (j <= p < j + k)%nat then b !! (p + 3)%nat else b !! p.
Proof.
  revert j b. induction k as [|k IH]; intros j b Hl; simpl.
  { case_decide; [lia|done]. }
  rewrite IH by (rewrite length_insert; lia).
  assert (is_Some (b !! (j + 3)%nat)) as [x Hx] by (apply lookup_lt_is_Some; lia).
  rewrite (list_lookup_total_correct _ _ _ Hx).
  repeat case_decide; try lia.
  - rewrite list_lookup_insert_ne by lia. done.
  - assert (p = j) as -> by lia. rewrite list_lookup_insert_eq by lia. done.
  - rewrite list_lookup_insert_ne by lia. done.
Qed.

Lemma shift3_escape x d1 d2 d3 rest :
  shift3 (length rest) 1 (x :: d1 :: d2 :: d3 :: rest)
  = x :: rest ++ drop (length rest) (d1 :: d2 :: d3 :: rest).
Proof.
  apply list_eq. intros p. rewrite shift3_lookup by (simpl; lia).
  destruct p as [|p]; [by rewrite decide_False by lia|]. case_decide.
  - replace (S p + 3)%nat with (4 + p)%nat by lia. simpl. by rewrite lookup_app_l by lia.
  - change ((d1 :: d2 :: d3 :: rest) !! p
            = (rest ++ drop (length rest) (d1 :: d2 :: d3 :: rest)) !! p).
    rewrite lookup_app_r by lia. rewrite lookup_drop. f_equal. lia.
Qed.

(** One escape at the start of a label: the byte it stands for, the rest of
    the label, and then the last three bytes of the escaped label again,
    because the slice is not shortened. *)
Lemma doDDD_one_escape d1 d2 d3 rest :
  isDigit d1 = true -> isDigit d2 = true -> isDigit d3 = true -> 92 ∉ rest ->
  doDDD (92 :: d1 :: d2 :: d3 :: rest) =
    dddToByte [92; d1; d2; d3] 0 :: rest ++ drop (length rest) (d1 :: d2 :: d3 :: rest).
Proof.
  intros H1 H2 H3 Hr. set (b := 92 :: d1 :: d2 :: d3 :: rest).
  change (doDDD b) with (doDDD_loop (S (3 + length rest)) 0 (4 + length rest) b).
  cbn [doDDD_loop]. rewrite bool_decide_true by lia.
  assert (is_ddd b 0 (4 + length rest) = true) as ->.
  { unfold is_ddd. rewrite bool_decide_true by lia.
    change (b !!! (0 + 1)%nat) with d1. change (b !!! (0 + 2)%nat) with d2.
    change (b !!! (0 + 3)%nat) with d3. by rewrite H1, H2, H3. }
  replace (4 + length rest - 3 - (0 + 1))%nat with (length rest) by lia.
  change (<[0%nat:=dddToByte b 0]> b) with (dddToByte b 0 :: d1 :: d2 :: d3 :: rest).
  rewrite shift3_escape. apply doDDD_loop_id. intros [|p] Hp Hq; [lia|].
  apply Hr. rewrite <-Hq.
  change ((rest ++ drop (length rest) (d1 :: d2 :: d3 :: rest)) !!! p ∈ rest).
  rewrite lookup_total_app_l by lia. apply list_elem_of_lookup_total_2. lia.
Qed.

Section less_facts.
Context {N : DnsNames} {NS : DnsNamesSpec N}.

Lemma PrevLabel_step a aj :
  (aj <= String.length a)%nat ->
  (aj = 0%nat /\ PrevLabel (take_str aj a) 1 = (0%nat, true)) \/
  (exists i, (i < aj)%nat /\ PrevLabel (take_str aj a) 1 = (i, false)).
Proof.
  intros Hj. destruct (decide (take_str aj a = EmptyString)) as [E|E].
  - left. assert (aj = 0%nat) as ->; [|by rewrite E, PrevLabel_empty].
    rewrite <-(take_str_length aj a Hj), E. done.
  - right. destruct (PrevLabel_some _ E) as (i & -> & Hi).
    rewrite take_str_length in Hi by done. eauto.
Qed.

Lemma norm_label_nonempty a ai aj :
  (ai < aj <= String.length a)%nat -> norm_label a ai aj <> [].
Proof.
  intros H E. apply (f_equal length) in E. unfold norm_label in E.
  rewrite doDDD_length, bytes_length, ToLower_length, drop_str_length, take_str_length in E by lia.
  simpl in E. lia.
Qed.

Lemma norm_label_0 a : norm_label a 0 0 = [].
Proof. by destruct a. Qed.

Lemma less_loop_keys fuel fa fb a b aj bj :
  (aj <= String.length a)%nat -> (bj <= String.length b)%nat ->
  (aj + bj < fuel)%nat -> (aj < fa)%nat -> (bj < fb)%nat ->
  less_loop fuel a b aj bj =
    Some (Compare_keys (label_keys_loop fa a aj) (label_keys_loop fb b bj)).
Proof.
  revert fa fb aj bj. induction fuel as [|fuel IH]; intros [|fa] [|fb] aj bj Ha Hb Hf Hfa Hfb;
    try lia. cbn [less_loop label_keys_loop].
  destruct (PrevLabel_step a aj Ha) as [[-> ->]|(i & Hi & ->)];
    destruct (PrevLabel_step b bj Hb) as [[-> ->]|(j & Hj & ->)]; simpl; rewrite ?norm_label_0.
  - done.
  - pose proof (norm_label_nonempty b j bj ltac:(lia)). by destruct (norm_label b j bj).
  - pose proof (norm_label_nonempty a i aj ltac:(lia)). by destruct (norm_label a i aj).
  - case_bool_decide; [|done]. apply IH; lia.
Qed.

Lemma less_loop_fuel a b :
  less_loop (S (String.length a + String.length b)) a b (String.length a) (String.length b)
  = Some (Compare_keys (label_keys a) (label_keys b)).
Proof. apply less_loop_keys; lia. Qed.

Lemma less_keys a b : less a b = Compare_keys (label_keys a) (label_keys b).
Proof. unfold less. by rewrite less_loop_fuel. Qed.

#[export] Instance less_order : NameOrder less.
Proof.
  split; intros *; rewrite !less_keys.
  - rewrite (Compare_keys_opp (label_keys a) (label_keys b)). lia.
  - apply Compare_keys_le_trans.
Qed.

Lemma label_keys_nil a : label_keys a = [] -> a = EmptyString.
Proof.
  unfold label_keys. cbn [label_keys_loop].
  destruct (PrevLabel_step a (String.length a)) as [[H _]|(i & _ & ->)]; [done| |done].
  intros _. by destruct a.
Qed.

Lemma less_empty a : less a EmptyString = 0 -> a = EmptyString.
Proof.
  rewrite less_keys. intros H. apply label_keys_nil.
  assert (label_keys EmptyString = []) as E.
  { unfold label_keys. simpl. by rewrite PrevLabel_empty. }
  rewrite E in H. by destruct (label_keys a).
Qed.

End less_facts.

(** ** Order reasoning through the interface *)

Section order.
Context (cmp : string -> string -> Z) {O : NameOrder cmp}.

Lemma cmp_refl a : cmp a a = 0.
Proof. pose proof (cmp_flip a a). lia. Qed.
Lemma cmp_sym a b : cmp a b = 0 -> cmp b a = 0.
Proof. pose proof (cmp_flip a b). pose proof (cmp_flip b a). lia. Qed.
Lemma cmp_lt_le_trans a b c : cmp a b < 0 -> cmp b c <= 0 -> cmp a c < 0.
Proof.
  intros H1 H2. pose proof (cmp_flip a b). pose proof (cmp_flip c a). pose proof (cmp_flip a c).
  pose proof (cmp_flip c b). pose proof (cmp_flip b c).
  pose proof (cmp_le_trans b c a). pose proof (cmp_le_trans a b c). lia.
Qed.
Lemma cmp_le_lt_trans a b c : cmp a b <= 0 -> cmp b c < 0 -> cmp a c < 0.
Proof.
  intros H1 H2. pose proof (cmp_flip a b). pose proof (cmp_flip c a). pose proof (cmp_flip a c).
  pose proof (cmp_flip c b). pose proof (cmp_flip b c).
  pose proof (cmp_le_trans c a b). pose proof (cmp_le_trans a b c). lia.
Qed.

Lemma cmp_eq_trans a b c : cmp a b = 0 -> cmp b c = 0 -> cmp a c = 0.
Proof.
  intros H1 H2. pose proof (cmp_sym _ _ H1). pose proof (cmp_sym _ _ H2).
  pose proof (cmp_le_trans a b c). pose proof (cmp_le_trans c b a).
  pose proof (cmp_flip c a). pose proof (cmp_flip a c). lia.
Qed.

End order.

(** ** The theorems *)

Section theorems.
Context {N : DnsNames} {NS : DnsNamesSpec N}.

(** The comparison loop ends within as many turns as the two names have
    bytes, plus one; its result is the lexicographic comparison of the
    normalised labels from the right; and it is a total preorder that equates
    names exactly when their normalised labels agree. *)
Theorem less_label_order a b :
  less_loop (S (String.length a + String.length b)) a b (String.length a) (String.length b)
    = Some (Compare_keys (label_keys a) (label_keys b)) /\
  less b a = - less a b /\
  (less a b = 0 <-> label_keys a = label_keys b) /\
  (forall c, less a b <= 0 -> less b c <= 0 -> less a c <= 0).
Proof.
  split; [apply less_loop_fuel|]. rewrite !less_keys. split; [apply Compare_keys_opp|].
  split; [apply Compare_keys_eq|]. intros c. rewrite !less_keys. apply Compare_keys_le_trans.
Qed.

End theorems.

Lemma less_label_order_witness :
  @less Plain.names "WWW.Example.org." "www.example.ORG." = 0 /\
  @less Plain.names "a.example.org." "z.example.com." = - @less Plain.names "z.example.com." "a.example.org.".
Proof.
  split.
  - destruct (@less_label_order Plain.names Plain.names_spec "WWW.Example.org." "www.example.ORG.")
      as (_ & _ & H & _). apply H. reflexivity.
  - destruct (@less_label_order Plain.names Plain.names_spec "z.example.com." "a.example.org.")
      as (_ & H & _). exact H.
Defined.

(** The order of RFC 4034, section 6.1 on one label: octets compared left to
    right, the absence of an octet before any octet. *)
Definition canonical_label (a b : string) : Z := Compare (bytes (ToLower a)) (bytes (ToLower b)).

(** [less] is not the canonical order of RFC 4034 its comment names, in
    two ways.  The label it compares keeps its closing dot, whose byte is
    above the hyphen's, so [a-b] sorts before [a]; and [doDDD] leaves the
    bytes an escape occupied behind, so an escaped letter is not equal to the
    letter. *)
Theorem less_departs_from_canonical :
  (forall x y, Compare (x ++ [46]) (x ++ 45 :: y) = 1) /\
  @less Plain.names "a-b.example.org." "a.example.org." = -1 /\ canonical_label "a-b" "a" = 1 /\
  (forall d1 d2 d3 rest,
     isDigit d1 && isDigit d2 && isDigit d3 = true -> 92 ∉ rest ->
     doDDD (92 :: d1 :: d2 :: d3 :: rest) <> dddToByte [92; d1; d2; d3] 0 :: rest) /\
  @less Plain.names "\097.example.org." "a.example.org." = 1.
Proof.
  split; [|split; [reflexivity|split; [reflexivity|split; [|reflexivity]]]].
  - intros x y. induction x as [|z x IH]; [done|]. simpl. by rewrite !decide_False by lia.
  - intros d1 d2 d3 rest [[H1 H2]%andb_prop H3]%andb_prop Hr. rewrite doDDD_one_escape by done.
    intros H. apply (f_equal length) in H. simpl in H. rewrite length_app, length_drop in H.
    simpl in H. lia.
Qed.
