(* ===== verification/Tree.v ===== *)
(** * The zone tree (plugin/file/tree): elements and the LLRB operations

    A zone keeps its records in a left-leaning red-black tree of [Elem]s,
    one per owner name, ordered by [less].  The pointer operations of
    tree.go become functions on [node]; dereferencing a nil pointer is the
    error [NilDeref], so that the absence of panics is a theorem and not a
    convention.  The tree is compiled with the constant [mode = bu23]; the
    branches for the other mode are dead code and have no counterpart.

    Files TreeInsert.v, TreeQuery.v and TreeDelete.v hold the theorems. *)

From Stdlib Require Import Ascii ZArith Lia.
From stdpp Require Import base gmap strings list numbers.
From S2P Require Import Prelude DnsTypes Less.

Local Open Scope Z_scope.

(** ** Elements: plugin/file/tree/elem.go *)

(** A nil map and an empty map answer every read alike, and [Insert] makes
    the map before it writes, so one value stands for both. *)
Record Elem := mkElem {
  m : gmap Z (list RR);
  name : string }.

Definition newElem (rr : RR) : Elem :=
  mkElem {[ rr_type rr := [rr] ]} (rr_name rr).

Definition Types {MO : MapOrder} (e : Elem) : list Z := (map_range (m e)).*1.

(** [e.m[qtype]]: a missing key gives the nil slice. *)
Definition Type_ (e : Elem) (qtype : Z) : list RR := default [] (m e !! qtype).

Definition TypeForWildcard (e : Elem) (qtype : Z) (qname : string) : list RR :=
  set_name qname <$> Type_ e qtype.

Definition All_ {MO : MapOrder} (e : Elem) : list RR := concat (map_range (m e)).*2.

Definition ElemName {MO : MapOrder} (e : Elem) : string :=
  if decide (name e = EmptyString) then
    match map_range (m e) with
    | (_, rr :: _) :: _ => rr_name rr
    | _ => EmptyString
    end
  else name e.

Definition Empty (e : Elem) : bool := bool_decide (m e = ∅).

Definition ElemInsert (e : Elem) (rr : RR) : Elem :=
  let t := rr_type rr in
  match m e !! t with
  | None => mkElem (<[t := [rr]]> (m e)) (name e)
  | Some rrs => mkElem (<[t := rrs ++ [rr]]> (m e)) (name e)
  end.

Definition ElemDelete (e : Elem) (rr : RR) : Elem :=
  mkElem (delete (rr_type rr) (m e)) (name e).

Section tree.
Context {N : DnsNames} {MO : MapOrder}.

Definition Less (a : Elem) (nm : string) : Z := less nm (ElemName a).

(** ** Nodes: plugin/file/tree/tree.go *)

Inductive Color : Type := red | black.

Inductive node : Type :=
| Nil
| Node (Color_ : Color) (Left : node) (Elem_ : Elem) (Right : node).

Record Tree := mkTree { Root : node; Count : Z }.

Definition color (n : node) : Color :=
  match n with Nil => black | Node c _ _ _ => c end.

Definition is_red (n : node) : bool :=
  match color n with red => true | black => false end.

Definition flip_color (c : Color) : Color := match c with red => black | black => red end.

(** Field reads and writes through a pointer. *)
Definition getLeft (n : node) : result go_fault node :=
  match n with Nil => Err NilDeref | Node _ l _ _ => Ok l end.
Definition getRight (n : node) : result go_fault node :=
  match n with Nil => Err NilDeref | Node _ _ _ r => Ok r end.
Definition getElem (n : node) : result go_fault Elem :=
  match n with Nil => Err NilDeref | Node _ _ e _ => Ok e end.
Definition setLeft (n l' : node) : result go_fault node :=
  match n with Nil => Err NilDeref | Node c _ e r => Ok (Node c l' e r) end.
Definition setRight (n r' : node) : result go_fault node :=
  match n with Nil => Err NilDeref | Node c l e _ => Ok (Node c l e r') end.
Definition setElem (n : node) (e' : Elem) : result go_fault node :=
  match n with Nil => Err NilDeref | Node c l _ r => Ok (Node c l e' r) end.
Definition setColor (n : node) (c' : Color) : result go_fault node :=
  match n with Nil => Err NilDeref | Node _ l e r => Ok (Node c' l e r) end.
Definition flip (n : node) : result go_fault node :=
  match n with Nil => Err NilDeref | Node c l e r => Ok (Node (flip_color c) l e r) end.

Definition rotateLeft (n : node) : result go_fault node :=
  root ← getRight n;
  rl ← getLeft root;
  n1 ← setRight n rl;
  n2 ← setColor n1 red;
  root1 ← setLeft root n2;
  setColor root1 (color n).

Definition rotateRight (n : node) : result go_fault node :=
  root ← getLeft n;
  lr ← getRight root;
  n1 ← setLeft n lr;
  n2 ← setColor n1 red;
  root1 ← setRight root n2;
  setColor root1 (color n).

Definition flipColors (n : node) : result go_fault node :=
  n ← flip n;
  l ← getLeft n;
  l' ← flip l;
  n ← setLeft n l';
  r ← getRight n;
  r' ← flip r;
  setRight n r'.

(** [n.Left.color() == red && n.Left.Left.color() == red] *)
Definition leftLeftRed (n : node) : result go_fault bool :=
  l ← getLeft n;
  if is_red l then ll ← getLeft l; Ok (is_red ll) else Ok false.

(** [n.Left.color() == red && n.Right.color() == red] *)
Definition bothRed (n : node) : result go_fault bool :=
  l ← getLeft n;
  r ← getRight n;
  Ok (is_red l && is_red r).

Definition fixUp (n : node) : result go_fault node :=
  r ← getRight n;
  n ← (if is_red r then rotateLeft n else Ok n);
  ll ← leftLeftRed n;
  n ← (if ll : bool then rotateRight n else Ok n);
  b ← bothRed n;
  if b : bool then flipColors n else Ok n.

Definition moveRedLeft (n : node) : result go_fault node :=
  n ← flipColors n;
  r ← getRight n;
  rl ← getLeft r;
  if is_red rl then
    r' ← rotateRight r;
    n ← setRight n r';
    n ← rotateLeft n;
    flipColors n
  else Ok n.

Definition moveRedRight (n : node) : result go_fault node :=
  n ← flipColors n;
  l ← getLeft n;
  ll ← getLeft l;
  if is_red ll then
    n ← rotateRight n;
    flipColors n
  else Ok n.

Definition Len (t : Tree) : Z := Count t.

(** *** Search *)

Fixpoint search (n : node) (qname : string) : node * bool :=
  match n with
  | Nil => (Nil, false)
  | Node _ l e r =>
      let c := Less e qname in
      if decide (c = 0) then (n, true)
      else if decide (c < 0) then search l qname
      else search r qname
  end.

Definition Search (t : Tree) (qname : string) : option Elem * bool :=
  match Root t with
  | Nil => (None, false)
  | Node _ _ _ _ =>
      match search (Root t) qname with
      | (Nil, res) => (None, res)
      | (Node _ _ e _, res) => (Some e, res)
      end
  end.

(** *** Insertion *)

(** The rebalancing at the end of [insert]. *)
Definition insert_fix (n : node) : result go_fault node :=
  r ← getRight n;
  l ← getLeft n;
  n ← (if is_red r && negb (is_red l) then rotateLeft n else Ok n);
  ll ← leftLeftRed n;
  n ← (if ll : bool then rotateRight n else Ok n);
  b ← bothRed n;
  if b : bool then flipColors n else Ok n.

(** The node argument may be nil; a non-nil node carries an element. *)
Fixpoint insert (n : node) (rr : RR) : result go_fault (node * Z) :=
  match n with
  | Nil => Ok (Node red Nil (newElem rr) Nil, 1)
  | Node c0 l e r =>
      let c := Less e (rr_name rr) in
      '(n1, d) ← (if decide (c = 0) then Ok (Node c0 l (ElemInsert e rr) r, 0)
                  else if decide (c < 0) then
                    '(l', d) ← insert l rr; Ok (Node c0 l' e r, d)
                  else
                    '(r', d) ← insert r rr; Ok (Node c0 l e r', d));
      root ← insert_fix n1;
      Ok (root, d)
  end.

Definition Insert (t : Tree) (rr : RR) : result go_fault Tree :=
  '(root, d) ← insert (Root t) rr;
  root ← setColor root black;
  Ok (mkTree root (Count t + d)).

(** *** Minimum and maximum *)

Fixpoint min_node (n : node) : result go_fault node :=
  match n with
  | Nil => Err NilDeref
  | Node _ Nil _ _ => Ok n
  | Node _ l _ _ => min_node l
  end.

Definition Min (t : Tree) : result go_fault (option Elem) :=
  match Root t with
  | Nil => Ok None
  | Node _ _ _ _ => n ← min_node (Root t); e ← getElem n; Ok (Some e)
  end.

Fixpoint max_node (n : node) : result go_fault node :=
  match n with
  | Nil => Err NilDeref
  | Node _ _ _ Nil => Ok n
  | Node _ _ _ r => max_node r
  end.

Definition Max (t : Tree) : result go_fault (option Elem) :=
  match Root t with
  | Nil => Ok None
  | Node _ _ _ _ => n ← max_node (Root t); e ← getElem n; Ok (Some e)
  end.

(** *** Deletion

    The recursive calls go to a child of the rebalanced node, which is not
    a subterm of the argument but has fewer nodes: the number of nodes of
    the tree is enough fuel. *)

Fixpoint size (n : node) : nat :=
  match n with Nil => 0 | Node _ l _ r => S (size l + size r) end.

(** [n.Left.color() == black && n.Left.Left.color() == black] *)
Definition leftIsBlack2 (n : node) : result go_fault bool :=
  l ← getLeft n;
  if is_red l then Ok false else ll ← getLeft l; Ok (negb (is_red ll)).

(** [n.Right.color() == black && n.Right.Left.color() == black] *)
Definition rightIsBlack2 (n : node) : result go_fault bool :=
  r ← getRight n;
  if is_red r then Ok false else rl ← getLeft r; Ok (negb (is_red rl)).

(** [if n.Left.color() == black && n.Left.Left.color() == black {
      n = n.moveRedLeft() }; n.Left, d = rec(n.Left)], the same in
    [deleteMin] and [delete]. *)
Definition descendLeft (rec : node -> result go_fault (node * Z)) (n : node)
  : result go_fault (node * Z) :=
  b ← leftIsBlack2 n;
  n ← (if b : bool then moveRedLeft n else Ok n);
  l ← getLeft n;
  '(l', d) ← rec l;
  n ← setLeft n l';
  Ok (n, d).

(** The mirror image on the right, in [deleteMax] and [delete]; [step] is
    what follows the rotation. *)
Definition descendRight (step : node -> result go_fault (node * Z)) (n : node)
  : result go_fault (node * Z) :=
  b ← rightIsBlack2 n;
  n ← (if b : bool then moveRedRight n else Ok n);
  step n.

(** [n.Right, d = rec(n.Right)] *)
Definition inRight (rec : node -> result go_fault (node * Z)) (n : node)
  : result go_fault (node * Z) :=
  r ← getRight n;
  '(r', d) ← rec r;
  n ← setRight n r';
  Ok (n, d).

(** [root = n.fixUp(); return] *)
Definition fixUpRes (res : node * Z) : result go_fault (node * Z) :=
  root ← fixUp (fst res);
  Ok (root, snd res).

Fixpoint deleteMin (fuel : nat) (n : node) : result go_fault (node * Z) :=
  match fuel with
  | O => Err OutOfFuel
  | S fuel =>
      l ← getLeft n;
      match l with
      | Nil => Ok (Nil, -1)
      | Node _ _ _ _ => res ← descendLeft (deleteMin fuel) n; fixUpRes res
      end
  end.

(** The common tail of [DeleteMin], [DeleteMax] and [deleteNode]. *)
Definition finish (t : Tree) (res : node * Z) : result go_fault Tree :=
  match fst res with
  | Nil => Ok (mkTree Nil (Count t + snd res))
  | Node _ _ _ _ => root ← setColor (fst res) black; Ok (mkTree root (Count t + snd res))
  end.

Definition DeleteMin (t : Tree) : result go_fault Tree :=
  match Root t with
  | Nil => Ok t
  | Node _ _ _ _ => res ← deleteMin (S (size (Root t))) (Root t); finish t res
  end.

Fixpoint deleteMax (fuel : nat) (n : node) : result go_fault (node * Z) :=
  match fuel with
  | O => Err OutOfFuel
  | S fuel =>
      l ← getLeft n;
      n ← (if is_red l then rotateRight n else Ok n);
      r ← getRight n;
      match r with
      | Nil => Ok (Nil, -1)
      | Node _ _ _ _ => res ← descendRight (inRight (deleteMax fuel)) n; fixUpRes res
      end
  end.

Definition DeleteMax (t : Tree) : result go_fault Tree :=
  match Root t with
  | Nil => Ok t
  | Node _ _ _ _ => res ← deleteMax (S (size (Root t))) (Root t); finish t res
  end.

(** [if Less(n.Elem, name) == 0 { n.Elem = n.Right.min().Elem;
      n.Right, d = n.Right.deleteMin() } else { n.Right, d = n.Right.delete(rr) }] *)
Definition removeRight (dmin del : node -> result go_fault (node * Z)) (nm : string) (n : node)
  : result go_fault (node * Z) :=
  e ← getElem n;
  if decide (Less e nm = 0) then
    r ← getRight n;
    mn ← min_node r;
    me ← getElem mn;
    n ← setElem n me;
    inRight dmin n
  else inRight del n.

(** [delete], for the owner name of the record to remove. *)
Fixpoint delete_ (fuel : nat) (n : node) (nm : string) : result go_fault (node * Z) :=
  match fuel with
  | O => Err OutOfFuel
  | S fuel =>
      e ← getElem n;
      l ← getLeft n;
      if decide (Less e nm < 0) then
        res ← (match l with
               | Nil => Ok (n, 0)
               | Node _ _ _ _ => descendLeft (fun l => delete_ fuel l nm) n
               end);
        fixUpRes res
      else
        n ← (if is_red l then rotateRight n else Ok n);
        e ← getElem n;
        r ← getRight n;
        match r with
        | Nil =>
            if decide (Less e nm = 0) then Ok (Nil, -1) else fixUpRes (n, 0)
        | Node _ _ _ _ =>
            res ← descendRight (removeRight (deleteMin fuel) (fun r => delete_ fuel r nm) nm) n;
            fixUpRes res
        end
  end.

Definition deleteNode (t : Tree) (rr : RR) : result go_fault Tree :=
  match Root t with
  | Nil => Ok t
  | Node _ _ _ _ => res ← delete_ (S (size (Root t))) (Root t) (rr_name rr); finish t res
  end.

(** [el.Delete(rr)] through the pointer [Search] returned: the element of
    the node the search stops at is changed in place. *)
Fixpoint update_found (n : node) (qname : string) (f : Elem -> Elem) : node :=
  match n with
  | Nil => Nil
  | Node c0 l e r =>
      let c := Less e qname in
      if decide (c = 0) then Node c0 l (f e) r
      else if decide (c < 0) then Node c0 (update_found l qname f) e r
      else Node c0 l e (update_found r qname f)
  end.

Definition Delete (t : Tree) (rr : RR) : result go_fault Tree :=
  match Root t with
  | Nil => Ok t
  | Node _ _ _ _ =>
      match Search t (rr_name rr) with
      | (None, _) => Ok t
      | (Some el, _) =>
          let el' := ElemDelete el rr in
          let t' := mkTree (update_found (Root t) (rr_name rr) (fun e => ElemDelete e rr)) (Count t) in
          if Empty el' then deleteNode t' rr else Ok t'
      end
  end.

(** *** Neighbours *)

Fixpoint floor (n : node) (qname : string) : node :=
  match n with
  | Nil => Nil
  | Node _ l e r =>
      let c := Less e qname in
      if decide (c = 0) then n
      else if decide (c <= 0) then floor l qname
      else match floor r qname with
           | Nil => n
           | r' => r'
           end
  end.

Definition node_elem (n : node) : option Elem * bool :=
  match n with Nil => (None, false) | Node _ _ e _ => (Some e, true) end.

Definition Prev (t : Tree) (qname : string) : option Elem * bool :=
  match Root t with Nil => (None, false) | _ => node_elem (floor (Root t) qname) end.

Fixpoint ceil (n : node) (qname : string) : node :=
  match n with
  | Nil => Nil
  | Node _ l e r =>
      let c := Less e qname in
      if decide (c = 0) then n
      else if decide (0 < c) then ceil r qname
      else match ceil l qname with
           | Nil => n
           | l' => l'
           end
  end.

Definition Next (t : Tree) (qname : string) : option Elem * bool :=
  match Root t with Nil => (None, false) | _ => node_elem (ceil (Root t) qname) end.

(** *** Traversals: all.go, walk.go *)

Fixpoint all_ (n : node) (found : list Elem) : list Elem :=
  match n with
  | Nil => found
  | Node _ l e r => all_ r (all_ l found ++ [e])
  end.

Definition All (t : Tree) : list Elem := all_ (Root t) [].

(** [fn] may fail, which stops the walk; its effects are threaded. *)
Fixpoint walk {St Er : Type} (fn : St -> Elem -> result (St * Er) St) (n : node) (s : St)
  : result (St * Er) St :=
  match n with
  | Nil => Ok s
  | Node _ l e r => s ← walk fn l s; s ← fn s e; walk fn r s
  end.

Definition Walk {St Er : Type} (fn : St -> Elem -> result (St * Er) St) (t : Tree) (s : St)
  : result (St * Er) St := walk fn (Root t) s.

End tree.
