(* ===== verification/TreeInsert.v ===== *)
(** * The zone tree: invariants, insertion, search

    [llrb c h n]: [n] is a left-leaning red-black tree of black height [h]
    whose root has colour [c].  [elems n] lists the elements in order;
    [sorted] says that the names increase strictly.  Insertion never panics,
    keeps both, and implements insertion into the sorted list ([ins]);
    search implements lookup in it ([find_name]). *)

From Stdlib Require Import Ascii ZArith Lia Sorting.Sorted.
From stdpp Require Import base gmap strings list numbers sorting.
From S2P Require Import Prelude DnsTypes Less Tree.

Local Open Scope Z_scope.

(** ** Shape *)

Inductive llrb : Color -> nat -> node -> Prop :=
| llrb_nil : llrb black 0 Nil
| llrb_red h l e r : llrb black h l -> llrb black h r -> llrb red h (Node red l e r)
| llrb_black h c l e r : llrb c h l -> llrb black h r -> llrb black (S h) (Node black l e r).

Create HintDb tree.
#[export] Hint Constructors llrb : tree.

(** What insertion may return below a red node: a red node with a red left
    child, repaired by the caller. *)
Inductive llrb_ins : Color -> nat -> node -> Prop :=
| ins_same c h n : llrb c h n -> llrb_ins c h n
| ins_red_up h n : llrb red h n -> llrb_ins black h n
| ins_red_red h l e r : llrb red h l -> llrb black h r -> llrb_ins red h (Node red l e r).
#[export] Hint Constructors llrb_ins : tree.

Fixpoint elems (n : node) : list Elem :=
  match n with Nil => [] | Node _ l e r => elems l ++ e :: elems r end.

Lemma llrb_color c h n : llrb c h n -> color n = c.
Proof. by destruct 1. Qed.

(** Case analysis on the shape of every subtree whose colour the code tests. *)
Ltac inv_llrb :=
  repeat match goal with
  | H : llrb red _ ?n |- _ => inversion H; subst; clear H
  | H : llrb _ _ (Node _ _ _ _) |- _ => inversion H; subst; clear H
  | H : llrb _ _ Nil |- _ => inversion H; subst; clear H
  end.

(** ** The rotations keep the elements *)

Lemma rotateLeft_elems n n' : rotateLeft n = Ok n' -> elems n' = elems n.
Proof. destruct n as [|c l e [|c' rl re rr]]; simpl; try done. intros [= <-]. simpl. by rewrite <-app_assoc. Qed.

Lemma rotateRight_elems n n' : rotateRight n = Ok n' -> elems n' = elems n.
Proof. destruct n as [|c [|c' ll le lr] e r]; simpl; try done. intros [= <-]. simpl. by rewrite <-app_assoc. Qed.

Lemma flipColors_elems n n' : flipColors n = Ok n' -> elems n' = elems n.
Proof. destruct n as [|c [|c1 ll le lr] e [|c2 rl re rr]]; simpl; try done. by intros [= <-]. Qed.

Lemma is_red_black h n : llrb black h n -> is_red n = false.
Proof. intros H%llrb_color. unfold is_red. by rewrite H. Qed.

(** Runs the pointer code on trees whose colours are known. *)
Ltac tree_step :=
  unfold insert_fix, fixUp, moveRedLeft, moveRedRight, leftLeftRed, bothRed, leftIsBlack2,
    rightIsBlack2, rotateLeft, rotateRight, flipColors;
  simpl;
  repeat (match goal with
          | H : llrb black _ ?n |- context [is_red ?n] => rewrite (is_red_black _ _ H)
          end; simpl).

(** Where the code goes next depends on [is_red] of some subtree. *)
Ltac inv_red :=
  repeat match goal with H : llrb red _ _ |- _ => inversion H; subst; clear H end.

Section facts.
Context {N : DnsNames} {MO : MapOrder}.

(** ** Insertion keeps the shape *)

Lemma insert_fix_black_l c h l e r :
  llrb_ins c h l -> llrb black h r ->
  exists n', insert_fix (Node black l e r) = Ok n' /\ llrb_ins black (S h) n'.
Proof.
  intros Hl Hr. inversion Hl as [c' ? ? H|? ? H|? ? ? ? H1 H2]; subst;
    [destruct c| |]; inv_red; tree_step; eauto 10 with tree.
Qed.

Lemma insert_fix_black_r c h l e r :
  llrb c h l -> llrb_ins black h r ->
  exists n', insert_fix (Node black l e r) = Ok n' /\ llrb_ins black (S h) n'.
Proof.
  intros Hl Hr. inversion Hr as [c' ? ? H|? ? H|]; subst;
    destruct c; inv_red; tree_step; eauto 10 with tree.
Qed.

Lemma insert_fix_red h l e r :
  llrb_ins black h l -> llrb black h r ->
  exists n', insert_fix (Node red l e r) = Ok n' /\ llrb_ins red h n'.
Proof.
  intros Hl Hr. inversion Hl as [c' ? ? H|? ? H|]; subst; inv_red; tree_step; eauto 10 with tree.
Qed.

Lemma insert_fix_red_r h l e r :
  llrb black h l -> llrb_ins black h r ->
  exists n', insert_fix (Node red l e r) = Ok n' /\ llrb_ins red h n'.
Proof.
  intros Hl Hr. inversion Hr as [c' ? ? H|? ? H|]; subst; inv_red; tree_step; eauto 10 with tree.
Qed.

(** Runs [insert] through the rebalancing lemma [L]. *)
Ltac use_fix L :=
  let n' := fresh "n'" in let E := fresh "E" in
  destruct L as (n' & E & ?); [eauto with tree..|]; simpl; rewrite E; simpl; eauto.

Lemma insert_shape rr c h n :
  llrb c h n -> exists n' d, insert n rr = Ok (n', d) /\ llrb_ins c h n'.
Proof.
  induction 1 as [|h l e r Hl (l' & dl & El & IHl) Hr (r' & dr & Er & IHr)
                  |h c l e r Hl (l' & dl & El & IHl) Hr (r' & dr & Er & IHr)]; cbn [insert];
    [by eauto 10 with tree| |];
    (destruct (decide (Less e (rr_name rr) = 0));
     [|destruct (decide (Less e (rr_name rr) < 0)); [rewrite El|rewrite Er]]).
  - use_fix (insert_fix_red h l (ElemInsert e rr) r).
  - use_fix (insert_fix_red h l' e r).
  - use_fix (insert_fix_red_r h l e r').
  - use_fix (insert_fix_black_r c h l (ElemInsert e rr) r).
  - use_fix (insert_fix_black_l c h l' e r).
  - use_fix (insert_fix_black_r c h l e r').
Qed.

Lemma insert_fix_elems n n' : insert_fix n = Ok n' -> elems n' = elems n.
Proof.
  unfold insert_fix. intros H.
  apply bind_ok_inv in H as (r & _ & H). apply bind_ok_inv in H as (l & _ & H).
  apply bind_ok_inv in H as (n1 & H1 & H). apply bind_ok_inv in H as (b1 & _ & H).
  apply bind_ok_inv in H as (n2 & H2 & H). apply bind_ok_inv in H as (b2 & _ & H).
  assert (elems n1 = elems n) as <-.
  { destruct (_ && _); [by apply rotateLeft_elems|by simplify_eq]. }
  assert (elems n2 = elems n1) as <-.
  { destruct b1; [by apply rotateRight_elems|by simplify_eq]. }
  destruct b2; [by apply flipColors_elems|by simplify_eq].
Qed.

(** ** The order of the elements *)

Definition name_lt (a b : Elem) : Prop := less (ElemName a) (ElemName b) < 0.
Definition sorted (l : list Elem) : Prop := StronglySorted name_lt l.

(** The records of an element without a cached name have no name either, so
    that [Name] is the cached name. *)
Definition elem_ok (e : Elem) : Prop :=
  name e = EmptyString ->
  forall t rrs rr, m e !! t = Some rrs -> rr ∈ rrs -> rr_name rr = EmptyString.

Lemma ElemName_ok e : elem_ok e -> ElemName e = name e.
Proof.
  intros H. unfold ElemName. case_decide as E; [|done]. rewrite E.
  destruct (map_range (m e)) as [|[t [|rr rrs]] l] eqn:R; try done.
  apply (H E t (rr :: rrs)); [|by left].
  apply elem_of_map_range. rewrite R. by left.
Qed.

Lemma newElem_ok rr : elem_ok (newElem rr).
Proof.
  unfold elem_ok, newElem. simpl. intros E t rrs rr' H. apply lookup_singleton_Some in H as [_ <-].
  by intros ->%list_elem_of_singleton.
Qed.

(** *** The reference: a sorted list of elements *)

Fixpoint find_name (l : list Elem) (q : string) : option Elem :=
  match l with
  | [] => None
  | e :: l' => if decide (Less e q = 0) then Some e else find_name l' q
  end.

Fixpoint ins (l : list Elem) (rr : RR) : list Elem :=
  match l with
  | [] => [newElem rr]
  | e :: l' =>
      let c := Less e (rr_name rr) in
      if decide (c = 0) then ElemInsert e rr :: l'
      else if decide (c < 0) then newElem rr :: l
      else e :: ins l' rr
  end.

Lemma find_name_app l1 l2 q :
  find_name (l1 ++ l2) q = match find_name l1 q with Some e => Some e | None => find_name l2 q end.
Proof. induction l1; simpl; [done|]. by case_decide. Qed.

Lemma find_name_none l q : Forall (fun x => Less x q <> 0) l -> find_name l q = None.
Proof. induction 1; simpl; [done|]. by rewrite decide_False. Qed.

Lemma find_name_Some l q e : find_name l q = Some e -> e ∈ l /\ Less e q = 0.
Proof.
  induction l as [|x l IH]; simpl; [done|]. case_decide; [intros [= <-]; split; [by left|done]|].
  intros [? ?]%IH. split; [by right|done].
Qed.

Lemma ins_app_lt l e r rr :
  Less e (rr_name rr) < 0 -> ins (l ++ e :: r) rr = ins l rr ++ e :: r.
Proof.
  intros H. induction l as [|x l IH]; simpl.
  - rewrite decide_False by lia. by rewrite decide_True.
  - repeat case_decide; simpl; [done..|]. by rewrite IH.
Qed.

Lemma ins_app_ge l r rr :
  Forall (fun x => 0 < Less x (rr_name rr)) l -> ins (l ++ r) rr = l ++ ins r rr.
Proof. induction 1; simpl; [done|]. rewrite !decide_False by lia. by f_equal. Qed.

Context {O : NameOrder less}.

(** Splitting a sorted list at an element splits every name comparison. *)
Lemma sorted_split l e r :
  sorted (l ++ e :: r) <->
  sorted l /\ sorted r /\ Forall (fun x => name_lt x e) l /\ Forall (name_lt e) r /\
  (forall x y, x ∈ l -> y ∈ r -> name_lt x y).
Proof.
  unfold sorted. rewrite StronglySorted_app, StronglySorted_cons. setoid_rewrite elem_of_cons.
  rewrite !Forall_forall. naive_solver.
Qed.

Lemma name_lt_trans a b c : name_lt a b -> name_lt b c -> name_lt a c.
Proof. unfold name_lt. intros. eapply (cmp_lt_le_trans less); [done|]. lia. Qed.

Lemma left_of l e r q :
  sorted (l ++ e :: r) -> 0 <= Less e q -> Forall (fun x => 0 < Less x q) l.
Proof.
  intros (_ & _ & Hl & _)%sorted_split Hq. eapply Forall_impl; [exact Hl|].
  intros x Hx. unfold Less, name_lt in *. apply (cmp_flip (cmp := less)).
  eapply (cmp_lt_le_trans less); [done|].
  pose proof (cmp_flip (cmp := less) q (ElemName e)).
  pose proof (cmp_flip (cmp := less) (ElemName e) q). lia.
Qed.

Lemma right_of l e r q :
  sorted (l ++ e :: r) -> Less e q <= 0 -> Forall (fun x => Less x q < 0) r.
Proof.
  intros (_ & _ & _ & Hr & _)%sorted_split Hq. eapply Forall_impl; [exact Hr|].
  intros x Hx. unfold Less, name_lt in *. by eapply (cmp_le_lt_trans less).
Qed.

Lemma find_name_left l e r q : sorted (l ++ e :: r) -> 0 <= Less e q -> find_name l q = None.
Proof.
  intros Hs Hq. apply find_name_none. eapply Forall_impl; [by eapply left_of|]. simpl. lia.
Qed.

Lemma find_name_right l e r q : sorted (l ++ e :: r) -> Less e q <= 0 -> find_name r q = None.
Proof.
  intros Hs Hq. apply find_name_none. eapply Forall_impl; [by eapply right_of|]. simpl. lia.
Qed.

Lemma sorted_app_l l r : sorted (l ++ r) -> sorted l.
Proof. apply StronglySorted_app_1_l. Qed.
Lemma sorted_app_r l e r : sorted (l ++ e :: r) -> sorted r.
Proof. intros H%sorted_split. tauto. Qed.

(** *** Insertion and search implement the reference *)

Lemma insert_elems n rr n' d :
  sorted (elems n) -> insert n rr = Ok (n', d) ->
  elems n' = ins (elems n) rr /\
  d = match find_name (elems n) (rr_name rr) with Some _ => 0 | None => 1 end.
Proof.
  revert n' d. induction n as [|c0 l IHl e r IHr]; intros n' d Hs; cbn [insert elems] in *.
  { by intros [= <- <-]. }
  intros H. apply bind_ok_inv in H as ([n1 d1] & H1 & H).
  apply bind_ok_inv in H as (root & H2 & [= <- <-]).
  rewrite (insert_fix_elems _ _ H2). clear H2.
  pose proof (left_of _ _ _ (rr_name rr) Hs) as HL.
  rewrite find_name_app. cbn [find_name]. repeat case_decide.
  - simplify_eq. simpl. rewrite ins_app_ge by (apply HL; lia). simpl.
    rewrite decide_True, (find_name_left _ _ _ _ Hs) by lia. done.
  - apply bind_ok_inv in H1 as ([l' dl] & H1 & [= <- <-]).
    destruct (IHl _ _ (sorted_app_l _ _ Hs) H1) as [E ->]. simpl. rewrite E, ins_app_lt by done.
    split; [done|]. destruct (find_name (elems l) _); [done|].
    by rewrite (find_name_right _ _ _ _ Hs) by lia.
  - apply bind_ok_inv in H1 as ([r' dr] & H1 & [= <- <-]).
    destruct (IHr _ _ (sorted_app_r _ _ _ Hs) H1) as [E ->]. simpl.
    rewrite ins_app_ge, E by (apply HL; lia). simpl.
    by rewrite !decide_False, (find_name_left _ _ _ _ Hs) by lia.
Qed.

Lemma search_elems n q :
  sorted (elems n) ->
  match search n q with
  | (Nil, b) => b = false /\ find_name (elems n) q = None
  | (Node _ _ e _, b) => b = true /\ find_name (elems n) q = Some e
  end.
Proof.
  induction n as [|c0 l IHl e r IHr]; intros Hs; cbn [search elems] in *; [done|].
  rewrite find_name_app. cbn [find_name]. repeat case_decide.
  - by rewrite (find_name_left _ _ _ _ Hs) by lia.
  - rewrite (find_name_right _ _ _ _ Hs) by lia.
    specialize (IHl (sorted_app_l _ _ Hs)). destruct (search l q) as [[|]]; destruct IHl as [-> ->]; done.
  - rewrite (find_name_left _ _ _ _ Hs) by lia.
    specialize (IHr (sorted_app_r _ _ _ Hs)). destruct (search r q) as [[|]]; destruct IHr as [-> ->]; done.
Qed.

Lemma Search_find t q :
  sorted (elems (Root t)) ->
  Search t q = (find_name (elems (Root t)) q, bool_decide (is_Some (find_name (elems (Root t)) q))).
Proof.
  intros Hs. pose proof (search_elems _ q Hs) as H. unfold Search.
  destruct (Root t) as [|c l e r]; [done|].
  destruct (search _ q) as [[|] b]; by destruct H as [-> ->].
Qed.

End facts.

(** ** The invariant of a tree *)

Section invariant.
Context {N : DnsNames} {NS : DnsNamesSpec N} {MO : MapOrder}.

Record wf_tree (t : Tree) : Prop := {
  wf_shape : exists h, llrb black h (Root t);
  wf_sorted : sorted (elems (Root t));
  wf_elems : Forall elem_ok (elems (Root t));
  wf_count : Count t = Z.of_nat (length (elems (Root t))) }.

Lemma ElemName_newElem rr : ElemName (newElem rr) = rr_name rr.
Proof. by rewrite ElemName_ok by apply newElem_ok. Qed.

Lemma ElemInsert_name e rr : name (ElemInsert e rr) = name e.
Proof. unfold ElemInsert. by destruct (m e !! _). Qed.

Lemma ElemInsert_ok e rr :
  elem_ok e -> Less e (rr_name rr) = 0 -> elem_ok (ElemInsert e rr).
Proof.
  intros He Hq. unfold elem_ok. rewrite ElemInsert_name. intros En t rrs rr' Ht Hin.
  unfold Less in Hq. rewrite (ElemName_ok _ He), En in Hq. apply less_empty in Hq.
  unfold ElemInsert in Ht. destruct (m e !! rr_type rr) as [old|] eqn:Eo; simpl in Ht;
    apply lookup_insert_Some in Ht as [[<- <-]|[_ Ht]]; try by eapply He.
  - apply elem_of_app in Hin as [Hin| ->%list_elem_of_singleton]; [by eapply He|done].
  - by apply list_elem_of_singleton in Hin as ->.
Qed.

Lemma ElemName_ElemInsert e rr :
  elem_ok e -> Less e (rr_name rr) = 0 -> ElemName (ElemInsert e rr) = ElemName e.
Proof.
  intros He Hq. rewrite !ElemName_ok, ElemInsert_name; auto using ElemInsert_ok.
Qed.

Lemma ins_ok l rr : Forall elem_ok l -> Forall elem_ok (ins l rr).
Proof.
  induction 1; simpl; [auto using newElem_ok|].
  repeat case_decide; auto using newElem_ok, ElemInsert_ok.
Qed.

(** Every element of [ins l rr] has the name of one of [l], or of [rr]. *)
Lemma ins_names l rr x :
  Forall elem_ok l -> x ∈ ins l rr -> ElemName x = rr_name rr \/ exists y, y ∈ l /\ ElemName x = ElemName y.
Proof.
  induction 1 as [|e l He Hl IH]; simpl.
  - intros ->%list_elem_of_singleton. left. apply ElemName_newElem.
  - repeat case_decide; rewrite !elem_of_cons.
    + intros [->|Hx]; right; [exists e|exists x; split; [by right|done]].
      split; [by left|by apply ElemName_ElemInsert].
    + intros [->|Hx]; [left; apply ElemName_newElem|right].
      exists x. split; [by apply elem_of_cons|done].
    + intros [->|[?|(y & ? & ?)]%IH]; [right; exists e|by left|right; exists y]; split;
        [by left|done|by right|done].
Qed.

Lemma ins_sorted l rr : Forall elem_ok l -> sorted l -> sorted (ins l rr).
Proof.
  intros Hok. induction Hok as [|e l He Hl IH]; simpl; intros Hs.
  { repeat constructor. }
  unfold sorted in *. apply StronglySorted_cons in Hs as [He' Hs].
  repeat case_decide; rewrite ?StronglySorted_cons.
  - split; [|done]. eapply Forall_impl; [exact He'|]. unfold name_lt.
    intros x. by rewrite ElemName_ElemInsert.
  - unfold Less in *. assert (name_lt (newElem rr) e).
    { unfold name_lt. by rewrite ElemName_newElem. }
    repeat split; [|done..]. constructor; [done|].
    eapply Forall_impl; [exact He'|]. intros x Hx. by eapply name_lt_trans.
  - split; [|by apply IH]. apply Forall_forall. intros x [Hx|(y & Hy & Hx)]%ins_names; [..|done];
      unfold name_lt; rewrite Hx.
    + apply cmp_flip. unfold Less in *. lia.
    + rewrite Forall_forall in He'. by apply He'.
Qed.

Lemma ins_length l rr :
  sorted l ->
  Z.of_nat (length (ins l rr)) =
  Z.of_nat (length l) + match find_name l (rr_name rr) with Some _ => 0 | None => 1 end.
Proof.
  induction l as [|e l IH]; simpl; intros Hs; [done|].
  repeat case_decide; cbn [length]; try lia.
  - rewrite (find_name_right [] e l) by (done || lia). lia.
  - rewrite Nat2Z.inj_succ, IH by (by apply (sorted_app_r [] e l)). lia.
Qed.

(** A tree is determined, for every query, by its list of elements. *)
Lemma find_name_ins l rr q :
  Forall elem_ok l -> sorted l ->
  find_name (ins l rr) q =
    if decide (less q (rr_name rr) = 0) then
      Some (match find_name l (rr_name rr) with Some e => ElemInsert e rr | None => newElem rr end)
    else find_name l q.
Proof.
  intros Hok. induction Hok as [|e l He Hl IH]; intros Hs.
  { simpl. unfold Less. by rewrite ElemName_newElem. }
  cbn [ins find_name]. destruct (decide (Less e (rr_name rr) = 0)) as [E|E];
    [|destruct (decide (Less e (rr_name rr) < 0)) as [L|L]]; cbn [find_name]; unfold Less in *.
  - rewrite ElemName_ElemInsert by done.
    destruct (decide (less q (ElemName e) = 0)) as [Q|Q], (decide (less q (rr_name rr) = 0)) as [R|R]; try done.
    + destruct R. eapply (cmp_eq_trans less); [exact Q|]. by apply (cmp_sym less).
    + destruct Q. by eapply (cmp_eq_trans less).
  - rewrite ElemName_newElem. case_decide; [|done].
    by rewrite (find_name_right [] e l) by (done || unfold Less; lia).
  - rewrite IH by (by apply (sorted_app_r [] e l)).
    destruct (decide (less q (ElemName e) = 0)) as [Q|Q]; [|done]. rewrite decide_False; [done|].
    intros R. destruct E. eapply (cmp_eq_trans less); [|exact Q]. by apply (cmp_sym less).
Qed.

Lemma llrb_ins_blacken c h n :
  llrb_ins c h n -> n <> Nil -> exists h' n', setColor n black = Ok n' /\ llrb black h' n' /\ elems n' = elems n.
Proof.
  intros H Hn. destruct H as [c h n H|h n H|h l e r Hl Hr]; [destruct H; [done|..]|inv_red|];
    simpl; eauto 10 with tree.
Qed.

Lemma Insert_spec t rr :
  wf_tree t ->
  exists t', Insert t rr = Ok t' /\ wf_tree t' /\ elems (Root t') = ins (elems (Root t)) rr.
Proof.
  intros [[h Hh] Hs Hok Hc]. destruct (insert_shape rr _ _ _ Hh) as (n' & d & E & Hn).
  destruct (insert_elems _ _ _ _ Hs E) as [He ->].
  destruct (llrb_ins_blacken _ _ _ Hn) as (h' & n2 & E2 & H2 & He2).
  { intros ->. simpl in He. symmetry in He. destruct (elems (Root t)); simpl in He; [done|].
    by repeat case_decide. }
  unfold Insert. rewrite E. simpl. rewrite E2. simpl. eexists. split; [done|].
  rewrite He in He2. split; [|done]. split; simpl; rewrite ?He2.
  - eauto.
  - by apply ins_sorted.
  - by apply ins_ok.
  - by rewrite Hc, ins_length.
Qed.

(** C6. Insertion into a well-formed tree returns (no nil dereference on any
    branch) a well-formed tree: left-leaning red-black shape with one black
    height, names strictly increasing, [Count] the number of elements.  In it
    the record is found under every spelling of its owner name that [less]
    equates with it, appended to the records of an existing element or in a
    new one, and every other name is answered as before. *)
Theorem Search_Insert t rr :
  wf_tree t ->
  exists t', Insert t rr = Ok t' /\ wf_tree t' /\
    forall q, Search t' q =
      if decide (less q (rr_name rr) = 0) then
        (Some (match fst (Search t (rr_name rr)) with
               | Some e => ElemInsert e rr
               | None => newElem rr
               end), true)
      else Search t q.
Proof.
  intros Hw. destruct (Insert_spec t rr Hw) as (t' & E & Hw' & He).
  exists t'. split; [done|]. split; [done|]. intros q.
  pose proof (wf_sorted _ Hw) as Hs. pose proof (wf_sorted _ Hw') as Hs'.
  rewrite !(Search_find t) by done. rewrite (Search_find t') by done.
  rewrite He, find_name_ins by (done || apply Hw). simpl. by case_decide.
Qed.

Lemma wf_empty : wf_tree (mkTree Nil 0).
Proof. split; simpl; [by exists 0%nat; constructor|constructor|constructor|done]. Qed.

(** Loading a list of records, as the zone parser does. *)
Fixpoint load (t : Tree) (l : list RR) : result go_fault Tree :=
  match l with
  | [] => Ok t
  | rr :: l' => t ← Insert t rr; load t l'
  end.

Lemma load_wf l t : wf_tree t -> exists t', load t l = Ok t' /\ wf_tree t'.
Proof.
  revert t. induction l as [|rr l IH]; intros t Hw; [by exists t|].
  destruct (Insert_spec t rr Hw) as (t1 & E & Hw1 & _). simpl. rewrite E. by apply IH.
Qed.

End invariant.

(** ** A concrete zone *)

Module Sample.

Definition a_rr (nm : string) (b : Z) : RR := mkRR (mkHdr nm TypeA 1 3600) (RA [192; 0; 2; b]).

Definition rrs : list RR :=
  [a_rr "www.example.org." 1; a_rr "a.example.org." 2; a_rr "example.org." 3;
   a_rr "mail.example.org." 4; a_rr "www.example.org." 5; a_rr "b.a.example.org." 6].

#[export] Existing Instances Plain.names Plain.names_spec.
#[export] Existing Instance list_order.

Definition tree : Tree := match load (mkTree Nil 0) rrs with Ok t => t | Err _ => mkTree Nil 0 end.

Lemma tree_wf : wf_tree tree.
Proof.
  unfold tree. destruct (load_wf rrs _ wf_empty) as (t & -> & Hw). exact Hw.
Qed.

Lemma Search_Insert_witness :
  Count tree = 5 /\
  exists t', Insert tree (a_rr "MAIL.example.org." 7) = Ok t' /\
    snd (Search t' "mail.example.org.") = true /\ snd (Search t' "nx.example.org.") = false.
Proof.
  split; [reflexivity|].
  destruct (Search_Insert tree (a_rr "MAIL.example.org." 7) tree_wf) as (t' & E & _ & Q).
  exists t'. split; [exact E|]. split; rewrite Q; reflexivity.
Defined.

End Sample.
