(* ===== verification/TreeDelete.v ===== *)
(** * The zone tree: deletion

    [del_pre] is what a node looks like when the code descends into it to
    remove an element: red, or black with a red child on the side of the
    descent, so that losing one element cannot make it underflow.  The
    deletions never dereference nil, keep the shape, and remove exactly the
    minimum, the maximum, or the element of the given name. *)

From Stdlib Require Import Ascii ZArith Lia Sorting.Sorted.
From stdpp Require Import base gmap strings list numbers sorting.
From S2P Require Import Prelude DnsTypes Less Tree TreeInsert.

Local Open Scope Z_scope.

(** ** Repairing one node *)

Definition both_red (c1 c2 : Color) : Color :=
  match c1, c2 with red, red => red | _, _ => black end.

Lemma fixUp_black c1 c2 h l e r :
  llrb c1 h l -> llrb c2 h r ->
  exists n', fixUp (Node black l e r) = Ok n' /\ llrb (both_red c1 c2) (S h) n' /\
             elems n' = elems l ++ e :: elems r.
Proof.
  intros Hl Hr. destruct c1, c2; inv_red; tree_step; rewrite <-?app_assoc; eauto 10 with tree.
  all: eexists; (split; [done|]); simpl; rewrite <-?app_assoc; eauto with tree.
Qed.

Lemma fixUp_red h l e r :
  llrb black h l -> llrb black h r -> fixUp (Node red l e r) = Ok (Node red l e r).
Proof. intros. by tree_step. Qed.

(** Moving a red link to the side of the descent. *)
Lemma moveRedLeft_spec h ll le lr e r :
  llrb black (S h) (Node black ll le lr) -> is_red ll = false -> llrb black (S h) r ->
  exists c l' e' r' pre,
    moveRedLeft (Node red (Node black ll le lr) e r) = Ok (Node c l' e' r') /\
    elems l' = elems (Node black ll le lr) ++ pre /\ pre ++ e' :: elems r' = e :: elems r /\
    (size l' <= size (Node black ll le lr) + size r)%nat /\
    ((c = black /\ llrb red h l' /\ llrb red h r') \/
     (c = red /\ llrb black (S h) r' /\
      exists a x b, l' = Node black a x b /\ llrb red h a /\ llrb black h b)).
Proof.
  intros Hl Hll Hr. inversion Hl as [| |? cl ? ? ? Hll' Hlr]; subst.
  assert (cl = black) as -> by (destruct cl; [inversion Hll'; subst; done|done]).
  inversion Hr as [| |? [] rl re rr Hrl Hrr]; subst.
  - inv_red. tree_step. do 4 eexists. exists (e :: elems l). split; [done|]. simpl.
    rewrite <-?app_assoc. simpl. rewrite <-?app_assoc. simpl.
    split; [done|]. split; [done|]. split; [lia|]. right. eauto 12 with tree.
  - tree_step. do 4 eexists. exists []. split; [done|]. simpl. rewrite app_nil_r.
    split; [done|]. split; [done|]. split; [lia|]. left. eauto with tree.
Qed.

Lemma moveRedRight_spec h l e rl re rr :
  llrb black (S h) l -> llrb black (S h) (Node black rl re rr) -> is_red rl = false ->
  (exists l' r', moveRedRight (Node red l e (Node black rl re rr)) = Ok (Node black l' e r') /\
     elems l' = elems l /\ elems r' = elems (Node black rl re rr) /\
     size r' = size (Node black rl re rr) /\ llrb red h l' /\ llrb red h r') \/
  (exists l' x b r2,
     moveRedRight (Node red l e (Node black rl re rr)) = Ok (Node red l' x (Node black b e r2)) /\
     elems l' ++ x :: elems b = elems l /\ elems r2 = elems (Node black rl re rr) /\
     (size (Node black b e r2) <= size l + size (Node black rl re rr))%nat /\
     llrb black (S h) l' /\ llrb black h b /\ llrb red h r2).
Proof.
  intros Hl Hr Hrl. inversion Hr as [| |? cr ? ? ? Hrl' Hrr]; subst.
  assert (cr = black) as -> by (destruct cr; [inversion Hrl'; subst; done|done]).
  inversion Hl as [| |? [] ll le lr Hll Hlr]; subst.
  - inv_red. tree_step. right. do 4 eexists. split; [done|]. simpl.
    repeat split; [lia|eauto with tree..].
  - tree_step. left. do 2 eexists. split; [done|]. simpl. eauto 10 with tree.
Qed.

(** ** The root: its own colour never matters *)

Definition neg_root (n : node) : node :=
  match n with Nil => Nil | Node c l e r => Node (flip_color c) l e r end.

Lemma flip_color_invol c : flip_color (flip_color c) = c.
Proof. by destruct c. Qed.

Lemma rotateLeft_neg n : rotateLeft (neg_root n) = neg_root <$> rotateLeft n.
Proof. by destruct n as [|c l e [|]]. Qed.
Lemma rotateRight_neg n : rotateRight (neg_root n) = neg_root <$> rotateRight n.
Proof. by destruct n as [|c [|] e r]. Qed.
Lemma flipColors_neg n : flipColors (neg_root n) = neg_root <$> flipColors n.
Proof. by destruct n as [|c [|] e [|]]. Qed.
Lemma setLeft_neg n l : setLeft (neg_root n) l = neg_root <$> setLeft n l.
Proof. by destruct n. Qed.
Lemma setRight_neg n r : setRight (neg_root n) r = neg_root <$> setRight n r.
Proof. by destruct n. Qed.
Lemma setElem_neg n e : setElem (neg_root n) e = neg_root <$> setElem n e.
Proof. by destruct n. Qed.
Lemma getLeft_neg n : getLeft (neg_root n) = getLeft n.
Proof. by destruct n. Qed.
Lemma getRight_neg n : getRight (neg_root n) = getRight n.
Proof. by destruct n. Qed.
Lemma getElem_neg n : getElem (neg_root n) = getElem n.
Proof. by destruct n. Qed.

Lemma leftLeftRed_neg n : leftLeftRed (neg_root n) = leftLeftRed n.
Proof. by destruct n. Qed.
Lemma bothRed_neg n : bothRed (neg_root n) = bothRed n.
Proof. by destruct n. Qed.
Lemma leftIsBlack2_neg n : leftIsBlack2 (neg_root n) = leftIsBlack2 n.
Proof. by destruct n. Qed.
Lemma rightIsBlack2_neg n : rightIsBlack2 (neg_root n) = rightIsBlack2 n.
Proof. by destruct n. Qed.

Create Rewrite HintDb neg_root.
#[export] Hint Rewrite rotateLeft_neg rotateRight_neg flipColors_neg setLeft_neg setRight_neg
  setElem_neg getLeft_neg getRight_neg getElem_neg
  leftLeftRed_neg bothRed_neg leftIsBlack2_neg rightIsBlack2_neg : neg_root.

Lemma bind_neg {A B} (F : A -> B) (c : result go_fault node) (k : node -> result go_fault A)
  (k' : node -> result go_fault B) :
  (forall n, k' (neg_root n) = F <$> k n) -> (neg_root <$> c) ≫= k' = F <$> (c ≫= k).
Proof. destruct c; simpl; auto. Qed.

Lemma bind_same {A B C} (F : A -> B) (c : result go_fault C) (k : C -> result go_fault A)
  (k' : C -> result go_fault B) :
  (forall x, k' x = F <$> k x) -> c ≫= k' = F <$> (c ≫= k).
Proof. destruct c; simpl; auto. Qed.

(** The result of a deletion with the root colour negated. *)
Definition neg_res (p : node * Z) : node * Z := (neg_root p.1, p.2).

Lemma bind_neg_pair {A B} (F : A -> B) (c c' : result go_fault (node * Z))
  (k : node * Z -> result go_fault A) (k' : node * Z -> result go_fault B) :
  c' = neg_res <$> c -> (forall n d, k' (neg_root n, d) = F <$> k (n, d)) ->
  c' ≫= k' = F <$> (c ≫= k).
Proof. intros ->. destruct c as [[n d]|]; simpl; [|done]. intros H. apply H. Qed.

Lemma if_neg (b : bool) (c : result go_fault node) n :
  (if b then neg_root <$> c else Ok (neg_root n)) = neg_root <$> (if b then c else Ok n).
Proof. by destruct b. Qed.

(** Pushes the negation of the root colour through a block of code. *)
Ltac neg_push :=
  repeat first
    [ progress autorewrite with neg_root
    | apply bind_same; lazymatch goal with
        | |- forall _ : _ * _, _ => intros [? ?]; simpl
        | _ => intros ?
        end
    | rewrite if_neg
    | apply bind_neg; intros ?
    | done ].

Lemma fixUp_neg n : fixUp (neg_root n) = neg_root <$> fixUp n.
Proof. unfold fixUp. neg_push. Qed.

Lemma moveRedLeft_neg n : moveRedLeft (neg_root n) = neg_root <$> moveRedLeft n.
Proof. unfold moveRedLeft. neg_push. destruct (is_red _); [|done]. neg_push. Qed.

Lemma moveRedRight_neg n : moveRedRight (neg_root n) = neg_root <$> moveRedRight n.
Proof. unfold moveRedRight. neg_push. destruct (is_red _); [|done]. neg_push. Qed.

#[export] Hint Rewrite fixUp_neg moveRedLeft_neg moveRedRight_neg : neg_root.

Lemma fixUpRes_neg p : fixUpRes (neg_res p) = neg_res <$> fixUpRes p.
Proof. destruct p. unfold fixUpRes. simpl. neg_push. Qed.

Lemma bind_neg_res {A B} (F : A -> B) (c c' : result go_fault (node * Z))
  (k : node * Z -> result go_fault A) (k' : node * Z -> result go_fault B) :
  c' = neg_res <$> c -> (forall p, k' (neg_res p) = F <$> k p) -> c' ≫= k' = F <$> (c ≫= k).
Proof. intros ->. destruct c as [p|]; simpl; auto. Qed.

Lemma descendLeft_neg rec n : descendLeft rec (neg_root n) = neg_res <$> descendLeft rec n.
Proof. unfold descendLeft. neg_push. Qed.

Lemma inRight_neg rec n : inRight rec (neg_root n) = neg_res <$> inRight rec n.
Proof. unfold inRight. neg_push. Qed.

Lemma descendRight_neg step n :
  (forall n, step (neg_root n) = neg_res <$> step n) ->
  descendRight step (neg_root n) = neg_res <$> descendRight step n.
Proof. intros H. unfold descendRight. neg_push. Qed.

Section neg.
Context {N : DnsNames} {MO : MapOrder}.

Lemma removeRight_neg dmin del nm n :
  removeRight dmin del nm (neg_root n) = neg_res <$> removeRight dmin del nm n.
Proof. unfold removeRight. neg_push. case_decide; [|apply inRight_neg]. neg_push. apply inRight_neg. Qed.

Lemma deleteMin_neg fuel n : deleteMin fuel (neg_root n) = neg_res <$> deleteMin fuel n.
Proof.
  destruct fuel as [|fuel]; [done|]. cbn [deleteMin]. neg_push. destruct x; [done|].
  apply bind_neg_res; [apply descendLeft_neg|apply fixUpRes_neg].
Qed.

Lemma deleteMax_neg fuel n : deleteMax fuel (neg_root n) = neg_res <$> deleteMax fuel n.
Proof.
  destruct fuel as [|fuel]; [done|]. cbn [deleteMax]. neg_push. destruct x0; [done|].
  apply bind_neg_res; [apply descendRight_neg, inRight_neg|apply fixUpRes_neg].
Qed.

Lemma delete_neg fuel n nm : delete_ fuel (neg_root n) nm = neg_res <$> delete_ fuel n nm.
Proof.
  destruct fuel as [|fuel]; [done|]. cbn [delete_]. neg_push. case_decide; neg_push.
  - apply bind_neg_res; [|apply fixUpRes_neg]. destruct x0; [done|]. apply descendLeft_neg.
  - destruct x2; [case_decide; [done|]; apply (fixUpRes_neg (_, 0))|].
    apply bind_neg_res; [apply descendRight_neg, removeRight_neg|apply fixUpRes_neg].
Qed.

End neg.

(** ** Descending to remove an element *)

Inductive del_pre : nat -> node -> Prop :=
| pre_red h n : llrb red h n -> del_pre h n
| pre_left h l e r : llrb red h l -> llrb black h r -> del_pre (S h) (Node black l e r).

(** After [moveRedRight] with a rotation the red child is on the right. *)
Inductive del_pre_r : nat -> node -> Prop :=
| pre_r_pre h n : del_pre h n -> del_pre_r h n
| pre_right h l e r : llrb black h l -> llrb red h r -> del_pre_r (S h) (Node black l e r).

(** A red node may come back black, a black one stays black. *)
Definition del_post (c : Color) (h : nat) (n' : node) : Prop :=
  match c with red => exists c', llrb c' h n' | black => llrb black h n' end.

#[export] Hint Constructors del_pre del_pre_r : tree.

Lemma is_red_color c h n : llrb c h n -> is_red n = match c with red => true | black => false end.
Proof. intros H%llrb_color. unfold is_red. by rewrite H. Qed.

(** The left descent, for any removal [rec] in the left child: it is called
    on a smaller node [l0] that may lose an element, and what follows
    [elems l0] in the order is kept. *)
Lemma descendLeft_spec rec (P : node -> node -> Z -> Prop) h c l e r :
  del_pre h (Node c l e r) -> l <> Nil ->
  (forall hl l0 pre suf, (size l0 <= size l + size r)%nat -> del_pre hl l0 ->
     elems l0 = elems l ++ pre -> pre ++ suf = e :: elems r ->
     exists l' d, rec l0 = Ok (l', d) /\ del_post (color l0) hl l' /\ P l0 l' d) ->
  exists n' d l0 l' pre suf,
    (descendLeft rec (Node c l e r) ≫= fixUpRes) = Ok (n', d) /\ del_post c h n' /\
    elems l0 = elems l ++ pre /\ pre ++ suf = e :: elems r /\
    P l0 l' d /\ elems n' = elems l' ++ suf.
Proof.
  intros Hp Hnil Hrec. inversion Hp as [? ? Hn|h' ? ? ? Hl Hr]; subst.
  - inversion Hn as [|? ? ? ? Hl Hr|]; subst.
    inversion Hl as [| |h' cl ll le lr Hll Hlr]; subst; [done|].
    unfold descendLeft, leftIsBlack2. simpl. rewrite (is_red_color _ _ _ Hll). destruct cl; simpl.
    + destruct (Hrec (S h') (Node black ll le lr) [] (e :: elems r)) as (l' & d & -> & Hp' & HP);
        [simpl; lia|eauto with tree|by rewrite app_nil_r|done|].
      unfold fixUpRes. simpl in *. rewrite (fixUp_red (S h')) by done. simpl.
      exists (Node red l' e r), d, (Node black ll le lr), l', [], (e :: elems r).
      rewrite app_nil_r. eauto 10 with tree.
    + destruct (moveRedLeft_spec h' ll le lr e r) as (c & l0 & e' & r' & pre & E & E1 & E2 & Hsz & Hc);
        [done|by rewrite (is_red_color _ _ _ Hll)|done|].
      rewrite E. simpl in *.
      destruct Hc as [(-> & Hl' & Hr')|(-> & Hr' & a & x & b & -> & Ha & Hb)].
      * destruct (Hrec h' l0 pre (e' :: elems r')) as (l' & d & -> & Hp' & HP); [lia|eauto with tree|done..|].
        apply llrb_color in Hl' as Hc. rewrite Hc in Hp'. destruct Hp' as [c2 Hl2].
        destruct (fixUp_black c2 red h' l' e' r') as (n2 & E3 & Hn2 & E4); [done..|].
        unfold fixUpRes. simpl. rewrite E3. simpl.
        exists n2, d, l0, l', pre, (e' :: elems r'). eauto 10.
      * destruct (Hrec (S h') (Node black a x b) pre (e' :: elems r')) as (l' & d & -> & Hp' & HP);
          [simpl in *; lia|eauto with tree|done..|].
        unfold fixUpRes. simpl in *. rewrite (fixUp_red (S h')) by done. simpl.
        exists (Node red l' e' r'), d, (Node black a x b), l', pre, (e' :: elems r').
        eauto 10 with tree.
  - unfold descendLeft, leftIsBlack2. simpl. rewrite (is_red_color _ _ _ Hl). simpl.
    destruct (Hrec h' l [] (e :: elems r)) as (l' & d & -> & Hp' & HP);
      [lia|eauto with tree|by rewrite app_nil_r|done|].
    rewrite (llrb_color _ _ _ Hl) in Hp'. destruct Hp' as [c2 Hl2].
    destruct (fixUp_black c2 black h' l' e r) as (n2 & E3 & Hn2 & E4); [done..|].
    unfold fixUpRes. simpl. rewrite E3. simpl. exists n2, d, l, l', [], (e :: elems r).
    rewrite app_nil_r. split; [done|]. split; [by destruct c2|]. eauto.
Qed.

(** The right descent.  [step] is called on a node [Node c' l' e' r'] whose
    right child may lose an element: either nothing moved, or the last
    element [e'] of the left subtree came up and [e] went into [r']. *)
Lemma descendRight_spec step (P : list Elem -> Z -> Prop) h c l e r :
  (c = red /\ llrb black h l /\ llrb black h r /\ r <> Nil) \/
    (exists h', h = S h' /\ c = black /\ llrb black h' l /\ llrb red h' r) ->
  (forall c' l' e' hr r', (size r' <= size l + size r)%nat -> del_pre_r hr r' ->
     (elems l' = elems l /\ e' = e /\ elems r' = elems r /\ del_pre hr r') \/
     (exists b r2, r' = Node black b e r2 /\ elems l' ++ e' :: elems b = elems l /\
                   elems r2 = elems r) ->
     exists e2 r2' d, step (Node c' l' e' r') = Ok (Node c' l' e2 r2', d) /\
                      del_post (color r') hr r2' /\ P (elems l' ++ e2 :: elems r2') d) ->
  exists n' d, (descendRight step (Node c l e r) ≫= fixUpRes) = Ok (n', d) /\
               del_post c h n' /\ P (elems n') d.
Proof.
  intros [(-> & Hl & Hr & Hnil)|(h' & -> & -> & Hl & Hr)] Hstep.
  - inversion Hr as [| |h' cr rl re rr Hrl Hrr]; subst; [done|].
    unfold descendRight, rightIsBlack2. simpl. rewrite (is_red_color _ _ _ Hrl). destruct cr; simpl.
    + destruct (Hstep red l e (S h') (Node black rl re rr)) as (e2 & r2 & d & -> & Hp & HP);
        [simpl; lia|eauto with tree|left; eauto with tree|].
      unfold fixUpRes. simpl in *. rewrite (fixUp_red (S h')) by done. simpl. eauto 10 with tree.
    + destruct (moveRedRight_spec h' l e rl re rr)
        as [(l' & r' & -> & E1 & E2 & Hsz & Hl' & Hr')|(l' & x & b & r2 & -> & E1 & E2 & Hsz & Hl' & Hb & Hr2)];
        [done|done|by rewrite (is_red_color _ _ _ Hrl)|..]; simpl.
      * destruct (Hstep black l' e h' r') as (e2 & r2 & d & -> & Hp & HP);
          [lia|eauto with tree|left; eauto with tree|].
        rewrite (llrb_color _ _ _ Hr') in Hp. destruct Hp as [c2 Hr2].
        destruct (fixUp_black red c2 h' l' e2 r2) as (n2 & E3 & Hn2 & E4); [done..|].
        unfold fixUpRes. simpl. rewrite E3. simpl. rewrite <-E4 in HP. eauto 10.
      * destruct (Hstep red l' x (S h') (Node black b e r2)) as (e2 & r3 & d & -> & Hp & HP);
          [lia|eauto with tree|right; eauto 10|].
        unfold fixUpRes. simpl in *. rewrite (fixUp_red (S h')) by done. simpl. eauto 10 with tree.
  - unfold descendRight, rightIsBlack2. simpl. rewrite (is_red_color _ _ _ Hr). simpl.
    destruct (Hstep black l e h' r) as (e2 & r2 & d & -> & Hp & HP);
      [lia|eauto with tree|left; eauto with tree|].
    rewrite (llrb_color _ _ _ Hr) in Hp. destruct Hp as [c2 Hr2].
    destruct (fixUp_black black c2 h' l e2 r2) as (n2 & E3 & Hn2 & E4); [done..|].
    unfold fixUpRes. simpl. rewrite E3. simpl. rewrite <-E4 in HP. eauto 10.
Qed.

(** ** The deletions *)

Section delete.
Context {N : DnsNames} {MO : MapOrder}.

Lemma deleteMin_spec fuel h n :
  (size n < fuel)%nat -> del_pre h n ->
  exists n' e0, deleteMin fuel n = Ok (n', -1) /\ del_post (color n) h n' /\ elems n = e0 :: elems n'.
Proof.
  revert h n. induction fuel as [|fuel IH]; intros h n Hf Hp; [lia|].
  destruct n as [|c l e r]; [by inversion Hp as [? ? H|]; inversion H|]. simpl in Hf.
  cbn [deleteMin getLeft mbind result_bind]. destruct l as [|cl ll le lr] eqn:El.
  { inversion Hp as [? ? H|? ? ? ? H]; subst; inversion H as [|? ? ? ? H1 H2|]; subst.
    inversion H1; subst. inversion H2; subst. simpl. eauto 10 with tree. }
  rewrite <-El in *.
  destruct (descendLeft_spec (deleteMin fuel)
              (fun l0 l' d => d = -1 /\ exists e0, elems l0 = e0 :: elems l') h c l e r)
    as (n' & d & l0 & l' & pre & suf & E & Hpost & E1 & E2 & [-> (e0 & E3)] & E4); [done|by rewrite El| |].
  - intros hl l0 pre suf Hsz Hpre _ _. destruct (IH hl l0) as (l' & e0 & E & Hpost & He); [lia|done|].
    eauto 10.
  - exists n', e0. split; [exact E|]. split; [done|]. simpl.
    by rewrite E4, <-E2, app_assoc, <-E1, E3.
Qed.

Lemma inRight_spec rec c l e r r' d :
  rec r = Ok (r', d) -> inRight rec (Node c l e r) = Ok (Node c l e r', d).
Proof. intros E. unfold inRight. simpl. by rewrite E. Qed.

Lemma deleteMax_spec fuel h n :
  (size n < fuel)%nat -> del_pre_r h n ->
  exists n' e0, deleteMax fuel n = Ok (n', -1) /\ del_post (color n) h n' /\ elems n = elems n' ++ [e0].
Proof.
  revert h n. induction fuel as [|fuel IH]; intros h n Hf Hp; [lia|].
  assert (forall h c l e r, (size l + size r < fuel)%nat ->
    (c = red /\ llrb black h l /\ llrb black h r /\ r <> Nil) \/
    (exists h', h = S h' /\ c = black /\ llrb black h' l /\ llrb red h' r) ->
    exists n' e0, (descendRight (inRight (deleteMax fuel)) (Node c l e r) ≫= fixUpRes) = Ok (n', -1) /\
      del_post c h n' /\ elems l ++ e :: elems r = elems n' ++ [e0]) as Hd.
  { intros h1 c l e r Hsz Hst.
    destruct (descendRight_spec (inRight (deleteMax fuel))
      (fun es d => d = -1 /\ exists e0, elems l ++ e :: elems r = es ++ [e0]) h1 c l e r Hst)
      as (n' & d & E & Hpost & -> & e0 & E1); [|by eauto].
    intros c' l' e' hr r' Hsz' Hpre Hmoved.
    destruct (IH hr r') as (r2 & e0 & E & Hpost & He); [lia|done|].
    exists e', r2, (-1). split; [by apply inRight_spec|]. split; [done|]. split; [done|]. exists e0.
    rewrite <-app_assoc. simpl. rewrite <-He.
    destruct Hmoved as [(-> & -> & <- & _)|(b & r0 & -> & <- & <-)]; [done|].
    simpl. by rewrite <-app_assoc. }
  destruct Hp as [h n [h' n' Hn|h' l e r Hl Hr]|h' l e r Hl Hr]; simpl in Hf; cbn [deleteMax].
  - inversion Hn as [|? l e r Hl Hr|]; subst. simpl in Hf. simpl. rewrite (is_red_black _ _ Hl). simpl.
    destruct r as [|cr rl re rr] eqn:Er.
    { inversion Hr; subst. inversion Hl; subst. simpl. eexists _, e. eauto with tree. }
    rewrite <-Er in *. apply (Hd h' red l e r); [lia|]. left. split_and!; [done..|]. by rewrite Er.
  - inversion Hl as [|? a x b Ha Hb|]; subst. simpl.
    destruct (Hd (S h') black a x (Node red b e r)) as (n' & e0 & E & Hpost & He);
      [simpl in *; lia|right; eauto 10 with tree|]. simpl in *. rewrite <-app_assoc. eauto.
  - inversion Hr as [|? rl re rr Hrl Hrr|]; subst. simpl. rewrite (is_red_black _ _ Hl). simpl.
    apply (Hd (S h') black l e (Node red rl re rr)); [simpl in *; lia|right; eauto 10 with tree].
Qed.

(** *** Removing one name *)

Definition del (l : list Elem) (q : string) : list Elem := filter (fun e => Less e q <> 0) l.

Definition found_d (l : list Elem) (q : string) : Z :=
  match find_name l q with Some _ => -1 | None => 0 end.

Lemma del_app l1 l2 q : del (l1 ++ l2) q = del l1 q ++ del l2 q.
Proof. apply filter_app. Qed.

Lemma del_none l q : Forall (fun x => Less x q <> 0) l -> del l q = l.
Proof. induction 1; [done|]. unfold del in *. rewrite filter_cons_True by done. by f_equal. Qed.

Lemma found_d_app_r l1 l2 q :
  Forall (fun x => Less x q <> 0) l2 -> found_d (l1 ++ l2) q = found_d l1 q.
Proof.
  intros H. unfold found_d. rewrite find_name_app, (find_name_none l2) by done.
  by destruct (find_name l1 q).
Qed.

Lemma found_d_app_l l1 l2 q :
  Forall (fun x => Less x q <> 0) l1 -> found_d (l1 ++ l2) q = found_d l2 q.
Proof. intros H. unfold found_d. by rewrite find_name_app, (find_name_none l1) by done. Qed.

Lemma min_node_spec n e0 l :
  elems n = e0 :: l -> exists x, min_node n = Ok x /\ getElem x = Ok e0.
Proof.
  revert l. induction n as [|c ln IH e r _]; intros l E; [done|].
  destruct ln as [|cl ll le lr] eqn:Eln.
  - simpl in *. simplify_eq. eauto.
  - rewrite <-Eln in *. destruct (elems ln) as [|e1 l1] eqn:E1.
    { rewrite Eln in E1. simpl in E1. by destruct (elems ll). }
    cbn [elems] in E. rewrite E1 in E. simplify_eq/=.
    destruct (IH _ eq_refl) as (x & Hx & He). exists x. by split.
Qed.

Context {O : NameOrder less}.

(** In the spirit of [left_of] and [right_of]: names on either side of [e]. *)
Lemma ne_left l e r q :
  sorted (l ++ e :: r) -> 0 <= Less e q -> Forall (fun x => Less x q <> 0) l.
Proof. intros Hs Hq. eapply Forall_impl; [by eapply left_of|]. simpl. lia. Qed.
Lemma ne_right l e r q :
  sorted (l ++ e :: r) -> Less e q <= 0 -> Forall (fun x => Less x q <> 0) r.
Proof. intros Hs Hq. eapply Forall_impl; [by eapply right_of|]. simpl. lia. Qed.

(** What a removal of [nm] does to the elements. *)
Definition removed (nm : string) (es es' : list Elem) (d : Z) : Prop :=
  es' = del es nm /\ d = found_d es nm.

Lemma removeRight_spec fuel h nm c l e r :
  (forall h r, (size r < fuel)%nat -> sorted (elems r) -> del_pre_r h r ->
     (forall l e r', r = Node black l e r' -> is_red r' = true -> 0 <= Less e nm) ->
     exists r' d, delete_ fuel r nm = Ok (r', d) /\ del_post (color r) h r' /\
                  removed nm (elems r) (elems r') d) ->
  (size r < fuel)%nat -> sorted (elems l ++ e :: elems r) -> 0 <= Less e nm ->
  (Less e nm = 0 -> del_pre h r) -> del_pre_r h r ->
  (forall l e r', r = Node black l e r' -> is_red r' = true -> 0 <= Less e nm) ->
  exists e2 r2 d,
    removeRight (deleteMin fuel) (fun r => delete_ fuel r nm) nm (Node c l e r) = Ok (Node c l e2 r2, d) /\
    del_post (color r) h r2 /\ removed nm (elems l ++ e :: elems r) (elems l ++ e2 :: elems r2) d.
Proof.
  intros IH Hsz Hs Hle Hp Hpr Hside. unfold removeRight. cbn [getElem mbind result_bind].
  pose proof (ne_left _ _ _ _ Hs Hle) as HL. case_decide as Heq.
  - destruct (deleteMin_spec fuel h r) as (r' & e0 & E & Hpost & He); [lia|auto|].
    destruct (min_node_spec _ _ _ He) as (x & E1 & E2).
    cbn [getRight mbind result_bind]. rewrite E1. simpl. rewrite E2. simpl.
    rewrite (inRight_spec _ _ _ _ _ _ _ E). do 3 eexists. split; [done|]. split; [done|].
    pose proof (ne_right _ _ _ nm Hs ltac:(lia)) as HR. split.
    + rewrite del_app, (del_none (elems l)) by done. f_equal.
      unfold del. rewrite filter_cons_False by (intros H'; by apply H').
      rewrite <-He. symmetry. by apply del_none.
    + rewrite found_d_app_l by done. unfold found_d. simpl. by rewrite decide_True.
  - destruct (IH h r) as (r' & d & E & Hpost & He & ->); [lia|by eapply sorted_app_r|done|done|].
    rewrite (inRight_spec _ _ _ _ _ _ _ E). do 3 eexists. split; [done|]. split; [done|]. split.
    + rewrite del_app, (del_none (elems l)) by done. f_equal.
      unfold del. by rewrite filter_cons_True, He.
    + rewrite found_d_app_l by done. unfold found_d. simpl. by rewrite decide_False.
Qed.

(** The side condition of [removeRight_spec] is void for a node with no red
    right child. *)
Lemma no_red_right nm h n :
  del_pre h n -> forall l e r', n = Node black l e r' -> is_red r' = true -> 0 <= Less e nm.
Proof.
  intros [h' n' Hn|h' l0 e0 r0 Hl Hr] l e r' E Hr'; simplify_eq; [by inversion Hn|].
  by rewrite (is_red_black _ _ Hr) in Hr'.
Qed.

Lemma elems_suffix nm l pre suf e es :
  Forall (fun x => Less x nm <> 0) (e :: es) -> pre ++ suf = e :: es ->
  del (l ++ pre) nm ++ suf = del (l ++ e :: es) nm /\
  found_d (l ++ pre) nm = found_d (l ++ e :: es) nm.
Proof.
  intros HF E. rewrite <-E in *. apply Forall_app in HF as [Hp Hsuf]. split.
  - by rewrite app_assoc, (del_app (l ++ pre)), (del_none suf).
  - by rewrite app_assoc, (found_d_app_r _ suf).
Qed.

(** The right descent of [delete_], given what the recursive calls do. *)
Lemma delete_right fuel h nm c l e r :
  (forall h r, (size r < fuel)%nat -> sorted (elems r) -> del_pre_r h r ->
     (forall l e r', r = Node black l e r' -> is_red r' = true -> 0 <= Less e nm) ->
     exists r' d, delete_ fuel r nm = Ok (r', d) /\ del_post (color r) h r' /\
                  removed nm (elems r) (elems r') d) ->
  (size l + size r < fuel)%nat -> sorted (elems l ++ e :: elems r) -> 0 <= Less e nm ->
  (c = red /\ llrb black h l /\ llrb black h r /\ r <> Nil) \/
    (exists h', h = S h' /\ c = black /\ llrb black h' l /\ llrb red h' r) ->
  exists n' d,
    (descendRight (removeRight (deleteMin fuel) (fun r => delete_ fuel r nm) nm) (Node c l e r)
      ≫= fixUpRes) = Ok (n', d) /\
    del_post c h n' /\ removed nm (elems l ++ e :: elems r) (elems n') d.
Proof.
  intros IH Hsz Hs Hle Hst.
  apply (descendRight_spec _ (fun es d => removed nm (elems l ++ e :: elems r) es d)); [done|].
  intros c' l' e' hr r' Hsz' Hpr [(E1 & -> & E2 & Hp)|(b & r2 & -> & E1 & E2)].
  - rewrite <-E1, <-E2 in *.
    apply (removeRight_spec fuel hr nm c' l' e r'); [done|lia|done|done|done|done|by eapply no_red_right].
  - rewrite <-E1, <-E2 in *. pose proof (left_of _ _ _ nm Hs Hle) as HL.
    apply Forall_app in HL as [_ HL]. inversion HL as [|? ? He' _]; subst.
    rewrite <-app_assoc in *. simpl in Hs |- *.
    apply (removeRight_spec fuel hr nm c' l' e' (Node black b e r2));
      [done|simpl in *; lia|done|lia|lia|done|]. intros ? ? ? [= <- <- <-] _. done.
Qed.

(** The left descent. *)
Lemma delete_left fuel h nm c l e r :
  (forall h r, (size r < fuel)%nat -> sorted (elems r) -> del_pre_r h r ->
     (forall l e r', r = Node black l e r' -> is_red r' = true -> 0 <= Less e nm) ->
     exists r' d, delete_ fuel r nm = Ok (r', d) /\ del_post (color r) h r' /\
                  removed nm (elems r) (elems r') d) ->
  (size l + size r < fuel)%nat -> sorted (elems l ++ e :: elems r) -> Less e nm < 0 ->
  del_pre h (Node c l e r) ->
  exists n' d,
    (match l with
     | Nil => Ok (Node c l e r, 0)
     | Node _ _ _ _ => descendLeft (fun l => delete_ fuel l nm) (Node c l e r)
     end ≫= fixUpRes) = Ok (n', d) /\
    del_post c h n' /\ removed nm (elems l ++ e :: elems r) (elems n') d.
Proof.
  intros IH Hf Hs Hlt Hd.
  assert (HR : Forall (fun x => Less x nm <> 0) (e :: elems r)).
  { constructor; [lia|]. apply (ne_right (elems l) e); [done|lia]. }
  destruct l as [|cl ll le lr] eqn:El.
  { inversion Hd as [? ? H|? ? ? ? H]; subst; inversion H as [|? ? ? ? H1 H2|]; subst.
    inversion H1; subst. inversion H2; subst. simpl. eexists _, 0. split; [done|].
    split; [eauto with tree|]. simpl in *. split; [by rewrite del_none|].
    unfold found_d. by rewrite find_name_none. }
  rewrite <-El in *.
  destruct (descendLeft_spec (fun l => delete_ fuel l nm)
              (fun l0 l' d => removed nm (elems l0) (elems l') d) h c l e r)
    as (n' & d & l0 & l' & pre & suf & E & Hpost & E1 & E2 & [E3 ->] & E4); [done|by rewrite El| |].
  - intros hl l0 pre suf Hsz Hpre E1 E2. apply IH; [lia| |eauto with tree|by eapply no_red_right].
    rewrite <-E2, app_assoc, <-E1 in Hs. by eapply sorted_app_l.
  - eexists _, _. split; [exact E|]. split; [done|]. unfold removed.
    destruct (elems_suffix nm (elems l) pre suf e (elems r) HR E2) as [<- <-].
    split; [by rewrite E4, E3, E1|by rewrite E1].
Qed.

Lemma delete_spec fuel h n nm :
  (size n < fuel)%nat -> sorted (elems n) -> del_pre_r h n ->
  (forall l e r', n = Node black l e r' -> is_red r' = true -> 0 <= Less e nm) ->
  exists n' d, delete_ fuel n nm = Ok (n', d) /\ del_post (color n) h n' /\
               removed nm (elems n) (elems n') d.
Proof.
  revert h n. induction fuel as [|fuel IH]; intros h n Hf Hs Hp Hside; [lia|].
  destruct n as [|c l e r]; [inversion Hp as [? ? [? ? H|]|]; inversion H|].
  simpl in Hf. cbn [delete_ getElem getLeft mbind result_bind]. case_decide as Hlt.
  - apply delete_left; [done|lia|done|done|].
    inversion Hp as [|h' ? ? ? Hl Hr]; subst; [done|].
    pose proof (Hside l e r eq_refl). rewrite (is_red_color _ _ _ Hr) in *. lia.
  - assert (0 <= Less e nm) as Hle by lia. cbn [elems] in Hs.
    inversion Hp as [? ? [? ? Hn|h' ? ? ? Hl Hr]|h' ? ? ? Hl Hr]; subst.
    + inversion Hn as [|? ? ? ? Hl Hr|]; subst. rewrite (is_red_black _ _ Hl). simpl.
      destruct r as [|cr rl re rr] eqn:Er.
      { inversion Hr; subst. inversion Hl; subst. unfold removed, found_d, del. simpl.
        destruct (decide (Less e nm = 0)) as [E|E]; eexists _, _; (split; [done|]);
          [rewrite filter_cons_False by naive_solver|rewrite filter_cons_True by done];
          eauto with tree. }
      rewrite <-Er in *. apply (delete_right fuel h nm red l e r); [done|lia|done|done|].
      left. split_and!; [done..|by rewrite Er].
    + inversion Hl as [|? a x b Ha Hb|]; subst. simpl in Hs, Hf. simpl.
      rewrite <-app_assoc in *. simpl in Hs |- *.
      pose proof (ne_left (elems a) x (elems b ++ e :: elems r) nm Hs).
      apply (delete_right fuel (S h') nm black a x (Node red b e r));
        [done|simpl; lia|done| |right; eauto 10 with tree].
      rewrite app_comm_cons, app_assoc in Hs.
      pose proof (left_of _ _ _ nm Hs Hle) as HL. apply Forall_app in HL as [_ HL].
      inversion HL; subst. lia.
    + inversion Hr as [|? rl re rr Hrl Hrr|]; subst. rewrite (is_red_black _ _ Hl). simpl.
      apply (delete_right fuel (S h') nm black l e (Node red rl re rr));
        [done|simpl in *; lia|done|done|right; eauto 10 with tree].
Qed.

End delete.

(** ** Deletions on trees *)

Section tree_delete.
Context {N : DnsNames} {NS : DnsNamesSpec N} {MO : MapOrder}.

(** The root is black and has no parent to lend it a red link: the code
    runs as if it were red. *)
Lemma root_pre h n :
  llrb black h n -> n <> Nil ->
  exists n0 h0, (n = n0 \/ n = neg_root n0) /\ del_pre h0 n0 /\ elems n0 = elems n /\ size n0 = size n.
Proof.
  intros H Hn. inversion H as [| |h' [] l e r Hl Hr]; subst; [done|..].
  - exists (Node black l e r), (S h'). split_and!; [by left|by constructor|done|done].
  - exists (Node red l e r), h'. split_and!; [by right|by repeat constructor|done|done].
Qed.

Lemma finish_root t n c h d :
  llrb c h n -> exists t' h', finish t (n, d) = Ok t' /\ finish t (neg_root n, d) = Ok t' /\
    llrb black h' (Root t') /\ elems (Root t') = elems n /\ Count t' = Count t + d.
Proof.
  intros H. destruct n as [|c0 l e r]; simpl.
  - eexists _, 0%nat. split_and!; [done|done|constructor|done|done].
  - inversion H; subst; eexists _, _; split_and!; eauto with tree.
Qed.

(** A removal that works below a red root works on the whole tree. *)
Lemma on_root (f : node -> result go_fault (node * Z)) (Q : list Elem -> list Elem -> Z -> Prop) t h :
  Root t <> Nil -> llrb black h (Root t) ->
  (forall n, f (neg_root n) = neg_res <$> f n) ->
  (forall h n, size n = size (Root t) -> elems n = elems (Root t) -> del_pre h n ->
     exists n' d, f n = Ok (n', d) /\ del_post (color n) h n' /\ Q (elems n) (elems n') d) ->
  exists t' h' d, (f (Root t) ≫= finish t) = Ok t' /\ llrb black h' (Root t') /\
    Q (elems (Root t)) (elems (Root t')) d /\ Count t' = Count t + d.
Proof.
  intros Hn Hb Hneg Hf. destruct (root_pre _ _ Hb Hn) as (n0 & h0 & Hor & Hp & He & Hsz).
  destruct (Hf h0 n0 Hsz He Hp) as (n' & d & E & Hpost & HQ).
  assert (exists c, llrb c h0 n') as [c Hc] by (destruct (color n0); simpl in Hpost; eauto).
  destruct (finish_root t n' c h0 d Hc) as (t' & h' & F1 & F2 & Hb' & He' & Hcnt).
  exists t', h', d. rewrite He' in *. rewrite <-He. split_and!; [|done..].
  destruct Hor as [->| ->]; [by rewrite E|]. rewrite Hneg, E. done.
Qed.

Lemma sorted_tail e l : sorted (e :: l) -> sorted l.
Proof. by intros [_ H]%StronglySorted_cons. Qed.

Lemma DeleteMin_spec t :
  wf_tree t -> exists t', DeleteMin t = Ok t' /\ wf_tree t' /\ elems (Root t') = tail (elems (Root t)).
Proof.
  intros [[h Hh] Hs Hok Hc]. unfold DeleteMin. destruct (Root t) as [|c l e r] eqn:Er.
  { exists t. split; [done|]. rewrite Er. split; [|done]. split; rewrite ?Er; eauto. }
  rewrite <-Er in *.
  destruct (on_root (deleteMin (S (size (Root t)))) (fun es es' d => d = -1 /\ exists e0, es = e0 :: es') t h)
    as (t' & h' & d & E & Hb & (-> & e0 & He) & Hcnt); [by rewrite Er|done|apply deleteMin_neg| |].
  - intros h' n Hsz He Hp. destruct (deleteMin_spec (S (size (Root t))) h' n) as (n' & e0 & ? & ? & ?); [lia|done|].
    eauto 10.
  - exists t'. split; [exact E|]. rewrite He in *. split; [|done].
    split; [eauto|by eapply sorted_tail|by inversion Hok|]. rewrite Hcnt, Hc. simpl. lia.
Qed.

Lemma sorted_init l e : sorted (l ++ [e]) -> sorted l.
Proof. apply sorted_app_l. Qed.

Lemma DeleteMax_spec t :
  wf_tree t ->
  exists t', DeleteMax t = Ok t' /\ wf_tree t' /\ elems (Root t') = removelast (elems (Root t)).
Proof.
  intros [[h Hh] Hs Hok Hc]. unfold DeleteMax. destruct (Root t) as [|c l e r] eqn:Er.
  { exists t. split; [done|]. rewrite Er. split; [|done]. split; rewrite ?Er; eauto. }
  rewrite <-Er in *.
  destruct (on_root (deleteMax (S (size (Root t)))) (fun es es' d => d = -1 /\ exists e0, es = es' ++ [e0]) t h)
    as (t' & h' & d & E & Hb & (-> & e0 & He) & Hcnt); [by rewrite Er|done|apply deleteMax_neg| |].
  - intros h' n Hsz He Hp. destruct (deleteMax_spec (S (size (Root t))) h' n) as (n' & e0 & ? & ? & ?);
      [lia|eauto with tree|]. eauto 10.
  - exists t'. split; [exact E|]. rewrite He in *. split; [|by rewrite removelast_last].
    apply Forall_app in Hok as [Hok _].
    split; [eauto|by eapply sorted_init|done|]. rewrite Hcnt, Hc, length_app. simpl. lia.
Qed.

(** *** [deleteNode] and [Delete] *)

Lemma sorted_filter (P : Elem -> Prop) `{!forall e, Decision (P e)} l : sorted l -> sorted (filter P l).
Proof.
  unfold sorted. induction l as [|e l IH]; [done|]. intros [Hf Hs]%StronglySorted_cons.
  rewrite filter_cons. case_decide; [|by apply IH]. apply StronglySorted_cons.
  split; [|by apply IH]. rewrite Forall_forall in *. intros x [_ Hx]%list_elem_of_filter. by apply Hf.
Qed.

Lemma filter_Forall (P Q : Elem -> Prop) `{!forall e, Decision (P e)} l :
  Forall Q l -> Forall Q (filter P l).
Proof. rewrite !Forall_forall. intros HQ x [_ Hx]%list_elem_of_filter. by apply HQ. Qed.

Lemma del_length l q :
  sorted l -> Z.of_nat (length (del l q)) = Z.of_nat (length l) + found_d l q.
Proof.
  induction l as [|e l IH]; intros Hs; [done|]. unfold del, found_d in *. rewrite filter_cons. simpl.
  destruct (decide (Less e q = 0)) as [E|E].
  - rewrite decide_False by (intros H; by apply H).
    pose proof (del_none l q (ne_right [] e l q Hs ltac:(lia))) as Hd. unfold del in Hd. rewrite Hd. lia.
  - rewrite decide_True by done. simpl. rewrite Nat2Z.inj_succ, IH by (by eapply sorted_tail). lia.
Qed.

Lemma deleteNode_spec t rr :
  wf_tree t ->
  exists t', deleteNode t rr = Ok t' /\ wf_tree t' /\ elems (Root t') = del (elems (Root t)) (rr_name rr).
Proof.
  intros [[h Hh] Hs Hok Hc]. unfold deleteNode. destruct (Root t) as [|c l e r] eqn:Er.
  { exists t. split; [done|]. rewrite Er. split; [|done]. split; rewrite ?Er; eauto. }
  rewrite <-Er in *.
  destruct (on_root (fun n => delete_ (S (size (Root t))) n (rr_name rr)) (removed (rr_name rr)) t h)
    as (t' & h' & d & E & Hb & (He & ->) & Hcnt); [by rewrite Er|done|intros; apply delete_neg| |].
  - intros h' n Hsz He Hp. apply (delete_spec _ h'); [lia|by rewrite He|eauto with tree|].
    by eapply no_red_right.
  - exists t'. split; [exact E|]. split; [|done].
    split; [eauto|rewrite He; by apply sorted_filter|rewrite He; by apply filter_Forall|].
    by rewrite He, del_length, Hcnt, Hc.
Qed.

(** The element changed in place. *)
Definition upd (l : list Elem) (q : string) (f : Elem -> Elem) : list Elem :=
  (fun e => if decide (Less e q = 0) then f e else e) <$> l.

Lemma upd_none l q f : Forall (fun x => Less x q <> 0) l -> upd l q f = l.
Proof. induction 1; [done|]. cbn. rewrite decide_False by done. unfold upd in *. by f_equal. Qed.

Lemma upd_app l e r q f :
  upd (l ++ e :: r) q f = upd l q f ++ (if decide (Less e q = 0) then f e else e) :: upd r q f.
Proof. unfold upd. by rewrite fmap_app, fmap_cons. Qed.

Lemma update_found_elems n q f : sorted (elems n) -> elems (update_found n q f) = upd (elems n) q f.
Proof.
  induction n as [|c l IHl e r IHr]; intros Hs; cbn [update_found elems] in *; [done|].
  rewrite upd_app. repeat case_decide; cbn [elems].
  - rewrite !upd_none; [done|eapply ne_right; [done|lia]|eapply ne_left; [done|lia]].
  - rewrite IHl, (upd_none (elems r)); [done|eapply ne_right; [done|lia]|by eapply sorted_app_l].
  - rewrite IHr, (upd_none (elems l)); [done|eapply ne_left; [done|lia]|by eapply sorted_app_r].
Qed.

Lemma update_found_llrb c h n q f : llrb c h n -> llrb c h (update_found n q f).
Proof. induction 1; cbn [update_found]; repeat case_decide; eauto with tree. Qed.

Lemma ElemDelete_ok e rr : elem_ok e -> elem_ok (ElemDelete e rr).
Proof. intros He En t rrs r Ht. simpl in Ht. apply lookup_delete_Some in Ht as [_ Ht]. by eapply He. Qed.

Lemma ElemName_ElemDelete e rr : elem_ok e -> ElemName (ElemDelete e rr) = ElemName e.
Proof. intros He. by rewrite !ElemName_ok by auto using ElemDelete_ok. Qed.

Lemma upd_Less l q rr : Forall elem_ok l ->
  Forall2 (fun e e' => ElemName e' = ElemName e) l (upd l q (fun e => ElemDelete e rr)).
Proof.
  induction 1; cbn; constructor; [|done]. case_decide; [by apply ElemName_ElemDelete|done].
Qed.

Lemma upd_sorted l l' :
  Forall2 (fun e e' => ElemName e' = ElemName e) l l' -> sorted l -> sorted l'.
Proof.
  unfold sorted. induction 1 as [|x x' l l' Hx Hl IH]; [done|].
  rewrite !StronglySorted_cons. intros [Hf Hs]. split; [|by apply IH]. clear Hs IH.
  induction Hl as [|y y' l l' Hy Hl IH]; [done|]. inversion Hf as [|? ? Hxy Hf']; subst.
  constructor; [|by apply IH]. unfold name_lt in *. by rewrite Hx, Hy.
Qed.

(** The reference deletion: drop the records of the type, and the element
    with them when nothing is left. *)
Definition del_rr (l : list Elem) (rr : RR) : list Elem :=
  match find_name l (rr_name rr) with
  | None => l
  | Some el =>
      if Empty (ElemDelete el rr) then del l (rr_name rr)
      else upd l (rr_name rr) (fun e => ElemDelete e rr)
  end.

Lemma del_upd l q rr : Forall elem_ok l -> del (upd l q (fun e => ElemDelete e rr)) q = del l q.
Proof.
  induction 1 as [|e l He Hl IH]; [done|]. unfold del, upd in *. rewrite fmap_cons, !filter_cons.
  destruct (decide (Less e q = 0)) as [E|E].
  - rewrite !decide_False; [done|naive_solver|].
    unfold Less in *. rewrite ElemName_ElemDelete by done. naive_solver.
  - rewrite !decide_True by done. by rewrite IH.
Qed.

Lemma Delete_spec t rr :
  wf_tree t ->
  exists t', Delete t rr = Ok t' /\ wf_tree t' /\ elems (Root t') = del_rr (elems (Root t)) rr.
Proof.
  intros Hw. pose proof Hw as [[h Hh] Hs Hok Hc]. unfold Delete, del_rr.
  rewrite Search_find by done.
  destruct (Root t) as [|c l e r] eqn:Er; [by exists t; rewrite Er|]. rewrite <-Er in *.
  destruct (find_name (elems (Root t)) (rr_name rr)) as [el|] eqn:Ef; [|by exists t].
  set (t1 := mkTree _ _).
  assert (elems (Root t1) = upd (elems (Root t)) (rr_name rr) (fun e => ElemDelete e rr)) as E1
    by by apply update_found_elems.
  pose proof (upd_Less (elems (Root t)) (rr_name rr) rr Hok) as H2.
  assert (wf_tree t1) as Hw1.
  { split; rewrite ?E1.
    - exists h. by apply update_found_llrb.
    - by eapply upd_sorted.
    - unfold upd. apply Forall_fmap. eapply Forall_impl; [exact Hok|].
      intros x Hx. simpl. case_decide; auto using ElemDelete_ok.
    - simpl. unfold upd. by rewrite length_fmap. }
  destruct (Empty (ElemDelete el rr)); [|by exists t1].
  destruct (deleteNode_spec t1 rr Hw1) as (t' & E & Hw' & He). exists t'. split; [done|].
  split; [done|]. by rewrite He, E1, del_upd.
Qed.

Lemma find_name_del l q q' :
  sorted l ->
  find_name (del l q) q' = if decide (less q' q = 0) then None else find_name l q'.
Proof.
  induction l as [|e l IH]; intros Hs; [by destruct (decide _)|].
  unfold del in *. rewrite filter_cons. specialize (IH (sorted_tail _ _ Hs)).
  destruct (decide (Less e q = 0)) as [E|E]; [rewrite decide_False by naive_solver|rewrite decide_True by done].
  - rewrite IH. cbn [find_name]. case_decide as Q; [done|]. rewrite decide_False; [done|].
    intros E'. apply Q. unfold Less in *. eapply (cmp_eq_trans less); [done|]. by apply (cmp_sym less).
  - cbn [find_name]. rewrite IH. destruct (decide (Less e q' = 0)) as [E'|E']; [|done].
    rewrite decide_False; [done|]. intros Q. apply E. unfold Less in *.
    eapply (cmp_eq_trans less); [|done]. by apply (cmp_sym less).
Qed.

(** Names that [less] equates are answered alike. *)
Lemma find_name_eq l q q' : less q q' = 0 -> find_name l q = find_name l q'.
Proof.
  intros Q. induction l as [|e l IH]; [done|]. cbn [find_name]. rewrite IH. unfold Less.
  destruct (decide (less q (ElemName e) = 0)) as [E|E], (decide (less q' (ElemName e) = 0)) as [E'|E'];
    try done.
  - destruct E'. eapply (cmp_eq_trans less); [|done]. by apply (cmp_sym less).
  - destruct E. by eapply (cmp_eq_trans less).
Qed.

Lemma find_name_upd l q q' rr :
  Forall elem_ok l ->
  find_name (upd l q (fun e => ElemDelete e rr)) q' =
    if decide (less q' q = 0) then (fun e => ElemDelete e rr) <$> find_name l q' else find_name l q'.
Proof.
  induction 1 as [|e l He Hl IH]; [by case_decide|]. unfold upd in *. rewrite fmap_cons.
  cbn [find_name]. rewrite IH. unfold Less.
  destruct (decide (less q (ElemName e) = 0)) as [E|E];
    [rewrite ElemName_ElemDelete by done|];
    destruct (decide (less q' (ElemName e) = 0)) as [E'|E']; try done.
  - rewrite decide_True; [done|]. eapply (cmp_eq_trans less); [done|]. by apply (cmp_sym less).
  - rewrite decide_False; [done|]. intros Q. apply E.
    eapply (cmp_eq_trans less); [|done]. by apply (cmp_sym less).
Qed.

Lemma find_name_del_rr l rr q :
  sorted l -> Forall elem_ok l ->
  find_name (del_rr l rr) q =
    if decide (less q (rr_name rr) = 0) then
      match find_name l (rr_name rr) with
      | Some e => if Empty (ElemDelete e rr) then None else Some (ElemDelete e rr)
      | None => None
      end
    else find_name l q.
Proof.
  intros Hs Hok. unfold del_rr. destruct (find_name l (rr_name rr)) as [e|] eqn:E; cycle 1.
  { case_decide as Q; [|done]. by rewrite (find_name_eq _ _ _ Q). }
  destruct (Empty (ElemDelete e rr)); [by rewrite find_name_del|].
  rewrite find_name_upd by done. case_decide as Q; [|done].
  by rewrite (find_name_eq _ _ _ Q), E.
Qed.

(** C7. Deletion from a well-formed tree returns (no nil dereference, no
    exhausted recursion) a well-formed tree, in which the records of the
    type of [rr] are gone from the name of [rr], the name itself is gone
    when nothing else was there, and every other name is answered as
    before. *)
Theorem Search_Delete t rr :
  wf_tree t ->
  exists t', Delete t rr = Ok t' /\ wf_tree t' /\
    forall q, Search t' q =
      if decide (less q (rr_name rr) = 0) then
        match fst (Search t (rr_name rr)) with
        | Some e => if Empty (ElemDelete e rr) then (None, false) else (Some (ElemDelete e rr), true)
        | None => (None, false)
        end
      else Search t q.
Proof.
  intros Hw. destruct (Delete_spec t rr Hw) as (t' & E & Hw' & He).
  exists t'. split; [done|]. split; [done|]. intros q.
  pose proof (wf_sorted _ Hw) as Hs. pose proof (wf_sorted _ Hw') as Hs'.
  rewrite !(Search_find t) by done. rewrite (Search_find t') by done.
  rewrite He, find_name_del_rr by (done || apply Hw). simpl.
  repeat case_decide; try done. destruct (find_name _ _) as [e|]; [|done]. by destruct (Empty _).
Qed.

(** [DeleteMin] and [DeleteMax] remove exactly the first and the last
    element of the canonical order and keep the tree well-formed. *)
Theorem DeleteMinMax_wf t :
  wf_tree t ->
  (exists t', DeleteMin t = Ok t' /\ wf_tree t' /\ elems (Root t') = tail (elems (Root t))) /\
  (exists t', DeleteMax t = Ok t' /\ wf_tree t' /\ elems (Root t') = removelast (elems (Root t))).
Proof. split; [by apply DeleteMin_spec|by apply DeleteMax_spec]. Qed.

End tree_delete.

(** ** On a concrete zone *)

Module DeleteSample.
Import Sample.

Lemma Search_Delete_witness :
  snd (Search Sample.tree "www.example.org.") = true /\
  exists t', Delete Sample.tree (a_rr "www.example.org." 1) = Ok t' /\
    Search t' "www.example.org." = (None, false) /\ snd (Search t' "mail.example.org.") = true.
Proof.
  split; [reflexivity|].
  destruct (Search_Delete Sample.tree (a_rr "www.example.org." 1) tree_wf) as (t' & E & _ & Q).
  exists t'. split; [exact E|]. split; rewrite Q; reflexivity.
Defined.

Lemma DeleteMinMax_witness :
  exists t1 t2, DeleteMin Sample.tree = Ok t1 /\ DeleteMax Sample.tree = Ok t2 /\
    name <$> elems (Root t1) = ["a.example.org."; "b.a.example.org."; "mail.example.org."; "www.example.org."] /\
    name <$> elems (Root t2) = ["example.org."; "a.example.org."; "b.a.example.org."; "mail.example.org."].
Proof.
  destruct (DeleteMinMax_wf Sample.tree tree_wf) as [(t1 & E1 & _ & Q1) (t2 & E2 & _ & Q2)].
  exists t1, t2. split; [exact E1|]. split; [exact E2|]. rewrite Q1, Q2. split; reflexivity.
Defined.

End DeleteSample.
