(* ===== verification/TreeQuery.v ===== *)
(** * Queries of the zone tree

    [Prev], [Next], [Min], [Max], [All] and [Walk] (plugin/file/tree) against
    the sorted list of elements of the tree, and the logarithmic bound on the
    number of nodes a search visits. *)

From Stdlib Require Import Ascii ZArith Lia Sorting.Sorted.
From stdpp Require Import base gmap strings list numbers sorting.
From S2P Require Import Prelude DnsTypes Less Tree TreeInsert TreeDelete.

Local Open Scope Z_scope.

(** ** The cost of a descent *)

(** The length of the longest path, which bounds the calls of [search],
    [floor] and [ceil]. *)
Fixpoint depth (n : node) : nat :=
  match n with Nil => 0 | Node _ l _ r => S (Nat.max (depth l) (depth r)) end.

Section cost.
Context {N : DnsNames} {MO : MapOrder}.

(** The number of nodes [search] compares the name with. *)
Fixpoint search_visits (n : node) (qname : string) : nat :=
  match n with
  | Nil => 0
  | Node _ l e r =>
      let c := Less e qname in
      if decide (c = 0) then 1
      else if decide (c < 0) then S (search_visits l qname)
      else S (search_visits r qname)
  end.

Lemma search_visits_depth n q : (search_visits n q <= depth n)%nat.
Proof. induction n as [|c l IHl e r IHr]; simpl; [lia|]. repeat case_decide; lia. Qed.

End cost.

Lemma llrb_depth c h n :
  llrb c h n -> (depth n <= 2 * h + match c with red => 1 | black => 0 end)%nat.
Proof. induction 1 as [|h l e r Hl IHl Hr IHr|h [] l e r Hl IHl Hr IHr]; simpl in *; lia. Qed.

Lemma llrb_size c h n : llrb c h n -> (2 ^ h <= S (size n))%nat.
Proof. induction 1; simpl in *; lia. Qed.

Lemma size_elems n : size n = length (elems n).
Proof. induction n as [|c l IHl e r IHr]; simpl; [done|]. rewrite length_app. simpl. lia. Qed.

(** ** Traversals *)

Lemma all_elems n acc : all_ n acc = acc ++ elems n.
Proof.
  revert acc. induction n as [|c l IHl e r IHr]; intros acc; simpl; [by rewrite app_nil_r|].
  rewrite IHr, IHl, <-!app_assoc. done.
Qed.

(** Applying [fn] to a list of elements, stopping at the first error. *)
Fixpoint run_list {St Er : Type} (fn : St -> Elem -> result (St * Er) St) (l : list Elem) (s : St)
  : result (St * Er) St :=
  match l with
  | [] => Ok s
  | e :: l' => s' ← fn s e; run_list fn l' s'
  end.

Lemma run_list_app {St Er : Type} (fn : St -> Elem -> result (St * Er) St) l1 l2 s :
  run_list fn (l1 ++ l2) s = s' ← run_list fn l1 s; run_list fn l2 s'.
Proof. revert s. induction l1 as [|e l1 IH]; intros s; simpl; [done|]. destruct (fn s e); [apply IH|done]. Qed.

Lemma walk_elems {St Er : Type} (fn : St -> Elem -> result (St * Er) St) n s :
  walk fn n s = run_list fn (elems n) s.
Proof.
  revert s. induction n as [|c l IHl e r IHr]; intros s; simpl; [done|].
  rewrite run_list_app, IHl. destruct (run_list fn (elems l) s) as [s1|]; simpl; [|done].
  by destruct (fn s1 e); simpl.
Qed.

(** ** Neighbours *)

Section neighbours.
Context {N : DnsNames} {NS : DnsNamesSpec N} {MO : MapOrder}.

(** The elements at or before, and at or after, a name. *)
Definition le_name (l : list Elem) (q : string) : list Elem := filter (fun e => 0 <= Less e q) l.
Definition ge_name (l : list Elem) (q : string) : list Elem := filter (fun e => Less e q <= 0) l.

Lemma filter_no (P Q : Elem -> Prop) `{!forall e, Decision (P e)} l :
  Forall Q l -> (forall e, Q e -> ~ P e) -> filter P l = [].
Proof. intros HF HQ. induction HF; [done|]. rewrite filter_cons, decide_False by auto. done. Qed.

Lemma node_elem_last_app (l : list Elem) (e : Elem) r :
  last (l ++ e :: r) = match last r with Some x => Some x | None => Some e end.
Proof. rewrite last_app_cons, last_cons. by destruct (last r). Qed.

Lemma le_name_right l e r q : sorted (l ++ e :: r) -> Less e q <= 0 -> le_name r q = [].
Proof. intros Hs Hq. eapply filter_no; [by eapply right_of|]. simpl. lia. Qed.

Lemma ge_name_left l e r q : sorted (l ++ e :: r) -> 0 <= Less e q -> ge_name l q = [].
Proof. intros Hs Hq. eapply filter_no; [by eapply left_of|]. simpl. lia. Qed.

Lemma le_name_app l e r q :
  le_name (l ++ e :: r) q = le_name l q ++ (if decide (0 <= Less e q) then [e] else []) ++ le_name r q.
Proof. unfold le_name. rewrite filter_app, filter_cons. by case_decide. Qed.

Lemma ge_name_app l e r q :
  ge_name (l ++ e :: r) q = ge_name l q ++ (if decide (Less e q <= 0) then [e] else []) ++ ge_name r q.
Proof. unfold ge_name. rewrite filter_app, filter_cons. by case_decide. Qed.

Lemma floor_elems n q : sorted (elems n) -> (node_elem (floor n q)).1 = last (le_name (elems n) q).
Proof.
  induction n as [|c l IHl e r IHr]; intros Hs; cbn [floor elems] in *; [done|].
  rewrite le_name_app. repeat case_decide; try lia.
  - rewrite (le_name_right _ _ _ _ Hs), app_nil_r, last_snoc by lia. done.
  - rewrite (le_name_right _ _ _ _ Hs), !app_nil_r by lia. apply IHl. by eapply sorted_app_l.
  - simpl. rewrite node_elem_last_app, <-IHr by (by eapply sorted_app_r).
    by destruct (floor r q).
Qed.

Lemma ceil_elems n q : sorted (elems n) -> (node_elem (ceil n q)).1 = head (ge_name (elems n) q).
Proof.
  induction n as [|c l IHl e r IHr]; intros Hs; cbn [ceil elems] in *; [done|].
  rewrite ge_name_app. repeat case_decide; try lia.
  - by rewrite (ge_name_left _ _ _ _ Hs) by lia.
  - rewrite (ge_name_left _ _ _ _ Hs) by lia. apply IHr. by eapply sorted_app_r.
  - specialize (IHl (sorted_app_l _ _ Hs)). destruct (ceil l q), (ge_name (elems l) q); naive_solver.
Qed.

Lemma node_elem_bool n : node_elem n = ((node_elem n).1, bool_decide (is_Some (node_elem n).1)).
Proof. by destruct n. Qed.

Lemma max_node_elems n :
  n <> Nil -> exists m e, max_node n = Ok m /\ getElem m = Ok e /\ last (elems n) = Some e.
Proof.
  induction n as [|c l _ e r IHr]; [done|]. intros _. cbn [elems]. rewrite node_elem_last_app.
  destruct r as [|c' rl re rr]; [by exists (Node c l e Nil), e|].
  destruct IHr as (m & x & E & Ex & ->); [done|]. by exists m, x.
Qed.

Lemma min_node_elems n :
  n <> Nil -> exists m e, min_node n = Ok m /\ getElem m = Ok e /\ head (elems n) = Some e.
Proof.
  induction n as [|c l IHl e r _]; [done|]. intros _. cbn [elems].
  destruct l as [|c' ll le lr]; [by exists (Node c Nil e r), e|].
  destruct IHl as (m & x & E & Ex & Hh); [done|]. exists m, x. split; [done|]. split; [done|].
  by destruct (elems (Node c' ll le lr)).
Qed.

Lemma Prev_Next_elems t q :
  sorted (elems (Root t)) ->
  Prev t q = (last (le_name (elems (Root t)) q), bool_decide (is_Some (last (le_name (elems (Root t)) q)))) /\
  Next t q = (head (ge_name (elems (Root t)) q), bool_decide (is_Some (head (ge_name (elems (Root t)) q)))).
Proof.
  intros Hs. rewrite <-floor_elems, <-ceil_elems by done.
  unfold Prev, Next. destruct (Root t) as [|c l e r]; [done|]. by rewrite <-!node_elem_bool.
Qed.

(** [Prev] returns the last element whose name is at or before the query
    in canonical order and [Next] the first at or after it; both report
    absence exactly when there is none. *)
Theorem Prev_Next_neighbours t q :
  wf_tree t ->
  Prev t q = (last (le_name (elems (Root t)) q), bool_decide (is_Some (last (le_name (elems (Root t)) q)))) /\
  Next t q = (head (ge_name (elems (Root t)) q), bool_decide (is_Some (head (ge_name (elems (Root t)) q)))).
Proof. intros Hw. apply Prev_Next_elems, Hw. Qed.

(** Traversals meet every element once, in canonical order: [All] is the
    sorted list of elements, [Walk] runs the visitor along it and stops at
    its first error, [Min] and [Max] are its ends, and [Len] its length. *)
Theorem traversals_in_order {St Er : Type} (fn : St -> Elem -> result (St * Er) St) t s :
  wf_tree t ->
  sorted (All t) /\
  Walk fn t s = run_list fn (All t) s /\
  Min t = Ok (head (All t)) /\ Max t = Ok (last (All t)) /\
  Len t = Z.of_nat (length (All t)).
Proof.
  intros Hw. unfold All, Walk, Len. rewrite all_elems, walk_elems. simpl.
  split; [apply Hw|]. split; [done|]. split; [|split; [|apply Hw]].
  - unfold Min. destruct (Root t) as [|c l e r]; [done|].
    destruct (min_node_elems (Node c l e r)) as (m & x & -> & Ex & ->); [done|]. simpl. by rewrite Ex.
  - unfold Max. destruct (Root t) as [|c l e r]; [done|].
    destruct (max_node_elems (Node c l e r)) as (m & x & -> & Ex & ->); [done|]. simpl. by rewrite Ex.
Qed.

(** A search in a tree of [n] names compares the query with at most
    [2 * log2 (n + 1)] of them. *)
Theorem search_logarithmic t q :
  wf_tree t -> (search_visits (Root t) q <= 2 * Nat.log2 (S (length (elems (Root t)))))%nat.
Proof.
  intros Hw. destruct (wf_shape _ Hw) as [h Hh].
  pose proof (search_visits_depth (Root t) q). pose proof (llrb_depth _ _ _ Hh).
  pose proof (llrb_size _ _ _ Hh) as Hsz. rewrite size_elems in Hsz.
  apply Nat.log2_le_mono in Hsz. rewrite Nat.log2_pow2 in Hsz by lia. simpl in *. lia.
Qed.

End neighbours.

(** ** On a concrete zone *)

Module QuerySample.
Import Sample.

Lemma neighbours_witness :
  fst (Prev Sample.tree "c.example.org.") = find_name (elems (Root Sample.tree)) "b.a.example.org." /\
  fst (Next Sample.tree "c.example.org.") = find_name (elems (Root Sample.tree)) "mail.example.org.".
Proof.
  destruct (Prev_Next_neighbours Sample.tree "c.example.org." tree_wf) as [-> ->]. split; reflexivity.
Defined.

Definition collect (s : list string) (e : Elem) : result (list string * unit) (list string) :=
  if decide (length s = 3%nat) then Err (s, tt) else Ok (s ++ [name e]).

Lemma traversals_witness :
  Walk collect Sample.tree [] = Err (["example.org."; "a.example.org."; "b.a.example.org."], tt) /\
  Min Sample.tree = Ok (find_name (elems (Root Sample.tree)) "example.org.") /\ Len Sample.tree = 5.
Proof.
  destruct (traversals_in_order collect Sample.tree [] tree_wf) as (_ & -> & -> & _ & ->).
  split; [reflexivity|]. split; reflexivity.
Defined.

Lemma logarithmic_witness :
  length (elems (Root Sample.tree)) = 5%nat /\
  (search_visits (Root Sample.tree) "nx.example.org." <= 4)%nat.
Proof.
  split; [reflexivity|]. apply (search_logarithmic Sample.tree "nx.example.org." tree_wf).
Defined.

End QuerySample.
