(* ===== verification/Ip.v ===== *)
(** * IP addresses: the parts of Go's package [net] the sources use

    [ParseIP] follows the address parser of the Go library (package
    net/netip): dotted decimal without leading zeros, and hexadecimal groups
    with one ellipsis and an optional dotted tail.  An address is its 16
    bytes; an IPv4 address is in its IPv4-mapped form. *)

From Stdlib Require Import Ascii ZArith Lia.
From stdpp Require Import base numbers gmap strings list.
From S2P Require Import Prelude.

Local Open Scope Z_scope.

(** ** Dotted decimal *)

(** The loop of [parseIPv4Fields]: [val] and [dig] are the value and the
    number of digits of the current octet, [prev_dot] whether the byte before
    was a dot (or the start), [acc] the octets so far. *)
Fixpoint v4_fields (s : string) (val : Z) (dig : nat) (acc : list Z) : option (list Z) :=
  match s with
  | EmptyString =>
      if decide (dig = 0%nat) then None
      else if decide (length acc = 3%nat) then Some (acc ++ [val]) else None
  | String c s' =>
      match digit_of c with
      | Some d =>
          if decide (dig = 1%nat /\ val = 0) then None
          else
            let val' := val * 10 + d in
            if decide (255 < val') then None else v4_fields s' val' (S dig) acc
      | None =>
          if decide (c = "."%char) then
            if decide (dig = 0%nat) then None
            else if decide (length acc = 3%nat) then None
            else v4_fields s' 0 0 (acc ++ [val])
          else None
      end
  end.

Definition parseIPv4 (s : string) : option (list Z) := v4_fields s 0 0 [].

(** ** Hexadecimal groups *)

Definition hex_of (c : ascii) : option Z :=
  let n := byte_of c in
  if decide (48 <= n <= 57) then Some (n - 48)
  else if decide (97 <= n <= 102) then Some (n - 87)
  else if decide (65 <= n <= 70) then Some (n - 55)
  else None.

(** The digits at the head of [s]: how many, their value, what follows; more
    than four digits fail. *)
Fixpoint hex_group (s : string) (off : nat) (acc : Z) : option (nat * Z * string) :=
  match s with
  | EmptyString => Some (off, acc, s)
  | String c s' =>
      match hex_of c with
      | Some d => if decide (3 < off)%nat then None else hex_group s' (S off) (acc * 16 + d)
      | None => Some (off, acc, s)
      end
  end.

Fixpoint zeros (n : nat) : list Z := match n with O => [] | S n' => 0 :: zeros n' end.

(** After the loop: the whole string used, the ellipsis expanded. *)
Definition v6_finish (s : string) (ip : list Z) (ellipsis : option nat) : option (list Z) :=
  if decide (s <> EmptyString) then None
  else if decide (length ip < 16)%nat then
    match ellipsis with
    | None => None
    | Some k => Some (take k ip ++ zeros (16 - length ip) ++ drop k ip)
    end
  else match ellipsis with Some _ => None | None => Some ip end.

(** [for i < 16], [i] being the bytes of [ip]; two bytes per turn, so eight
    turns are enough fuel. *)
Fixpoint v6_loop (fuel : nat) (s : string) (ip : list Z) (ellipsis : option nat) : option (list Z) :=
  match fuel with
  | O => v6_finish s ip ellipsis
  | S fuel' =>
      if decide (length ip < 16)%nat then
        match hex_group s 0 0 with
        | None => None
        | Some (off, acc, rest) =>
            if decide (off = 0%nat) then None
            else if HasPrefix rest "." then
              if decide (ellipsis = None /\ length ip <> 12%nat) then None
              else if decide (16 < length ip + 4)%nat then None
              else match parseIPv4 s with
                   | None => None
                   | Some v4 => v6_finish EmptyString (ip ++ v4) ellipsis
                   end
            else
              let ip' := ip ++ [acc / 256; acc mod 256] in
              if decide (rest = EmptyString) then v6_finish EmptyString ip' ellipsis
              else if negb (HasPrefix rest ":") || bool_decide (String.length rest = 1%nat) then None
              else if HasPrefix rest "::" then
                match ellipsis with
                | Some _ => None
                | None =>
                    let rest' := drop_str 2 rest in
                    if decide (rest' = EmptyString) then v6_finish EmptyString ip' (Some (length ip'))
                    else v6_loop fuel' rest' ip' (Some (length ip'))
                end
              else v6_loop fuel' (drop_str 1 rest) ip' ellipsis
        end
      else v6_finish s ip ellipsis
  end.

Definition parseIPv6 (s : string) : option (list Z) :=
  if decide (s = "::") then Some (zeros 16)
  else if HasPrefix s "::" then v6_loop 8 (drop_str 2 s) [] (Some 0%nat)
  else v6_loop 8 s [] None.

(** ** [net.IP] *)

Definition v4_prefix : list Z := zeros 10 ++ [255; 255].

(** Which parser: the first of dot, colon and percent sign; an address with
    an IPv6 scope is refused. *)
Fixpoint classify_ip (s : string) : option bool :=
  match s with
  | EmptyString => None
  | String c s' =>
      if decide (c = "."%char) then Some true
      else if decide (c = ":"%char) then Some false
      else if decide (c = "%"%char) then None
      else classify_ip s'
  end.

Definition ParseIP (s : string) : option (list Z) :=
  match classify_ip s with
  | Some true => (fun v4 => v4_prefix ++ v4) <$> parseIPv4 s
  | Some false => if Contains s "%" then None else parseIPv6 s
  | None => None
  end.

(** [ip.To4()], nil as [None]; [ip.To16()] is the 16 bytes themselves. *)
Definition To4 (ip : list Z) : option (list Z) :=
  if decide (length ip = 4%nat) then Some ip
  else if decide (length ip = 16%nat /\ take 12 ip = v4_prefix) then Some (drop 12 ip)
  else None.

(** [net.IPNet] with a mask of leading ones. *)
Record IPNet := mkIPNet { net_IP : list Z; ones : nat }.

(** ** Facts *)

Lemma v4_fields_length s val dig acc ip : v4_fields s val dig acc = Some ip -> length ip = 4%nat.
Proof.
  revert val dig acc. induction s as [|c s IH]; intros val dig acc; simpl.
  - repeat case_decide; try done. intros [= <-]. rewrite length_app. simpl. lia.
  - destruct (digit_of c); repeat case_decide; try done; apply IH.
Qed.

Lemma parseIPv4_length s ip : parseIPv4 s = Some ip -> length ip = 4%nat.
Proof. apply v4_fields_length. Qed.

Lemma zeros_length n : length (zeros n) = n.
Proof. induction n; simpl; congruence. Qed.

Lemma v6_finish_length s ip ell r :
  (length ip <= 16)%nat -> v6_finish s ip ell = Some r -> length r = 16%nat.
Proof.
  intros Hl. unfold v6_finish. repeat case_decide; try done.
  - destruct ell as [k|]; [|done]. intros [= <-].
    rewrite !length_app, zeros_length, length_take, length_drop. lia.
  - destruct ell; [done|]. intros [= <-]. lia.
Qed.

Lemma v6_loop_length fuel s ip ell r :
  Nat.Even (length ip) -> (length ip <= 16)%nat -> v6_loop fuel s ip ell = Some r -> length r = 16%nat.
Proof.
  revert s ip ell. induction fuel as [|fuel IH]; intros s ip ell He Hl; simpl.
  { by apply v6_finish_length. }
  case_decide as Hi; [|by apply v6_finish_length].
  destruct (hex_group s 0 0) as [[[off acc] rest]|]; [|done].
  set (ip' := ip ++ [acc / 256; acc mod 256]).
  assert (length ip' = 2 + length ip)%nat as Hl' by (unfold ip'; rewrite length_app; simpl; lia).
  assert (Nat.Even (length ip')) as He' by (rewrite Hl'; destruct He as [m ->]; exists (S m); lia).
  assert (length ip + 2 <= 16)%nat by (destruct He as [m Hm]; lia).
  assert (forall s ell, v6_finish s ip' ell = Some r -> length r = 16%nat) as HF
    by (intros ??; apply v6_finish_length; lia).
  assert (forall s ell, v6_loop fuel s ip' ell = Some r -> length r = 16%nat) as HL
    by (intros ??; apply IH; [done|lia]).
  repeat (case_match; try done); eauto.
  apply v6_finish_length. rewrite length_app.
  match goal with H : parseIPv4 _ = Some _ |- _ => apply parseIPv4_length in H end. lia.
Qed.

(** A parsed address has 16 bytes. *)
Lemma ParseIP_length s ip : ParseIP s = Some ip -> length ip = 16%nat.
Proof.
  unfold ParseIP. destruct (classify_ip s) as [[]|]; [| |done].
  - destruct (parseIPv4 s) as [v4|] eqn:E; simpl; [|done]. intros [= <-].
    apply parseIPv4_length in E. simpl. lia.
  - destruct (Contains s "%"); [done|]. unfold parseIPv6. case_decide.
    + by intros [= <-].
    + destruct (HasPrefix s "::"); apply v6_loop_length; simpl; try lia; by exists 0%nat.
Qed.
