(* ===== verification/Store.v ===== *)
(** * The record store (plugin/hanzodns/store.go, store_sync.go)

    The tenant-scoped map of zones behind the REST API and the DNS handler.
    An operation takes the store and returns its result, the new store and
    whether it calls [notify] (the hook that rewrites the durable snapshot).
    The clock and [uuid.New] are arguments ([Env]).  Zones and records are
    values: the code hands out copies only ([z := zd.zone], [cp := *r]), so
    no caller holds a pointer into the store.

    The theorems on this file's operations are in StoreFacts.v. *)

From Stdlib Require Import Ascii ZArith Lia.
From stdpp Require Import base numbers gmap strings list.
From S2P Require Import Prelude.

Local Open Scope Z_scope.

(** ** Data *)

(** [RecordType] is a string type. *)
Module RecordType.
Definition A : string := "A".
Definition AAAA : string := "AAAA".
Definition CNAME : string := "CNAME".
Definition MX : string := "MX".
Definition TXT : string := "TXT".
Definition SRV : string := "SRV".
Definition NS : string := "NS".
Definition SOA : string := "SOA".
Definition CAA : string := "CAA".
End RecordType.

Definition ValidRecordTypes (t : string) : bool :=
  bool_decide (t ∈ [RecordType.A; RecordType.AAAA; RecordType.CNAME; RecordType.MX;
                    RecordType.TXT; RecordType.SRV; RecordType.NS; RecordType.SOA; RecordType.CAA]).

(** [time.Time] in UTC is a number of nanoseconds. *)
Record Record_ := mkRecord {
  ID : string;
  Name : string;
  Type_ : string;
  TTL : Z;
  Content : string;
  Priority : Z;
  Proxied : bool;
  CreatedAt : Z;
  UpdatedAt : Z }.

Record Zone := mkZone {
  ZID : string;
  ZName : string;
  Org : string;
  Provider_ : string;
  Status : string;
  Nameservers : list string;
  RecordCount : Z;
  DNSSECEnabled : bool;
  ZCreatedAt : Z;
  ZUpdatedAt : Z }.

Record zoneData := mkZoneData {
  zone : Zone;
  records : gmap string Record_ }.

(** The lock-protected map of [Store]; [onChange] is the flag an operation
    returns. *)
Abbreviation Store := (gmap string zoneData).

#[export] Instance Record_eq_dec : EqDecision Record_.
Proof. solve_decision. Defined.
#[export] Instance Zone_eq_dec : EqDecision Zone.
Proof. solve_decision. Defined.
#[export] Instance zoneData_eq_dec : EqDecision zoneData.
Proof. solve_decision. Defined.

Definition ProviderAuthoritative : string := "authoritative".
Definition ProviderCloudflare : string := "cloudflare".

(** provider.go: [ProviderRecord]. *)
Record ProviderRecord := mkProviderRecord {
  PID : string;
  PName : string;
  PType : string;
  PContent : string;
  PTTL : Z;
  PProxied : bool;
  PPriority : Z }.

Record RecordPatch := mkPatch {
  patch_Name : option string;
  patch_Type : option string;
  patch_TTL : option Z;
  patch_Content : option string;
  patch_Priority : option Z;
  patch_Proxied : option bool }.

Record SyncRecord := mkSyncRecord {
  sr_ID : string;
  sr_Name : string;
  sr_Type : string;
  sr_TTL : Z;
  sr_Content : string;
  sr_Priority : Z;
  sr_Proxied : bool }.

Record SyncZoneRequest := mkSyncZone {
  sz_Zone : string;
  sz_Records : list SyncRecord }.

Record SyncResponse := mkSyncResponse {
  resp_Zone : string;
  resp_RecordCount : Z;
  resp_Created : Z;
  resp_Deleted : Z }.

(** The error values; [Error] (in Api.v) renders their messages. *)
Inductive StoreErr : Type :=
| ErrZoneExists (key : string)
| ErrZoneNotFound (key : string)
| ErrRecordNotFound (id : string)
| ErrInvalidType (t : string)
| ErrMirrorNoID.

(** What an operation reads from outside: the clock, and the successive
    values of [uuid.New().String()] during the call. *)
Record Env := mkEnv {
  now : Z;
  uuid : nat -> string }.

(** Result, new store, whether [notify] is called. *)
Definition outcome (A : Type) : Type := (result StoreErr A * Store * bool)%type.

(** ** Helpers *)

Definition NewStore : Store := ∅.

Definition normZone (name : string) : string :=
  let name := ToLower (TrimSpace name) in
  if HasSuffix name dot then name else String.append name dot.

Definition zoneForOrg (s : Store) (org name : string) : option zoneData :=
  match s !! normZone name with
  | Some zd => if bool_decide (Org (zone zd) = org) then Some zd else None
  | None => None
  end.

(** [z := zd.zone; z.RecordCount = len(zd.records)] *)
Definition counted (zd : zoneData) : Zone :=
  let z := zone zd in
  mkZone (ZID z) (ZName z) (Org z) (Provider_ z) (Status z) (Nameservers z)
    (Z.of_nat (size (records zd))) (DNSSECEnabled z) (ZCreatedAt z) (ZUpdatedAt z).

(** [zd.zone.UpdatedAt = t] *)
Definition touch (t : Z) (z : Zone) : Zone :=
  mkZone (ZID z) (ZName z) (Org z) (Provider_ z) (Status z) (Nameservers z)
    (RecordCount z) (DNSSECEnabled z) (ZCreatedAt z) t.

Definition newZone (e : Env) (id key org provider : string) : Zone :=
  mkZone id key org provider "active" ["ns1.hanzo.ai."; "ns2.hanzo.ai."] 0 false (now e) (now e).

Definition fqdn (name zone : string) : string :=
  if bool_decide (name = "@") || bool_decide (name = EmptyString) then zone
  else if HasSuffix name dot then name
  else String.append name (String.append dot zone).

Section store.
Context {MO : MapOrder}.

(** ** Zones *)

Definition ListZones (org : string) (s : Store) : list Zone :=
  counted <$> filter (fun zd => Org (zone zd) = org) (map_range s).*2.

Definition GetZone (org name : string) (s : Store) : option Zone :=
  counted <$> zoneForOrg s org name.

Definition CreateZone (e : Env) (org name provider : string) (s : Store) : outcome Zone :=
  let key := normZone name in
  match s !! key with
  | Some _ => (Err (ErrZoneExists key), s, false)
  | None =>
      let z := newZone e (uuid e 0) key org provider in
      (Ok z, <[key := mkZoneData z ∅]> s, true)
  end.

Definition ZoneProvider (org name : string) (s : Store) : string * bool :=
  match zoneForOrg s org name with
  | None => (EmptyString, false)
  | Some zd =>
      if bool_decide (Provider_ (zone zd) = EmptyString) then (ProviderAuthoritative, true)
      else (Provider_ (zone zd), true)
  end.

Definition DeleteZone (org name : string) (s : Store) : outcome unit :=
  let key := normZone name in
  match zoneForOrg s org name with
  | None => (Err (ErrZoneNotFound key), s, false)
  | Some _ => (Ok tt, delete key s, true)
  end.

(** ** Records *)

Definition ListRecords (org zn : string) (s : Store) : result StoreErr (list Record_) :=
  match zoneForOrg s org zn with
  | None => Err (ErrZoneNotFound (normZone zn))
  | Some zd => Ok (map_range (records zd)).*2
  end.

Definition GetRecord (org zn id : string) (s : Store) : result StoreErr Record_ :=
  match zoneForOrg s org zn with
  | None => Err (ErrZoneNotFound (normZone zn))
  | Some zd =>
      match records zd !! id with
      | None => Err (ErrRecordNotFound id)
      | Some r => Ok r
      end
  end.

Definition CreateRecord (e : Env) (org zn name rtype : string) (ttl : Z) (content : string)
  (priority : Z) (proxied : bool) (s : Store) : outcome Record_ :=
  let key := normZone zn in
  if negb (ValidRecordTypes rtype) then (Err (ErrInvalidType rtype), s, false)
  else
    match zoneForOrg s org zn with
    | None => (Err (ErrZoneNotFound key), s, false)
    | Some zd =>
        let r := mkRecord (uuid e 0) name rtype ttl content priority proxied (now e) (now e) in
        (Ok r,
         <[key := mkZoneData (touch (now e) (zone zd)) (<[ID r := r]> (records zd))]> s,
         true)
    end.

Definition PutMirror (e : Env) (org zn : string) (rec : ProviderRecord) (s : Store) : outcome unit :=
  let key := normZone zn in
  if bool_decide (PID rec = EmptyString) then (Err ErrMirrorNoID, s, false)
  else if negb (ValidRecordTypes (PType rec)) then (Err (ErrInvalidType (PType rec)), s, false)
  else
    match zoneForOrg s org zn with
    | None => (Err (ErrZoneNotFound key), s, false)
    | Some zd =>
        let created := match records zd !! PID rec with
                       | Some existing => CreatedAt existing
                       | None => now e
                       end in
        let r := mkRecord (PID rec) (PName rec) (PType rec) (PTTL rec) (PContent rec)
                   (PPriority rec) (PProxied rec) created (now e) in
        (Ok tt,
         <[key := mkZoneData (touch (now e) (zone zd)) (<[PID rec := r]> (records zd))]> s,
         true)
    end.

Definition DropMirror (e : Env) (org zn id : string) (s : Store) : outcome unit :=
  match zoneForOrg s org zn with
  | None => (Ok tt, s, false)
  | Some zd =>
      match records zd !! id with
      | None => (Ok tt, s, false)
      | Some _ =>
          (Ok tt,
           <[normZone zn := mkZoneData (touch (now e) (zone zd)) (delete id (records zd))]> s,
           true)
      end
  end.

(** The assignments of [UpdateRecord], in their order. *)
Definition set_Name (v : option string) (r : Record_) : Record_ :=
  mkRecord (ID r) (default (Name r) v) (Type_ r) (TTL r) (Content r) (Priority r) (Proxied r)
    (CreatedAt r) (UpdatedAt r).
Definition set_rest (p : RecordPatch) (t : Z) (r : Record_) : Record_ :=
  mkRecord (ID r) (Name r) (default (Type_ r) (patch_Type p)) (default (TTL r) (patch_TTL p))
    (default (Content r) (patch_Content p)) (default (Priority r) (patch_Priority p))
    (default (Proxied r) (patch_Proxied p)) (CreatedAt r) t.

(** The record is changed through its pointer, so the new name stays when
    the type is then refused. *)
Definition UpdateRecord (e : Env) (org zn id : string) (patch : RecordPatch) (s : Store)
  : outcome Record_ :=
  let key := normZone zn in
  match zoneForOrg s org zn with
  | None => (Err (ErrZoneNotFound key), s, false)
  | Some zd =>
      match records zd !! id with
      | None => (Err (ErrRecordNotFound id), s, false)
      | Some r =>
          let r1 := set_Name (patch_Name patch) r in
          let refused := match patch_Type patch with
                         | Some t => if ValidRecordTypes t then None else Some t
                         | None => None
                         end in
          match refused with
          | Some t =>
              (Err (ErrInvalidType t),
               <[key := mkZoneData (zone zd) (<[id := r1]> (records zd))]> s, false)
          | None =>
              let r2 := set_rest patch (now e) r1 in
              (Ok r2,
               <[key := mkZoneData (touch (now e) (zone zd)) (<[id := r2]> (records zd))]> s,
               true)
          end
      end
  end.

Definition DeleteRecord (e : Env) (org zn id : string) (s : Store) : outcome unit :=
  let key := normZone zn in
  match zoneForOrg s org zn with
  | None => (Err (ErrZoneNotFound key), s, false)
  | Some zd =>
      match records zd !! id with
      | None => (Err (ErrRecordNotFound id), s, false)
      | Some _ =>
          (Ok tt,
           <[key := mkZoneData (touch (now e) (zone zd)) (delete id (records zd))]> s,
           true)
      end
  end.

(** ** Serving *)

(** The body of the loop over the zones. *)
Definition zone_matches (qname qtype : string) (kz : string * zoneData) : list Record_ :=
  let '(zoneName, zd) := kz in
  if HasSuffix qname zoneName then
    filter (fun r => ToLower (fqdn (Name r) zoneName) = qname /\ Type_ r = qtype)
      (map_range (records zd)).*2
  else [].

Definition Lookup (qname qtype : string) (s : Store) : list Record_ :=
  map_range s ≫= zone_matches (ToLower qname) qtype.

Definition ZoneNames (s : Store) : list string := (map_range s).*1.

(** ** Bulk sync: store_sync.go *)

(** The loop over [req.Records]: [k] counts the calls of [uuid.New]. *)
Fixpoint sync_records (e : Env) (k : nat) (l : list SyncRecord) (acc : gmap string Record_)
  : gmap string Record_ :=
  match l with
  | [] => acc
  | sr :: l' =>
      if negb (ValidRecordTypes (sr_Type sr)) then sync_records e k l' acc
      else
        let '(id, k') := if bool_decide (sr_ID sr = EmptyString) then (uuid e k, S k)
                         else (sr_ID sr, k) in
        let ttl := if bool_decide (sr_TTL sr = 0) then 300 else sr_TTL sr in
        let r := mkRecord id (sr_Name sr) (sr_Type sr) ttl (sr_Content sr) (sr_Priority sr)
                   (sr_Proxied sr) (now e) (now e) in
        sync_records e k' l' (<[id := r]> acc)
  end.

(** [defer s.notify()] runs on every return, the refusal included. *)
Definition BulkSync (e : Env) (org : string) (req : SyncZoneRequest) (s : Store)
  : outcome SyncResponse :=
  let key := normZone (sz_Zone req) in
  let put z old k :=
    let rs := sync_records e k (sz_Records req) ∅ in
    let n := Z.of_nat (size rs) in
    (Ok (mkSyncResponse key n n old), <[key := mkZoneData (touch (now e) z) rs]> s, true) in
  match s !! key with
  | Some zd =>
      if bool_decide (Org (zone zd) = org)
      then put (zone zd) (Z.of_nat (size (records zd))) 0%nat
      else (Err (ErrZoneExists key), s, true)
  | None => put (newZone e (uuid e 0) key org EmptyString) 0 1%nat
  end.

End store.
