(* ===== verification/StoreFacts.v ===== *)
(** * Correctness of the record store

    The operations of Store.v as one transition function ([exec]), and its
    theorems: the well-formedness invariant, tenant isolation as a simulation
    between the shared store and a private store per tenant, and the laws of
    the record operations. *)

From Stdlib Require Import Ascii ZArith Lia.
From stdpp Require Import base numbers gmap strings list.
From S2P Require Import Prelude Store.

Local Open Scope Z_scope.

(** ** The operations as data *)

Inductive Op : Type :=
| OListZones
| OGetZone (name : string)
| OCreateZone (name provider : string)
| OZoneProvider (name : string)
| ODeleteZone (name : string)
| OListRecords (zn : string)
| OGetRecord (zn id : string)
| OCreateRecord (zn name rtype : string) (ttl : Z) (content : string) (priority : Z) (proxied : bool)
| OPutMirror (zn : string) (rec : ProviderRecord)
| ODropMirror (zn id : string)
| OUpdateRecord (zn id : string) (patch : RecordPatch)
| ODeleteRecord (zn id : string)
| OBulkSync (req : SyncZoneRequest).

Inductive Out : Type :=
| OutZones (l : list Zone)
| OutZone (z : option Zone)
| OutNewZone (r : result StoreErr Zone)
| OutProvider (p : string * bool)
| OutUnit (r : result StoreErr unit)
| OutRecords (r : result StoreErr (list Record_))
| OutRecord (r : result StoreErr Record_)
| OutSync (r : result StoreErr SyncResponse).

(** The operation's result, wrapped. *)
Definition wrap {A} (f : result StoreErr A -> Out) (o : outcome A) : Out * Store * bool :=
  let '(r, s, ch) := o in (f r, s, ch).

Section exec.
Context {MO : MapOrder}.

Definition exec (e : Env) (org : string) (op : Op) (s : Store) : Out * Store * bool :=
  match op with
  | OListZones => (OutZones (ListZones org s), s, false)
  | OGetZone n => (OutZone (GetZone org n s), s, false)
  | OCreateZone n p => wrap OutNewZone (CreateZone e org n p s)
  | OZoneProvider n => (OutProvider (ZoneProvider org n s), s, false)
  | ODeleteZone n => wrap OutUnit (DeleteZone org n s)
  | OListRecords z => (OutRecords (ListRecords org z s), s, false)
  | OGetRecord z id => (OutRecord (GetRecord org z id s), s, false)
  | OCreateRecord z n t ttl c p px => wrap OutRecord (CreateRecord e org z n t ttl c p px s)
  | OPutMirror z rec => wrap OutUnit (PutMirror e org z rec s)
  | ODropMirror z id => wrap OutUnit (DropMirror e org z id s)
  | OUpdateRecord z id p => wrap OutRecord (UpdateRecord e org z id p s)
  | ODeleteRecord z id => wrap OutUnit (DeleteRecord e org z id s)
  | OBulkSync req => wrap OutSync (BulkSync e org req s)
  end.

End exec.

(** The key an operation may create. *)
Definition creates (op : Op) : option string :=
  match op with
  | OCreateZone n _ => Some (normZone n)
  | OBulkSync req => Some (normZone (sz_Zone req))
  | _ => None
  end.

(** ** A tenant's view of the store *)

Definition view (o : string) (s : gmap string zoneData) : gmap string zoneData :=
  filter (fun kz => Org (zone kz.2) = o) s.

Lemma lookup_view o s k :
  view o s !! k = match s !! k with
                  | Some zd => if bool_decide (Org (zone zd) = o) then Some zd else None
                  | None => None
                  end.
Proof.
  unfold view. rewrite map_lookup_filter. destruct (s !! k) as [zd|]; [|done]. simpl.
  case_bool_decide; [by rewrite option_guard_True|by rewrite option_guard_False].
Qed.

(** The one gate every operation goes through reads the tenant's view. *)
Lemma zoneForOrg_view s o n : zoneForOrg s o n = view o s !! normZone n.
Proof. by rewrite lookup_view. Qed.

Lemma view_view o s : view o (view o s) = view o s.
Proof. apply map_eq. intros k. rewrite !lookup_view. repeat (case_match; simplify_eq; try done). Qed.

Lemma view_insert_own o s k zd : Org (zone zd) = o -> view o (<[k := zd]> s) = <[k := zd]> (view o s).
Proof. intros E. unfold view. by rewrite map_filter_insert_True. Qed.

Lemma view_delete o s k : view o (delete k s) = delete k (view o s).
Proof. apply map_filter_delete. Qed.

(** What a step may do to the store: nothing, or write at one key that is
    free or the tenant's own a value that is the tenant's own. *)
Definition own_write (org : string) (s s' : Store) : Prop :=
  s' = s \/ exists k v, s' = partial_alter (fun _ => v) k s /\
    (forall zd, s !! k = Some zd -> Org (zone zd) = org) /\
    (forall zd, v = Some zd -> Org (zone zd) = org).

Lemma own_write_insert org s k zd :
  (forall zd', s !! k = Some zd' -> Org (zone zd') = org) -> Org (zone zd) = org ->
  own_write org s (<[k := zd]> s).
Proof. intros H1 H2. right. exists k, (Some zd). split; [done|]. naive_solver. Qed.

Lemma zoneForOrg_Some s org n zd :
  zoneForOrg s org n = Some zd <-> s !! normZone n = Some zd /\ Org (zone zd) = org.
Proof.
  unfold zoneForOrg. destruct (s !! normZone n) as [zd'|]; [|naive_solver].
  case_bool_decide; naive_solver.
Qed.

Lemma own_write_zone org s n zd zd' :
  zoneForOrg s org n = Some zd -> Org (zone zd') = Org (zone zd) ->
  own_write org s (<[normZone n := zd']> s).
Proof.
  intros [E <-]%zoneForOrg_Some E'. apply own_write_insert; [|done].
  intros zd'' E2. rewrite E in E2. by injection E2 as ->.
Qed.

(** ** Tenant isolation *)

(** Results up to the order in which a map is listed. *)
Inductive out_equiv : Out -> Out -> Prop :=
| out_same o : out_equiv o o
| out_zones l l' : l ≡ₚ l' -> out_equiv (OutZones l) (OutZones l').

(** The new name, if the operation creates one, is not another tenant's. *)
Definition name_free (org : string) (op : Op) (s : Store) : bool :=
  match creates op with
  | Some k => match s !! k with
              | Some zd => bool_decide (Org (zone zd) = org)
              | None => true
              end
  | None => true
  end.

Section isolation.
Context {MO : MapOrder}.

Lemma ListZones_view org s : ListZones org s ≡ₚ ListZones org (view org s).
Proof.
  unfold ListZones. rewrite !filter_snd, !map_range_filter.
  fold (view org s). fold (view org (view org s)). by rewrite view_view.
Qed.

Lemma view_lookup_own org s k zd : view org s !! k = Some zd -> Org (zone zd) = org.
Proof. rewrite lookup_view. intros. by repeat case_match; simplify_eq; case_bool_decide. Qed.

Lemma name_free_view org op s k :
  name_free org op s = true -> creates op = Some k -> view org s !! k = s !! k.
Proof.
  unfold name_free. intros Hf E. rewrite E in Hf. rewrite lookup_view.
  destruct (s !! k) as [zd|]; [by rewrite Hf|done].
Qed.

(** The step of a tenant on the shared store is the step on a store that
    holds nothing but the tenant's own zones. *)
Lemma exec_view e org op s :
  name_free org op s = true ->
  let '(o1, s1, c1) := exec e org op s in
  let '(o2, s2, c2) := exec e org op (view org s) in
  out_equiv o1 o2 /\ view org s1 = s2 /\ c1 = c2.
Proof.
  pose proof (view_lookup_own org s) as Ho.
  intros Hf. pose proof (fun k => name_free_view _ _ _ k Hf) as Hv. destruct op; simpl in *;
    unfold GetZone, CreateZone, ZoneProvider, DeleteZone, ListRecords, GetRecord, CreateRecord,
      PutMirror, DropMirror, UpdateRecord, DeleteRecord, BulkSync;
    rewrite ?zoneForOrg_view, ?view_view, ?(Hv _ eq_refl).
  { split; [constructor; apply ListZones_view|done]. }
  all: clear Hf Hv; repeat (case_match; simplify_eq/=; try done).
  all: split_and!; try done; try by constructor.
  all: rewrite ?view_delete, ?view_insert_own by (simpl; eauto); try done.
  rewrite view_insert_own; [done|by eapply bool_decide_eq_true_1].
Qed.

(** A step writes only where the tenant may. *)
Lemma exec_own_write e org op s : own_write org s (exec e org op s).1.2.
Proof.
  destruct op; simpl; try (by left);
    unfold CreateZone, DeleteZone, CreateRecord, PutMirror, DropMirror, UpdateRecord, DeleteRecord,
      BulkSync; repeat (case_match; simplify_eq/=; try by left).
  all: try (eapply own_write_zone; [done|done]).
  - by apply own_write_insert; [intros; simplify_map_eq|].
  - right. exists (normZone name), None. split; [done|].
    apply zoneForOrg_Some in H as [E <-]. split; intros; by simplify_map_eq.
  - apply own_write_insert; [intros; simplify_map_eq|]; by eapply bool_decide_eq_true_1.
  - by apply own_write_insert; [intros; simplify_map_eq|].
Qed.

Lemma own_write_view org o s s' : own_write org s s' -> o <> org -> view o s' = view o s.
Proof.
  intros [->|(k & v & -> & H1 & H2)] Ho; [done|]. apply map_eq. intros k'. rewrite !lookup_view.
  destruct (decide (k = k')) as [->|Hk]; [|by rewrite lookup_partial_alter_ne].
  rewrite lookup_partial_alter_eq.
  destruct (s !! k') as [zd|], v as [zd'|]; try done;
    rewrite ?bool_decide_eq_false_2; try done; intros <-; naive_solver.
Qed.

(** ** Histories *)

(** A request: when, who, what. *)
Record Req := mkReq { req_env : Env; req_org : string; req_op : Op }.

(** The answers, each with the tenant it goes to, and the final store. *)
Fixpoint run (tr : list Req) (s : Store) : list (string * Out) * Store :=
  match tr with
  | [] => ([], s)
  | q :: tr' =>
      let '(o, s', _) := exec (req_env q) (req_org q) (req_op q) s in
      let '(os, s'') := run tr' s' in
      ((req_org q, o) :: os, s'')
  end.

(** The zones tenant [o] creates along the history are free or its own. *)
Fixpoint names_free (o : string) (tr : list Req) (s : Store) : bool :=
  match tr with
  | [] => true
  | q :: tr' =>
      (bool_decide (req_org q <> o) || name_free o (req_op q) s) &&
      names_free o tr' (exec (req_env q) (req_org q) (req_op q) s).1.2
  end.

Definition answers_to (o : string) (os : list (string * Out)) : list Out :=
  (filter (fun p => p.1 = o) os).*2.

(** C1. Tenant isolation.  Take any history of requests by any tenants on the
    shared store, in which tenant [o] never claims a zone name another tenant
    holds.  The answers [o] gets, and the zones [o] ends with, are those of
    the history with every other tenant's requests removed, run on a store
    that never held any other tenant's zone. *)
Theorem tenant_noninterference o tr s :
  names_free o tr s = true ->
  Forall2 out_equiv (answers_to o (run tr s).1)
    (run (filter (fun q => req_org q = o) tr) (view o s)).1.*2 /\
  view o (run tr s).2 = (run (filter (fun q => req_org q = o) tr) (view o s)).2.
Proof.
  revert s. induction tr as [|[e org op] tr IH]; intros s; [done|]. simpl.
  intros [Hn Hf]%andb_prop. rewrite filter_cons. simpl.
  pose proof (exec_own_write e org op s) as Hw. pose proof (exec_view e org op s) as Hx.
  destruct (exec e org op s) as [[o1 s1] c1] eqn:E. simpl in *. destruct (IH _ Hf) as [IH1 IH2].
  destruct (run tr s1) as [os s2]. simpl in *. unfold answers_to in *.
  rewrite filter_cons. simpl. destruct (decide (org = o)) as [->|Ho]; simpl.
  - rewrite bool_decide_eq_false_2 in Hn by tauto.
    specialize (Hx Hn). destruct (exec e o op (view o s)) as [[o2 s2'] c2].
    destruct Hx as (Hq & <- & _). destruct (run _ (view o s1)) as [os' s'']; simpl in *.
    split; [by constructor|done].
  - rewrite <-(own_write_view org o s s1) by done. done.
Qed.

(** ** The invariant *)

Definition zone_wf (k : string) (zd : zoneData) : Prop :=
  ZName (zone zd) = k /\ normZone k = k /\
  forall id r, records zd !! id = Some r -> ID r = id /\ ValidRecordTypes (Type_ r) = true.

Definition store_wf (s : Store) : Prop := map_Forall zone_wf s.

Lemma normZone_idemp n : normZone (normZone n) = normZone n.
Proof.
  unfold normZone. set (l := ToLower (TrimSpace n)).
  assert (ToLower l = l) as El by apply ToLower_idemp.
  assert (TrimSpace l = l) as Et by (unfold l; by rewrite TrimSpace_lower, TrimSpace_idemp).
  destruct (HasSuffix l dot) eqn:Hd; [by rewrite Et, El, Hd|].
  rewrite TrimSpace_app_dot, ToLower_app, El by done. simpl (ToLower dot).
  by rewrite HasSuffix_app.
Qed.

Lemma zone_wf_touch k zd t rs :
  zone_wf k zd ->
  (forall id r, rs !! id = Some r -> ID r = id /\ ValidRecordTypes (Type_ r) = true) ->
  zone_wf k (mkZoneData (touch t (zone zd)) rs).
Proof. intros (H1 & H2 & _) H. by split_and!. Qed.

Definition recs_wf (rs : gmap string Record_) : Prop :=
  forall id r, rs !! id = Some r -> ID r = id /\ ValidRecordTypes (Type_ r) = true.

Lemma recs_wf_insert rs id r :
  recs_wf rs -> ID r = id -> ValidRecordTypes (Type_ r) = true -> recs_wf (<[id := r]> rs).
Proof. intros H E V id' r' [[<- <-]|[_ Hr]]%lookup_insert_Some; [done|by apply H]. Qed.

Lemma recs_wf_delete rs id : recs_wf rs -> recs_wf (delete id rs).
Proof. intros H id' r' [_ Hr]%lookup_delete_Some. by apply H. Qed.

Lemma sync_records_wf e k l acc : recs_wf acc -> recs_wf (sync_records e k l acc).
Proof.
  revert k acc. induction l as [|sr l IH]; intros k acc H; simpl; [done|].
  destruct (ValidRecordTypes (sr_Type sr)) eqn:V; simpl; [|by apply IH].
  case_bool_decide; apply IH; by apply recs_wf_insert.
Qed.

Lemma zoneForOrg_wf s org n zd :
  store_wf s -> zoneForOrg s org n = Some zd -> zone_wf (normZone n) zd.
Proof. intros Hw [E _]%zoneForOrg_Some. by apply Hw in E. Qed.

Lemma newZone_wf e id n org p rs :
  recs_wf rs -> zone_wf (normZone n) (mkZoneData (newZone e id (normZone n) org p) rs).
Proof. intros H. split_and!; [done|apply normZone_idemp|done]. Qed.

(** Writing a zone of the tenant back with new records. *)
Lemma put_wf s org n zd z rs :
  store_wf s -> zoneForOrg s org n = Some zd -> ZName z = ZName (zone zd) -> recs_wf rs ->
  store_wf (<[normZone n := mkZoneData z rs]> s).
Proof.
  intros Hw E Ez Hr. apply map_Forall_insert_2; [|done].
  destruct (zoneForOrg_wf _ _ _ _ Hw E) as (H1 & H2 & _). split_and!; [by rewrite <-H1|done|done].
Qed.

Lemma exec_wf e org op s : store_wf s -> store_wf (exec e org op s).1.2.
Proof.
  intros Hw. destruct op; simpl; try done;
    unfold CreateZone, DeleteZone, CreateRecord, PutMirror, DropMirror, UpdateRecord, DeleteRecord,
      BulkSync; repeat (case_match; simplify_eq/=; try done).
  all: try match goal with H : zoneForOrg _ _ _ = Some _ |- _ =>
    pose proof (zoneForOrg_wf _ _ _ _ Hw H) as (? & ? & ?) end.
  all: try match goal with H : negb _ = false |- _ => apply negb_false_iff in H end.
  all: try match goal with H : records _ !! _ = Some ?r, W : forall id r, _ -> _ /\ _ |- _ =>
    destruct (W _ _ H) end.
  all: try (eapply put_wf; [done|done|done|]; auto using recs_wf_insert, recs_wf_delete; fail).
  - apply map_Forall_insert_2; [|done]. by apply newZone_wf.
  - by apply map_Forall_delete.
  - eapply put_wf; [done..|]. apply recs_wf_insert; [done..|]. simpl. by rewrite H2.
  - eapply put_wf; [done..|]. apply recs_wf_insert; [done..|]. simpl. by rewrite H2.
  - apply map_Forall_insert_2; [|done]. destruct (Hw _ _ H) as (H1 & H2 & _).
    split_and!; [done|done|]. by apply sync_records_wf.
  - apply map_Forall_insert_2; [|done].
    split_and!; [done|apply normZone_idemp|]. by apply sync_records_wf.
Qed.

Lemma run_wf tr s : store_wf s -> store_wf (run tr s).2.
Proof.
  revert s. induction tr as [|[e org op] tr IH]; intros s Hw; [done|]. simpl.
  pose proof (exec_wf e org op s Hw) as H1. destruct (exec e org op s) as [[o s1] c]. simpl in *.
  specialize (IH s1 H1). by destruct (run tr s1).
Qed.

(** C35. Every operation keeps the store well-formed, whatever it answers:
    zones sit under their normalised name, and records under their id with a
    supported type. *)
Theorem run_store_wf tr s : store_wf s -> store_wf (run tr s).2.
Proof. apply run_wf. Qed.

(** ** The laws of the record operations *)

Definition of_option (id : string) (r : option Record_) : result StoreErr Record_ :=
  match r with Some r => Ok r | None => Err (ErrRecordNotFound id) end.

Lemma GetRecord_here s org zn id zd :
  zoneForOrg s org zn = Some zd -> GetRecord org zn id s = of_option id (records zd !! id).
Proof. unfold GetRecord. by intros ->. Qed.

(** Reading after a zone of the tenant is written back. *)
Lemma GetRecord_put s org zn zn' id z rs zd :
  zoneForOrg s org zn = Some zd -> Org z = Org (zone zd) ->
  GetRecord org zn' id (<[normZone zn := mkZoneData z rs]> s) =
    if decide (normZone zn' = normZone zn) then of_option id (rs !! id) else GetRecord org zn' id s.
Proof.
  intros [Hz Ho]%zoneForOrg_Some E. unfold GetRecord, zoneForOrg. case_decide as Hn.
  - rewrite Hn, lookup_insert_eq. simpl. by rewrite bool_decide_eq_true_2 by congruence.
  - by rewrite lookup_insert_ne.
Qed.

(** [GetRecord] of [s'] is that of [s] except at one record. *)
Definition only_changes (org zn id : string) (v : option Record_) (s s' : Store) : Prop :=
  forall zn' id', GetRecord org zn' id' s' =
    if decide (normZone zn' = normZone zn /\ id' = id) then of_option id v else GetRecord org zn' id' s.

Lemma only_changes_insert s org zn zd z id r :
  zoneForOrg s org zn = Some zd -> Org z = Org (zone zd) ->
  only_changes org zn id (Some r) s (<[normZone zn := mkZoneData z (<[id := r]> (records zd))]> s).
Proof.
  intros Hz Ho zn' id'. rewrite (GetRecord_put _ _ _ _ _ _ _ _ Hz Ho).
  destruct (decide (normZone zn' = normZone zn)) as [En|En]; [|by rewrite decide_False by tauto].
  destruct (decide (id' = id)) as [->|Ei].
  - by rewrite lookup_insert_eq, decide_True by done.
  - rewrite lookup_insert_ne, decide_False by naive_solver.
    unfold GetRecord, zoneForOrg. rewrite En. fold (zoneForOrg s org zn). by rewrite Hz.
Qed.

Lemma only_changes_delete s org zn zd z id :
  zoneForOrg s org zn = Some zd -> Org z = Org (zone zd) ->
  only_changes org zn id None s (<[normZone zn := mkZoneData z (delete id (records zd))]> s).
Proof.
  intros Hz Ho zn' id'. rewrite (GetRecord_put _ _ _ _ _ _ _ _ Hz Ho).
  destruct (decide (normZone zn' = normZone zn)) as [En|En]; [|by rewrite decide_False by tauto].
  destruct (decide (id' = id)) as [->|Ei].
  - by rewrite lookup_delete_eq, decide_True by done.
  - rewrite lookup_delete_ne, decide_False by naive_solver.
    unfold GetRecord, zoneForOrg. rewrite En. fold (zoneForOrg s org zn). by rewrite Hz.
Qed.

(** [CreateRecord] on every branch.  It succeeds exactly for a supported
    type in a zone of the tenant, returns the record it stores under the new
    id, and reads of that tenant change at that id only; on either error the
    store is unchanged and nothing is persisted. *)
Theorem CreateRecord_spec e org zn name rtype ttl content priority proxied s :
  let '(res, s', ch) := CreateRecord e org zn name rtype ttl content priority proxied s in
  match res with
  | Ok r =>
      ValidRecordTypes rtype = true /\ is_Some (zoneForOrg s org zn) /\ ch = true /\
      r = mkRecord (uuid e 0) name rtype ttl content priority proxied (now e) (now e) /\
      only_changes org zn (uuid e 0) (Some r) s s'
  | Err err =>
      s' = s /\ ch = false /\
      (err = ErrInvalidType rtype /\ ValidRecordTypes rtype = false \/
       err = ErrZoneNotFound (normZone zn) /\ ValidRecordTypes rtype = true /\ zoneForOrg s org zn = None)
  end.
Proof.
  unfold CreateRecord. destruct (ValidRecordTypes rtype); simpl; [|by auto].
  destruct (zoneForOrg s org zn) as [zd|] eqn:Hz; [|by auto 6].
  split_and!; try done. by apply only_changes_insert.
Qed.

(** What an update makes of a record. *)
Definition patched (p : RecordPatch) (t : Z) (r : Record_) : Record_ :=
  mkRecord (ID r) (default (Name r) (patch_Name p)) (default (Type_ r) (patch_Type p))
    (default (TTL r) (patch_TTL p)) (default (Content r) (patch_Content p))
    (default (Priority r) (patch_Priority p)) (default (Proxied r) (patch_Proxied p)) (CreatedAt r) t.

(** [UpdateRecord] on every branch.  On success the record keeps its id
    and creation time and every field the patch leaves out, and nothing else
    changes.  A missing zone or record changes nothing.  A patch refused for
    its type, however, has already renamed the stored record: the error is
    returned, the snapshot is not rewritten, and reads see the new name. *)
Theorem UpdateRecord_spec e org zn id p s :
  let '(res, s', ch) := UpdateRecord e org zn id p s in
  match res with
  | Ok r' =>
      exists r, GetRecord org zn id s = Ok r /\ r' = patched p (now e) r /\ ch = true /\
        (forall t, patch_Type p = Some t -> ValidRecordTypes t = true) /\
        only_changes org zn id (Some r') s s'
  | Err (ErrInvalidType t) =>
      exists r, GetRecord org zn id s = Ok r /\ patch_Type p = Some t /\ ValidRecordTypes t = false /\
        ch = false /\ only_changes org zn id (Some (set_Name (patch_Name p) r)) s s'
  | Err err => GetRecord org zn id s = Err err /\ s' = s /\ ch = false
  end.
Proof.
  unfold UpdateRecord, GetRecord. destruct (zoneForOrg s org zn) as [zd|] eqn:Hz; [|done].
  destruct (records zd !! id) as [r|] eqn:Hr; [|done].
  destruct (patch_Type p) as [t|] eqn:Ht; [destruct (ValidRecordTypes t) eqn:Hv|]; simpl.
  all: exists r; split; [done|]; split_and!; try done; try naive_solver.
  all: try by apply only_changes_insert.
  all: unfold set_rest, patched; simpl; by rewrite Ht.
Qed.

(** [DeleteRecord] removes exactly the named record of the tenant's
    zone, or reports which of zone and record is missing and changes
    nothing; [DropMirror] does the same and is silent when there is nothing
    to remove. *)
Theorem DeleteRecord_spec e org zn id s :
  let '(res, s', ch) := DeleteRecord e org zn id s in
  let '(res2, s2, ch2) := DropMirror e org zn id s in
  res2 = Ok tt /\ s2 = s' /\ ch2 = ch /\
  match res with
  | Ok _ => is_ok (GetRecord org zn id s) = true /\ ch = true /\ only_changes org zn id None s s'
  | Err err => GetRecord org zn id s = Err err /\ s' = s /\ ch = false
  end.
Proof.
  unfold DeleteRecord, DropMirror, GetRecord.
  destruct (zoneForOrg s org zn) as [zd|] eqn:Hz; [|done].
  destruct (records zd !! id) as [r|]; [|done]. simpl. split_and!; try done.
  by apply only_changes_delete.
Qed.

(** [PutMirror] writes the provider's record under the provider's id,
    keeping the creation time of a record already there; a missing id, an
    unsupported type or a zone that is not the tenant's is refused without
    a change. *)
Theorem PutMirror_spec e org zn rec s :
  let '(res, s', ch) := PutMirror e org zn rec s in
  match res with
  | Ok _ =>
      PID rec <> EmptyString /\ ValidRecordTypes (PType rec) = true /\ ch = true /\
      only_changes org zn (PID rec)
        (Some (mkRecord (PID rec) (PName rec) (PType rec) (PTTL rec) (PContent rec) (PPriority rec)
                 (PProxied rec)
                 match GetRecord org zn (PID rec) s with Ok r => CreatedAt r | Err _ => now e end
                 (now e))) s s'
  | Err err =>
      s' = s /\ ch = false /\
      (PID rec = EmptyString \/ ValidRecordTypes (PType rec) = false \/ zoneForOrg s org zn = None)
  end.
Proof.
  unfold PutMirror, GetRecord. case_bool_decide; [by auto|].
  destruct (ValidRecordTypes (PType rec)); simpl; [|by auto].
  destruct (zoneForOrg s org zn) as [zd|] eqn:Hz; [|by auto].
  split_and!; try done. destruct (records zd !! PID rec); by apply only_changes_insert.
Qed.

(** *** Bulk sync *)

Definition valid_srs (l : list SyncRecord) : list SyncRecord :=
  filter (fun sr => ValidRecordTypes (sr_Type sr) = true) l.

(** The record a sync stores for an entry that names its id. *)
Definition of_sync (e : Env) (sr : SyncRecord) : Record_ :=
  mkRecord (sr_ID sr) (sr_Name sr) (sr_Type sr) (if bool_decide (sr_TTL sr = 0) then 300 else sr_TTL sr)
    (sr_Content sr) (sr_Priority sr) (sr_Proxied sr) (now e) (now e).

Lemma sync_records_map e k l acc :
  Forall (fun sr => sr_ID sr <> EmptyString) l -> NoDup (sr_ID <$> valid_srs l) ->
  sync_records e k l acc
    = list_to_map ((fun sr => (sr_ID sr, of_sync e sr)) <$> valid_srs l) ∪ acc.
Proof.
  intros Hid. revert acc. unfold valid_srs.
  induction Hid as [|sr l Hsr Hl IH]; intros acc; simpl; [by rewrite map_empty_union|].
  rewrite filter_cons. destruct (ValidRecordTypes (sr_Type sr)) eqn:V; simpl; [|by apply IH].
  intros [Hn Hd]%NoDup_cons. rewrite bool_decide_eq_false_2, IH by done.
  rewrite <-insert_union_l, <-insert_union_r; [done|]. apply not_elem_of_list_to_map_1.
  by rewrite <-list_fmap_compose.
Qed.

(** [BulkSync] of entries that name distinct ids replaces the records of
    the zone, which is created when the name is free: afterwards the zone
    holds, for each entry of a supported type, the record of that entry with
    a default TTL of 300, and nothing else; the response counts them and the
    records replaced; reads of the tenant's other zones are unchanged.  A
    zone of another tenant is refused and nothing changes. *)
Theorem BulkSync_replaces e org req s :
  Forall (fun sr => sr_ID sr <> EmptyString) (sz_Records req) ->
  NoDup (sr_ID <$> valid_srs (sz_Records req)) ->
  let '(res, s', _) := BulkSync e org req s in
  match res with
  | Ok resp =>
      resp_RecordCount resp = Z.of_nat (length (valid_srs (sz_Records req))) /\
      resp_Created resp = resp_RecordCount resp /\
      resp_Deleted resp = match s !! normZone (sz_Zone req) with
                          | Some zd => Z.of_nat (size (records zd)) | None => 0 end /\
      (forall id r, GetRecord org (sz_Zone req) id s' = Ok r <->
         exists sr, sr ∈ valid_srs (sz_Records req) /\ id = sr_ID sr /\ r = of_sync e sr) /\
      (forall zn id, normZone zn <> normZone (sz_Zone req) -> GetRecord org zn id s' = GetRecord org zn id s)
  | Err err =>
      err = ErrZoneExists (normZone (sz_Zone req)) /\ s' = s /\
      exists zd, s !! normZone (sz_Zone req) = Some zd /\ Org (zone zd) <> org
  end.
Proof.
  intros Hid Hd. unfold BulkSync. rewrite !(sync_records_map _ _ _ _ Hid Hd), !map_union_empty.
  set (rs := list_to_map _).
  assert (size rs = length (valid_srs (sz_Records req))) as Hsz.
  { unfold rs. rewrite map_size_list_to_map, !length_fmap; [done|by rewrite <-list_fmap_compose]. }
  assert (forall z, Org z = org ->
    (forall id r, GetRecord org (sz_Zone req) id (<[normZone (sz_Zone req) := mkZoneData z rs]> s) = Ok r <->
       exists sr, sr ∈ valid_srs (sz_Records req) /\ id = sr_ID sr /\ r = of_sync e sr) /\
    (forall zn id, normZone zn <> normZone (sz_Zone req) ->
       GetRecord org zn id (<[normZone (sz_Zone req) := mkZoneData z rs]> s) = GetRecord org zn id s)) as Hget.
  { intros z Hz. split.
    - intros id r. rewrite <-(lookup_list_to_map_fmap sr_ID (of_sync e)) by done. fold rs. unfold GetRecord, zoneForOrg.
      rewrite lookup_insert_eq. simpl. rewrite bool_decide_eq_true_2 by done.
      cbn [records]. destruct (rs !! id); split; congruence.
    - intros zn id Hn. unfold GetRecord, zoneForOrg. by rewrite lookup_insert_ne. }
  destruct (s !! normZone (sz_Zone req)) as [zd|] eqn:E; [case_bool_decide as Ho|]; simpl.
  - rewrite Hsz. split_and!; try done; by apply Hget.
  - eauto.
  - rewrite Hsz. split_and!; try done; by apply Hget.
Qed.

End isolation.

(** ** A concrete history of two tenants *)

Module StoreSample.

#[export] Existing Instance list_order.

(** Distinct ids at distinct times. *)
Definition env (k : nat) : Env :=
  mkEnv (1000 + Z.of_nat k)
    (fun i => String (ascii_of_nat (97 + k)) (String (ascii_of_nat (97 + i)) EmptyString)).

Definition rec_a (zn nm ip : string) : Op := OCreateRecord zn nm RecordType.A 300 ip 0 false.

Definition history : list Req :=
  [mkReq (env 0) "acme" (OCreateZone " Example.com" "authoritative");
   mkReq (env 1) "other" (OCreateZone "ample.com" "authoritative");
   mkReq (env 2) "acme" (rec_a "example.com." "www" "192.0.2.1");
   mkReq (env 3) "other" (rec_a "ample.com." "www.example.com." "203.0.113.66");
   mkReq (env 4) "other" (ODeleteZone "example.com.");
   mkReq (env 5) "other" (OGetRecord "example.com." "ca");
   mkReq (env 6) "acme" (OListRecords "example.com");
   mkReq (env 7) "acme" OListZones].

Definition store : Store := (run history NewStore).2.

Lemma store_sample_wf : store_wf store.
Proof. unfold store. apply run_wf. apply map_Forall_empty. Qed.

Lemma tenant_noninterference_witness :
  map (fun p => p.1) (run history NewStore).1 =
    ["acme"; "other"; "acme"; "other"; "other"; "other"; "acme"; "acme"] /\
  view "acme" store = (run (filter (fun q => req_org q = "acme") history) (view "acme" NewStore)).2.
Proof.
  split; [vm_compute; reflexivity|].
  destruct (tenant_noninterference "acme" history NewStore) as [_ H]; [vm_compute; reflexivity|].
  exact H.
Defined.

Lemma run_store_wf_witness : store_wf (run history NewStore).2 /\ size (run history NewStore).2 = 2%nat.
Proof.
  split; [|vm_compute; reflexivity]. apply run_store_wf. apply map_Forall_empty.
Defined.

Definition sync_req : SyncZoneRequest :=
  mkSyncZone "example.com"
    [mkSyncRecord "r1" "www" RecordType.A 0 "192.0.2.7" 0 false;
     mkSyncRecord "r2" "x" "BOGUS" 60 "y" 0 false;
     mkSyncRecord "r3" "mail" RecordType.MX 60 "mx.example.com" 10 false].

Lemma BulkSync_replaces_witness :
  exists resp s', BulkSync (env 9) "acme" sync_req store = (Ok resp, s', true) /\
    resp_RecordCount resp = 2 /\ resp_Deleted resp = 1 /\
    GetRecord "acme" (sz_Zone sync_req) "r1" s'
      = Ok (mkRecord "r1" "www" RecordType.A 300 "192.0.2.7" 0 false 1009 1009).
Proof.
  pose proof (BulkSync_replaces (env 9) "acme" sync_req store) as H.
  assert ((is_ok (BulkSync (env 9) "acme" sync_req store).1.1,
           (BulkSync (env 9) "acme" sync_req store).2) = (true, true)) as Ho by (vm_compute; reflexivity).
  assert (match store !! normZone (sz_Zone sync_req) with
          | Some zd => Z.of_nat (size (records zd)) | None => 0 end = 1) as Hd by (vm_compute; reflexivity).
  generalize dependent (BulkSync (env 9) "acme" sync_req store). intros [[[resp|err] s'] ch] H Ho;
    [|discriminate]. injection Ho as ->.
  destruct H as (H1 & _ & H2 & H3 & _); [repeat constructor; discriminate|apply (bool_decide_eq_true_1 _); vm_compute; reflexivity|].
  exists resp, s'. split; [reflexivity|]. split; [rewrite H1; reflexivity|]. split; [rewrite H2; exact Hd|].
  apply H3. exists (mkSyncRecord "r1" "www" RecordType.A 0 "192.0.2.7" 0 false).
  split; [vm_compute; left|split; reflexivity].
Defined.

End StoreSample.
