(* ===== verification/Serve.v ===== *)
(** * Serving queries from the store (plugin/hanzodns/hanzodns.go)

    [Lookup] and the handler [ServeDNS] with its conversions [qtypeToString]
    and [toRR], and the helpers it uses of package plugin: zone matching
    (normalize.go), fallthrough (pkg/fall) and the chain to the next plugin.
    Of github.com/miekg/dns it needs the presentation form of a name, the
    reply skeleton and the table of type names, which are parameters. *)

From Stdlib Require Import Ascii ZArith Lia.
From stdpp Require Import base numbers gmap strings list.
From S2P Require Import Prelude DnsTypes Ip Store StoreFacts.

Local Open Scope Z_scope.

(** ** Package plugin *)

(** A handler returns the code and error of [ServeDNS], and the message it
    wrote, if any. *)
Record Served := mkServed { rcode : Z; written : option Msg; failed : bool }.

Definition Handler := Msg -> Served.

Definition NextOrFailure (next : option Handler) (r : Msg) : Served :=
  match next with
  | Some h => h r
  | None => mkServed RcodeServerFailure None true
  end.

Section matches.
Context {N : DnsNames}.

(** The longest zone seen so far, then the next candidate. *)
Fixpoint matches_loop (z : list string) (qname zn : string) : string :=
  match z with
  | [] => zn
  | zname :: z' =>
      if IsSubDomain zname qname && bool_decide (String.length zn < String.length zname)%nat
      then matches_loop z' qname zname
      else matches_loop z' qname zn
  end.

Definition Matches (z : list string) (qname : string) : string := matches_loop z qname EmptyString.

(** [fall.F] is its list of zones. *)
Definition Through (fall : list string) (qname : string) : bool :=
  bool_decide (Matches fall qname <> EmptyString).

End matches.

(** ** Conversions *)

Definition qtypeToString (qtype : Z) : string :=
  if decide (qtype = TypeA) then RecordType.A
  else if decide (qtype = TypeAAAA) then RecordType.AAAA
  else if decide (qtype = TypeCNAME) then RecordType.CNAME
  else if decide (qtype = TypeMX) then RecordType.MX
  else if decide (qtype = TypeTXT) then RecordType.TXT
  else if decide (qtype = TypeSRV) then RecordType.SRV
  else if decide (qtype = TypeNS) then RecordType.NS
  else if decide (qtype = TypeCAA) then RecordType.CAA
  else EmptyString.

(** [if !strings.HasSuffix(target, ".") { target += "." }] *)
Definition dotted (target : string) : string :=
  if HasSuffix target dot then target else String.append target dot.

(** The record data by type; [None] where the code returns nil. *)
Definition toRdata (rec : Record_) : option rdata :=
  let c := Content rec in
  let t := Type_ rec in
  if decide (t = RecordType.A) then
    match ParseIP c with None => None | Some ip => Some (RA (default [] (To4 ip))) end
  else if decide (t = RecordType.AAAA) then
    match ParseIP c with None => None | Some ip => Some (RAAAA ip) end
  else if decide (t = RecordType.CNAME) then Some (RCNAME (dotted c))
  else if decide (t = RecordType.MX) then Some (RMX (Priority rec) (dotted c))
  else if decide (t = RecordType.TXT) then Some (RTXT [c])
  else if decide (t = RecordType.SRV) then
    match Fields c with
    | [w; p; target] =>
        match ParseUint w 16, ParseUint p 16 with
        | Some weight, Some port => Some (RSRV (Priority rec) (u16 weight) (u16 port) (dotted target))
        | _, _ => None
        end
    | _ => None
    end
  else if decide (t = RecordType.NS) then Some (RNS (dotted c))
  else if decide (t = RecordType.CAA) then
    match SplitN c " "%char 3 with
    | [f; tag; value] =>
        match ParseUint f 8 with Some flag => Some (RCAA (u8 flag) tag value) | None => None end
    | _ => None
    end
  else None.

Section serve.
Context {N : DnsNames} {MO : MapOrder}.

(** github.com/miekg/dns: [dns.Name.String], [Msg.SetReply],
    [dns.StringToType]. *)
Variable NameString : string -> string.
Variable SetReply : Msg -> Msg.
Variable StringToType : string -> Z.

Definition toRR (rec : Record_) (qname : string) : option RR :=
  mkRR (mkHdr qname (StringToType (Type_ rec)) ClassINET (TTL rec)) <$> toRdata rec.

(** request.Request: [Name] and [QType] of the first question. *)
Definition state_Name (r : Msg) : string :=
  match Question r with
  | [] => dot
  | q :: _ => ToLower (NameString (QName q))
  end.

Definition state_QType (r : Msg) : Z :=
  match Question r with [] => 0 | q :: _ => Qtype q end.

(** [m.SetReply(r); m.Authoritative = true; m.Answer = append(...)] *)
Definition answer_msg (r : Msg) (ans : list RR) : Msg :=
  let m := SetReply r in
  mkMsg (Id m) (Response m) (Opcode m) true (Truncated m) (RecursionDesired m)
    (RecursionAvailable m) (AuthenticatedData m) (CheckingDisabled m) (Rcode m)
    (Question m) (Answer m ++ ans) (Ns_ m) (Extra m).

Definition ServeDNS (Next : option Handler) (Fall : list string) (s : Store) (r : Msg) : Served :=
  let qname := state_Name r in
  let qtype := state_QType r in
  let qtypeStr := qtypeToString qtype in
  if bool_decide (qtypeStr = EmptyString) then NextOrFailure Next r
  else
    let zn := Matches (ZoneNames s) qname in
    if bool_decide (zn = EmptyString) then NextOrFailure Next r
    else
      match Lookup qname qtypeStr s with
      | [] =>
          if Through Fall qname then NextOrFailure Next r
          else mkServed RcodeServerFailure None false
      | records =>
          mkServed RcodeSuccess
            (Some (answer_msg r (omap (fun rec => toRR rec qname) records))) false
      end.

End serve.

(** ** Zone matching *)

Section matches_facts.
Context {N : DnsNames}.

Lemma matches_loop_spec z q zn :
  let w := matches_loop z q zn in
  (w = zn \/ w ∈ z /\ IsSubDomain w q = true) /\
  (String.length zn <= String.length w)%nat /\
  (forall x, x ∈ z -> IsSubDomain x q = true -> (String.length x <= String.length w)%nat).
Proof.
  revert zn. induction z as [|x z IH]; intros zn; simpl.
  { split_and!; [by left|done|]. by intros x Hx%elem_of_nil. }
  destruct (IsSubDomain x q && _) eqn:E.
  - apply andb_prop in E as [Hs Hl%bool_decide_eq_true]. destruct (IH x) as ([->|[Hin Hw]] & Hle & Hmax).
    + split_and!; [right; split; [by left|done]|lia|].
      intros y [->|Hy]%elem_of_cons Hy2; [done|by apply Hmax].
    + split_and!; [right; split; [by right|done]|lia|].
      intros y [->|Hy]%elem_of_cons Hy2; [done|by apply Hmax].
  - destruct (IH zn) as (Hw & Hle & Hmax). split_and!; [destruct Hw as [->|[]]; [by left|right; split; [by right|done]]|done|].
    intros y [->|Hy]%elem_of_cons Hy2; [|by apply Hmax].
    rewrite Hy2 in E. simpl in E. apply bool_decide_eq_false in E. lia.
Qed.

(** [Matches] returns a zone the query lies in, and one of greatest
    length among them; it returns the empty string exactly when the query
    lies in none of the zones (whose names are not empty). *)
Theorem Matches_longest z q :
  Forall (fun x => x <> EmptyString) z ->
  (Matches z q = EmptyString <-> Forall (fun x => IsSubDomain x q = false) z) /\
  (Matches z q <> EmptyString -> Matches z q ∈ z /\ IsSubDomain (Matches z q) q = true) /\
  (forall x, x ∈ z -> IsSubDomain x q = true -> (String.length x <= String.length (Matches z q))%nat).
Proof.
  intros Hne. unfold Matches. destruct (matches_loop_spec z q EmptyString) as (Hw & _ & Hmax).
  split_and!; [|tauto|done]. rewrite Forall_forall. split.
  - intros E x Hx. apply not_true_is_false. intros Hs. rewrite E in Hmax. specialize (Hmax x Hx Hs).
    rewrite Forall_forall in Hne. destruct (Hne x Hx). destruct x; [done|simpl in *; lia].
  - intros Hall. destruct Hw as [->|[Hin Hs]]; [done|]. by rewrite (Hall _ Hin) in Hs.
Qed.

End matches_facts.

Lemma Matches_longest_witness :
  @Matches Plain.names ["org."; "example.org."; "com."] "www.example.org." = "example.org." /\
  @Matches Plain.names ["org."; "example.org."; "com."] "www.example.net." = EmptyString.
Proof.
  split; [reflexivity|]. apply (@Matches_longest Plain.names ["org."; "example.org."; "com."] "www.example.net.").
  - repeat constructor; discriminate.
  - repeat constructor.
Defined.

(** ** Lookup *)

Section lookup.
Context {MO : MapOrder}.

Lemma elem_of_zone_matches q t k zd r :
  r ∈ zone_matches q t (k, zd) <->
  HasSuffix q k = true /\ (exists id, records zd !! id = Some r) /\
  ToLower (fqdn (Name r) k) = q /\ Type_ r = t.
Proof.
  simpl. destruct (HasSuffix q k) eqn:Hs; [|rewrite elem_of_nil; split; [done|by intros []]].
  rewrite list_elem_of_filter, list_elem_of_fmap. split.
  - intros [[Hf Ht] ([id r'] & -> & Hid%elem_of_map_range)]. eauto 6.
  - intros (_ & (id & Hid) & Hf & Ht). split; [done|]. exists (id, r).
    split; [done|by apply elem_of_map_range].
Qed.

Lemma elem_of_Lookup q t s r :
  r ∈ Lookup q t s <-> exists k zd, s !! k = Some zd /\ r ∈ zone_matches (ToLower q) t (k, zd).
Proof.
  unfold Lookup. rewrite list_elem_of_bind. split.
  - intros ([k zd] & Hr & Hk%elem_of_map_range). eauto.
  - intros (k & zd & Hk & Hr). exists (k, zd). split; [done|by apply elem_of_map_range].
Qed.

(** [k] is the name [q] or one of its ancestors, at a label boundary. *)
Definition under (q k : string) : bool :=
  bool_decide (q = k) || HasSuffix q (String.append dot k).

Lemma normZone_lower k : normZone k = k -> ToLower k = k.
Proof.
  intros <-. unfold normZone. case_match; [apply ToLower_idemp|]. by rewrite ToLower_app, ToLower_idemp.
Qed.

(** A record with a relative name answers only names at or below its zone. *)
Lemma relative_under nm k q :
  ToLower k = k -> HasSuffix nm dot = false -> ToLower (fqdn nm k) = q -> under q k = true.
Proof.
  intros Hk Hn <-. unfold under, fqdn.
  destruct (bool_decide (nm = "@") || _); [by rewrite Hk, bool_decide_eq_true_2|].
  rewrite Hn, !ToLower_app, Hk. apply orb_true_iff. right.
  apply HasSuffix_spec. exists (ToLower nm). done.
Qed.

(** Zones without a match can be left out. *)
Lemma bind_filter_nil {A B} (P : A -> Prop) `{!forall x, Decision (P x)} (f : A -> list B) l :
  (forall x, x ∈ l -> ~ P x -> f x = []) -> l ≫= f = filter P l ≫= f.
Proof.
  induction l as [|x l IH]; intros Hl; [done|]. rewrite filter_cons.
  assert (l ≫= f = filter P l ≫= f) as E by (apply IH; intros; apply Hl; [by right|done]).
  rewrite bind_cons, E. case_decide; [by rewrite bind_cons|]. by rewrite (Hl x) by (done || by left).
Qed.

Lemma Lookup_filter q t (s : Store) (P : string * zoneData -> Prop) `{!forall x, Decision (P x)} :
  (forall k zd, s !! k = Some zd -> ~ P (k, zd) -> zone_matches (ToLower q) t (k, zd) = []) ->
  Lookup q t s ≡ₚ Lookup q t (filter P s).
Proof.
  intros Hn. unfold Lookup. rewrite <-map_range_filter, <-bind_filter_nil; [done|].
  intros [k zd] Hk%elem_of_map_range. by apply Hn.
Qed.

(** Serving respects ownership when records are named relative to their
    zones: if every zone at or above the query name belongs to tenant [o],
    the answer is computed from the zones of [o] alone. *)
Theorem Lookup_isolated o q t s :
  store_wf s ->
  (forall k zd, s !! k = Some zd -> under (ToLower q) k = true -> Org (zone zd) = o) ->
  (forall k zd id r, s !! k = Some zd -> records zd !! id = Some r -> HasSuffix (Name r) dot = false) ->
  Lookup q t s ≡ₚ Lookup q t (view o s).
Proof.
  intros Hw Ho Hrel. apply Lookup_filter. intros k zd Hk HP. apply elem_of_nil_inv. intros r.
  rewrite elem_of_zone_matches. intros (_ & (id & Hr) & Hf & _). apply HP. simpl.
  apply (Ho k); [done|]. destruct (Hw _ _ Hk) as (_ & Hn & _).
  eapply relative_under; [by apply normZone_lower|by eapply Hrel|done].
Qed.

End lookup.

#[local] Existing Instance list_order.

Lemma Lookup_isolated_witness :
  exists s, view "acme" s = s /\ length (Lookup "www.example.com." RecordType.A StoreSample.store) = 2%nat /\
  let s1 := view "acme" StoreSample.store in
  Lookup "WWW.example.com." RecordType.A s1 ≡ₚ Lookup "WWW.example.com." RecordType.A (view "acme" s1).
Proof.
  exists (view "acme" StoreSample.store). split; [apply view_view|]. split; [vm_compute; reflexivity|].
  apply Lookup_isolated.
  - intros k zd Hk. rewrite lookup_view in Hk. apply StoreSample.store_sample_wf.
    destruct (StoreSample.store !! k) as [zd'|]; [|discriminate].
    destruct (bool_decide _); [exact Hk|discriminate].
  - intros k zd Hk _. by apply view_lookup_own in Hk.
  - assert (bool_decide (map_Forall (fun _ zd => map_Forall (fun _ r => HasSuffix (Name r) dot = false)
              (records zd)) (view "acme" StoreSample.store)) = true) as H by (vm_compute; reflexivity).
    apply bool_decide_eq_true_1 in H. intros k zd id r Hk Hr. exact (H k zd Hk id r Hr).
Defined.

(** Serving is not isolated in general: a record whose name is written
    absolute is served for that name from any zone that is a textual suffix
    of it, whoever owns the zone, and with no label boundary between them.
    A tenant that registers [ample.com] answers for [www.example.com], in the
    zone [example.com] of another tenant. *)
Theorem Lookup_crosses_tenants :
  (forall {MO : MapOrder} s k zd id r,
     s !! k = Some zd -> records zd !! id = Some r ->
     HasSuffix (Name r) dot = true -> HasSuffix (ToLower (Name r)) k = true ->
     r ∈ Lookup (Name r) (Type_ r) s) /\
  (Content <$> Lookup "www.example.com." RecordType.A StoreSample.store) = ["192.0.2.1"; "203.0.113.66"] /\
  (Content <$> Lookup "www.example.com." RecordType.A (view "acme" StoreSample.store)) = ["192.0.2.1"] /\
  under "www.example.com." "ample.com." = false.
Proof.
  split; [|split; [|split]; vm_compute; reflexivity].
  intros MO s k zd id r Hk Hr Hd Hs. apply elem_of_Lookup. exists k, zd. split; [done|].
  apply elem_of_zone_matches. split_and!; [done|eauto| |done]. unfold fqdn.
  destruct (bool_decide (Name r = "@") || bool_decide (Name r = EmptyString)) eqn:E; [|by rewrite Hd].
  apply orb_true_iff in E as [E%bool_decide_eq_true|E%bool_decide_eq_true]; by rewrite E in Hd.
Qed.

(** ** The handler *)

Section handler.
Context {N : DnsNames} {MO : MapOrder}.
Variable NameString : string -> string.
Variable SetReply : Msg -> Msg.
Variable StringToType : string -> Z.

(** A fresh reply has no answers; the table of type names inverts
    [qtypeToString]. *)
Hypothesis SetReply_empty : forall r, Answer (SetReply r) = [].
Hypothesis StringToType_q : forall t, qtypeToString t <> EmptyString -> StringToType (qtypeToString t) = t.

(** C37. For a supported type and a name in a zone of the store that the store
    has records for, [ServeDNS] writes one authoritative message and returns
    NOERROR; its answers are exactly the records of [Lookup] whose content
    converts, each under the query name, with the type of the question, class
    IN and the TTL of its record.  That the name is in a zone is a condition of
    its own: [ServeDNS] compares names by labels and passes other names on,
    while [Lookup] compares them as text and can have records for a name, of
    www.example.com. in ample.com., that no zone contains. *)
Theorem ServeDNS_answers Next Fall s r :
  let q := state_Name NameString r in
  let t := qtypeToString (state_QType r) in
  t <> EmptyString -> Matches (ZoneNames s) q <> EmptyString -> Lookup q t s <> [] ->
  exists m, ServeDNS NameString SetReply StringToType Next Fall s r = mkServed RcodeSuccess (Some m) false /\
    Authoritative m = true /\
    forall rr, rr ∈ Answer m <->
      exists rec, rec ∈ Lookup q t s /\ toRdata rec = Some (Data rr) /\
        Hdr rr = mkHdr q (state_QType r) ClassINET (TTL rec).
Proof.
  intros q t Ht Hz Hl. unfold ServeDNS. fold q. fold t.
  rewrite !bool_decide_eq_false_2 by done. destruct (Lookup q t s) as [|r0 l] eqn:E; [done|].
  eexists. split; [done|]. split; [done|]. intros rr. unfold answer_msg. cbn [Answer].
  rewrite SetReply_empty, app_nil_l, <-E, list_elem_of_omap. unfold toRR. split.
  - intros (rec & Hr & Hc). exists rec. split; [done|]. destruct (toRdata rec); [|done].
    injection Hc as <-. simpl. split; [done|]. f_equal.
    apply elem_of_Lookup in Hr as (k & zd & _ & (_ & _ & _ & ->)%elem_of_zone_matches).
    by apply StringToType_q.
  - intros (rec & Hr & Hc & Hh). exists rec. split; [done|]. rewrite Hc. simpl. f_equal.
    destruct rr as [h d]. simpl in *. rewrite Hh. do 2 f_equal.
    apply elem_of_Lookup in Hr as (k & zd & _ & (_ & _ & _ & ->)%elem_of_zone_matches).
    by apply StringToType_q.
Qed.

End handler.

Module ServeSample.

#[local] Existing Instance Plain.names.

Definition reply (r : Msg) : Msg :=
  mkMsg (Id r) true 0 false false (RecursionDesired r) false false false 0 (Question r) [] [] [].

Definition type_of_string (t : string) : Z :=
  if decide (t = RecordType.A) then TypeA
  else if decide (t = RecordType.AAAA) then TypeAAAA
  else if decide (t = RecordType.CNAME) then TypeCNAME
  else if decide (t = RecordType.MX) then TypeMX
  else if decide (t = RecordType.TXT) then TypeTXT
  else if decide (t = RecordType.SRV) then TypeSRV
  else if decide (t = RecordType.NS) then TypeNS
  else if decide (t = RecordType.CAA) then TypeCAA else 0.

Lemma type_of_string_q t : qtypeToString t <> EmptyString -> type_of_string (qtypeToString t) = t.
Proof. unfold qtypeToString. repeat case_decide; subst; vm_compute; done. Qed.

Definition query : Msg :=
  mkMsg 7 false 0 false false true false false false 0 [mkQ "WWW.Example.com." TypeA ClassINET] [] [] [].

Lemma ServeDNS_answers_witness :
  exists m, ServeDNS (fun n => n) reply type_of_string None [] (view "acme" StoreSample.store) query
      = mkServed RcodeSuccess (Some m) false /\
    mkRR (mkHdr "www.example.com." TypeA ClassINET 300) (RA [192; 0; 2; 1]) ∈ Answer m.
Proof.
  destruct (ServeDNS_answers (fun n => n) reply type_of_string (fun _ => eq_refl) type_of_string_q None []
    (view "acme" StoreSample.store) query) as (m & E & _ & H); [vm_compute; discriminate..|].
  exists m. split; [exact E|]. apply H.
  exists (mkRecord "ca" "www" RecordType.A 300 "192.0.2.1" 0 false 1002 1002).
  split; [vm_compute; left|split; vm_compute; reflexivity].
Defined.

End ServeSample.

(** The conversion of an A record yields four octets, except that
    content that parses as an IPv6 address yields an A record with no
    address at all instead of being skipped like other bad content; an AAAA
    record always has sixteen. *)
Theorem toRdata_addresses :
  (forall rec b, toRdata rec = Some (RA b) ->
     length b = 4%nat \/ b = [] /\ exists ip, ParseIP (Content rec) = Some ip /\ To4 ip = None) /\
  (forall rec b, toRdata rec = Some (RAAAA b) -> length b = 16%nat) /\
  toRdata (mkRecord "i" "www" RecordType.A 300 "2001:db8::1" 0 false 0 0) = Some (RA []).
Proof.
  split; [|split; [|vm_compute; reflexivity]]; intros rec b; unfold toRdata; repeat case_decide; try done.
  all: try by repeat (case_match; try done).
  - destruct (ParseIP (Content rec)) as [ip|] eqn:E; [|done]. intros [= <-].
    pose proof (ParseIP_length _ _ E) as Hl. unfold To4. rewrite decide_False by lia.
    case_decide as H4; simpl; [left; rewrite length_drop; lia|right]. split; [done|]. exists ip.
    split; [done|]. by rewrite !decide_False by (lia || done).
  - destruct (ParseIP (Content rec)) as [ip|] eqn:E; [|done]. intros [= <-].
    by apply ParseIP_length in E.
Qed.
