(* ===== verification/Snapshot.v ===== *)
(** * The durable snapshot (plugin/hanzodns/store_snapshot.go)

    [Export] and [Import] of the store, and persistence as a transition
    system: requests change the store under its lock and then call [save],
    which exports under its own lock, writes a temporary file and renames it.
    Requests, the system calls of a save (the temporary file is created, then
    filled, then renamed; each can fail) and restarts at any point between
    them are its steps, in any order.  A restart keeps the files as they are:
    the loss of unsynced data in a power failure is outside the model.

    A file is represented by the value it decodes to: the model
    relies on encoding/json reading back what it wrote (which holds for
    strings of valid UTF-8, integers, booleans and UTC times). *)

From Stdlib Require Import Ascii ZArith Lia Sorting.Sorted Sorting.Permutation.
From stdpp Require Import base numbers gmap strings sorting list.
From S2P Require Import Prelude Less Store StoreFacts.

Local Open Scope Z_scope.

(** ** Sorting by Go's string order *)

Definition str_le (a b : string) : Prop := Compare (bytes a) (bytes b) <= 0.

#[export] Instance str_le_dec : RelDecision str_le := fun a b => decide (Compare (bytes a) (bytes b) <= 0).

(** ** Export and Import *)

Record snapshotZone := mkSnapshotZone {
  snap_Zone : Zone;
  snap_Records : list Record_ }.

Record snapshotState := mkSnapshot { snap_Zones : list snapshotZone }.

(** [recs[i].ID < recs[j].ID] *)
Definition id_le (a b : Record_) : Prop := str_le (ID a) (ID b).

#[export] Instance id_le_dec : RelDecision id_le := fun a b => decide (str_le (ID a) (ID b)).

(** [if zd.zone.Provider == "" { zd.zone.Provider = ProviderAuthoritative }]
    on top of [zd.zone.Name = key]. *)
Definition set_key (key : string) (z : Zone) : Zone :=
  mkZone (ZID z) key (Org z)
    (if bool_decide (Provider_ z = EmptyString) then ProviderAuthoritative else Provider_ z)
    (Status z) (Nameservers z) (RecordCount z) (DNSSECEnabled z) (ZCreatedAt z) (ZUpdatedAt z).

(** The inner loop of [Import]. *)
Fixpoint import_records (l : list Record_) (acc : gmap string Record_) : gmap string Record_ :=
  match l with
  | [] => acc
  | r :: l' => import_records l' (<[ID r := r]> acc)
  end.

Fixpoint import_zones (l : list snapshotZone) (acc : Store) : Store :=
  match l with
  | [] => acc
  | sz :: l' =>
      let key := normZone (ZName (snap_Zone sz)) in
      import_zones l'
        (<[key := mkZoneData (set_key key (snap_Zone sz)) (import_records (snap_Records sz) ∅)]> acc)
  end.

Definition Import (state : snapshotState) : Store := import_zones (snap_Zones state) ∅.

Section export.
Context {MO : MapOrder}.

Definition export_zone (zd : zoneData) : snapshotZone :=
  mkSnapshotZone (zone zd) (merge_sort id_le (map_range (records zd)).*2).

Definition Export (s : Store) : snapshotState :=
  let names := merge_sort str_le (map_range s).*1 in
  mkSnapshot (omap (fun nm => export_zone <$> s !! nm) names).

End export.

(** ** Persistence *)

(** What [json.Unmarshal] makes of a file's bytes.  A file that has been
    created and only partly written holds a strict prefix of the encoding of
    an object, which is not JSON. *)
Inductive file : Type :=
| Unreadable
| Corrupt
| Valid (d : snapshotState).

(** The files by path; a path without a file is absent. *)
Abbreviation FS := (gmap string file).

Inductive load_error : Type := ErrRead | ErrParse.

(** [load], into the empty store of a starting process, given what
    [os.ReadFile] finds at the state file's path. *)
Definition load (f : option file) : result load_error Store :=
  match f with
  | None => Ok NewStore
  | Some Unreadable => Err ErrRead
  | Some Corrupt => Err ErrParse
  | Some (Valid d) => Ok (Import d)
  end.

(** Where [save] is, with the data it has marshalled: before [os.WriteFile],
    inside it with the temporary file created and not yet complete, and
    between it and [os.Rename]. *)
Inductive save_pc : Type :=
| Idle
| Exported (d : snapshotState)
| Writing (d : snapshotState)
| Written (d : snapshotState).

(** How a system call ends.  A failed write may have written everything (the
    error is that of closing the file), and the removal after a failed rename
    may fail too: [Failed true] is the former, respectively a removal that
    succeeds. *)
Inductive os_result : Type := Done | Failed (b : bool).

Definition os_Rename (old new : string) (fs : FS) : option FS :=
  c ← fs !! old; Some (<[new := c]> (delete old fs)).

(** [tmp := s.path + ".tmp"] *)
Definition tmpPath (path : string) : string := (path ++ ".tmp")%string.

(** One system call of [save]: [os.WriteFile] opens the temporary file
    (creating or truncating it), fills it and closes it; then comes
    [os.Rename], and [os.Remove] when that fails. *)
Definition save_step (path : string) (r : os_result) (pc : save_pc) (fs : FS) : option (save_pc * FS) :=
  let tmp := tmpPath path in
  match pc, r with
  | Idle, _ => None
  | Exported d, Done => Some (Writing d, <[tmp := Corrupt]> fs)
  | Exported d, Failed _ => Some (Idle, fs)
  | Writing d, Done => Some (Written d, <[tmp := Valid d]> fs)
  | Writing d, Failed whole => Some (Idle, if whole then <[tmp := Valid d]> fs else fs)
  | Written d, Done => fs' ← os_Rename tmp path fs; Some (Idle, fs')
  | Written d, Failed removed => Some (Idle, if removed then delete tmp fs else fs)
  end.

(** The process and its disk.  [pending] counts the mutations whose call of
    [save] has not exported yet; [saving] is the one save that holds the
    snapshotter's lock; [past] is every store there has been. *)
Record sys := mkSys {
  mem : Store;
  disk : FS;
  pending : nat;
  saving : save_pc;
  past : list Store }.

(** [filepath.Join(dir, snapshotFile)] of a cleaned directory name. *)
Definition snapshotFile : string := "hanzodns-state.json".
Definition snapshotPath (dir : string) : string := (dir ++ "/" ++ snapshotFile)%string.

(** [EnableSnapshot] on a state directory that exists. *)
Definition EnableSnapshot (path : string) (fs : FS) : result load_error sys :=
  s ← load (fs !! path); Ok (mkSys s fs 0 Idle [s]).

Section persistence.
Context {MO : MapOrder} (path : string).

(** A request that changes the store without calling [notify]. *)
Definition unpersisted (e : Env) (org : string) (op : Op) (s : Store) : bool :=
  let '(_, s', ch) := exec e org op s in bool_decide (s' <> s) && negb ch.

Inductive label : Type :=
| LRequest (e : Env) (org : string) (op : Op)
| LSave
| LCall (r : os_result)
| LRestart.

(** A restart happens at any point of [save]: the process dies, the files
    stay as they are, and the next process loads what is at the path. *)
Inductive step : sys -> label -> sys -> Prop :=
| step_request st e org op o s' ch :
    exec e org op (mem st) = (o, s', ch) ->
    step st (LRequest e org op)
      (mkSys s' (disk st) (if ch then S (pending st) else pending st) (saving st) (s' :: past st))
| step_save st n :
    pending st = S n -> saving st = Idle ->
    step st LSave (mkSys (mem st) (disk st) n (Exported (Export (mem st))) (past st))
| step_call st r pc fs :
    save_step path r (saving st) (disk st) = Some (pc, fs) ->
    step st (LCall r) (mkSys (mem st) fs (pending st) pc (past st))
| step_restart st s :
    load (disk st !! path) = Ok s ->
    step st LRestart (mkSys s (disk st) 0 Idle (s :: past st)).

(** Steps on which persistence is promised: no failing system call, no
    request that changes the store and skips [notify]. *)
Definition persistent (st : sys) (l : label) : bool :=
  match l with
  | LRequest e org op => negb (unpersisted e org op (mem st))
  | LCall (Failed _) => false
  | _ => true
  end.

Inductive reach (ok : sys -> label -> bool) : sys -> sys -> Prop :=
| reach_refl st : reach ok st st
| reach_step st st' l st'' :
    reach ok st st' -> ok st' l = true -> step st' l st'' -> reach ok st st''.

End persistence.

(** ** Round trip *)

(** What a restart makes of a zone. *)
Definition restored (zd : zoneData) : zoneData :=
  mkZoneData (set_key (ZName (zone zd)) (zone zd)) (records zd).

Lemma Compare_bytes_eq a b : Compare (bytes a) (bytes b) = 0 <-> a = b.
Proof.
  rewrite Compare_eq. split; [|by intros ->]. revert b.
  induction a as [|c a IH]; intros [|d b]; simpl; try done. intros [= Hc Hb].
  f_equal; [|by apply IH]. unfold byte_of in Hc. apply Nat2Z.inj in Hc.
  by rewrite <-(ascii_nat_embedding c), <-(ascii_nat_embedding d), Hc.
Qed.

#[export] Instance str_le_total : Total str_le.
Proof. intros a b. unfold str_le. pose proof (Compare_opp (bytes a) (bytes b)). lia. Qed.
#[export] Instance str_le_trans : Transitive str_le.
Proof. intros a b c. apply Compare_le_trans. Qed.
#[export] Instance str_le_antisymm : AntiSymm (=) str_le.
Proof.
  intros a b H1 H2. unfold str_le in *. pose proof (Compare_opp (bytes a) (bytes b)).
  apply Compare_bytes_eq. lia.
Qed.
#[export] Instance id_le_total : Total id_le.
Proof. intros a b. apply str_le_total. Qed.
#[export] Instance id_le_trans : Transitive id_le.
Proof. intros a b c. apply str_le_trans. Qed.

(** The loops of [Import] rebuild a map from any listing of its entries. *)
Lemma foldl_insert_map {A V} (f : A -> string) (g : A -> V) (l : list A) (m : gmap string V) :
  (fun x => (f x, g x)) <$> l ≡ₚ map_to_list m ->
  foldl (fun m x => <[f x := g x]> m) ∅ l = m.
Proof.
  intros Hp. assert (f <$> l = ((fun x => (f x, g x)) <$> l).*1) as Ef by by rewrite <-list_fmap_compose.
  assert (NoDup ((fun x => (f x, g x)) <$> l).*1) as Hd by (rewrite Hp; apply NoDup_fst_map_to_list).
  rewrite foldl_insert by (by rewrite Ef). rewrite map_union_empty.
  rewrite <-(list_to_map_to_list m). by apply list_to_map_proper.
Qed.

Lemma import_records_foldl l acc : import_records l acc = foldl (fun m r => <[ID r := r]> m) acc l.
Proof. revert acc. induction l as [|r l IH]; intros acc; simpl; [done|apply IH]. Qed.

Definition snap_key (sz : snapshotZone) : string := normZone (ZName (snap_Zone sz)).
Definition snap_value (sz : snapshotZone) : zoneData :=
  mkZoneData (set_key (snap_key sz) (snap_Zone sz)) (import_records (snap_Records sz) ∅).

Lemma import_zones_foldl l acc :
  import_zones l acc = foldl (fun m sz => <[snap_key sz := snap_value sz]> m) acc l.
Proof. revert acc. induction l as [|sz l IH]; intros acc; simpl; [done|apply IH]. Qed.

Section roundtrip.
Context {MO : MapOrder}.

Lemma import_records_sorted rs :
  recs_wf rs -> import_records (merge_sort id_le (map_range rs).*2) ∅ = rs.
Proof.
  intros Hw. rewrite import_records_foldl. apply (foldl_insert_map ID (fun r => r)).
  rewrite merge_sort_Permutation, <-list_fmap_compose, <-(map_range_perm rs).
  rewrite (fmap_ext_on _ id); [by rewrite list_fmap_id|].
  intros [id r] Hr%elem_of_map_range. simpl. by destruct (Hw _ _ Hr) as [-> _].
Qed.

Lemma snap_value_export k zd :
  zone_wf k zd -> snap_key (export_zone zd) = k /\ snap_value (export_zone zd) = restored zd.
Proof.
  intros (H1 & H2 & H3). assert (snap_key (export_zone zd) = k) as Ek by (unfold snap_key; simpl; congruence).
  split; [done|]. unfold snap_value, restored. rewrite Ek. simpl. rewrite H1. f_equal.
  by apply import_records_sorted.
Qed.

Lemma omap_lookup_range (s : Store) l :
  (forall k zd, (k, zd) ∈ l -> s !! k = Some zd) ->
  omap (fun nm => export_zone <$> s !! nm) l.*1 = (fun kz => export_zone kz.2) <$> l.
Proof.
  induction l as [|[k zd] l IH]; intros Hl; [done|]. simpl. rewrite (Hl k zd) by by left. simpl.
  f_equal. apply IH. intros. apply Hl. by right.
Qed.

Lemma Import_Export s : store_wf s -> Import (Export s) = restored <$> s.
Proof.
  intros Hw. unfold Import, Export. cbn [snap_Zones]. rewrite import_zones_foldl.
  apply (foldl_insert_map snap_key snap_value). rewrite merge_sort_Permutation.
  rewrite omap_lookup_range by (intros ??; apply elem_of_map_range).
  rewrite map_to_list_fmap, <-(map_range_perm s), <-list_fmap_compose.
  rewrite (fmap_ext_on _ (prod_map id restored)); [done|].
  intros [k zd] Hk%elem_of_map_range. simpl. by destruct (snap_value_export k zd (Hw _ _ Hk)) as [-> ->].
Qed.

End roundtrip.

(** ** What a restart preserves *)

Lemma restored_wf s : store_wf s -> store_wf (restored <$> s).
Proof.
  intros Hw. apply map_Forall_fmap. intros k zd Hk. destruct (Hw _ _ Hk) as (H1 & H2 & H3). by split_and!.
Qed.

Lemma restored_restored zd : restored (restored zd) = restored zd.
Proof. unfold restored, set_key. simpl. repeat (case_bool_decide; simpl); done. Qed.

Lemma restored_idemp (s : Store) : restored <$> (restored <$> s) = restored <$> s.
Proof. rewrite <-map_fmap_compose. apply map_fmap_ext. intros. apply restored_restored. Qed.

Lemma zoneForOrg_restored s org n : zoneForOrg (restored <$> s) org n = restored <$> zoneForOrg s org n.
Proof.
  unfold zoneForOrg. rewrite lookup_fmap. destruct (s !! normZone n) as [zd|]; [|done]. simpl.
  by case_bool_decide.
Qed.

Lemma GetRecord_restored s org n id : GetRecord org n id (restored <$> s) = GetRecord org n id s.
Proof. unfold GetRecord. rewrite zoneForOrg_restored. by destruct (zoneForOrg s org n). Qed.

Lemma ZoneProvider_restored s org n : ZoneProvider org n (restored <$> s) = ZoneProvider org n s.
Proof.
  unfold ZoneProvider. rewrite zoneForOrg_restored. destruct (zoneForOrg s org n) as [zd|]; [|done].
  simpl. by repeat (case_bool_decide; simpl).
Qed.

(** *** The snapshot does not depend on the order maps are listed in *)

Lemma merge_sort_unique {A} (R : relation A) `{!forall x y, Decision (R x y), !Total R, !Transitive R} l1 l2 :
  l1 ≡ₚ l2 -> (forall x y, x ∈ l1 -> y ∈ l1 -> R x y -> R y x -> x = y) -> merge_sort R l1 = merge_sort R l2.
Proof.
  intros Hp Ha. apply (StronglySorted_unique_strong R).
  - intros x y Hx Hy. rewrite merge_sort_Permutation in Hx. rewrite merge_sort_Permutation, <-Hp in Hy. by apply Ha.
  - by apply StronglySorted_merge_sort.
  - by apply StronglySorted_merge_sort.
  - by rewrite !merge_sort_Permutation.
Qed.

Lemma export_zone_order (MO1 MO2 : MapOrder) zd :
  recs_wf (records zd) -> @export_zone MO1 zd = @export_zone MO2 zd.
Proof.
  intros Hw. unfold export_zone. f_equal. apply (merge_sort_unique id_le).
  - by rewrite (@map_range_perm MO1), (@map_range_perm MO2).
  - intros x y ([i x'] & -> & Hi%elem_of_map_range)%list_elem_of_fmap
      ([j y'] & -> & Hj%elem_of_map_range)%list_elem_of_fmap H1 H2.
    pose proof (str_le_antisymm _ _ H1 H2) as E. simpl in *.
    destruct (Hw _ _ Hi) as [<- _], (Hw _ _ Hj) as [<- _]. rewrite E in Hi. congruence.
Qed.

Lemma Export_order (MO1 MO2 : MapOrder) s : store_wf s -> @Export MO1 s = @Export MO2 s.
Proof.
  intros Hw. unfold Export. f_equal.
  rewrite (merge_sort_unique str_le (@map_range MO1 _ _ _ _ s).*1 (@map_range MO2 _ _ _ _ s).*1).
  - apply list_omap_ext. apply Forall_Forall2_diag, Forall_true. intros nm.
    destruct (s !! nm) as [zd|] eqn:E; simpl; [|done]. f_equal. apply export_zone_order. by destruct (Hw _ _ E) as (_ & _ & ?).
  - by rewrite (@map_range_perm MO1), (@map_range_perm MO2).
  - intros x y _ _. apply str_le_antisymm.
Qed.

(** Exporting a well-formed store and importing the result gives back
    the store, except that a zone without a provider comes back as
    authoritative; every record and every zone's effective provider reads as
    before, a second restart changes nothing, and the snapshot does not
    depend on the order in which maps are listed. *)
Theorem snapshot_roundtrip (MO1 MO2 : MapOrder) s :
  store_wf s ->
  Import (@Export MO1 s) = restored <$> s /\
  (forall org n id, GetRecord org n id (Import (@Export MO1 s)) = GetRecord org n id s) /\
  (forall org n, ZoneProvider org n (Import (@Export MO1 s)) = ZoneProvider org n s) /\
  Import (@Export MO1 (Import (@Export MO1 s))) = Import (@Export MO1 s) /\
  @Export MO1 s = @Export MO2 s.
Proof.
  intros Hw. rewrite (Import_Export s) by done.
  split_and!; [done|intros; apply GetRecord_restored|intros; apply ZoneProvider_restored| |by apply Export_order].
  rewrite Import_Export by (by apply restored_wf). apply restored_idemp.
Qed.

(** ** Durability *)

Section durability.
Context {MO : MapOrder} (path : string).

(** A state file the service could have written. *)
Definition written_file (f : option file) : Prop :=
  f = None \/ exists s, store_wf s /\ f = Some (Valid (Export s)).

Lemma load_written f s :
  written_file f -> load f = Ok s -> store_wf s /\ restored <$> s = s.
Proof.
  intros [->|(s0 & Hw & ->)]; simpl; intros [= <-].
  - split; [apply map_Forall_empty|apply fmap_empty].
  - rewrite Import_Export by done. split; [by apply restored_wf|apply restored_idemp].
Qed.

(** What the running save is about to put in the state file. *)
Definition pc_data (pc : save_pc) : option snapshotState :=
  match pc with Idle => None | Exported d | Writing d | Written d => Some d end.

(** Between the write and the rename the temporary file is complete. *)
Definition pc_fits (pc : save_pc) (fs : FS) : Prop :=
  forall d, pc = Written d -> fs !! tmpPath path = Some (Valid d).

Lemma tmpPath_ne : tmpPath path <> path.
Proof.
  unfold tmpPath. induction path as [|c p IH]; [done|]. simpl. intros [= E]. by apply IH.
Qed.

(** Only a rename touches the state file, and it brings the exported data. *)
Lemma save_step_inv r pc fs pc' fs' :
  pc_fits pc fs -> save_step path r pc fs = Some (pc', fs') ->
  pc_fits pc' fs' /\
  (fs' !! path = fs !! path /\ (pc' = Idle -> exists b, r = Failed b) /\
     (forall d, pc_data pc' = Some d -> pc_data pc = Some d) \/
   exists d, pc_data pc = Some d /\ fs' !! path = Some (Valid d) /\ pc' = Idle).
Proof.
  pose proof tmpPath_ne as Hne. intros Hf. unfold save_step.
  destruct pc as [|d|d|d], r as [|[]]; intros E; simplify_eq/=.
  1-6,8-9: split; [intros d'; try done; intros [= <-]; by rewrite lookup_insert_eq|left]; split_and!; eauto;
    by rewrite ?lookup_insert_ne, ?lookup_delete_ne by done.
  unfold os_Rename in E. rewrite (Hf d eq_refl) in E. injection E as <- <-.
  split; [done|right]. exists d. by rewrite lookup_insert_eq.
Qed.

Record durable_inv (st : sys) : Prop := {
  di_wf : store_wf (mem st);
  di_file : written_file (disk st !! path);
  di_fits : pc_fits (saving st) (disk st);
  di_saving d : pc_data (saving st) = Some d -> exists s, store_wf s /\ d = Export s;
  di_idle : pending st = 0%nat -> saving st = Idle -> load (disk st !! path) = Ok (restored <$> mem st);
  di_last d : pending st = 0%nat -> pc_data (saving st) = Some d -> Import d = restored <$> mem st }.

Lemma durable_start fs st :
  written_file (fs !! path) -> EnableSnapshot path fs = Ok st -> durable_inv st.
Proof.
  intros Hf E. apply bind_ok_inv in E as (s & Hl & [= <-]).
  destruct (load_written _ _ Hf Hl) as [Hw Hr]. split; simpl; try done. by rewrite Hr.
Qed.

Lemma durable_request st e org op o s' ch :
  unpersisted e org op (mem st) = false -> exec e org op (mem st) = (o, s', ch) -> durable_inv st ->
  durable_inv (mkSys s' (disk st) (if ch then S (pending st) else pending st) (saving st) (s' :: past st)).
Proof.
  intros Hu E [H1 H2 Hf H3 H4 H5]. pose proof (exec_wf e org op (mem st) H1) as Hw. rewrite E in Hw.
  unfold unpersisted in Hu. rewrite E in Hu. split; simpl; try done; destruct ch; simpl in *; try done;
    rewrite andb_true_r in Hu; apply bool_decide_eq_false in Hu; apply dec_stable in Hu; by rewrite Hu.
Qed.

Lemma durable_step st l st' :
  durable_inv st -> persistent st l = true -> step path st l st' -> durable_inv st'.
Proof.
  intros Hi Hp Hs. destruct Hs as [st e org op o s' ch E|st n Hn Hv|st r pc fs E|st s Hl]; [|pose proof Hi as [H1 H2 Hf H3 H4 H5]..].
  - by eapply durable_request; [apply negb_true_iff|..].
  - split; simpl; try done; [intros d [= <-]; by eauto|]. intros d _ [= <-]. by apply Import_Export.
  - apply (save_step_inv _ _ _ _ _ Hf) in E as [Hf' [(Ep & Hidle & Hd)|(d & Hd & Ep & ->)]].
    + split; simpl; try done; try rewrite Ep; eauto. intros _ Hpc. by destruct (Hidle Hpc) as [b ->].
    + split; simpl; try done; rewrite Ep; [right|intros Hn _; simpl; by rewrite (H5 d Hn Hd)].
      destruct (H3 _ Hd) as (s & Hw & ->). eauto.
  - destruct (load_written _ _ H2 Hl) as [Hw Hr]. split; simpl; try done. by rewrite Hr.
Qed.

(** C33. Durability.  From a start on a missing or earlier state file, after
    any interleaving of requests, saves and restarts in which no system call
    of a save fails and no request skips the change hook, whenever no save is
    outstanding the state file restores the store in memory, except that a
    zone without a provider comes back as authoritative; so every record and
    every zone's effective provider is read back as it is in memory. *)
Theorem snapshot_durable fs st0 st :
  written_file (fs !! path) -> EnableSnapshot path fs = Ok st0 -> reach path persistent st0 st ->
  pending st = 0%nat -> saving st = Idle ->
  exists s, load (disk st !! path) = Ok s /\ s = restored <$> mem st /\
    (forall org n id, GetRecord org n id s = GetRecord org n id (mem st)) /\
    (forall org n, ZoneProvider org n s = ZoneProvider org n (mem st)).
Proof.
  intros Hf E Hr Hp Hs. exists (restored <$> mem st). split_and!; [|done|intros; apply GetRecord_restored|intros; apply ZoneProvider_restored].
  revert Hp Hs. apply di_idle. induction Hr; [by eapply durable_start|by eapply durable_step; eauto].
Qed.

(** What every run keeps: the state file is the one found at the start or
    the export of a store the process had. *)
Record crash_inv (f : option file) (st : sys) : Prop := {
  ci_mem : mem st ∈ past st;
  ci_fits : pc_fits (saving st) (disk st);
  ci_saving d : pc_data (saving st) = Some d -> exists s, s ∈ past st /\ d = Export s;
  ci_file : disk st !! path = f \/ exists s, s ∈ past st /\ disk st !! path = Some (Valid (Export s)) }.

Lemma crash_step f st l st' : crash_inv f st -> step path st l st' -> crash_inv f st'.
Proof.
  intros Hi Hs. pose proof Hi as [Hm Hf Hv Hd].
  assert (forall s1 s, s ∈ past st -> s ∈ s1 :: past st) as Hmono by (intros; by right).
  destruct Hs as [st e org op o s' ch Ex|st n Hn Hn'|st r pc fs E|st s Hl].
  - split; simpl; [by left|done|naive_solver|naive_solver].
  - split; simpl; [done|done| |done]. intros d [= <-]. eauto.
  - apply (save_step_inv _ _ _ _ _ Hf) in E as [Hf' [(Ep & _ & Hd')|(d & Hd' & Ep & ->)]].
    + split; simpl; [done|done|eauto|by rewrite Ep].
    + split; simpl; [done|done|done|right]. destruct (Hv _ Hd') as (s & Hs & ->). eauto.
  - split; simpl; [by left|done|done|naive_solver].
Qed.

(** C34. Crash consistency.  Whatever happens (a process killed at any system
    call of a save, writes that stop half-way, failed renames, temporary
    files left behind, requests that skip the hook), the state file is the
    one found at the start or the complete export of a store the process
    really had; so a restart always finds a file it can load.  Crashes are
    those of the process: the files survive them as they are. *)
Theorem snapshot_crash_consistent fs st0 st :
  EnableSnapshot path fs = Ok st0 -> reach path (fun _ _ => true) st0 st ->
  (disk st !! path = fs !! path \/ exists s, s ∈ past st /\ disk st !! path = Some (Valid (Export s))) /\
  is_ok (load (disk st !! path)) = true.
Proof.
  intros E Hr. apply bind_ok_inv in E as (s0 & Hl & [= E]).
  assert (crash_inv (fs !! path) st) as [_ _ _ Hd].
  { induction Hr as [st|st0 st l st' Hr IH _ Hs]; [subst; split; simpl; [by left|done|done|by left]|].
    by eapply crash_step; [apply IH|]. }
  split; [done|]. destruct Hd as [->|(s & _ & ->)]; [by rewrite Hl|done].
Qed.

End durability.

Section refused.
Context {MO : MapOrder} (path : string).

(** The gap behind the proviso of durability: an update refused for its
    type, on a store that is saved, leaves a store that is not.  The renamed
    record is read and served until a restart, which brings the old name
    back, and no save is outstanding that would repair the file. *)
Theorem refused_update_not_durable st e org zn id p r t n :
  store_wf (mem st) -> load (disk st !! path) = Ok (restored <$> mem st) ->
  pending st = 0%nat -> saving st = Idle ->
  GetRecord org zn id (mem st) = Ok r -> patch_Type p = Some t -> ValidRecordTypes t = false ->
  patch_Name p = Some n -> n <> Name r ->
  exists st' r' s, step path st (LRequest e org (OUpdateRecord zn id p)) st' /\
    pending st' = 0%nat /\ saving st' = Idle /\
    GetRecord org zn id (mem st') = Ok r' /\ Name r' = n /\
    load (disk st' !! path) = Ok s /\ GetRecord org zn id s = Ok r.
Proof.
  intros Hw Hl Hp Hv Hr Ht Hbad Hn Hne.
  destruct (exec e org (OUpdateRecord zn id p) (mem st)) as [[o s'] ch] eqn:E. pose proof E as E'.
  unfold GetRecord in Hr. destruct (zoneForOrg (mem st) org zn) as [zd|] eqn:Hz; [|done].
  destruct (records zd !! id) as [r0|] eqn:Hi; [|done]. injection Hr as ->.
  simpl in E'. unfold UpdateRecord in E'. rewrite Hz, Hi, Ht, Hbad in E'. simpl in E'.
  injection E' as <- <- <-.
  eexists _, (set_Name (Some n) r), (restored <$> mem st).
  split; [by apply (step_request path) with (st := st) (o := OutRecord (Err (ErrInvalidType t)))|]. simpl.
  split_and!; try done.
  - rewrite (GetRecord_put _ _ _ _ _ _ _ _ Hz eq_refl), decide_True by done. by rewrite lookup_insert_eq, Hn.
  - rewrite GetRecord_restored. unfold GetRecord. by rewrite Hz, Hi.
Qed.

End refused.

(** ** A concrete history *)

Module SnapshotSample.
Import StoreSample.

Lemma snapshot_roundtrip_witness :
  size StoreSample.store = 2%nat /\
  GetRecord "acme" "example.com." "ca" (Import (Export StoreSample.store))
    = GetRecord "acme" "example.com." "ca" StoreSample.store.
Proof.
  split; [vm_compute; reflexivity|].
  apply (snapshot_roundtrip list_order list_order StoreSample.store store_sample_wf).
Defined.

(** Create a zone and a record; each is saved. *)
Definition req1 : Op := OCreateZone "example.com" "authoritative".
Definition req2 : Op := rec_a "example.com" "www" "192.0.2.1".
Definition s1 : Store := (exec (env 0) "acme" req1 NewStore).1.2.
Definition s2 : Store := (exec (env 1) "acme" req2 s1).1.2.

Definition path : string := snapshotPath "/var/lib/dns".
Definition tmp : string := tmpPath path.

(** The directory holds what a killed process left of a temporary file. *)
Definition fs0 : FS := {[ tmp := Corrupt ]}.
Definition fs1 : FS := <[tmp := Corrupt]> fs0.
Definition fs2 : FS := <[tmp := Valid (Export s2)]> fs1.
Definition fs3 : FS := <[path := Valid (Export s2)]> (delete tmp fs2).

Definition hist : list Store := [s2; s1; NewStore].
Definition sys0 : sys := mkSys NewStore fs0 0 Idle [NewStore].
Definition sys1 : sys := mkSys s1 fs0 1 Idle [s1; NewStore].
Definition sys2 : sys := mkSys s2 fs0 2 Idle hist.
Definition sys3 : sys := mkSys s2 fs0 1 (Exported (Export s2)) hist.
Definition sys4 : sys := mkSys s2 fs1 1 (Writing (Export s2)) hist.
Definition sys5 : sys := mkSys s2 fs2 1 (Written (Export s2)) hist.
Definition sys6 : sys := mkSys s2 fs3 1 Idle hist.
(** The second save: exported, and killed with the temporary file half
    written, or completed. *)
Definition sys7 : sys := mkSys s2 fs3 0 (Exported (Export s2)) hist.
Definition fs4 : FS := <[tmp := Corrupt]> fs3.
Definition sys8 : sys := mkSys s2 fs4 0 (Writing (Export s2)) hist.
Definition fs5 : FS := <[tmp := Valid (Export s2)]> fs4.
Definition sys9 : sys := mkSys s2 fs5 0 (Written (Export s2)) hist.
Definition fs6 : FS := <[path := Valid (Export s2)]> (delete tmp fs5).
Definition sys10 : sys := mkSys s2 fs6 0 Idle hist.
Definition sys_killed : sys := mkSys (Import (Export s2)) fs4 0 Idle (Import (Export s2) :: hist).

Lemma step01 : step path sys0 (LRequest (env 0) "acme" req1) sys1.
Proof. apply (step_request path sys0 _ _ _ (exec (env 0) "acme" req1 NewStore).1.1 s1 true). vm_compute. reflexivity. Qed.
Lemma step12 : step path sys1 (LRequest (env 1) "acme" req2) sys2.
Proof. apply (step_request path sys1 _ _ _ (exec (env 1) "acme" req2 s1).1.1 s2 true). vm_compute. reflexivity. Qed.

Section runs.
Context (ok : sys -> label -> bool) (Hok : forall st l, persistent st l = true -> ok st l = true).

Lemma reach_ok st0 st l st' :
  reach path ok st0 st -> persistent st l = true -> step path st l st' -> reach path ok st0 st'.
Proof. eauto using reach_step. Qed.

Lemma reach06 : reach path ok sys0 sys6.
Proof.
  apply (reach_ok _ sys5 (LCall Done)); [|reflexivity|apply step_call; vm_compute; reflexivity].
  apply (reach_ok _ sys4 (LCall Done)); [|reflexivity|exact (step_call path sys4 Done (Written (Export s2)) fs2 eq_refl)].
  apply (reach_ok _ sys3 (LCall Done)); [|reflexivity|exact (step_call path sys3 Done (Writing (Export s2)) fs1 eq_refl)].
  apply (reach_ok _ sys2 LSave); [|reflexivity|by apply (step_save path sys2 1)].
  apply (reach_ok _ sys1 (LRequest (env 1) "acme" req2)); [|vm_compute; reflexivity|apply step12].
  apply (reach_ok _ sys0 (LRequest (env 0) "acme" req1)); [apply reach_refl|vm_compute; reflexivity|apply step01].
Qed.

Lemma reach08 : reach path ok sys0 sys8.
Proof.
  apply (reach_ok _ sys7 (LCall Done)); [|reflexivity|exact (step_call path sys7 Done (Writing (Export s2)) fs4 eq_refl)].
  apply (reach_ok _ sys6 LSave); [apply reach06|reflexivity|by apply (step_save path sys6 0)].
Qed.

Lemma reach010 : reach path ok sys0 sys10.
Proof.
  apply (reach_ok _ sys9 (LCall Done)); [|reflexivity|apply step_call; vm_compute; reflexivity].
  apply (reach_ok _ sys8 (LCall Done)); [apply reach08|reflexivity|exact (step_call path sys8 Done (Written (Export s2)) fs5 eq_refl)].
Qed.

Lemma reach_killed : reach path ok sys0 sys_killed.
Proof. apply (reach_ok _ sys8 LRestart); [apply reach08|reflexivity|apply step_restart; vm_compute; reflexivity]. Qed.

End runs.

Lemma snapshot_durable_witness :
  reach path persistent sys0 sys10 /\
  (exists s, load (disk sys10 !! path) = Ok s /\ s = restored <$> mem sys10 /\
    (forall org n id, GetRecord org n id s = GetRecord org n id (mem sys10)) /\
    (forall org n, ZoneProvider org n s = ZoneProvider org n (mem sys10))) /\
  is_ok (GetRecord "acme" "example.com" "ba" (mem sys10)) = true.
Proof.
  assert (reach path persistent sys0 sys10) as H by by apply reach010.
  split; [exact H|]. split; [|vm_compute; reflexivity].
  apply (snapshot_durable path fs0 sys0); [by left|reflexivity|exact H|reflexivity|reflexivity].
Defined.

(** A process killed in the middle of its second save. *)
Lemma snapshot_crash_consistent_witness :
  disk sys_killed !! tmp = Some Corrupt /\
  (disk sys_killed !! path = fs0 !! path \/
     exists s, s ∈ past sys_killed /\ disk sys_killed !! path = Some (Valid (Export s))) /\
  is_ok (load (disk sys_killed !! path)) = true.
Proof.
  split; [reflexivity|].
  apply (snapshot_crash_consistent path fs0 sys0); [reflexivity|]. apply reach_killed. reflexivity.
Defined.

Definition bad_patch : RecordPatch := mkPatch (Some "renamed") (Some "BOGUS") None None None None.

Lemma s2_wf : store_wf s2.
Proof. unfold s2, s1. apply exec_wf. apply exec_wf. apply map_Forall_empty. Qed.

Lemma refused_update_not_durable_witness :
  exists st' r' s, step path sys10 (LRequest (env 2) "acme" (OUpdateRecord "example.com" "ba" bad_patch)) st' /\
    pending st' = 0%nat /\ saving st' = Idle /\
    GetRecord "acme" "example.com" "ba" (mem st') = Ok r' /\ Name r' = "renamed" /\
    load (disk st' !! path) = Ok s /\
    GetRecord "acme" "example.com" "ba" s
      = Ok (mkRecord "ba" "www" RecordType.A 300 "192.0.2.1" 0 false 1001 1001).
Proof.
  apply (refused_update_not_durable path sys10 (env 2) "acme" "example.com" "ba" bad_patch _ "BOGUS" "renamed").
  - exact s2_wf.
  - change (Ok (Import (Export s2)) = Ok (E := load_error) (restored <$> s2)).
    rewrite Import_Export by exact s2_wf. reflexivity.
  - reflexivity.
  - reflexivity.
  - vm_compute. reflexivity.
  - reflexivity.
  - vm_compute. reflexivity.
  - reflexivity.
  - discriminate.
Defined.

End SnapshotSample.
