(* ===== verification/Http.v ===== *)
(** * HTTP and text: what the REST service uses of Go's library

    Formatting ([%q], [%d]), URL escaping (net/url), base64 URL decoding
    (encoding/base64) and the shape of an outgoing HTTP call.  [quote] is
    [strconv.Quote] on ASCII text; bytes above 0x7f are written as [\x]
    escapes, which is what Go does for bytes that are not valid UTF-8. *)

From Stdlib Require Import Ascii ZArith Lia.
From stdpp Require Import base numbers gmap strings list.
From S2P Require Import Prelude.

Local Open Scope Z_scope.

Infix "+++" := String.append (at level 60, right associativity) : string_scope.

(** ** Formatting *)

Definition str1 (c : ascii) : string := String c EmptyString.

Definition hex_digit (upper : bool) (n : Z) : ascii :=
  ascii_of_nat (Z.to_nat (if decide (n < 10) then 48 + n else (if upper then 55 else 87) + n)).

Definition hex_byte (upper : bool) (c : ascii) : string :=
  String (hex_digit upper (byte_of c / 16)) (str1 (hex_digit upper (byte_of c mod 16))).

Definition dquote : ascii := ascii_of_nat 34.
Definition backslash : ascii := ascii_of_nat 92.

(** The body of a quoted byte. *)
Definition quote_byte (c : ascii) : string :=
  let n := byte_of c in
  let esc (k : Z) := String backslash (str1 (ascii_of_nat (Z.to_nat k))) in
  if decide (c = dquote \/ c = backslash) then String backslash (str1 c)
  else if decide (32 <= n < 127) then str1 c
  else if decide (n = 7) then esc 97
  else if decide (n = 8) then esc 98
  else if decide (n = 12) then esc 102
  else if decide (n = 10) then esc 110
  else if decide (n = 13) then esc 114
  else if decide (n = 9) then esc 116
  else if decide (n = 11) then esc 118
  else String backslash (String "x" (hex_byte false c)).

Fixpoint quote_body (s : string) : string :=
  match s with
  | EmptyString => EmptyString
  | String c s' => (quote_byte c +++ quote_body s')%string
  end.

(** [%q] *)
Definition quote (s : string) : string := String dquote (quote_body s +++ str1 dquote)%string.

(** [%d]; the numbers printed have at most 20 digits. *)
Fixpoint itoa_pos (fuel : nat) (z : Z) (acc : string) : string :=
  match fuel with
  | O => acc
  | S fuel' =>
      let acc := String (ascii_of_nat (Z.to_nat (48 + z mod 10))) acc in
      if decide (z < 10) then acc else itoa_pos fuel' (z / 10) acc
  end.
Definition Itoa (z : Z) : string :=
  if decide (z < 0) then String "-" (itoa_pos 20 (- z) EmptyString) else itoa_pos 20 z EmptyString.

(** ** net/url *)

Definition alnum (c : ascii) : bool :=
  let n := byte_of c in
  bool_decide (48 <= n <= 57) || bool_decide (65 <= n <= 90) || bool_decide (97 <= n <= 122).

(** [shouldEscape] for a path segment and for a query component. *)
Definition escape_in_path (c : ascii) : bool :=
  negb (alnum c || bool_decide (c ∈ ["-"; "_"; "."; "~"; "$"; "&"; "+"; ":"; "="; "@"]%char)).
Definition escape_in_query (c : ascii) : bool :=
  negb (alnum c || bool_decide (c ∈ ["-"; "_"; "."; "~"]%char)).

Fixpoint PathEscape (s : string) : string :=
  match s with
  | EmptyString => EmptyString
  | String c s' =>
      if escape_in_path c then String "%" (hex_byte true c +++ PathEscape s')%string
      else String c (PathEscape s')
  end.

Fixpoint QueryEscape (s : string) : string :=
  match s with
  | EmptyString => EmptyString
  | String c s' =>
      if decide (c = " "%char) then String "+" (QueryEscape s')
      else if escape_in_query c then String "%" (hex_byte true c +++ QueryEscape s')%string
      else String c (QueryEscape s')
  end.

(** [strings.TrimRight(s, "/")] *)
Fixpoint trim_slashes (s : string) : string :=
  match s with
  | EmptyString => EmptyString
  | String c s' =>
      match trim_slashes s' with
      | EmptyString => if decide (c = "/"%char) then EmptyString else str1 c
      | t => String c t
      end
  end.

(** ** encoding/base64, URL alphabet with padding *)

Definition b64_digit (c : ascii) : option Z :=
  let n := byte_of c in
  if decide (65 <= n <= 90) then Some (n - 65)
  else if decide (97 <= n <= 122) then Some (n - 71)
  else if decide (48 <= n <= 57) then Some (n + 4)
  else if decide (c = "-"%char) then Some 62
  else if decide (c = "_"%char) then Some 63
  else None.

Definition byte_chr (z : Z) : ascii := ascii_of_nat (Z.to_nat (z mod 256)).

(** Four characters at a time; one or two [=] may end the text.  Line breaks
    are skipped beforehand. *)
Fixpoint b64_quads (fuel : nat) (s : string) : option string :=
  match fuel with
  | O => None
  | S fuel' =>
      match s with
      | EmptyString => Some EmptyString
      | String a (String b (String c (String d s'))) =>
          match b64_digit a, b64_digit b with
          | Some x, Some y =>
              let b1 := byte_chr (x * 4 + y / 16) in
              if decide (c = "="%char) then
                if decide (d = "="%char /\ s' = EmptyString) then Some (str1 b1) else None
              else match b64_digit c with
                   | None => None
                   | Some z =>
                       let b2 := byte_chr (y * 16 + z / 4) in
                       if decide (d = "="%char) then
                         if decide (s' = EmptyString) then Some (String b1 (str1 b2)) else None
                       else match b64_digit d with
                            | None => None
                            | Some w =>
                                (fun t => String b1 (String b2 (String (byte_chr (z * 64 + w)) t)))
                                  <$> b64_quads fuel' s'
                            end
                   end
          | _, _ => None
          end
      | _ => None
      end
  end.

Fixpoint drop_newlines (s : string) : string :=
  match s with
  | EmptyString => EmptyString
  | String c s' =>
      if decide (byte_of c = 10 \/ byte_of c = 13) then drop_newlines s' else String c (drop_newlines s')
  end.

Definition URLEncoding_DecodeString (s : string) : option string :=
  let s := drop_newlines s in b64_quads (S (String.length s)) s.

(** ** Outgoing calls *)

(** The values of a JSON object the service sends. *)
Inductive JVal : Type :=
| JStr (s : string)
| JNum (n : Z)
| JBool (b : bool).

Record HttpCall := mkCall {
  call_method : string;
  call_url : string;
  call_auth : string;
  call_body : option (gmap string JVal) }.

(** A response: status and the bytes read of its body; [None] is a transport
    error. *)
Definition HttpReply : Type := option (Z * string).

(** ** Facts *)

(** A path segment stays one segment. *)
Lemma hex_digit_alnum n : 0 <= n < 16 -> alnum (hex_digit true n) = true.
Proof. intros H. assert (n ∈ seqZ 0 16) as Hn by (apply elem_of_seqZ; lia). revert n Hn H.
  apply (Forall_forall (fun n => 0 <= n < 16 -> alnum (hex_digit true n) = true)).
  repeat constructor; intros _; vm_compute; reflexivity. Qed.

Fixpoint string_forall (P : ascii -> bool) (s : string) : bool :=
  match s with EmptyString => true | String c s' => P c && string_forall P s' end.

Lemma string_forall_app P a b : string_forall P (a +++ b)%string = string_forall P a && string_forall P b.
Proof. induction a as [|c a IH]; simpl; [done|]. by rewrite IH, andb_assoc. Qed.

Lemma byte_of_range c : 0 <= byte_of c < 256.
Proof. unfold byte_of. pose proof (nat_ascii_bounded c). lia. Qed.

Lemma hex_byte_alnum c : string_forall alnum (hex_byte true c) = true.
Proof.
  pose proof (byte_of_range c). unfold hex_byte. simpl.
  rewrite !hex_digit_alnum; [done|..]; [apply Z.mod_pos_bound; lia|]. split; [apply Z.div_pos; lia|].
  apply Z.div_lt_upper_bound; lia.
Qed.

Lemma PathEscape_segment s :
  string_forall (fun c => negb (bool_decide (c ∈ ["/"; "?"; "#"; ";"]%char))) (PathEscape s) = true.
Proof.
  assert (forall c, alnum c = true -> negb (bool_decide (c ∈ ["/"; "?"; "#"; ";"]%char)) = true) as Ha.
  { intros c Hc. rewrite negb_true_iff. apply bool_decide_eq_false. intros Hin.
    repeat (apply elem_of_cons in Hin as [->|Hin]; [by vm_compute in Hc|]). by apply elem_of_nil in Hin. }
  induction s as [|c s IH]; simpl; [done|]. destruct (escape_in_path c) eqn:E; simpl.
  - rewrite string_forall_app, IH, andb_true_r. pose proof (hex_byte_alnum c) as Hh. simpl in *.
    apply andb_prop in Hh as [H1 H2]. rewrite (Ha _ H1). apply andb_prop in H2 as [H2 _]. by rewrite (Ha _ H2).
  - rewrite IH, andb_true_r. apply negb_false_iff, orb_true_iff in E as [E|E]; [by apply Ha|].
    apply bool_decide_eq_true in E.
    repeat (apply elem_of_cons in E as [->|E]; [vm_compute; reflexivity|]). by apply elem_of_nil in E.
Qed.

Lemma hex_digit_inj m n : 0 <= m < 16 -> 0 <= n < 16 -> hex_digit true m = hex_digit true n -> m = n.
Proof.
  intros Hm Hn E. apply (f_equal byte_of) in E. unfold hex_digit, byte_of in E.
  rewrite !nat_ascii_embedding in E by (repeat case_decide; lia). repeat case_decide; lia.
Qed.

Lemma byte_of_inj c d : byte_of c = byte_of d -> c = d.
Proof.
  unfold byte_of. intros H%Nat2Z.inj. by rewrite <-(ascii_nat_embedding c), <-(ascii_nat_embedding d), H.
Qed.

Lemma hex_byte_inj c d a b : (hex_byte true c +++ a = hex_byte true d +++ b)%string -> c = d /\ a = b.
Proof.
  pose proof (byte_of_range c). pose proof (byte_of_range d). unfold hex_byte. simpl. intros [= H1 H2 H3].
  apply hex_digit_inj in H1, H2; try (apply Z.mod_pos_bound; lia);
    try (split; [apply Z.div_pos; lia|apply Z.div_lt_upper_bound; lia]).
  split; [|done]. apply byte_of_inj. rewrite (Z.div_mod (byte_of c) 16), (Z.div_mod (byte_of d) 16) by lia. lia.
Qed.

Lemma String_inj c d a b : String c a = String d b -> c = d /\ a = b.
Proof. by intros [= -> ->]. Qed.

(** Distinct segments stay distinct. *)
Lemma PathEscape_inj s t : PathEscape s = PathEscape t -> s = t.
Proof.
  revert t. induction s as [|c s IH]; intros [|d t]; simpl; try done.
  - by destruct (escape_in_path d).
  - by destruct (escape_in_path c).
  - destruct (escape_in_path c) eqn:Ec, (escape_in_path d) eqn:Ed; intros [E H]%String_inj.
    + apply hex_byte_inj in H as [-> H]. by rewrite (IH t).
    + subst d. by vm_compute in Ed.
    + subst c. by vm_compute in Ec.
    + by rewrite E, (IH t).
Qed.
