(* ===== verification/Auth.v ===== *)
(** * Authentication (plugin/hanzodns/oidc.go, the middleware of api.go)

    Token validation and the middleware that puts the caller's organisation
    and bearer into the request context.  Signature verification (crypto/rsa,
    crypto/ecdsa over SHA-256), JSON decoding and the fetch of the issuer's
    keys are parameters ([Issuer]); decoding, key selection and every check
    on the claims are the code's.  The messages of base64 and JSON errors,
    which end up in the body of a 401, are abbreviated. *)

From Stdlib Require Import Ascii ZArith Lia.
From stdpp Require Import base numbers gmap strings list.
From S2P Require Import Prelude Http.

Local Open Scope Z_scope.

(** ** Data *)

Record jwtClaims := mkClaims {
  Issuer_ : string;
  Subject : string;
  Audience : list string;
  Expiry : Z;
  IssuedAt : Z;
  Owner : string;
  OrgID : string }.

Definition claims_org (c : jwtClaims) : string :=
  if decide (Owner c <> EmptyString) then Owner c else OrgID c.

Record jwk := mkJwk {
  Kty : string;
  Kid : string;
  Alg : string;
  Use : string;
  N_ : string;
  E_ : string;
  Crv : string;
  X_ : string;
  Y_ : string }.

Inductive curve : Type := P256 | P384.

(** The bytes of the big integers are the key. *)
Inductive PublicKey : Type :=
| RsaKey (n e : string)
| EcKey (c : curve) (x y : string).

(** An HTTP request as the handlers see it: [ctx] is what the middleware has
    put in the context. *)
Record Ctx := mkCtx { ctx_org : string; ctx_bearer : string }.

Record Request := mkRequest {
  Method : string;
  Path : string;
  Authorization : string;
  Body : string;
  ctx : Ctx }.

Definition empty_ctx : Ctx := mkCtx EmptyString EmptyString.

(** The outside of this component. *)
Record Issuer := mkIssuer {
  verify_rsa : string -> string -> string -> string -> bool;
  verify_ec : curve -> string -> string -> string -> string -> bool;
  get_header : string -> option (string * string);
  get_claims : string -> option jwtClaims;
  fetchJWKS : Z -> option (list jwk) }.

(** ** Decoding *)

Definition base64URLDecode (s : string) : option string :=
  let s := match (String.length s mod 4)%nat with
           | 2%nat => (s +++ "==")%string
           | 3%nat => (s +++ "=")%string
           | _ => s
           end in
  URLEncoding_DecodeString s.

Definition toPublicKey (k : jwk) : result string PublicKey :=
  let dec s := match base64URLDecode s with Some b => Ok b | None => Err "illegal base64 data" end in
  if decide (Kty k = "RSA") then nb ← dec (N_ k); eb ← dec (E_ k); Ok (RsaKey nb eb)
  else if decide (Kty k = "EC") then
    xb ← dec (X_ k); yb ← dec (Y_ k);
    if decide (Crv k = "P-256") then Ok (EcKey P256 xb yb)
    else if decide (Crv k = "P-384") then Ok (EcKey P384 xb yb)
    else Err ("unsupported curve: " +++ Crv k)%string
  else Err ("unsupported key type: " +++ Kty k)%string.

(** ** Claims *)

Definition splitAudience (s : string) : list string :=
  filter (fun p => p <> EmptyString) (TrimSpace <$> Split s ","%char).

Definition matchesAny (a allow : list string) : bool :=
  existsb (fun want => existsb (fun got => bool_decide (got = want)) a) allow.

(** The first key of that id, or the first signing key when the token names
    none. *)
Fixpoint matched_key (keys : list jwk) (kid : string) : option jwk :=
  match keys with
  | [] => None
  | k :: keys' =>
      if bool_decide (Kid k = kid) || (bool_decide (kid = EmptyString) && bool_decide (Use k = "sig"))
      then Some k else matched_key keys' kid
  end.

Section issuer.
Variable I : Issuer.

Definition verify (key : PublicKey) (input signature : string) : bool :=
  match key with
  | RsaKey n e => verify_rsa I n e input signature
  | EcKey c x y => verify_ec I c x y input signature
  end.

(** [validateToken] at Unix time [t]. *)
Definition validateToken (t : Z) (tokenStr : string) (keys : list jwk) (issuer audience : string)
  : result string jwtClaims :=
  match Split tokenStr "."%char with
  | [p0; p1; p2] =>
      match base64URLDecode p0 with
      | None => Err "decode header"
      | Some hb =>
      match get_header I hb with
      | None => Err "header is not JSON"
      | Some (alg, kid) =>
      match matched_key keys kid with
      | None => Err ("no matching key for kid " +++ quote kid)%string
      | Some k =>
      match base64URLDecode p2 with
      | None => Err "decode signature"
      | Some signature =>
      pubKey ← toPublicKey k;
      if negb (verify pubKey (p0 +++ "." +++ p1)%string signature) then Err "invalid signature"
      else
      match base64URLDecode p1 with
      | None => Err "illegal base64 data"
      | Some cb =>
      match get_claims I cb with
      | None => Err "claims are not JSON"
      | Some c =>
          if decide (Expiry c = 0) then Err "token has no expiry"
          else if decide (Expiry c <= t) then Err "token expired"
          else if decide (Issuer_ c <> issuer)
          then Err ("invalid issuer: got " +++ quote (Issuer_ c) +++ ", want " +++ quote issuer)%string
          else if decide (splitAudience audience <> []) then
            if matchesAny (Audience c) (splitAudience audience) then Ok c else Err "invalid audience"
          else Ok c
      end end end end end end
  | _ => Err "invalid token format"
  end.

(** ** The key cache *)

Record jwksCache := mkCache { cached : list jwk; fetchedAt : Z }.

(** Fresh for an hour (times in seconds); a failed refresh keeps the old
    keys. *)
Definition getKeys (t : Z) (c : jwksCache) : option (list jwk) * jwksCache :=
  if decide (t - fetchedAt c < 3600 /\ cached c <> []) then (Some (cached c), c)
  else match fetchJWKS I t with
       | None => if decide (cached c <> []) then (Some (cached c), c) else (None, c)
       | Some keys => (Some keys, mkCache keys t)
       end.

End issuer.

(** ** The middleware *)

Record Config := mkConfig {
  OIDC_ISSUER : string;
  OIDC_AUDIENCE : string;
  API_KEY : string;
  DEV_INSECURE : string }.

(** A denial, or the request handed to the next handler. *)
Inductive Auth : Type :=
| Deny (status : Z) (code msg : string)
| Pass (r : Request).

Definition with_ctx (r : Request) (c : Ctx) : Request :=
  mkRequest (Method r) (Path r) (Authorization r) (Body r) c.

Definition authMiddleware (cfg : Config) (r : Request) : Auth :=
  if decide (API_KEY cfg = EmptyString)
  then Deny 503 "unconfigured" "authentication is not configured"
  else if decide (Authorization r = EmptyString)
  then Deny 401 "unauthorized" "missing Authorization header"
  else match SplitN (Authorization r) " "%char 2 with
       | [scheme; key] =>
           if EqualFold scheme "bearer" && bool_decide (key = API_KEY cfg) then Pass r
           else Deny 401 "unauthorized" "invalid bearer token"
       | _ => Deny 401 "unauthorized" "invalid bearer token"
       end.

Definition oidcMiddleware (I : Issuer) (cfg : Config) (t : Z) (r : Request) (c : jwksCache)
  : Auth * jwksCache :=
  if decide (OIDC_ISSUER cfg = EmptyString) then (Pass r, c)
  else if decide (Authorization r = EmptyString)
  then (Deny 401 "unauthorized" "missing Authorization header", c)
  else match SplitN (Authorization r) " "%char 2 with
       | [scheme; token] =>
           if negb (EqualFold scheme "bearer")
           then (Deny 401 "unauthorized" "invalid Authorization header", c)
           else
             let '(ks, c) := getKeys I t c in
             match ks with
             | None => (Deny 500 "internal_error" "failed to fetch JWKS", c)
             | Some keys =>
                 match validateToken I t token keys (OIDC_ISSUER cfg) (OIDC_AUDIENCE cfg) with
                 | Err msg => (Deny 401 "unauthorized" msg, c)
                 | Ok claims => (Pass (with_ctx r (mkCtx (claims_org claims) token)), c)
                 end
             end
       | _ => (Deny 401 "unauthorized" "invalid Authorization header", c)
       end.

Definition authChain (I : Issuer) (cfg : Config) (t : Z) (r : Request) (c : jwksCache)
  : Auth * jwksCache :=
  if decide (OIDC_ISSUER cfg <> EmptyString) then oidcMiddleware I cfg t r c
  else if decide (API_KEY cfg <> EmptyString) then (authMiddleware cfg r, c)
  else if decide (DEV_INSECURE cfg = "1") then (Pass r, c)
  else (Deny 503 "unconfigured" "authentication is not configured", c).
