(* ===== verification/Providers.v ===== *)
(** * Upstream providers (plugin/hanzodns/provider.go, cloudflare.go, kms.go)

    The connector to a third-party DNS control plane, as a record of
    operations over the state [W] of the outside world; the Cloudflare
    connector; and the read of an organisation's token from the key service.
    The transport, JSON decoding and the environment are parameters
    ([Outside]).  Errors are their messages. *)

From Stdlib Require Import Ascii ZArith Lia.
From stdpp Require Import base numbers gmap strings list.
From S2P Require Import Prelude Store Http.

Local Open Scope Z_scope.

(** ** The contract *)

Record RecordInput := mkInput {
  in_Name : string;
  in_Type : string;
  in_Content : string;
  in_TTL : Z;
  in_Proxied : bool;
  in_Priority : Z }.

Record ProviderZone := mkProviderZone {
  pz_ID : string;
  pz_Name : string;
  pz_Status : string;
  pz_NameServers : list string }.

(** A call returns its result and the world after it. *)
Definition call (W A : Type) : Type := W -> result string A * W.

Record Provider (W : Type) := mkProvider {
  p_Type : string;
  p_ListZones : call W (list ProviderZone);
  p_ZoneIDForName : string -> call W string;
  p_ListRecords : string -> call W (list ProviderRecord);
  p_CreateRecord : string -> RecordInput -> call W ProviderRecord;
  p_UpdateRecord : string -> string -> RecordPatch -> call W ProviderRecord;
  p_DeleteRecord : string -> string -> call W unit }.
Arguments p_Type {W} _.
Arguments p_ListZones {W} _ _.
Arguments p_ZoneIDForName {W} _ _ _.
Arguments p_ListRecords {W} _ _ _.
Arguments p_CreateRecord {W} _ _ _ _.
Arguments p_UpdateRecord {W} _ _ _ _ _.
Arguments p_DeleteRecord {W} _ _ _ _.

(** ** The Cloudflare API's data *)

Record cfEnvelope := mkEnvelope {
  Success : bool;
  Errors : list (Z * string) }.

Record cfZone := mkCfZone {
  cz_ID : string;
  cz_Name : string;
  cz_Status : string;
  cz_NameServers : list string }.

Record cfRecord := mkCfRecord {
  cr_ID : string;
  cr_Name : string;
  cr_Type : string;
  cr_Content : string;
  cr_TTL : Z;
  cr_Proxied : bool;
  cr_Priority : Z }.

Definition toProvider (r : cfRecord) : ProviderRecord :=
  mkProviderRecord (cr_ID r) (cr_Name r) (cr_Type r) (cr_Content r) (cr_TTL r) (cr_Proxied r) (cr_Priority r).

(** What the code gets from outside: the transport ([http.Client.Do] and the
    bytes read of the body), the URL check of [http.NewRequest] (an error
    message), environment variables, and [json.Unmarshal] into each of the
    structs it is used with.  [get_envelope] is the envelope after an
    unmarshal whose error is ignored; [get_result] the raw [result] field,
    empty when absent. *)
Record Outside (W : Type) := mkOutside {
  Do : HttpCall -> W -> HttpReply * W;
  NewRequest : string -> option string;
  Getenv : string -> string;
  get_envelope : string -> cfEnvelope;
  get_result : string -> option string;
  get_zones : string -> option (list cfZone);
  get_records : string -> option (list cfRecord);
  get_record : string -> option cfRecord;
  get_secret : string -> option string }.
Arguments Do {W} _ _ _.
Arguments NewRequest {W} _ _.
Arguments Getenv {W} _ _.
Arguments get_envelope {W} _ _.
Arguments get_result {W} _ _.
Arguments get_zones {W} _ _.
Arguments get_records {W} _ _.
Arguments get_record {W} _ _.
Arguments get_secret {W} _ _.

(** [env.err(status)] *)
Definition envelope_err (e : cfEnvelope) (status : Z) : option string :=
  if Success e then None
  else match Errors e with
       | (code, msg) :: _ =>
           Some ("cloudflare API error (" +++ Itoa status +++ "): [" +++ Itoa code +++ "] " +++ msg)%string
       | [] => Some ("cloudflare API error (status " +++ Itoa status +++ ")")%string
       end.

Definition cfRecordBody (i : RecordInput) : gmap string JVal :=
  let m := <["type" := JStr (in_Type i)]> (<["name" := JStr (in_Name i)]>
           (<["content" := JStr (in_Content i)]> (<["proxied" := JBool (in_Proxied i)]> ∅))) in
  let m := if decide (0 < in_TTL i) then <["ttl" := JNum (in_TTL i)]> m else m in
  if decide (0 < in_Priority i) then <["priority" := JNum (in_Priority i)]> m else m.

(** [if patch.F != nil { m[k] = *patch.F }] *)
Definition set_opt {A} (k : string) (f : A -> JVal) (v : option A) (m : gmap string JVal) : gmap string JVal :=
  match v with Some a => <[k := f a]> m | None => m end.

Definition cfPatchBody (p : RecordPatch) : gmap string JVal :=
  set_opt "proxied" JBool (patch_Proxied p)
  (set_opt "priority" JNum (patch_Priority p)
  (set_opt "ttl" JNum (patch_TTL p)
  (set_opt "content" JStr (patch_Content p)
  (set_opt "name" JStr (patch_Name p)
  (set_opt "type" JStr (patch_Type p) ∅))))).

Section outside.
Context {W : Type} (O : Outside W).

(** ** The Cloudflare connector *)

Definition cfAPIBase : string :=
  let v := TrimSpace (Getenv O "CLOUDFLARE_API_BASE") in
  if decide (v <> EmptyString) then trim_slashes v else "https://api.cloudflare.com/client/v4".

(** What [cfDo] makes of a reply, with [out] as the decoder of the result and
    [zero] the value [out] points to before. *)
Definition cf_outcome {A} (status : Z) (data : string) (out : option (string -> option A)) (zero : A)
  : result string A :=
  if decide (status = 204) then Ok zero
  else
    let env := if decide (data = EmptyString) then mkEnvelope false [] else get_envelope O data in
    match envelope_err env status with
    | Some err => Err err
    | None =>
        match out with
        | None => Ok zero
        | Some dec =>
            match get_result O data with
            | None => Err "cloudflare: malformed response"
            | Some raw =>
                if decide (raw = EmptyString) then Ok zero
                else match dec raw with
                     | None => Err "cloudflare: malformed result"
                     | Some v => Ok v
                     end
            end
        end
    end.

Definition cfDo {A} (token base method path : string) (body : option (gmap string JVal))
  (out : option (string -> option A)) (zero : A) : call W A := fun w =>
  let url := (base +++ path)%string in
  match NewRequest O url with
  | Some err => (Err err, w)
  | None =>
      let '(reply, w) := Do O (mkCall method url ("Bearer " +++ token)%string body) w in
      match reply with
      | None => (Err "cloudflare request failed", w)
      | Some (status, data) => (cf_outcome status data out zero, w)
      end
  end.

Definition zero_record : cfRecord :=
  mkCfRecord EmptyString EmptyString EmptyString EmptyString 0 false 0.

(** Map the success value of a call. *)
Definition then_ok {A B} (f : A -> result string B) (x : result string A * W) : result string B * W :=
  (x.1 ≫= f, x.2).

Definition cf_ListZones (token base : string) : call W (list ProviderZone) := fun w =>
  then_ok (fun zs => Ok ((fun z => mkProviderZone (cz_ID z) (cz_Name z) (cz_Status z) (cz_NameServers z)) <$> zs))
    (cfDo token base "GET" "/zones?per_page=50" None (Some (get_zones O)) [] w).

(** [strings.TrimSuffix(strings.ToLower(strings.TrimSpace(name)), ".")] *)
Definition cf_zone_name (name : string) : string := TrimSuffix (ToLower (TrimSpace name)) dot.

Fixpoint find_zone (name : string) (zs : list cfZone) : option string :=
  match zs with
  | [] => None
  | z :: zs' => if EqualFold (TrimSuffix (cz_Name z) dot) name then Some (cz_ID z) else find_zone name zs'
  end.

Definition cf_ZoneIDForName (token base name : string) : call W string := fun w =>
  let name := cf_zone_name name in
  then_ok (fun zs => match find_zone name zs with
                     | Some id => Ok id
                     | None => Err ("zone " +++ quote name +++ " not found in the connected cloudflare account")%string
                     end)
    (cfDo token base "GET" ("/zones?name=" +++ QueryEscape name)%string None (Some (get_zones O)) [] w).

Definition cf_ListRecords (token base zoneID : string) : call W (list ProviderRecord) := fun w =>
  then_ok (fun rs => Ok (toProvider <$> rs))
    (cfDo token base "GET" ("/zones/" +++ PathEscape zoneID +++ "/dns_records?per_page=100")%string
       None (Some (get_records O)) [] w).

Definition cf_CreateRecord (token base zoneID : string) (i : RecordInput) : call W ProviderRecord := fun w =>
  then_ok (fun r => Ok (toProvider r))
    (cfDo token base "POST" ("/zones/" +++ PathEscape zoneID +++ "/dns_records")%string
       (Some (cfRecordBody i)) (Some (get_record O)) zero_record w).

Definition record_path (zoneID recordID : string) : string :=
  ("/zones/" +++ PathEscape zoneID +++ "/dns_records/" +++ PathEscape recordID)%string.

Definition cf_UpdateRecord (token base zoneID recordID : string) (p : RecordPatch) : call W ProviderRecord := fun w =>
  then_ok (fun r => Ok (toProvider r))
    (cfDo token base "PATCH" (record_path zoneID recordID) (Some (cfPatchBody p)) (Some (get_record O)) zero_record w).

Definition cf_DeleteRecord (token base zoneID recordID : string) : call W unit := fun w =>
  cfDo token base "DELETE" (record_path zoneID recordID) None None tt w.

Definition newCloudflareProvider (token : string) : Provider W :=
  mkProvider W ProviderCloudflare (cf_ListZones token cfAPIBase) (cf_ZoneIDForName token cfAPIBase)
    (cf_ListRecords token cfAPIBase) (cf_CreateRecord token cfAPIBase) (cf_UpdateRecord token cfAPIBase)
    (cf_DeleteRecord token cfAPIBase).

(** ** The key service *)

Definition kmsBaseURL : string :=
  let v := TrimSpace (Getenv O "HANZO_DNS_KMS_URL") in
  if decide (v <> EmptyString) then trim_slashes v else "https://api.hanzo.ai".

Definition kms_endpoint (org subpath : string) : string :=
  (kmsBaseURL +++ "/v1/kms/orgs/" +++ PathEscape org +++ "/secrets/" +++ subpath +++ "?env=default")%string.

(** What [kmsSecret] makes of a reply. *)
Definition kms_outcome (status : Z) (data : string) : result string string :=
  if decide (status = 200) then
    match get_secret O data with
    | None => Err "kms: malformed response"
    | Some v => if decide (TrimSpace v = EmptyString) then Err "cloudflare token is empty" else Ok v
    end
  else if decide (status = 404) then Err "cloudflare is not connected for this org"
  else if decide (status = 401 \/ status = 403) then Err "not authorized to read this org's cloudflare token"
  else Err ("kms returned status " +++ Itoa status)%string.

Definition kmsSecret (bearer org subpath : string) : call W string := fun w =>
  if decide (bearer = EmptyString) then (Err "no validated credential on request", w)
  else if decide (org = EmptyString) then (Err "no org on request", w)
  else
    let endpoint := kms_endpoint org subpath in
    match NewRequest O endpoint with
    | Some err => (Err err, w)
    | None =>
        let '(reply, w) := Do O (mkCall "GET" endpoint ("Bearer " +++ bearer)%string None) w in
        match reply with
        | None => (Err "kms request failed", w)
        | Some (status, data) => (kms_outcome status data, w)
        end
    end.

(** ** Choosing the provider *)

Definition providerFor (bearer org kind : string) : call W (option (Provider W)) := fun w =>
  if decide (kind = EmptyString \/ kind = ProviderAuthoritative) then (Ok None, w)
  else if decide (kind = ProviderCloudflare) then
    then_ok (fun token => Ok (Some (newCloudflareProvider token)))
      (kmsSecret bearer org "integrations/cloudflare/api_token" w)
  else (Err ("unknown provider " +++ quote kind)%string, w).

End outside.

Definition validProviders (p : string) : bool :=
  bool_decide (p ∈ [ProviderAuthoritative; ProviderCloudflare]).

Definition normProvider (p : string) : result string string :=
  if decide (p = EmptyString) then Ok ProviderAuthoritative
  else if negb (validProviders p) then Err ("unknown provider " +++ quote p)%string
  else Ok p.
