(* ===== verification/ProviderFacts.v ===== *)
(** * Correctness of the provider connector and the key-service client

    Credentials leave only in the Authorization header; a secret read names
    the caller's organisation and no other; what counts as success of a
    Cloudflare call; a partial update sends exactly the fields it sets. *)

From Stdlib Require Import Ascii ZArith Lia.
From stdpp Require Import base numbers gmap strings list.
From S2P Require Import Prelude Http Store Providers.

Local Open Scope Z_scope.

Section facts.
Context {W : Type} (O : Outside W).

(** ** Credentials *)

(** The same call with another Authorization header. *)
Definition with_auth (c : HttpCall) (a : string) : HttpCall :=
  mkCall (call_method c) (call_url c) a (call_body c).

(** A transport whose replies do not depend on the header. *)
Definition header_blind : Prop := forall c a w, Do O (with_auth c a) w = Do O c w.

Lemma header_blind_eq m u a a' b w : header_blind -> Do O (mkCall m u a b) w = Do O (mkCall m u a' b) w.
Proof. intros H. by rewrite <-(H (mkCall m u a b) a'). Qed.

(** The token of a Cloudflare call and the bearer relayed to the key
    service reach nothing but the Authorization header: if the other side's
    replies do not depend on that header, neither result nor error message
    nor effect does. *)
Theorem credentials_stay_in_header {A} t1 t2 base method path body (out : option (string -> option A)) zero org sub w :
  header_blind -> t1 <> EmptyString -> t2 <> EmptyString ->
  cfDo O t1 base method path body out zero w = cfDo O t2 base method path body out zero w /\
  kmsSecret O t1 org sub w = kmsSecret O t2 org sub w.
Proof.
  intros Hb H1 H2. unfold cfDo, kmsSecret.
  rewrite (decide_False (P := t1 = EmptyString)), (decide_False (P := t2 = EmptyString)) by done.
  rewrite (header_blind_eq method _ ("Bearer " +++ t1)%string ("Bearer " +++ t2)%string) by done.
  by rewrite (header_blind_eq "GET" _ ("Bearer " +++ t1)%string ("Bearer " +++ t2)%string) by done.
Qed.

(** ** Success *)

Lemma cf_outcome_Ok {A} (out : option (string -> option A)) zero st d v :
  cf_outcome O st d out zero = Ok v <->
  st = 204 /\ v = zero \/
  st <> 204 /\ d <> EmptyString /\ Success (get_envelope O d) = true /\
  match out with
  | None => v = zero
  | Some dec => exists raw, get_result O d = Some raw /\
                  (raw = EmptyString /\ v = zero \/ raw <> EmptyString /\ dec raw = Some v)
  end.
Proof.
  unfold cf_outcome. destruct (decide (st = 204)) as [->|Hs]; [naive_solver|].
  destruct (decide (d = EmptyString)) as [->|Hd]; [naive_solver|]. unfold envelope_err.
  destruct (Success (get_envelope O d)) eqn:E; [|destruct (Errors _) as [|[]]; naive_solver].
  destruct out as [dec|]; [|naive_solver]. destruct (get_result O d) as [raw|] eqn:Er; [|naive_solver].
  destruct (decide (raw = EmptyString)) as [->|Hr]; [naive_solver|].
  destruct (dec raw) as [v0|] eqn:Ed; [|naive_solver]. split.
  - intros [= ->]. right. split_and!; try done. exists raw. auto.
  - intros [[? _]|(_ & _ & _ & raw' & [= <-] & [[? _]|[_ Hv]])]; [done|done|]. congruence.
Qed.

(** A Cloudflare call succeeds exactly when there was a reply and it was
    either 204, which yields the zero value, or a body whose envelope says
    success and, where a result is expected, whose result decodes (an absent
    result yields the zero value).  No other status is looked at: a failing
    HTTP status with a successful envelope is accepted. *)
Theorem cfDo_success {A} token base method path body (out : option (string -> option A)) zero w v w' :
  NewRequest O (base +++ path)%string = None ->
  cfDo O token base method path body out zero w = (Ok v, w') <->
  exists status data,
    Do O (mkCall method (base +++ path)%string ("Bearer " +++ token)%string body) w = (Some (status, data), w') /\
    (status = 204 /\ v = zero \/
     status <> 204 /\ data <> EmptyString /\ Success (get_envelope O data) = true /\
     match out with
     | None => v = zero
     | Some dec => exists raw, get_result O data = Some raw /\
                     (raw = EmptyString /\ v = zero \/ raw <> EmptyString /\ dec raw = Some v)
     end).
Proof.
  intros Hn. unfold cfDo. rewrite Hn. destruct (Do O _ w) as [[[st d]|] w1]; cycle 1.
  { split; [done|]. by intros (? & ? & [= ] & _). }
  split.
  - intros [= H <-]. exists st, d. split; [done|]. by apply cf_outcome_Ok.
  - intros (st' & d' & [= <- <- <-] & H). f_equal. by apply cf_outcome_Ok.
Qed.

(** ** Partial updates *)

(** A PATCH carries exactly the fields the caller set, with their
    values: an unset field is absent from the payload, so the upstream value
    stays. *)
Theorem cfPatchBody_fields p k :
  cfPatchBody p !! k =
    if decide (k = "proxied") then JBool <$> patch_Proxied p
    else if decide (k = "priority") then JNum <$> patch_Priority p
    else if decide (k = "ttl") then JNum <$> patch_TTL p
    else if decide (k = "content") then JStr <$> patch_Content p
    else if decide (k = "name") then JStr <$> patch_Name p
    else if decide (k = "type") then JStr <$> patch_Type p
    else None.
Proof.
  assert (forall {A} k' (f : A -> JVal) v m,
    set_opt k' f v m !! k = if decide (k = k') then match v with Some a => Some (f a) | None => m !! k end
                            else m !! k) as Hset.
  { intros A k' f v m. destruct v as [a|]; simpl; [|by case_decide].
    case_decide; subst; [by rewrite lookup_insert_eq|by rewrite lookup_insert_ne]. }
  unfold cfPatchBody. rewrite !Hset, lookup_empty.
  repeat case_decide; subst; try done; repeat (case_match; simplify_eq; try done).
Qed.

(** ** The key service *)

(** Strings that agree up to their first slash. *)
Lemma segment_inj a b x y :
  string_forall (fun c => negb (bool_decide (c ∈ ["/"; "?"; "#"; ";"]%char))) a = true ->
  string_forall (fun c => negb (bool_decide (c ∈ ["/"; "?"; "#"; ";"]%char))) b = true ->
  (a +++ String "/" x = b +++ String "/" y)%string -> a = b.
Proof.
  revert b. induction a as [|c a IH]; intros [|d b] Ha Hb; simpl; try done.
  - intros [E _]%String_inj. subst d. by vm_compute in Hb.
  - intros [E _]%String_inj. subst c. by vm_compute in Ha.
  - intros [-> E]%String_inj. simpl in Ha, Hb. apply andb_prop in Ha as [_ Ha], Hb as [_ Hb].
    f_equal. by apply IH.
Qed.

Lemma append_inj_l a x y : (a +++ x = a +++ y)%string -> x = y.
Proof. induction a as [|c a IH]; simpl; [done|]. intros [_ E]%String_inj. by apply IH. Qed.

(** A secret read is one GET, with the caller's bearer, of a URL that
    determines the organisation: two organisations never share a URL,
    whatever characters their names have and whatever secret is asked for. *)
Theorem kms_scoped bearer org org' sub sub' w :
  bearer <> EmptyString -> org <> EmptyString ->
  (kms_endpoint O org sub = kms_endpoint O org' sub' -> org = org') /\
  (NewRequest O (kms_endpoint O org sub) = None ->
   (kmsSecret O bearer org sub w).2
   = (Do O (mkCall "GET" (kms_endpoint O org sub) ("Bearer " +++ bearer)%string None) w).2).
Proof.
  intros Hb Ho. split.
  - unfold kms_endpoint. intros E%append_inj_l%append_inj_l. apply PathEscape_inj.
    eapply segment_inj; [apply PathEscape_segment..|exact E].
  - intros Hn. unfold kmsSecret. rewrite !decide_False, Hn by done.
    by destruct (Do O _ w) as [[[status data]|] w1].
Qed.

End facts.

(** ** Examples *)

Module ProviderSample.

(** A world that counts calls and answers each with the same reply. *)
Definition outside (status : Z) (data : string) : Outside nat :=
  mkOutside nat (fun _ w => (Some (status, data), S w)) (fun _ => None) (fun _ => EmptyString)
    (fun d => mkEnvelope (bool_decide (d = "ok")) []) (fun d => Some d) (fun _ => None) (fun _ => None)
    (fun _ => Some (mkCfRecord "r9" "www" "A" "192.0.2.9" 120 false 0)) (fun d => Some d).

Lemma credentials_witness :
  kmsSecret (outside 200 "tok") "alice" "acme" "integrations/cloudflare/api_token" 0%nat
    = kmsSecret (outside 200 "tok") "mallory" "acme" "integrations/cloudflare/api_token" 0%nat.
Proof.
  refine (proj2 (credentials_stay_in_header (outside 200 "tok") "alice" "mallory" EmptyString EmptyString
    EmptyString None (A := unit) None tt "acme" "integrations/cloudflare/api_token" 0%nat _ _ _)).
  - intros c a w. reflexivity.
  - discriminate.
  - discriminate.
Defined.

(** A reply of status 500 is accepted. *)
Lemma cfDo_success_witness :
  cfDo (outside 500 "ok") "t" "https://cf" "DELETE" "/zones/z/dns_records/r" None (A := unit) None tt 0%nat
    = (Ok tt, 1%nat).
Proof.
  apply (cfDo_success (outside 500 "ok")); [reflexivity|]. exists 500, "ok". split; [reflexivity|].
  right. split; [discriminate|]. split; [discriminate|]. split; reflexivity.
Defined.

Lemma kms_scoped_witness :
  (kmsSecret (outside 200 "tok") "alice" "a/b" "s" 0%nat).2 = 1%nat /\
  kms_endpoint (outside 200 "tok") "a/b" "s" = "https://api.hanzo.ai/v1/kms/orgs/a%2Fb/secrets/s?env=default".
Proof.
  split; [|vm_compute; reflexivity].
  rewrite (proj2 (kms_scoped (outside 200 "tok") "alice" "a/b" "x" "s" "s" 0%nat ltac:(discriminate) ltac:(discriminate)));
    reflexivity.
Defined.

End ProviderSample.
