(* ===== verification/Api.v ===== *)
(** * The REST API (plugin/hanzodns/api.go, api_sync.go)

    The router and the handlers of the zone and record service.  A handler
    is a function of the request, the store and the outside world; it
    returns the response, the new store, the new world and whether the store
    called its change hook.  JSON decoding of request bodies is a parameter
    ([Bodies]); response bodies are values before encoding. *)

From Stdlib Require Import Ascii ZArith Lia.
From stdpp Require Import base numbers gmap strings list.
From S2P Require Import Prelude Http Auth Store Providers.

Local Open Scope Z_scope.

(** ** Responses *)

Inductive RespBody : Type :=
| BError (code msg : string)
| BHealth
| BZones (zones : list Zone) (total : Z)
| BZone (z : Zone)
| BRecords (records : list Record_) (total : Z)
| BRecord (r : Record_)
| BSynced (synced : list SyncResponse) (total : Z)
| BEmpty.

Record Response := mkResponse { status : Z; body : RespBody }.

Definition writeError (st : Z) (code msg : string) : Response := mkResponse st (BError code msg).

(** The message of a store error. *)
Definition Error (e : StoreErr) : string :=
  match e with
  | ErrZoneExists k => ("zone " +++ quote k +++ " already exists")%string
  | ErrZoneNotFound k => ("zone " +++ quote k +++ " not found")%string
  | ErrRecordNotFound id => ("record " +++ quote id +++ " not found")%string
  | ErrInvalidType t => ("invalid record type " +++ quote t)%string
  | ErrMirrorNoID => "mirror record requires an id"
  end.

(** ** Request bodies *)

Record ZoneBody := mkZoneBody { zb_Zone : string; zb_Provider : string }.

Record RecordBody := mkRecordBody {
  rb_Name : string;
  rb_Type : string;
  rb_TTL : Z;
  rb_Content : string;
  rb_Priority : Z;
  rb_Proxied : bool }.

Record Bodies := mkBodies {
  decode_zone : string -> option ZoneBody;
  decode_record : string -> option RecordBody;
  decode_patch : string -> option RecordPatch;
  decode_sync : string -> option (list SyncZoneRequest) }.

Definition reqOrg (r : Request) : string := ctx_org (ctx r).

(** [toRecord], at the time of the request. *)
Definition toRecord (t : Z) (pr : ProviderRecord) : Record_ :=
  mkRecord (PID pr) (PName pr) (PType pr) (PTTL pr) (PContent pr) (PPriority pr) (PProxied pr) t t.

Section api.
Context {MO : MapOrder} {W : Type} (O : Outside W) (B : Bodies).

(** Response, store, world, hook called. *)
Definition Reply : Type := (Response * Store * W * bool)%type.

Definition bad_json : Response := writeError 400 "bad_request" "invalid JSON body".
Definition not_allowed : Response := writeError 405 "method_not_allowed" "method not allowed".

(** ** Backends *)

(** [zoneBackend]: nothing for an authoritative zone, the connector and its
    zone id for a provider-backed one; [None] as the error is
    [errZoneNotFound].  [providerFor] returns no connector only for an empty
    or authoritative kind, which [ZoneProvider] and the test before the call
    exclude; the code would dereference nil there. *)
Definition zoneBackend (r : Request) (s : Store) (zoneName : string) (w : W)
  : result (option string) (option (Provider W * string)) * W :=
  let '(kind, ok) := ZoneProvider (reqOrg r) zoneName s in
  if negb ok then (Err None, w)
  else if decide (kind = ProviderAuthoritative) then (Ok None, w)
  else
    let '(p, w) := providerFor O (ctx_bearer (ctx r)) (reqOrg r) kind w in
    match p with
    | Err msg => (Err (Some msg), w)
    | Ok None => (Ok None, w)
    | Ok (Some prov) =>
        let '(z, w) := p_ZoneIDForName prov zoneName w in
        match z with
        | Err msg => (Err (Some msg), w)
        | Ok zoneID => (Ok (Some (prov, zoneID)), w)
        end
    end.

Definition writeBackendError (err : option string) : Response :=
  match err with
  | None => writeError 404 "not_found" "zone not found"
  | Some msg => writeError 502 "provider_error" msg
  end.

(** ** Zone handlers *)

Definition handleListZones (r : Request) (s : Store) (w : W) : Reply :=
  let zones := ListZones (reqOrg r) s in
  (mkResponse 200 (BZones zones (Z.of_nat (length zones))), s, w, false).

Definition handleGetZone (r : Request) (zoneName : string) (s : Store) (w : W) : Reply :=
  match GetZone (reqOrg r) zoneName s with
  | None => (writeError 404 "not_found" "zone not found", s, w, false)
  | Some z => (mkResponse 200 (BZone z), s, w, false)
  end.

Definition handleCreateZone (e : Env) (r : Request) (s : Store) (w : W) : Reply :=
  match decode_zone B (Body r) with
  | None => (bad_json, s, w, false)
  | Some b =>
      if decide (zb_Zone b = EmptyString)
      then (writeError 400 "bad_request" "zone name is required", s, w, false)
      else match normProvider (zb_Provider b) with
           | Err msg => (writeError 400 "bad_request" msg, s, w, false)
           | Ok provider =>
               let '(res, s', ch) := CreateZone e (reqOrg r) (zb_Zone b) provider s in
               match res with
               | Err err =>
                   if Contains (Error err) "already exists"
                   then (writeError 409 "conflict" (Error err), s', w, ch)
                   else (writeError 500 "internal_error" (Error err), s', w, ch)
               | Ok z => (mkResponse 201 (BZone z), s', w, ch)
               end
           end
  end.

Definition handleDeleteZone (r : Request) (zoneName : string) (s : Store) (w : W) : Reply :=
  let '(res, s', ch) := DeleteZone (reqOrg r) zoneName s in
  match res with
  | Err err => (writeError 404 "not_found" (Error err), s', w, ch)
  | Ok _ => (mkResponse 200 BEmpty, s', w, ch)
  end.

(** ** Record handlers *)

Definition handleListRecords (e : Env) (r : Request) (zoneName : string) (s : Store) (w : W) : Reply :=
  let '(be, w) := zoneBackend r s zoneName w in
  match be with
  | Err err => (writeBackendError err, s, w, false)
  | Ok (Some (prov, zoneID)) =>
      let '(prs, w) := p_ListRecords prov zoneID w in
      match prs with
      | Err msg => (writeError 502 "provider_error" msg, s, w, false)
      | Ok prs =>
          let records := toRecord (now e) <$> prs in
          (mkResponse 200 (BRecords records (Z.of_nat (length records))), s, w, false)
      end
  | Ok None =>
      match ListRecords (reqOrg r) zoneName s with
      | Err err => (writeError 404 "not_found" (Error err), s, w, false)
      | Ok records => (mkResponse 200 (BRecords records (Z.of_nat (length records))), s, w, false)
      end
  end.

Definition handleGetRecord (r : Request) (zoneName recordID : string) (s : Store) (w : W) : Reply :=
  match GetRecord (reqOrg r) zoneName recordID s with
  | Err err => (writeError 404 "not_found" (Error err), s, w, false)
  | Ok rec => (mkResponse 200 (BRecord rec), s, w, false)
  end.

(** The status of a store error: found in its message. *)
Definition store_error (err : StoreErr) : Response :=
  if Contains (Error err) "not found" then writeError 404 "not_found" (Error err)
  else writeError 400 "bad_request" (Error err).

(** Mirror the provider's record; a failure is logged only. *)
Definition mirror (e : Env) (r : Request) (zoneName : string) (pr : ProviderRecord) (s : Store)
  : Store * bool :=
  let '(_, s', ch) := PutMirror e (reqOrg r) zoneName pr s in (s', ch).

Definition handleCreateRecord (e : Env) (r : Request) (zoneName : string) (s : Store) (w : W) : Reply :=
  match decode_record B (Body r) with
  | None => (bad_json, s, w, false)
  | Some b =>
      if decide (rb_Name b = EmptyString)
      then (writeError 400 "bad_request" "name is required", s, w, false)
      else if decide (rb_Type b = EmptyString)
      then (writeError 400 "bad_request" "type is required", s, w, false)
      else if decide (rb_Content b = EmptyString)
      then (writeError 400 "bad_request" "content is required", s, w, false)
      else
        let ttl := if decide (rb_TTL b = 0) then 300 else rb_TTL b in
        let '(be, w) := zoneBackend r s zoneName w in
        match be with
        | Err err => (writeBackendError err, s, w, false)
        | Ok (Some (prov, zoneID)) =>
            let '(pr, w) := p_CreateRecord prov zoneID
              (mkInput (rb_Name b) (rb_Type b) (rb_Content b) ttl (rb_Proxied b) (rb_Priority b)) w in
            match pr with
            | Err msg => (writeError 502 "provider_error" msg, s, w, false)
            | Ok pr =>
                let '(s', ch) := mirror e r zoneName pr s in
                (mkResponse 201 (BRecord (toRecord (now e) pr)), s', w, ch)
            end
        | Ok None =>
            let '(res, s', ch) := CreateRecord e (reqOrg r) zoneName (rb_Name b) (rb_Type b) ttl
                                    (rb_Content b) (rb_Priority b) (rb_Proxied b) s in
            match res with
            | Err err => (store_error err, s', w, ch)
            | Ok rec => (mkResponse 201 (BRecord rec), s', w, ch)
            end
        end
  end.

Definition handleUpdateRecord (e : Env) (r : Request) (zoneName recordID : string) (s : Store) (w : W) : Reply :=
  match decode_patch B (Body r) with
  | None => (bad_json, s, w, false)
  | Some patch =>
      let '(be, w) := zoneBackend r s zoneName w in
      match be with
      | Err err => (writeBackendError err, s, w, false)
      | Ok (Some (prov, zoneID)) =>
          let '(pr, w) := p_UpdateRecord prov zoneID recordID patch w in
          match pr with
          | Err msg => (writeError 502 "provider_error" msg, s, w, false)
          | Ok pr =>
              let '(s', ch) := mirror e r zoneName pr s in
              (mkResponse 200 (BRecord (toRecord (now e) pr)), s', w, ch)
          end
      | Ok None =>
          let '(res, s', ch) := UpdateRecord e (reqOrg r) zoneName recordID patch s in
          match res with
          | Err err => (store_error err, s', w, ch)
          | Ok rec => (mkResponse 200 (BRecord rec), s', w, ch)
          end
      end
  end.

Definition handleDeleteRecord (e : Env) (r : Request) (zoneName recordID : string) (s : Store) (w : W) : Reply :=
  let '(be, w) := zoneBackend r s zoneName w in
  match be with
  | Err err => (writeBackendError err, s, w, false)
  | Ok (Some (prov, zoneID)) =>
      let '(d, w) := p_DeleteRecord prov zoneID recordID w in
      match d with
      | Err msg => (writeError 502 "provider_error" msg, s, w, false)
      | Ok _ =>
          let '(_, s', ch) := DropMirror e (reqOrg r) zoneName recordID s in
          (mkResponse 200 BEmpty, s', w, ch)
      end
  | Ok None =>
      let '(res, s', ch) := DeleteRecord e (reqOrg r) zoneName recordID s in
      match res with
      | Err err => (writeError 404 "not_found" (Error err), s', w, ch)
      | Ok _ => (mkResponse 200 BEmpty, s', w, ch)
      end
  end.

(** ** Bulk sync *)

(** Each zone of a sync sees the clock and ids of its own call. *)
Fixpoint sync_loop (es : nat -> Env) (k : nat) (r : Request) (zs : list SyncZoneRequest)
  (results : list SyncResponse) (s : Store) (ch : bool) : Response * Store * bool :=
  match zs with
  | [] => (mkResponse 200 (BSynced results (Z.of_nat (length results))), s, ch)
  | zr :: zs' =>
      if decide (sz_Zone zr = EmptyString)
      then (writeError 400 "bad_request" "zone name is required in each entry", s, ch)
      else
        let '(res, s', ch') := BulkSync (es k) (reqOrg r) zr s in
        match res with
        | Err err =>
            if Contains (Error err) "already exists"
            then (writeError 409 "conflict" (Error err), s', ch || ch')
            else (writeError 500 "internal_error" (Error err), s', ch || ch')
        | Ok resp => sync_loop es (S k) r zs' (results ++ [resp]) s' (ch || ch')
        end
  end.

Definition handleSync (es : nat -> Env) (r : Request) (s : Store) (w : W) : Reply :=
  if decide (Method r <> "POST")
  then (writeError 405 "method_not_allowed" "only POST is allowed", s, w, false)
  else match decode_sync B (Body r) with
       | None => (bad_json, s, w, false)
       | Some [] => (writeError 400 "bad_request" "at least one zone is required", s, w, false)
       | Some zs => let '(resp, s', ch) := sync_loop es 0 r zs [] s false in (resp, s', w, ch)
       end.

(** ** Routing *)

(** The segments of the path below [/v1/dns]. *)
Definition path_parts (path : string) : list string :=
  Split (TrimPrefix (TrimSuffix (TrimPrefix path "/v1/dns") "/") "/") "/"%char.

Definition apiRouter (e : Env) (r : Request) (s : Store) (w : W) : Reply :=
  let m := Method r in
  match path_parts (Path r) with
  | [p0] =>
      if decide (p0 = "zones") then
        if decide (m = "GET") then handleListZones r s w
        else if decide (m = "POST") then handleCreateZone e r s w
        else (not_allowed, s, w, false)
      else (writeError 404 "not_found" "endpoint not found", s, w, false)
  | [p0; zoneName] =>
      if decide (p0 = "zones") then
        if decide (m = "GET") then handleGetZone r zoneName s w
        else if decide (m = "DELETE") then handleDeleteZone r zoneName s w
        else (not_allowed, s, w, false)
      else (writeError 404 "not_found" "endpoint not found", s, w, false)
  | [p0; zoneName; p2] =>
      if decide (p0 = "zones" /\ p2 = "records") then
        if decide (m = "GET") then handleListRecords e r zoneName s w
        else if decide (m = "POST") then handleCreateRecord e r zoneName s w
        else (not_allowed, s, w, false)
      else (writeError 404 "not_found" "endpoint not found", s, w, false)
  | [p0; zoneName; p2; recordID] =>
      if decide (p0 = "zones" /\ p2 = "records") then
        if decide (m = "GET") then handleGetRecord r zoneName recordID s w
        else if decide (m = "PATCH" \/ m = "PUT") then handleUpdateRecord e r zoneName recordID s w
        else if decide (m = "DELETE") then handleDeleteRecord e r zoneName recordID s w
        else (not_allowed, s, w, false)
      else (writeError 404 "not_found" "endpoint not found", s, w, false)
  | _ => (writeError 404 "not_found" "endpoint not found", s, w, false)
  end.

(** [registerRoutes]: the patterns of the mux and the handler behind each,
    for clean paths (the mux redirects others).  A request no pattern matches
    gets the mux's own answer. *)
Definition serve (I : Issuer) (cfg : Config) (t : Z) (es : nat -> Env) (r : Request) (s : Store) (w : W)
  (c : jwksCache) : Reply * jwksCache :=
  let authed (h : Request -> Reply) :=
    let '(a, c') := authChain I cfg t r c in
    match a with
    | Deny st code msg => ((writeError st code msg, s, w, false), c')
    | Pass r' => (h r', c')
    end in
  if decide (Path r = "/v1/dns/health") then
    if decide (Method r = "GET" \/ Method r = "HEAD") then ((mkResponse 200 BHealth, s, w, false), c)
    else ((mkResponse 405 BEmpty, s, w, false), c)
  else if decide (Path r = "/v1/dns/sync") then authed (fun r' => handleSync es r' s w)
  else if bool_decide (Path r = "/v1/dns/zones") || HasPrefix (Path r) "/v1/dns/zones/"
  then authed (fun r' => apiRouter (es 0%nat) r' s w)
  else ((mkResponse 404 BEmpty, s, w, false), c).

End api.
