(* ===== verification/ApiFacts.v ===== *)
(** * Correctness of the REST service

    Authentication fails closed and binds the caller's organisation; a
    request changes the zones of no organisation but the authenticated one;
    the provider connector confines credentials to the header it sends them
    in; records created over HTTP are the records read back. *)

From Stdlib Require Import Ascii ZArith Lia.
From stdpp Require Import base numbers gmap strings list.
From S2P Require Import Prelude Http Auth Store StoreFacts Providers Api.

Local Open Scope Z_scope.

(** ** Authentication *)

Section auth.
Variable I : Issuer.

(** What a valid token is. *)
Record valid_token (t : Z) (tok : string) (keys : list jwk) (iss aud : string) (c : jwtClaims) : Prop := {
  vt_unexpired : t < Expiry c /\ Expiry c <> 0;
  vt_issuer : Issuer_ c = iss;
  vt_audience : splitAudience aud = [] \/ exists a, a ∈ Audience c /\ a ∈ splitAudience aud;
  vt_signed : exists p0 p1 p2 k pk sig cb,
    Split tok "."%char = [p0; p1; p2] /\ k ∈ keys /\ toPublicKey k = Ok pk /\
    base64URLDecode p2 = Some sig /\ verify I pk (p0 +++ "." +++ p1)%string sig = true /\
    base64URLDecode p1 = Some cb /\ get_claims I cb = Some c }.

Lemma matched_key_in keys kid k : matched_key keys kid = Some k -> k ∈ keys.
Proof.
  induction keys as [|x keys IH]; simpl; [done|]. case_match; [intros [= <-]; by left|].
  intros Hk. right. by apply IH.
Qed.

Lemma matchesAny_spec a allow : matchesAny a allow = true <-> exists x, x ∈ a /\ x ∈ allow.
Proof.
  unfold matchesAny. rewrite existsb_exists. setoid_rewrite existsb_exists. split.
  - intros (w & Hw & g & Hg & ->%bool_decide_eq_true). exists w. by rewrite !list_elem_of_In.
  - intros (x & Ha & Hb). exists x. rewrite list_elem_of_In in *. split; [done|]. exists x.
    split; [done|]. by apply bool_decide_eq_true.
Qed.

Lemma validateToken_sound t tok keys iss aud c :
  validateToken I t tok keys iss aud = Ok c -> valid_token t tok keys iss aud c.
Proof.
  unfold validateToken. destruct (Split tok "."%char) as [|p0 [|p1 [|p2 [|]]]] eqn:Es; try done.
  destruct (base64URLDecode p0) as [hb|]; [|done]. destruct (get_header I hb) as [[alg kid]|]; [|done].
  destruct (matched_key keys kid) as [k|] eqn:Ek; [|done].
  destruct (base64URLDecode p2) as [sig|] eqn:E2; [|done]. intros H.
  apply bind_ok_inv in H as (pk & Hpk & H).
  destruct (verify I pk _ sig) eqn:Ev; simpl in H; [|done].
  destruct (base64URLDecode p1) as [cb|] eqn:E1; [|done]. destruct (get_claims I cb) as [c'|] eqn:Ec; [|done].
  destruct (decide (Expiry c' = 0)) as [|H1]; [done|].
  destruct (decide (Expiry c' <= t)) as [|H2]; [done|].
  destruct (decide (Issuer_ c' <> iss)) as [|H3]; [done|]. apply dec_stable in H3.
  assert (c' = c /\ (splitAudience aud = [] \/ matchesAny (Audience c) (splitAudience aud) = true)) as [-> H4].
  { destruct (decide (splitAudience aud <> [])) as [H4|H4].
    - destruct (matchesAny _ _) eqn:Em; [|done]. injection H as ->. by auto.
    - injection H as ->. apply dec_stable in H4. by auto. }
  split; [lia|done|by rewrite <-matchesAny_spec|].
  exists p0, p1, p2, k, pk, sig, cb. split_and!; try done. by eapply matched_key_in.
Qed.

(** The keys in use are the cached ones or those just fetched. *)
Lemma getKeys_Some t c ks c' : getKeys I t c = (Some ks, c') -> ks = cached c \/ fetchJWKS I t = Some ks.
Proof. unfold getKeys. repeat case_match; intros; simplify_eq; auto. Qed.

(** The ways through the authentication boundary. *)
Inductive admitted (cfg : Config) (t : Z) (c : jwksCache) (r r' : Request) : Prop :=
| by_token scheme tok keys claims :
    OIDC_ISSUER cfg <> EmptyString ->
    SplitN (Authorization r) " "%char 2 = [scheme; tok] -> EqualFold scheme "bearer" = true ->
    keys = cached c \/ fetchJWKS I t = Some keys ->
    valid_token t tok keys (OIDC_ISSUER cfg) (OIDC_AUDIENCE cfg) claims ->
    r' = with_ctx r (mkCtx (claims_org claims) tok) -> admitted cfg t c r r'
| by_key scheme :
    OIDC_ISSUER cfg = EmptyString -> API_KEY cfg <> EmptyString ->
    SplitN (Authorization r) " "%char 2 = [scheme; API_KEY cfg] -> EqualFold scheme "bearer" = true ->
    r' = r -> admitted cfg t c r r'
| by_dev_flag :
    OIDC_ISSUER cfg = EmptyString -> API_KEY cfg = EmptyString -> DEV_INSECURE cfg = "1" ->
    r' = r -> admitted cfg t c r r'.

Lemma authMiddleware_Pass cfg r r' :
  authMiddleware cfg r = Pass r' ->
  r' = r /\ API_KEY cfg <> EmptyString /\
  exists scheme, SplitN (Authorization r) " "%char 2 = [scheme; API_KEY cfg] /\ EqualFold scheme "bearer" = true.
Proof.
  unfold authMiddleware. repeat case_decide; try done.
  destruct (SplitN _ _ _) as [|scheme [|key [|]]]; try done.
  destruct (EqualFold scheme "bearer" && bool_decide (key = API_KEY cfg)) eqn:E; [|done].
  apply andb_prop in E as [E1 ->%bool_decide_eq_true]. intros [= <-]. eauto.
Qed.

Lemma oidcMiddleware_Pass cfg t r c r' c' :
  OIDC_ISSUER cfg <> EmptyString -> oidcMiddleware I cfg t r c = (Pass r', c') -> admitted cfg t c r r'.
Proof.
  intros Hi. unfold oidcMiddleware. rewrite decide_False by done. case_decide; [done|].
  destruct (SplitN _ _ _) as [|scheme [|tok [|]]] eqn:Es; try done.
  destruct (EqualFold scheme "bearer") eqn:Eb; simpl; [|done].
  destruct (getKeys I t c) as [[keys|] c1] eqn:Ek; [|done]. apply getKeys_Some in Ek.
  destruct (validateToken I t tok keys _ _) as [claims|] eqn:Ev; [|done]. intros [= <- <-].
  apply validateToken_sound in Ev. by eapply by_token.
Qed.

Lemma authChain_Pass cfg t r c r' c' : authChain I cfg t r c = (Pass r', c') -> admitted cfg t c r r'.
Proof.
  unfold authChain. repeat case_decide; try done.
  - by apply oidcMiddleware_Pass.
  - intros [= (-> & Hk & scheme & Hs & Hb)%authMiddleware_Pass _].
    eapply by_key; eauto.
  - intros [= <- _]. apply by_dev_flag; try done; by apply dec_stable.
Qed.

(** C2. The API fails closed.  A request reaches the handlers only with a
    bearer token signed by a key of the issuer, for that issuer, unexpired,
    with an expiry and an allowed audience, and then under the organisation
    of its claims; or, when no issuer is configured, with the configured
    shared key; or, when neither is configured, under the explicit
    development flag.  The context it came with is otherwise kept. *)
Theorem authChain_fails_closed cfg t r c r' c' :
  authChain I cfg t r c = (Pass r', c') -> admitted cfg t c r r'.
Proof. apply authChain_Pass. Qed.

End auth.

(** ** Tenant isolation over HTTP *)

(** Nobody's zones but the organisation's own are touched. *)
Definition foreign_same (org : string) (s s' : Store) : Prop :=
  forall o, o <> org -> view o s' = view o s.

#[export] Instance foreign_same_refl org : Reflexive (foreign_same org).
Proof. by intros s o. Qed.
#[export] Instance foreign_same_trans org : Transitive (foreign_same org).
Proof. intros a b c H1 H2 o Ho. by rewrite H2, H1. Qed.

Create HintDb tenant.

Section tenant.
Context {MO : MapOrder}.

Lemma exec_foreign e org op s : foreign_same org s (exec e org op s).1.2.
Proof. intros o Ho. eapply own_write_view; [apply exec_own_write|done]. Qed.

Lemma CreateZone_foreign e org n p s res s' ch :
  CreateZone e org n p s = (res, s', ch) -> foreign_same org s s'.
Proof. intros E. pose proof (exec_foreign e org (OCreateZone n p) s) as H. simpl in H. by rewrite E in H. Qed.
Lemma DeleteZone_foreign org n s res s' ch :
  DeleteZone org n s = (res, s', ch) -> foreign_same org s s'.
Proof.
  intros E. pose proof (exec_foreign (mkEnv 0 (fun _ => EmptyString)) org (ODeleteZone n) s) as H.
  simpl in H. by rewrite E in H.
Qed.
Lemma CreateRecord_foreign e org z n t ttl c p px s res s' ch :
  CreateRecord e org z n t ttl c p px s = (res, s', ch) -> foreign_same org s s'.
Proof.
  intros E. pose proof (exec_foreign e org (OCreateRecord z n t ttl c p px) s) as H. simpl in H. by rewrite E in H.
Qed.
Lemma PutMirror_foreign e org z rec s res s' ch :
  PutMirror e org z rec s = (res, s', ch) -> foreign_same org s s'.
Proof. intros E. pose proof (exec_foreign e org (OPutMirror z rec) s) as H. simpl in H. by rewrite E in H. Qed.
Lemma DropMirror_foreign e org z id s res s' ch :
  DropMirror e org z id s = (res, s', ch) -> foreign_same org s s'.
Proof. intros E. pose proof (exec_foreign e org (ODropMirror z id) s) as H. simpl in H. by rewrite E in H. Qed.
Lemma UpdateRecord_foreign e org z id p s res s' ch :
  UpdateRecord e org z id p s = (res, s', ch) -> foreign_same org s s'.
Proof. intros E. pose proof (exec_foreign e org (OUpdateRecord z id p) s) as H. simpl in H. by rewrite E in H. Qed.
Lemma DeleteRecord_foreign e org z id s res s' ch :
  DeleteRecord e org z id s = (res, s', ch) -> foreign_same org s s'.
Proof. intros E. pose proof (exec_foreign e org (ODeleteRecord z id) s) as H. simpl in H. by rewrite E in H. Qed.
Lemma BulkSync_foreign e org req s res s' ch :
  BulkSync e org req s = (res, s', ch) -> foreign_same org s s'.
Proof. intros E. pose proof (exec_foreign e org (OBulkSync req) s) as H. simpl in H. by rewrite E in H. Qed.

End tenant.

#[export] Hint Resolve CreateZone_foreign DeleteZone_foreign CreateRecord_foreign PutMirror_foreign
  DropMirror_foreign UpdateRecord_foreign DeleteRecord_foreign BulkSync_foreign : tenant.
#[export] Hint Extern 1 (foreign_same _ ?s ?s) => reflexivity : tenant.

(** The store in a reply. *)
Definition reply_store {W} (x : Response * Store * W * bool) : Store := x.1.1.2.

Section handlers.
Context {MO : MapOrder} {W : Type} (O : Outside W) (B : Bodies).

(** Split every match of a handler, down to one store operation. *)
Ltac handler := repeat (case_match; simplify_eq/=); eauto with tenant.

Lemma mirror_foreign e r zn pr s s' ch : mirror e r zn pr s = (s', ch) -> foreign_same (reqOrg r) s s'.
Proof. unfold mirror. intros E. handler. Qed.

Lemma router_foreign e r s w : foreign_same (reqOrg r) s (reply_store (apiRouter O B e r s w)).
Proof.
  unfold apiRouter, reply_store. repeat (case_match; try done);
    unfold handleListZones, handleGetZone, handleCreateZone, handleDeleteZone, handleListRecords,
      handleGetRecord, handleCreateRecord, handleUpdateRecord, handleDeleteRecord, mirror; handler.
Qed.

Lemma sync_loop_foreign es k r zs results s ch :
  foreign_same (reqOrg r) s (sync_loop es k r zs results s ch).1.2.
Proof.
  revert k results s ch. induction zs as [|zr zs IH]; intros k results s ch; simpl; [done|].
  case_decide; [done|]. destruct (BulkSync (es k) (reqOrg r) zr s) as [[res s'] ch'] eqn:E.
  apply BulkSync_foreign in E. destruct res as [resp|err]; [etransitivity; [exact E|apply IH]|].
  by destruct (Contains _ _).
Qed.

Lemma handleSync_foreign es r s (w : W) : foreign_same (reqOrg r) s (reply_store (handleSync B es r s w)).
Proof.
  unfold handleSync, reply_store. repeat (case_match; try done); simpl;
    match goal with H : sync_loop ?es ?k ?r ?zs ?rs ?s ?c = _ |- _ =>
      pose proof (sync_loop_foreign es k r zs rs s c) as Hf; rewrite H in Hf end; done.
Qed.

(** C5. Isolation at the HTTP boundary.  If a request changes the zones of
    organisation [o] in any way, it passed authentication and the
    organisation authenticated is [o]. *)
Theorem http_tenant_isolation I cfg t es r s w c o :
  let '(reply, c') := serve O B I cfg t es r s w c in
  view o (reply_store reply) <> view o s ->
  exists r', authChain I cfg t r c = (Pass r', c') /\ reqOrg r' = o.
Proof.
  unfold serve. destruct (decide (Path r = "/v1/dns/health")); [by case_decide|].
  destruct (decide (Path r = "/v1/dns/sync")).
  - destruct (authChain I cfg t r c) as [[st code msg|r'] c'] eqn:E; simpl; [done|]. intros Hne.
    exists r'. split; [done|]. destruct (decide (o = reqOrg r')) as [->|Ho]; [done|].
    by destruct Hne; apply handleSync_foreign.
  - destruct (bool_decide _ || _); [|done].
    destruct (authChain I cfg t r c) as [[st code msg|r'] c'] eqn:E; simpl; [done|]. intros Hne.
    exists r'. split; [done|]. destruct (decide (o = reqOrg r')) as [->|Ho]; [done|].
    by destruct Hne; apply router_foreign.
Qed.

(** ** Provider-backed zones *)

(** In a provider-backed zone the provider comes first: when its call
    fails, the request is answered 502 with its message and the store is
    unchanged; when it succeeds with an identified record of a supported
    type, that record is in the local index under the provider's id. *)
Theorem create_mirrors_provider e r zn b s w prov zid w1 pr w2 :
  decode_record B (Body r) = Some b ->
  rb_Name b <> EmptyString -> rb_Type b <> EmptyString -> rb_Content b <> EmptyString ->
  zoneBackend O r s zn w = (Ok (Some (prov, zid)), w1) ->
  p_CreateRecord prov zid
    (mkInput (rb_Name b) (rb_Type b) (rb_Content b) (if decide (rb_TTL b = 0) then 300 else rb_TTL b)
       (rb_Proxied b) (rb_Priority b)) w1 = (pr, w2) ->
  let '(resp, s', w', ch) := handleCreateRecord O B e r zn s w in
  w' = w2 /\
  match pr with
  | Err msg => resp = writeError 502 "provider_error" msg /\ s' = s /\ ch = false
  | Ok rec =>
      resp = mkResponse 201 (BRecord (toRecord (now e) rec)) /\
      (PID rec <> EmptyString -> ValidRecordTypes (PType rec) = true ->
       exists l, GetRecord (reqOrg r) zn (PID rec) s' = Ok l /\
         (Name l, Type_ l, TTL l, Content l, Priority l, Proxied l)
         = (PName rec, PType rec, PTTL rec, PContent rec, PPriority rec, PProxied rec))
  end.
Proof.
  intros Hb Hn Ht Hc Hz Hp. unfold handleCreateRecord. rewrite Hb, !decide_False by done. rewrite Hz, Hp.
  destruct pr as [rec|msg]; [|done]. unfold mirror.
  destruct (PutMirror e (reqOrg r) zn rec s) as [[res s'] ch] eqn:E. split; [done|]. split; [done|].
  intros Hid Hv. unfold PutMirror in E. rewrite bool_decide_eq_false_2, Hv in E by done. simpl in E.
  assert (exists zd, zoneForOrg s (reqOrg r) zn = Some zd) as [zd Hzd].
  { unfold zoneBackend, ZoneProvider in Hz. destruct (zoneForOrg s (reqOrg r) zn); [eauto|done]. }
  rewrite Hzd in E. injection E as _ <- _. eexists.
  rewrite (GetRecord_put _ _ _ _ _ _ _ _ Hzd), decide_True by done. rewrite lookup_insert_eq.
  split; reflexivity.
Qed.

(** ** Records over HTTP *)

(** A record created in an authoritative zone is the record read back:
    the answer 201 carries it with the default TTL of 300, and a GET of its
    id then answers 200 with the same record; an unsupported type is refused
    without a change. *)
Theorem create_then_get e r zn b s w w1 :
  decode_record B (Body r) = Some b ->
  rb_Name b <> EmptyString -> rb_Type b <> EmptyString -> rb_Content b <> EmptyString ->
  zoneBackend O r s zn w = (Ok None, w1) ->
  let '(resp, s', _, ch) := handleCreateRecord O B e r zn s w in
  if ValidRecordTypes (rb_Type b) then
    exists rec, resp = mkResponse 201 (BRecord rec) /\ ch = true /\
      (Name rec, Type_ rec, TTL rec, Content rec)
      = (rb_Name b, rb_Type b, if decide (rb_TTL b = 0) then 300 else rb_TTL b, rb_Content b) /\
      forall w' : W, handleGetRecord r zn (ID rec) s' w' = (mkResponse 200 (BRecord rec), s', w', false)
  else resp = store_error (ErrInvalidType (rb_Type b)) /\ s' = s /\ ch = false.
Proof.
  intros Hb Hn Ht Hc Hz. unfold handleCreateRecord. rewrite Hb, !decide_False by done. rewrite Hz.
  unfold CreateRecord. destruct (ValidRecordTypes (rb_Type b)); simpl; [|done].
  assert (exists zd, zoneForOrg s (reqOrg r) zn = Some zd) as [zd Hzd].
  { unfold zoneBackend, ZoneProvider in Hz. destruct (zoneForOrg s (reqOrg r) zn); [eauto|done]. }
  rewrite Hzd. eexists. split; [done|]. split; [done|]. split; [done|]. intros w'. unfold handleGetRecord.
  rewrite (GetRecord_put _ _ _ _ _ _ _ _ Hzd), decide_True by done. by rewrite lookup_insert_eq.
Qed.

End handlers.

(** ** Errors classified by their text *)

Lemma Contains_app_r a b sub : Contains b sub = true -> Contains (a +++ b)%string sub = true.
Proof. intros H. induction a as [|c a IH]; simpl; [done|]. rewrite IH. apply orb_true_r. Qed.

(** The status of a store error is read off its message, which quotes
    the caller's text: an unsupported record type is a 400, unless the type
    the caller sent itself contains the words "not found", which turns the
    same error into a 404. *)
Theorem error_status_from_text :
  (forall k, status (store_error (ErrZoneNotFound k)) = 404) /\
  (forall t, status (store_error (ErrInvalidType t)) = if Contains (quote t) "not found" then 404 else 400) /\
  status (store_error (ErrInvalidType "BOGUS")) = 400 /\
  status (store_error (ErrInvalidType "not found")) = 404.
Proof.
  split; [|split; [|split; reflexivity]].
  - intros k. unfold store_error. simpl Error. rewrite Contains_app_r; [done|].
    by rewrite Contains_app_r.
  - intros t. unfold store_error.
    replace (Contains (Error (ErrInvalidType t)) "not found") with (Contains (quote t) "not found") by reflexivity.
    by destruct (Contains _ _).
Qed.

(** ** A concrete service *)

Module ApiSample.
Import StoreSample.

Definition claims : jwtClaims := mkClaims "https://iam" "u1" ["dns"] 2000 500 "acme" EmptyString.

(** An issuer with one key, whose signatures are the text [sig]. *)
Definition issuer : Issuer :=
  mkIssuer (fun _ _ _ sg => bool_decide (sg = "sig")) (fun _ _ _ _ _ => false)
    (fun _ => Some ("RS256", "k1")) (fun _ => Some claims)
    (fun _ => Some [mkJwk "RSA" "k1" "RS256" "sig" "AQAB" "AQAB" EmptyString EmptyString EmptyString]).

Definition config : Config := mkConfig "https://iam" " dns , other" EmptyString EmptyString.

Definition request (m p b : string) : Request :=
  mkRequest m p "Bearer aGVhZA.Y2xhaW1z.c2ln" b empty_ctx.

Definition cold : jwksCache := mkCache [] 0.

Definition admitted_request (m p b : string) : Request :=
  with_ctx (request m p b) (mkCtx "acme" "aGVhZA.Y2xhaW1z.c2ln").

Lemma authChain_witness :
  admitted issuer config 1000 cold (request "GET" "/v1/dns/zones" EmptyString)
    (admitted_request "GET" "/v1/dns/zones" EmptyString).
Proof.
  apply (authChain_fails_closed issuer config 1000 (request "GET" "/v1/dns/zones" EmptyString) cold
    (admitted_request "GET" "/v1/dns/zones" EmptyString) (mkCache
      [mkJwk "RSA" "k1" "RS256" "sig" "AQAB" "AQAB" EmptyString EmptyString EmptyString] 1000)).
  vm_compute. reflexivity.
Defined.

(** A Cloudflare that answers every call with the same record and zone. *)
Definition outside : Outside nat :=
  mkOutside nat (fun _ w => (Some (200, "ok"), S w)) (fun _ => None) (fun _ => EmptyString)
    (fun _ => mkEnvelope true []) (fun d => Some d)
    (fun _ => Some [mkCfZone "z9" "cf.example." "active" []]) (fun _ => Some [])
    (fun _ => Some (mkCfRecord "r9" "www" "A" "192.0.2.9" 120 true 0)) (fun d => Some d).

Definition bodies : Bodies :=
  mkBodies (fun _ => Some (mkZoneBody "cf.example" "cloudflare"))
    (fun b => Some (mkRecordBody "www" b 0 "192.0.2.9" 0 true)) (fun _ => None) (fun _ => None).

(** The store with a Cloudflare zone of acme added over HTTP. *)
Definition cf_store : Store :=
  reply_store (serve outside bodies issuer config 1000 (fun _ => env 20)
    (request "POST" "/v1/dns/zones" EmptyString) store 0%nat cold).1.

Lemma http_isolation_witness :
  exists r', (authChain issuer config 1000 (request "POST" "/v1/dns/zones" EmptyString) cold).1 = Pass r' /\
    reqOrg r' = "acme".
Proof.
  pose proof (http_tenant_isolation outside bodies issuer config 1000 (fun _ => env 20)
    (request "POST" "/v1/dns/zones" EmptyString) store 0%nat cold "acme") as H.
  assert (view "acme" cf_store <> view "acme" store) as Hne.
  { intros E. apply (f_equal size) in E. vm_compute in E. discriminate. }
  unfold cf_store in Hne. destruct (serve _ _ _ _ _ _ _ _ _ _) as [reply c'].
  destruct (H Hne) as (r' & -> & Ho). exists r'. split; [reflexivity|exact Ho].
Defined.

Lemma cf_backend w :
  zoneBackend outside (admitted_request "POST" "/v1/dns/zones/cf.example/records" "A") cf_store "cf.example" w
  = (Ok (Some (newCloudflareProvider outside "ok", "z9")), S (S w)).
Proof.
  unfold zoneBackend. assert (ZoneProvider "acme" "cf.example" cf_store = (ProviderCloudflare, true)) as E
    by (vm_compute; reflexivity).
  change (reqOrg _) with "acme". rewrite E. reflexivity.
Qed.

Definition post_record : Request := admitted_request "POST" "/v1/dns/zones/cf.example/records" "A".

Lemma create_mirrors_witness :
  let '(resp, s', w', ch) := handleCreateRecord outside bodies (env 21) post_record "cf.example" cf_store 0%nat in
  w' = 3%nat /\ status resp = 201 /\
  exists l, GetRecord "acme" "cf.example" "r9" s' = Ok l /\ Content l = "192.0.2.9".
Proof.
  pose proof (create_mirrors_provider outside bodies (env 21) post_record "cf.example"
    (mkRecordBody "www" "A" 0 "192.0.2.9" 0 true) cf_store 0%nat
    (newCloudflareProvider outside "ok") "z9" 2%nat
    (Ok (mkProviderRecord "r9" "www" "A" "192.0.2.9" 120 true 0)) 3%nat eq_refl) as H.
  destruct (handleCreateRecord _ _ _ _ _ _ _) as [[[resp s'] w'] ch].
  destruct H as (-> & -> & H); [discriminate..|apply cf_backend|reflexivity|].
  split; [reflexivity|]. split; [reflexivity|].
  destruct H as (l & Hl & E); [discriminate|vm_compute; reflexivity|]. exists l. split; [exact Hl|].
  injection E as _ _ _ E _ _. exact E.
Defined.

Definition post_www : Request := admitted_request "POST" "/v1/dns/zones/example.com/records" "A".

Lemma create_then_get_witness :
  let '(resp, s', _, ch) := handleCreateRecord outside bodies (env 22) post_www "example.com" store 0%nat in
  status resp = 201 /\ ch = true /\
  exists rec, handleGetRecord post_www "example.com" (ID rec) s' 0%nat
    = (mkResponse 200 (BRecord rec), s', 0%nat, false) /\ TTL rec = 300.
Proof.
  pose proof (create_then_get outside bodies (env 22) post_www "example.com"
    (mkRecordBody "www" "A" 0 "192.0.2.9" 0 true) store 0%nat 0%nat eq_refl) as H.
  destruct (handleCreateRecord _ _ _ _ _ _ _) as [[[resp s'] w'] ch].
  destruct H as (rec & -> & -> & E & Hg); [discriminate..|vm_compute; reflexivity|].
  split; [reflexivity|]. split; [reflexivity|]. exists rec. split; [apply Hg|].
  injection E as _ _ E _. exact E.
Defined.

End ApiSample.
