(* ===== verification/CfClient.v ===== *)
(** * The Cloudflare client and zone reconciliation (pkg/cloudflare)

    [do_] with its retries, the paginated listing, the record operations, and
    [SyncZone], which makes a zone's records match a desired set.  The
    transport and JSON decoding are parameters ([Cloud]); [SyncZone] and its
    theorems are stated against an interface of record operations ([CfApi],
    [CfApiSpec]) that says what the Cloudflare API promises. *)

From Stdlib Require Import Ascii ZArith Lia.
From stdpp Require Import base numbers gmap strings list.
From S2P Require Import Prelude Http.

Local Open Scope Z_scope.

(** ** Data *)

Record CfRec := mkCfRec {
  RecID : string;
  RecType : string;
  RecName : string;
  RecContent : string;
  RecTTL : Z;
  RecPriority : option Z;
  RecProxied : option bool }.

#[export] Instance CfRec_eq_dec : EqDecision CfRec.
Proof. solve_decision. Defined.

Record SyncResult := mkSyncResult {
  Created : Z;
  Updated : Z;
  Deleted : Z;
  SyncErrors : list string }.

Definition recordKey (r : CfRec) : string := (RecType r +++ ":" +++ RecName r)%string.

(** ** Transport *)

(** The pages field of a listing and the decoders of responses; [None] is a
    JSON error.  [get_error] is the first error of an error envelope. *)
Record Cloud (W : Type) := mkCloud {
  cloud_do : HttpCall -> W -> HttpReply * W;
  cloud_request_ok : string -> bool;
  get_error : string -> option (Z * string);
  get_page : string -> option (list CfRec * option Z);
  get_rec : string -> option CfRec }.
Arguments cloud_do {W} _ _ _.
Arguments cloud_request_ok {W} _ _.
Arguments get_error {W} _ _.
Arguments get_page {W} _ _.
Arguments get_rec {W} _ _.

(** The body of a create or update: the record as JSON. *)
Definition rec_body (r : CfRec) : gmap string JVal :=
  let m : gmap string JVal :=
    <["type" := JStr (RecType r)]> (<["name" := JStr (RecName r)]>
    (<["content" := JStr (RecContent r)]> (<["ttl" := JNum (RecTTL r)]> ∅))) in
  let m := if decide (RecID r <> EmptyString) then <["id" := JStr (RecID r)]> m else m in
  let m := match RecPriority r with Some p => <["priority" := JNum p]> m | None => m end in
  match RecProxied r with Some b => <["proxied" := JBool b]> m | None => m end.

Section client.
Context {W : Type} (C : Cloud W) (token baseURL : string).

(** The retry loop: up to [attempts] sends while the answer is 429. *)
Fixpoint send (attempts : nat) (c : HttpCall) (w : W) : option (Z * string) * W :=
  match attempts with
  | O => (None, w)
  | S k =>
      let '(reply, w) := cloud_do C c w in
      match reply with
      | Some (429, data) => match k with O => (Some (429, data), w) | _ => send k c w end
      | _ => (reply, w)
      end
  end.

Definition do_ (method path : string) (body : option (gmap string JVal)) (w : W) : result string string * W :=
  let url := (baseURL +++ path)%string in
  if negb (cloud_request_ok C url) then (Err "invalid request", w)
  else
    let '(reply, w) := send 3 (mkCall method url ("Bearer " +++ token)%string body) w in
    match reply with
    | None => (Err "request failed", w)
    | Some (status, data) =>
        if decide (status = 429) then (Err "read response", w)
        else if decide (400 <= status) then
          match get_error C data with
          | Some (code, msg) => (Err ("cf api error " +++ Itoa code +++ ": " +++ msg)%string, w)
          | None => (Err ("cf api " +++ method +++ " " +++ path +++ ": status " +++ Itoa status)%string, w)
          end
        else (Ok data, w)
    end.

(** The loop of [ListRecords], at most [fuel] pages. *)
Fixpoint list_pages (fuel : nat) (zoneID : string) (page : Z) (all : list CfRec) (w : W)
  : option (result string (list CfRec) * W) :=
  match fuel with
  | O => None
  | S fuel' =>
      let path := ("/zones/" +++ zoneID +++ "/dns_records?per_page=100&page=" +++ Itoa page)%string in
      let '(res, w) := do_ "GET" path None w in
      match res with
      | Err e => Some (Err e, w)
      | Ok data =>
          match get_page C data with
          | None => Some (Err "json", w)
          | Some (recs, info) =>
              let all := all ++ recs in
              match info with
              | None => Some (Ok all, w)
              | Some total => if decide (total <= page) then Some (Ok all, w)
                              else list_pages fuel' zoneID (page + 1) all w
              end
          end
      end
  end.

(** Decode the one record of an answer. *)
Definition decode_rec (x : result string string * W) : result string CfRec * W :=
  (x.1 ≫= fun data => match get_rec C data with Some r => Ok r | None => Err "json" end, x.2).

Definition client_CreateRecord (zoneID : string) (r : CfRec) (w : W) : result string CfRec * W :=
  decode_rec (do_ "POST" ("/zones/" +++ zoneID +++ "/dns_records")%string (Some (rec_body r)) w).

Definition client_UpdateRecord (zoneID recordID : string) (r : CfRec) (w : W) : result string CfRec * W :=
  decode_rec (do_ "PATCH" ("/zones/" +++ zoneID +++ "/dns_records/" +++ recordID)%string (Some (rec_body r)) w).

Definition client_DeleteRecord (zoneID recordID : string) (w : W) : result string unit * W :=
  let '(res, w) := do_ "DELETE" ("/zones/" +++ zoneID +++ "/dns_records/" +++ recordID)%string None w in
  (res ≫= fun _ => Ok tt, w).

End client.

(** ** Reconciliation *)

(** The record operations on one zone. *)
Record CfApi (W : Type) := mkCfApi {
  api_list : W -> result string (list CfRec) * W;
  api_create : CfRec -> W -> result string CfRec * W;
  api_update : string -> CfRec -> W -> result string CfRec * W;
  api_delete : string -> W -> result string unit * W }.
Arguments api_list {W} _ _.
Arguments api_create {W} _ _ _.
Arguments api_update {W} _ _ _ _.
Arguments api_delete {W} _ _ _.

Definition protectedTypes (t : string) : bool := bool_decide (t = "NS") || bool_decide (t = "SOA").

(** [(type, name)] *)
Definition key : Type := (string * string)%type.
Definition key_of (r : CfRec) : key := (RecType r, RecName r).

(** The index of a list by key; a later record replaces an earlier one. *)
Fixpoint index (l : list CfRec) (m : gmap key CfRec) : gmap key CfRec :=
  match l with
  | [] => m
  | r :: l' => index l' (<[key_of r := r]> m)
  end.

Definition recordChanged (current desired : CfRec) : bool :=
  if decide (RecContent current <> RecContent desired) then true
  else if decide (RecTTL current <> RecTTL desired /\ RecTTL desired <> 0) then true
  else if decide (RecProxied desired <> None /\ RecProxied current <> RecProxied desired) then true
  else if decide (RecPriority desired <> None /\ RecPriority current <> RecPriority desired) then true
  else false.

Definition set_id (id : string) (r : CfRec) : CfRec :=
  mkCfRec id (RecType r) (RecName r) (RecContent r) (RecTTL r) (RecPriority r) (RecProxied r).

Section sync.
Context {W : Type} (A : CfApi W).

(** Count one more, or note the error. *)
Definition note {X} (what : string) (r : CfRec) (res : result string X) (ok : SyncResult -> SyncResult)
  (acc : SyncResult) : SyncResult :=
  match res with
  | Ok _ => ok acc
  | Err e => mkSyncResult (Created acc) (Updated acc) (Deleted acc)
               (SyncErrors acc ++ [(what +++ " " +++ RecType r +++ " " +++ RecName r +++ ": " +++ e)%string])
  end.
Definition inc_created (a : SyncResult) : SyncResult := mkSyncResult (Created a + 1) (Updated a) (Deleted a) (SyncErrors a).
Definition inc_updated (a : SyncResult) : SyncResult := mkSyncResult (Created a) (Updated a + 1) (Deleted a) (SyncErrors a).
Definition inc_deleted (a : SyncResult) : SyncResult := mkSyncResult (Created a) (Updated a) (Deleted a + 1) (SyncErrors a).

(** Create or update the wanted records. *)
Fixpoint put_loop (cur : gmap key CfRec) (l : list (key * CfRec)) (acc : SyncResult) (w : W) : SyncResult * W :=
  match l with
  | [] => (acc, w)
  | (k, want) :: l' =>
      match cur !! k with
      | None =>
          let '(res, w) := api_create A want w in
          put_loop cur l' (note "create" want res inc_created acc) w
      | Some have =>
          if recordChanged have want then
            let '(res, w) := api_update A (RecID have) (set_id (RecID have) want) w in
            put_loop cur l' (note "update" want res inc_updated acc) w
          else put_loop cur l' acc w
      end
  end.

(** Delete what is not wanted and not protected. *)
Fixpoint delete_loop (des : gmap key CfRec) (l : list (key * CfRec)) (acc : SyncResult) (w : W) : SyncResult * W :=
  match l with
  | [] => (acc, w)
  | (k, have) :: l' =>
      if protectedTypes k.1 then delete_loop des l' acc w
      else match des !! k with
           | Some _ => delete_loop des l' acc w
           | None =>
               let '(res, w) := api_delete A (RecID have) w in
               delete_loop des l' (note "delete" have res inc_deleted acc) w
           end
  end.

Definition SyncZone {MO : MapOrder} (desired : list CfRec) (w : W) : result string SyncResult * W :=
  let '(res, w) := api_list A w in
  match res with
  | Err e => (Err ("list current records: " +++ e)%string, w)
  | Ok current =>
      let cur := index current ∅ in
      let des := index desired ∅ in
      let '(acc, w) := put_loop cur (map_range des) (mkSyncResult 0 0 0 []) w in
      let '(acc, w) := delete_loop des (map_range cur) acc w in
      (Ok acc, w)
  end.

End sync.
