(* ===== verification/CfSync.v ===== *)
(** * Correctness of zone reconciliation (pkg/cloudflare/sync.go)

    What the Cloudflare API promises, as laws on the records of the zone
    ([CfApiSpec]), and what [SyncZone] makes of a zone under those laws. *)

From Stdlib Require Import Ascii ZArith Lia.
From stdpp Require Import base numbers gmap strings list.
From S2P Require Import Prelude Http CfClient.

Local Open Scope Z_scope.

(** ** The contract of the API *)

(** PATCH: the fields of the payload replace those of the record; absent
    fields stay. *)
Definition merged (old new : CfRec) : CfRec :=
  mkCfRec (RecID old) (RecType new) (RecName new) (RecContent new) (RecTTL new)
    (match RecPriority new with Some p => Some p | None => RecPriority old end)
    (match RecProxied new with Some b => Some b | None => RecProxied old end).

(** [recs w] is the zone: its records by id.  A listing returns them all; a
    call that fails changes nothing. *)
Class CfApiSpec {W : Type} (A : CfApi W) (recs : W -> gmap string CfRec) : Prop := {
  recs_id w id r : recs w !! id = Some r -> RecID r = id;
  list_recs w res w' : api_list A w = (res, w') ->
    recs w' = recs w /\ (forall l, res = Ok l -> l ≡ₚ (map_to_list (recs w)).*2);
  create_recs w r res w' : api_create A r w = (res, w') ->
    match res with
    | Ok _ => exists id, recs w !! id = None /\ recs w' = <[id := set_id id r]> (recs w)
    | Err _ => recs w' = recs w
    end;
  update_recs w id r old res w' : recs w !! id = Some old -> api_update A id r w = (res, w') ->
    recs w' = match res with Ok _ => <[id := merged old r]> (recs w) | Err _ => recs w end;
  delete_recs w id res w' : api_delete A id w = (res, w') ->
    recs w' = match res with Ok _ => delete id (recs w) | Err _ => recs w end
}.

(** ** The diff *)

Lemma index_foldl l m : index l m = foldl (fun m r => <[key_of r := r]> m) m l.
Proof. revert m. induction l as [|r l IH]; intros m; simpl; [done|apply IH]. Qed.

Lemma lookup_index l k r :
  NoDup (key_of <$> l) -> index l ∅ !! k = Some r <-> r ∈ l /\ key_of r = k.
Proof.
  intros Hd. rewrite index_foldl, (foldl_insert key_of (fun r => r)), map_union_empty by done.
  rewrite lookup_list_to_map_fmap by done. naive_solver.
Qed.

(** A key of the index is the key of the record under it. *)
Lemma index_key l m k r :
  (forall k r, m !! k = Some r -> key_of r = k) -> index l m !! k = Some r -> key_of r = k.
Proof.
  revert m. induction l as [|x l IH]; intros m Hm; simpl; [apply Hm|]. apply IH.
  intros k' r' [[<- <-]|[_ H]]%lookup_insert_Some; [done|by apply Hm].
Qed.

(** What [recordChanged] compares. *)
Lemma recordChanged_false c d :
  recordChanged c d = false <->
  RecContent c = RecContent d /\ (RecTTL d <> 0 -> RecTTL c = RecTTL d) /\
  (RecProxied d <> None -> RecProxied c = RecProxied d) /\
  (RecPriority d <> None -> RecPriority c = RecPriority d).
Proof.
  unfold recordChanged. split.
  - destruct (decide (RecContent c <> RecContent d)) as [|H1]; [done|].
    destruct (decide (RecTTL c <> RecTTL d /\ RecTTL d <> 0)) as [|H2]; [done|].
    destruct (decide (RecProxied d <> None /\ RecProxied c <> RecProxied d)) as [|H3]; [done|].
    destruct (decide (RecPriority d <> None /\ RecPriority c <> RecPriority d)) as [|H4]; [done|].
    intros _. split_and!; intros; apply dec_stable; tauto.
  - intros (H1 & H2 & H3 & H4). repeat (rewrite decide_False by tauto). done.
Qed.

Lemma changed_set_id id r : recordChanged (set_id id r) r = false.
Proof. by apply recordChanged_false. Qed.

Lemma changed_merged old id r : recordChanged (merged old (set_id id r)) r = false.
Proof. apply recordChanged_false. simpl. split_and!; [done|done|..]; case_match; done. Qed.

Section reconcile.
Context {W : Type} (A : CfApi W) (recs : W -> gmap string CfRec) {S : CfApiSpec A recs}.

(** ** The first loop *)

(** The records are in place up to the wanted keys still to do. *)
Record put_inv (cur des : gmap key CfRec) (todo : list (key * CfRec)) (m : gmap string CfRec) : Prop := {
  pi_cur k r0 : cur !! k = Some r0 ->
    exists r, m !! RecID r0 = Some r /\ key_of r = k /\ (k ∈ todo.*1 -> r = r0);
  pi_only id r : m !! id = Some r ->
    (exists r0, cur !! key_of r = Some r0 /\ RecID r0 = id) \/ is_Some (des !! key_of r);
  pi_done k want : des !! k = Some want -> k ∉ todo.*1 ->
    exists id r, m !! id = Some r /\ key_of r = k /\ recordChanged r want = false }.

Lemma put_inv_create cur des k want todo m id :
  put_inv cur des ((k, want) :: todo) m -> k ∉ todo.*1 -> des !! k = Some want -> key_of want = k ->
  m !! id = None -> put_inv cur des todo (<[id := set_id id want]> m).
Proof.
  intros [Hc Ho Hd] Hk Hw Hkey Hid. simpl in *. split.
  - intros k' r0 H0. destruct (Hc _ _ H0) as (r & Hr & Hkr & Hto). exists r.
    rewrite lookup_insert_ne by (intros ->; congruence). split_and!; [done|done|].
    intros. apply Hto. by right.
  - intros id' r [[<- <-]|[_ Hr]]%lookup_insert_Some; [right|by apply Ho].
    change (key_of (set_id id want)) with (key_of want). by rewrite Hkey, Hw.
  - intros k' want' Hw' Hk'. destruct (decide (k' = k)) as [->|Hne].
    + exists id, (set_id id want). rewrite lookup_insert_eq. split_and!; [done|done|].
      rewrite Hw in Hw'. injection Hw' as <-. apply changed_set_id.
    + destruct (Hd k' want' Hw') as (id' & r & Hr & Hrest); [by rewrite not_elem_of_cons|].
      exists id', r. rewrite lookup_insert_ne by (intros ->; congruence). done.
Qed.

Lemma put_inv_update cur des k want have todo m :
  put_inv cur des ((k, want) :: todo) m -> k ∉ todo.*1 -> des !! k = Some want -> key_of want = k ->
  cur !! k = Some have ->
  put_inv cur des todo (<[RecID have := merged have (set_id (RecID have) want)]> m).
Proof.
  intros [Hc Ho Hd] Hk Hw Hkey Hh. simpl in *. destruct (Hc _ _ Hh) as (rh & Hrh & Hkh & _).
  assert (key_of (merged have (set_id (RecID have) want)) = k) as Hkm by done.
  split.
  - intros k' r0 H0. destruct (Hc _ _ H0) as (r & Hr & Hkr & Hto).
    destruct (decide (RecID r0 = RecID have)) as [E|E].
    + rewrite E in *. assert (k' = k) as -> by congruence. exists (merged have (set_id (RecID have) want)).
      rewrite lookup_insert_eq. split_and!; [done|done|]. done.
    + exists r. rewrite lookup_insert_ne by done. split_and!; [done|done|]. intros. apply Hto. by right.
  - intros id' r [[<- <-]|[_ Hr]]%lookup_insert_Some; [left; rewrite Hkm; eauto|by apply Ho].
  - intros k' want' Hw' Hk'. destruct (decide (k' = k)) as [->|Hne].
    + exists (RecID have), (merged have (set_id (RecID have) want)). rewrite lookup_insert_eq.
      split_and!; [done|done|]. rewrite Hw in Hw'. injection Hw' as <-. apply changed_merged.
    + destruct (Hd k' want' Hw') as (id' & r & Hr & Hrest & Hch); [by rewrite not_elem_of_cons|].
      exists id', r. rewrite lookup_insert_ne by (intros <-; congruence). done.
Qed.

Lemma put_inv_keep cur des k want have todo m :
  put_inv cur des ((k, want) :: todo) m -> k ∉ todo.*1 -> des !! k = Some want ->
  cur !! k = Some have -> recordChanged have want = false -> put_inv cur des todo m.
Proof.
  intros [Hc Ho Hd] Hk Hw Hh Hch. simpl in *. split; [|done|].
  - intros k' r0 H0. destruct (Hc _ _ H0) as (r & Hr & Hkr & Hto). exists r. split_and!; [done|done|].
    intros. apply Hto. by right.
  - intros k' want' Hw' Hk'. destruct (decide (k' = k)) as [->|Hne]; [|by apply Hd; [|rewrite not_elem_of_cons]].
    destruct (Hc _ _ Hh) as (r & Hr & Hkr & Hto). rewrite Hto in * by by left.
    rewrite Hw in Hw'. injection Hw' as <-. eauto.
Qed.

(** Errors only accumulate. *)
Lemma note_errors {X} what r (res : result string X) ok acc :
  (forall a, SyncErrors (ok a) = SyncErrors a) -> SyncErrors (note what r res ok acc) = [] ->
  is_ok res = true /\ SyncErrors acc = [].
Proof. intros Hok. destruct res; simpl; [by rewrite Hok|]. by intros [_ ?]%app_eq_nil. Qed.

Lemma put_loop_errors cur l acc w : SyncErrors (put_loop A cur l acc w).1 = [] -> SyncErrors acc = [].
Proof.
  revert acc w. induction l as [|[k want] l IH]; intros acc w; simpl; [done|]. repeat case_match; try apply IH;
    intros Hn%IH; by apply note_errors in Hn as [_ ?].
Qed.

Lemma put_loop_inv cur des l acc w :
  NoDup l.*1 -> (forall k r, (k, r) ∈ l -> des !! k = Some r /\ key_of r = k) ->
  put_inv cur des l (recs w) -> SyncErrors (put_loop A cur l acc w).1 = [] ->
  put_inv cur des [] (recs (put_loop A cur l acc w).2).
Proof.
  revert acc w. induction l as [|[k want] l IH]; intros acc w Hd Hl Hi He; simpl in *; [done|].
  apply NoDup_cons in Hd as [Hk Hd]. destruct (Hl k want) as [Hw Hkey]; [by left|].
  assert (forall k r, (k, r) ∈ l -> des !! k = Some r /\ key_of r = k) as Hl' by (intros; apply Hl; by right).
  destruct (cur !! k) as [have|] eqn:Ec.
  - destruct (recordChanged have want) eqn:Ech; [|apply IH; try done; by eapply put_inv_keep].
    destruct (api_update A (RecID have) _ w) as [res w1] eqn:Eu.
    destruct (pi_cur _ _ _ _ Hi _ _ Ec) as (r & Hr & Hkr & Hto). rewrite Hto in Hr by by left.
    pose proof (update_recs _ _ _ _ _ _ Hr Eu) as Hu.
    pose proof (put_loop_errors _ _ _ _ He) as [Hres _]%note_errors; [|done]. destruct res; [|done].
    apply IH; try done. rewrite Hu. by eapply put_inv_update.
  - destruct (api_create A want w) as [res w1] eqn:Ea. pose proof (create_recs _ _ _ _ Ea) as Hcr.
    pose proof (put_loop_errors _ _ _ _ He) as [Hres _]%note_errors; [|done]. destruct res; [|done].
    destruct Hcr as (id & Hid & Hm). apply IH; try done. rewrite Hm. by eapply put_inv_create.
Qed.

(** ** The second loop *)

(** What is neither wanted nor protected is still to do. *)
Record del_inv (des : gmap key CfRec) (kept : gmap string key) (todo : list (key * CfRec))
  (m : gmap string CfRec) : Prop := {
  dl_todo k r0 : (k, r0) ∈ todo -> protectedTypes k.1 = false -> des !! k = None ->
    exists r, m !! RecID r0 = Some r /\ key_of r = k;
  dl_only id r : m !! id = Some r ->
    is_Some (des !! key_of r) \/ protectedTypes (RecType r) = true \/
    exists r0, (key_of r, r0) ∈ todo /\ RecID r0 = id;
  dl_done k want : des !! k = Some want ->
    exists id r, m !! id = Some r /\ key_of r = k /\ recordChanged r want = false;
  dl_kept id k : kept !! id = Some k -> exists r, m !! id = Some r /\ key_of r = k }.

Lemma del_inv_delete des kept k have todo m :
  (forall id k', kept !! id = Some k' -> protectedTypes k'.1 = true) ->
  (forall k1 r1, (k1, r1) ∈ todo -> RecID r1 = RecID have -> False) ->
  del_inv des kept ((k, have) :: todo) m -> protectedTypes k.1 = false -> des !! k = None ->
  del_inv des kept todo (delete (RecID have) m).
Proof.
  intros Hkept Hids [Ht Ho Hd Hp] Hk Hdes.
  destruct (Ht k have) as (rh & Hrh & Hkh); [by left|done|done|]. split.
  - intros k1 r1 H1 Hk1 Hd1. destruct (Ht k1 r1) as (r & Hr & Hkr); [by right|done|done|].
    exists r. rewrite lookup_delete_ne; [done|]. intros E. by eapply Hids.
  - intros id r [Hne Hr]%lookup_delete_Some. destruct (Ho _ _ Hr) as [?|[?|(r0 & [E|H0]%elem_of_cons & <-)]];
      [by left|by right; left| |right; right; by eauto]. injection E as -> ->. done.
  - intros k' want Hw. destruct (Hd _ _ Hw) as (id & r & Hr & Hkr & Hch). exists id, r.
    rewrite lookup_delete_ne; [done|]. intros <-. congruence.
  - intros id k' Hk'. destruct (Hp _ _ Hk') as (r & Hr & Hkr). exists r.
    rewrite lookup_delete_ne; [done|]. intros <-. pose proof (Hkept _ _ Hk'). congruence.
Qed.

Lemma del_inv_skip des kept k have todo m :
  del_inv des kept ((k, have) :: todo) m -> protectedTypes k.1 = true \/ is_Some (des !! k) ->
  del_inv des kept todo m.
Proof.
  intros [Ht Ho Hd Hp] Hk. split; [|..|done|done].
  - intros. apply Ht; [by right|done|done].
  - intros id r Hr. destruct (Ho _ _ Hr) as [?|[?|(r0 & [E|H0]%elem_of_cons & <-)]];
      [by left|by right; left| |right; right; by eauto].
    injection E as <- ->. destruct Hk; [by right; left|by left].
Qed.

Lemma delete_loop_errors des l acc w : SyncErrors (delete_loop A des l acc w).1 = [] -> SyncErrors acc = [].
Proof.
  revert acc w. induction l as [|[k have] l IH]; intros acc w; simpl; [done|]. repeat case_match; try apply IH;
    intros Hn%IH; by apply note_errors in Hn as [_ ?].
Qed.

Lemma delete_loop_inv des kept l acc w :
  (forall id k, kept !! id = Some k -> protectedTypes k.1 = true) ->
  NoDup (RecID <$> l.*2) -> del_inv des kept l (recs w) ->
  SyncErrors (delete_loop A des l acc w).1 = [] ->
  del_inv des kept [] (recs (delete_loop A des l acc w).2).
Proof.
  intros Hkept. revert acc w. induction l as [|[k have] l IH]; intros acc w Hd Hi He; simpl in *; [done|].
  apply NoDup_cons in Hd as [Hk Hd].
  destruct (protectedTypes k.1) eqn:Ep; [apply IH; try done; eapply del_inv_skip; eauto|].
  destruct (des !! k) as [x|] eqn:Ed; [apply IH; try done; eapply del_inv_skip; eauto|].
  destruct (api_delete A (RecID have) w) as [res w1] eqn:Ea. pose proof (delete_recs _ _ _ _ Ea) as Hm.
  pose proof (delete_loop_errors _ _ _ _ He) as [Hres _]%note_errors; [|done]. destruct res; [|done].
  apply IH; try done. rewrite Hm. eapply del_inv_delete; try done.
  intros k1 r1 H1 E. apply Hk. rewrite <-E. apply list_elem_of_fmap. exists r1. split; [done|].
  apply list_elem_of_fmap. by exists (k1, r1).
Qed.

(** ** The whole *)

(** No two records of the zone share a type and a name. *)
Definition keys_unique (m : gmap string CfRec) : Prop :=
  forall id1 id2 r1 r2, m !! id1 = Some r1 -> m !! id2 = Some r2 -> key_of r1 = key_of r2 -> id1 = id2.

Lemma listing_ids w l : l ≡ₚ (map_to_list (recs w)).*2 -> NoDup (RecID <$> l).
Proof.
  intros ->. rewrite <-list_fmap_compose, (fmap_ext_on _ fst); [apply NoDup_fst_map_to_list|].
  intros [id r] Hr%elem_of_map_to_list. simpl. by eapply recs_id.
Qed.

Lemma elem_of_listing w l r : l ≡ₚ (map_to_list (recs w)).*2 -> r ∈ l <-> recs w !! RecID r = Some r.
Proof.
  intros ->. rewrite list_elem_of_fmap. split.
  - intros ([id r'] & -> & Hr%elem_of_map_to_list). simpl. by rewrite (recs_id _ _ _ Hr).
  - intros Hr. exists (RecID r, r). split; [done|]. by apply elem_of_map_to_list.
Qed.

Lemma listing_keys w l :
  keys_unique (recs w) -> l ≡ₚ (map_to_list (recs w)).*2 -> NoDup (key_of <$> l).
Proof.
  intros Hu Hl. rewrite Hl, <-list_fmap_compose.
  apply NoDup_fmap_2_strong; [|apply NoDup_map_to_list].
  intros [i1 r1] [i2 r2] H1%elem_of_map_to_list H2%elem_of_map_to_list E. simpl in E.
  assert (i1 = i2) as -> by by eapply Hu. congruence.
Qed.

Lemma index_ids {MO : MapOrder} w l :
  keys_unique (recs w) -> l ≡ₚ (map_to_list (recs w)).*2 -> NoDup (RecID <$> (map_range (index l ∅)).*2).
Proof.
  intros Hu Hl. pose proof (listing_keys w l Hu Hl) as Hk.
  assert (map_range (index l ∅) ≡ₚ (fun r => (key_of r, r)) <$> l) as ->.
  { rewrite index_foldl, (foldl_insert key_of (fun r => r)), map_union_empty, (map_range_perm _) by done.
    apply map_to_list_to_map. by rewrite <-list_fmap_compose. }
  rewrite <-!list_fmap_compose. exact (listing_ids w l Hl).
Qed.

Lemma put_inv_start {MO : MapOrder} w l des :
  keys_unique (recs w) -> l ≡ₚ (map_to_list (recs w)).*2 ->
  put_inv (index l ∅) des (map_range des) (recs w).
Proof.
  intros Hu Hl. pose proof (listing_keys w l Hu Hl) as Hk. split.
  - intros k r0 [Hr0 Hkey]%lookup_index; [|done]. exists r0.
    split_and!; [by eapply elem_of_listing|done|done].
  - intros id r Hr. left. exists r. pose proof (recs_id _ _ _ Hr) as <-.
    split; [|done]. apply lookup_index; [done|]. split; [|done]. by eapply elem_of_listing.
  - intros k want Hw Hk'. destruct Hk'. apply list_elem_of_fmap. exists (k, want).
    split; [done|by apply elem_of_map_range].
Qed.

(** The protected records of the zone. *)
Definition protected_of (m : gmap string CfRec) : gmap string key :=
  key_of <$> filter (fun kr => protectedTypes (RecType kr.2) = true) m.

Lemma del_inv_start {MO : MapOrder} w l des m :
  keys_unique (recs w) -> l ≡ₚ (map_to_list (recs w)).*2 -> put_inv (index l ∅) des [] m ->
  del_inv des (protected_of (recs w)) (map_range (index l ∅)) m.
Proof.
  intros Hu Hl [Hc Ho Hd]. pose proof (listing_keys w l Hu Hl) as Hk. split.
  - intros k r0 Hr0%elem_of_map_range _ _. destruct (Hc _ _ Hr0) as (r & Hr & Hkr & _). eauto.
  - intros id r Hr. destruct (Ho _ _ Hr) as [(r0 & H0 & <-)|]; [|by left]. right. right.
    exists r0. split; [by apply elem_of_map_range|done].
  - intros k want Hw. apply Hd; [done|]. by intros ?%elem_of_nil.
  - intros id k. unfold protected_of. rewrite lookup_fmap, fmap_Some.
    intros (r & [Hr _]%map_lookup_filter_Some & ->). destruct (Hc (key_of r) r) as (r' & Hr' & Hkr' & _).
    + apply lookup_index; [done|]. split; [|done]. eapply elem_of_listing; [done|].
      by rewrite (recs_id _ _ _ Hr).
    + rewrite (recs_id _ _ _ Hr) in Hr'. eauto.
Qed.

(** C30. Reconciliation.  For a zone and a desired set without two records of
    the same type and name, a sync that reports no error leaves a zone in
    which every desired record is present up to the fields it sets, every
    record is desired or an NS or SOA record, and every NS and SOA record
    there was is still there. *)
Theorem SyncZone_reconciles {MO : MapOrder} desired w res w' :
  NoDup (key_of <$> desired) -> keys_unique (recs w) ->
  SyncZone A desired w = (Ok res, w') -> SyncErrors res = [] ->
  (forall want, want ∈ desired ->
     exists id r, recs w' !! id = Some r /\ key_of r = key_of want /\ recordChanged r want = false) /\
  (forall id r, recs w' !! id = Some r ->
     protectedTypes (RecType r) = true \/ exists want, want ∈ desired /\ key_of want = key_of r) /\
  (forall id r, recs w !! id = Some r -> protectedTypes (RecType r) = true ->
     exists r', recs w' !! id = Some r' /\ key_of r' = key_of r).
Proof.
  intros Hdes Hu E He. unfold SyncZone in E. destruct (api_list A w) as [[l|] w1] eqn:El; [|done].
  destruct (list_recs _ _ _ El) as [Hw1 Hl]. specialize (Hl l eq_refl). rewrite <-Hw1 in Hl, Hu.
  set (des := index desired ∅) in *. set (cur := index l ∅) in *.
  destruct (put_loop A cur (map_range des) _ w1) as [acc w2] eqn:Ep.
  destruct (delete_loop A des (map_range cur) acc w2) as [acc' w3] eqn:Ed. injection E as <- <-.
  pose proof (put_loop_inv cur des (map_range des) (mkSyncResult 0 0 0 []) w1) as Hp. rewrite Ep in Hp.
  pose proof (delete_loop_errors des (map_range cur) acc w2) as Her. rewrite Ed in Her. specialize (Her He).
  pose proof (delete_loop_inv des (protected_of (recs w1)) (map_range cur) acc w2) as Hdl. rewrite Ed in Hdl.
  destruct Hdl as [_ Ho Hd Hk]; [..|done|].
  - intros id k. unfold protected_of. rewrite lookup_fmap, fmap_Some.
    by intros (r & [_ Hr]%map_lookup_filter_Some & ->).
  - by apply (index_ids w1).
  - apply del_inv_start; [done|done|]. apply Hp; [apply map_range_keys_NoDup| |by apply put_inv_start|done].
    intros k r Hr%elem_of_map_range. split; [done|]. by apply lookup_index in Hr as [].
  - split_and!.
    + intros want Hin. apply (Hd (key_of want)). by apply lookup_index.
    + intros id r Hr. destruct (Ho _ _ Hr) as [[want Hw]|[?|(? & ?%elem_of_nil & _)]]; [right|by left|done].
      apply lookup_index in Hw as []; [|done]. eauto.
    + intros id r Hr Hpr. apply Hk. unfold protected_of. rewrite lookup_fmap, Hw1.
      rewrite (map_lookup_filter_Some_2 _ _ _ _ Hr Hpr). done.
Qed.

End reconcile.

(** ** A zone in memory *)

Module MemZone.

#[local] Existing Instance list_order.

Abbreviation zone := (gmap string CfRec).
Definition recs (w : zone) : gmap string CfRec := map_imap (fun id r => Some (set_id id r)) w.
Definition new_id (w : zone) : string := fresh (dom w : gset string).

Definition api : CfApi zone :=
  mkCfApi zone
    (fun w => (Ok (map_to_list (recs w)).*2, w))
    (fun r w => (Ok r, <[new_id w := r]> w))
    (fun id r w => match recs w !! id with
                   | Some old => (Ok r, <[id := merged old r]> w)
                   | None => (Err "not found", w)
                   end)
    (fun id w => (Ok tt, delete id w)).

Lemma lookup_recs w id : recs w !! id = set_id id <$> w !! id.
Proof. unfold recs. rewrite map_lookup_imap. by destruct (w !! id). Qed.

#[export] Instance api_spec : CfApiSpec api recs.
Proof.
  split.
  - intros w id r. rewrite lookup_recs. destruct (w !! id); simpl; [|done]. by intros [= <-].
  - intros w res w' [= <- <-]. split; [done|]. by intros l [= <-].
  - intros w r res w' [= <- <-]. exists (new_id w).
    assert (w !! new_id w = None) as Hn by (apply not_elem_of_dom; exact (is_fresh (dom w : gset string))).
    split; [by rewrite lookup_recs, Hn|]. apply map_eq. intros id. rewrite lookup_recs.
    destruct (decide (id = new_id w)) as [->|]; [by rewrite !lookup_insert_eq|].
    rewrite !lookup_insert_ne by done. by rewrite lookup_recs.
  - intros w id r old res w' Ho. unfold api. simpl. rewrite Ho. intros [= <- <-].
    apply map_eq. intros id'. rewrite lookup_recs.
    destruct (decide (id' = id)) as [->|]; [|rewrite !lookup_insert_ne by done; by rewrite lookup_recs].
    rewrite !lookup_insert_eq. simpl. f_equal. unfold merged, set_id. simpl. f_equal.
    rewrite lookup_recs in Ho. destruct (w !! id); [|done]. by injection Ho as <-.
  - intros w id res w' [= <- <-]. apply map_eq. intros id'. rewrite lookup_recs.
    destruct (decide (id' = id)) as [->|]; [by rewrite !lookup_delete_eq|].
    rewrite !lookup_delete_ne by done. by rewrite lookup_recs.
Qed.

Definition a_rec (nm c : string) : CfRec := mkCfRec EmptyString "A" nm c 300 None None.
Definition ns_rec : CfRec := mkCfRec EmptyString "NS" "example.com" "ns1.example.com" 300 None None.

Definition zone0 : zone := <["1" := a_rec "old.example.com" "192.0.2.1"]> (<["2" := ns_rec]> ∅).

Lemma SyncZone_reconciles_witness :
  exists res w', SyncZone api [a_rec "www.example.com" "192.0.2.2"] zone0 = (Ok res, w') /\
    (Created res, Deleted res) = (1, 1) /\ size (recs w') = 2%nat /\
    exists id r, recs w' !! id = Some r /\ key_of r = ("A", "www.example.com") /\
      recordChanged r (a_rec "www.example.com" "192.0.2.2") = false.
Proof.
  pose proof (SyncZone_reconciles api recs [a_rec "www.example.com" "192.0.2.2"] zone0) as H.
  assert (match SyncZone api [a_rec "www.example.com" "192.0.2.2"] zone0 with
          | (Ok r, w') => (Created r, Deleted r, SyncErrors r, size (recs w')) | _ => (0, 0, [], 0%nat)
          end = (1, 1, [], 2%nat)) as Hv by (vm_compute; reflexivity).
  destruct (SyncZone api _ zone0) as [[res|] w']; [|discriminate]. injection Hv as H1 H2 H3 H4.
  exists res, w'. split; [reflexivity|]. split; [by rewrite H1, H2|]. split; [exact H4|].
  destruct (H res w') as [Hw _].
  - apply NoDup_singleton.
  - assert (bool_decide (map_Forall (fun i1 r1 => map_Forall (fun i2 r2 => key_of r1 = key_of r2 -> i1 = i2)
      (recs zone0)) (recs zone0)) = true) as Hb by (vm_compute; reflexivity).
    apply bool_decide_eq_true_1 in Hb. intros i1 i2 r1 r2 E1 E2. exact (Hb i1 r1 E1 i2 r2 E2).
  - reflexivity.
  - exact H3.
  - apply (Hw (a_rec "www.example.com" "192.0.2.2")). left.
Defined.

(** Without that proviso the zone does not come to match: records are
    matched by type and name alone, so of two desired addresses of one name
    only the later is created, and of two present addresses only one is
    replaced or deleted. *)
Theorem SyncZone_collapses_duplicates :
  (RecContent <$> (map_to_list (recs
     (SyncZone api [a_rec "www.example.com" "192.0.2.1"; a_rec "www.example.com" "192.0.2.2"] ∅).2)).*2)
    = ["192.0.2.2"] /\
  (let w := <["1" := a_rec "x.example.com" "192.0.2.8"]> (<["2" := a_rec "x.example.com" "192.0.2.9"]> ∅) in
   size (recs (SyncZone api [] w).2) = 1%nat).
Proof. split; vm_compute; reflexivity. Qed.

End MemZone.
