(* ===== verification/Watcher.v ===== *)
(** * The database watcher (pkg/sync)

    The watcher polls the tables [dns_zones] and [dns_records], posts the
    zones that changed to the DNS server and reconciles the ones kept at
    Cloudflare.  PostgreSQL, the HTTP transport, the Cloudflare API and the
    clock are the operations of [Outside]; between any two of them the world
    may change. *)

From Stdlib Require Import Ascii ZArith Lia.
From stdpp Require Import base numbers gmap strings list.
From S2P Require Import Prelude Http Store CfClient.

Local Open Scope Z_scope.

(** ** Data *)

Record DBZone := mkDBZone {
  dz_ID : string;
  dz_OrgID : string;
  dz_Name : string;
  dz_Status : string;
  dz_CloudflareZoneID : option string;
  dz_UpdatedAt : Z }.

Record DBRecord := mkDBRecord {
  dr_ID : string;
  dr_ZoneID : string;
  dr_Name : string;
  dr_Type : string;
  dr_Content : string;
  dr_TTL : Z;
  dr_Priority : option Z;
  dr_Proxied : bool;
  dr_SyncToCloudflare : bool;
  dr_CloudflareRecordID : option string;
  dr_UpdatedAt : Z }.

#[export] Instance DBZone_eq_dec : EqDecision DBZone.
Proof. solve_decision. Defined.
#[export] Instance DBRecord_eq_dec : EqDecision DBRecord.
Proof. solve_decision. Defined.

Record zoneWithRecords := mkZwr { zwr_Zone : DBZone; zwr_Records : list DBRecord }.

(** The three SELECTs, by their bound arguments. *)
Inductive query : Type -> Type :=
| QZones : query DBZone                   (* status = 'active' *)
| QChanged (since : Z) : query DBZone     (* ... AND updated_at > $1 *)
| QRecords (zoneID : string) : query DBRecord.  (* zone_id = $1 *)

(** A result set: what [Scan] makes of each row, and [rows.Err()]. *)
Record Rows (A : Type) := mkRows { scanned : list (result string A); rows_Err : option string }.
Arguments mkRows {A} _ _.
Arguments scanned {A} _.
Arguments rows_Err {A} _.

Record Outside (W : Type) := mkOutside {
  QueryContext : forall A, query A -> W -> result string (Rows A) * W;
  post_sync : string -> option string -> list SyncZoneRequest -> W -> option Z * W;
  cf_zone : string -> CfApi W;
  Now : W -> Z * W }.
Arguments QueryContext {W} _ {A} _ _.
Arguments post_sync {W} _ _ _ _ _.
Arguments cf_zone {W} _ _.
Arguments Now {W} _ _.

Record Config := mkConfig {
  DatabaseURL : string;
  CoreDNSEndpoint : string;
  CoreDNSAPIKey : string;
  CFAPIToken : string;
  SyncInterval : Z }.

Record Watcher := mkWatcher {
  corednsEndpoint : string;
  corednsAPIKey : string;
  cfClient : bool;            (* the client is configured *)
  interval : Z;
  lastSync : option Z }.      (* [None]: the zero time *)

Definition set_lastSync (w : Watcher) (t : Z) : Watcher :=
  mkWatcher (corednsEndpoint w) (corednsAPIKey w) (cfClient w) (interval w) (Some t).

(** [opened] and [pinged] are the errors of [sql.Open] and [db.Ping]; 30
    seconds are written in nanoseconds. *)
Definition NewWatcher (opened pinged : option string) (cfg : Config) : result string Watcher :=
  match opened, pinged with
  | Some e, _ => Err ("open database: " +++ e)%string
  | None, Some e => Err ("ping database: " +++ e)%string
  | None, None =>
      Ok (mkWatcher (CoreDNSEndpoint cfg) (CoreDNSAPIKey cfg) (bool_decide (CFAPIToken cfg <> EmptyString))
            (if decide (SyncInterval cfg = 0) then 30 * 10 ^ 9 else SyncInterval cfg) None)
  end.

(** ** Payloads *)

(** Names get a final dot; the width of TTL and priority is cut. *)
Definition syncRecord_of (r : DBRecord) : SyncRecord :=
  mkSyncRecord (dr_ID r) (dr_Name r) (dr_Type r) (u32 (dr_TTL r)) (dr_Content r)
    (match dr_Priority r with Some p => u16 p | None => 0 end) (dr_Proxied r).

Definition dotted_name (name : string) : string :=
  if HasSuffix name dot then name else (name +++ dot)%string.

Definition syncZone_of (z : zoneWithRecords) : SyncZoneRequest :=
  mkSyncZone (dotted_name (dz_Name (zwr_Zone z))) (syncRecord_of <$> zwr_Records z).

(** The name of a record at Cloudflare. *)
Definition cf_name (zone : DBZone) (name : string) : string :=
  if bool_decide (name = "@") || bool_decide (name = EmptyString) then dz_Name zone
  else if negb (Contains name dot) then (name +++ dot +++ dz_Name zone)%string
  else name.

Definition cf_desired (zone : DBZone) (records : list DBRecord) : list CfRec :=
  (fun r => mkCfRec EmptyString (dr_Type r) (cf_name zone (dr_Name r)) (dr_Content r) (dr_TTL r)
              (dr_Priority r) (Some (dr_Proxied r)))
  <$> filter (fun r => dr_SyncToCloudflare r = true) records.

Section watcher.
Context {W : Type} (O : Outside W) {MO : MapOrder}.

(** ** Queries *)

(** [for rows.Next() { ... Scan ... }; return all, rows.Err()] *)
Fixpoint scan_rows {A} (l : list (result string A)) (acc : list A) : result string (list A) :=
  match l with
  | [] => Ok acc
  | Err e :: _ => Err e
  | Ok a :: l' => scan_rows l' (acc ++ [a])
  end.

Definition fetch {A} (q : query A) (w : W) : result string (list A) * W :=
  let '(res, w) := QueryContext O q w in
  match res with
  | Err e => (Err e, w)
  | Ok rows =>
      match scan_rows (scanned rows) [] with
      | Err e => (Err e, w)
      | Ok l => (match rows_Err rows with Some e => Err e | None => Ok l end, w)
      end
  end.

Definition fetchZones (w : W) : result string (list DBZone) * W := fetch QZones w.
Definition fetchChangedZones (since : Z) (w : W) : result string (list DBZone) * W := fetch (QChanged since) w.
Definition fetchRecords (zoneID : string) (w : W) : result string (list DBRecord) * W := fetch (QRecords zoneID) w.

(** ** Pushing *)

Definition syncToCoreDNS (self : Watcher) (zones : list zoneWithRecords) (w : W) : result string unit * W :=
  match zones with
  | [] => (Ok tt, w)
  | _ =>
      let auth := if decide (corednsAPIKey self <> EmptyString)
                  then Some ("Bearer " +++ corednsAPIKey self)%string else None in
      let '(reply, w) := post_sync O (corednsEndpoint self +++ "/api/v1/sync")%string auth (syncZone_of <$> zones) w in
      match reply with
      | None => (Err "sync to coredns", w)
      | Some status =>
          if decide (400 <= status) then (Err ("coredns sync returned " +++ Itoa status)%string, w)
          else (Ok tt, w)
      end
  end.

Definition syncToCloudflare (self : Watcher) (zone : DBZone) (records : list DBRecord) (w : W)
  : result string unit * W :=
  if negb (cfClient self) then (Ok tt, w)
  else match dz_CloudflareZoneID zone with
       | None => (Ok tt, w)
       | Some id =>
           if decide (id = EmptyString) then (Ok tt, w)
           else
             let '(res, w) := CfClient.SyncZone (cf_zone O id) (cf_desired zone records) w in
             match res with
             | Err e => (Err ("cf sync zone " +++ dz_Name zone +++ ": " +++ e)%string, w)
             | Ok _ => (Ok tt, w)
             end
       end.

(** ** Cycles *)

(** Fetch the records of each zone; a zone whose fetch fails is left out. *)
Fixpoint fetch_all (zones : list DBZone) (acc : list zoneWithRecords) (w : W) : list zoneWithRecords * W :=
  match zones with
  | [] => (acc, w)
  | z :: zones' =>
      let '(res, w) := fetchRecords (dz_ID z) w in
      match res with
      | Err _ => fetch_all zones' acc w
      | Ok records => fetch_all zones' (acc ++ [mkZwr z records]) w
      end
  end.

(** Errors are logged and dropped. *)
Fixpoint cloudflare_all (self : Watcher) (zs : list zoneWithRecords) (w : W) : W :=
  match zs with
  | [] => w
  | z :: zs' => cloudflare_all self zs' (syncToCloudflare self (zwr_Zone z) (zwr_Records z) w).2
  end.

(** The common part of [SyncAll] and [syncChanged]: fetch, push, take the
    time.  The results of the pushes are not looked at. *)
Definition push_cycle (self : Watcher) (zones : list DBZone) (w : W) : Watcher * W :=
  let '(all, w) := fetch_all zones [] w in
  let '(_, w) := syncToCoreDNS self all w in
  let w := cloudflare_all self all w in
  let '(t, w) := Now O w in
  (set_lastSync self t, w).

Definition SyncAll (self : Watcher) (w : W) : result string unit * Watcher * W :=
  let '(res, w) := fetchZones w in
  match res with
  | Err e => (Err ("fetch zones: " +++ e)%string, self, w)
  | Ok zones => let '(self, w) := push_cycle self zones w in (Ok tt, self, w)
  end.

Definition syncChanged (self : Watcher) (w : W) : result string unit * Watcher * W :=
  match lastSync self with
  | None => SyncAll self w
  | Some since =>
      let '(res, w) := fetchChangedZones since w in
      match res with
      | Err e => (Err ("fetch changed zones: " +++ e)%string, self, w)
      | Ok [] => (Ok tt, self, w)
      | Ok zones => let '(self, w) := push_cycle self zones w in (Ok tt, self, w)
      end
  end.

Definition watcher_SyncZone (self : Watcher) (zoneID : string) (w : W) : result string unit * W :=
  let '(res, w) := fetchZones w in
  match res with
  | Err e => (Err e, w)
  | Ok zones =>
      match list_find (fun z => dz_ID z = zoneID) zones with
      | None => (Err ("zone " +++ zoneID +++ " not found")%string, w)
      | Some (_, zone) =>
          let '(res, w) := fetchRecords (dz_ID zone) w in
          match res with
          | Err e => (Err e, w)
          | Ok records =>
              let '(res, w) := syncToCoreDNS self [mkZwr zone records] w in
              match res with
              | Err e => (Err e, w)
              | Ok _ => syncToCloudflare self zone records w
              end
          end
      end
  end.

(** [Run]: a full sync, then one incremental sync for every tick, and between
    the ticks whatever else happens ([ENV]), from a world in [INIT].  Errors
    are logged. *)
Variable INIT : W -> Prop.
Variable ENV : W -> W -> Prop.

Inductive running : Watcher * W -> Prop :=
| run_start cfg w : INIT w -> lastSync cfg = None -> running ((SyncAll cfg w).1.2, (SyncAll cfg w).2)
| run_tick self w : running (self, w) -> running ((syncChanged self w).1.2, (syncChanged self w).2)
| run_env self w w' : running (self, w) -> ENV w w' -> running (self, w').

End watcher.
