(* ===== verification/WatcherFacts.v ===== *)
(** * Properties of the database watcher

    [WatchSpec] says what the watcher may expect of the world: queries return
    the matching rows, a post is stored when its status says so, the clock
    does not run back.  Against it, and with an endpoint that takes the pushes
    ([accepts]), the watcher is shown to converge; when a push is refused, as
    by the routes of plugin/hanzodns, or when a transaction commits inside a
    cycle, changes are lost. *)

From Stdlib Require Import Ascii ZArith Lia.
From stdpp Require Import base numbers gmap strings list.
From S2P Require Import Prelude Http Auth Store StoreFacts Providers Api ApiFacts CfClient Watcher.

Local Open Scope Z_scope.

Definition active (z : DBZone) : Prop := dz_Status z = "active".
#[export] Instance active_dec z : Decision (active z).
Proof. unfold active. apply _. Defined.

(** The zones of a posted payload replace those stored under their names. *)
Definition deliver (m : gmap string (list SyncRecord)) (p : list SyncZoneRequest) : gmap string (list SyncRecord) :=
  foldl (fun m z => <[sz_Zone z := sz_Records z]> m) m p.

(** What the watcher reads and writes of the world. *)
Class WatchView (W : Type) := {
  db_zones : W -> list DBZone;
  db_records : W -> list DBRecord;
  sink : W -> gmap string (list SyncRecord);
  clock : W -> Z }.

Section view.
Context `{WatchView W}.

Definition same (w w' : W) : Prop :=
  db_zones w' = db_zones w /\ db_records w' = db_records w /\ sink w' = sink w /\ clock w <= clock w'.

Definition rows_of (z : DBZone) (w : W) : list DBRecord :=
  filter (fun r => dr_ZoneID r = dz_ID z) (db_records w).

(** The server holds the zone's current rows, in some order. *)
Definition in_sync (w : W) (z : DBZone) : Prop :=
  exists l, l ≡ₚ rows_of z w /\ sink w !! dotted_name (dz_Name z) = Some (syncRecord_of <$> l).

(** No two active zones have the same name. *)
Definition distinct (w : W) : Prop := NoDup ((dotted_name ∘ dz_Name) <$> filter active (db_zones w)).

(** A transaction of another client: every active zone it leaves either was
    there with the same rows or is stamped later than the clock before. *)
Definition db_write (w w' : W) : Prop :=
  distinct w' /\ sink w' = sink w /\ clock w <= clock w' /\
  forall z, z ∈ db_zones w' -> active z ->
    z ∈ db_zones w /\ rows_of z w' = rows_of z w \/ clock w < dz_UpdatedAt z.

#[export] Instance same_preorder : PreOrder same.
Proof. unfold same. split; [intros w; auto with lia|]. intros x y z. intuition (congruence || lia). Qed.

End view.

(** The world of the watcher.  No transaction of another client commits during
    a call.  A status below 400 says that the server has stored the payload,
    another one that it has not; without an answer it may have or not. *)
Class WatchSpec {W} (O : Watcher.Outside W) `{WatchView W} := {
  zones_law : forall w, exists l w', QueryContext O QZones w = (Ok (mkRows (Ok <$> l) None), w') /\
    l ≡ₚ filter active (db_zones w) /\ same w w';
  changed_law : forall t w, exists l w', QueryContext O (QChanged t) w = (Ok (mkRows (Ok <$> l) None), w') /\
    l ≡ₚ filter (fun z => active z /\ t < dz_UpdatedAt z) (db_zones w) /\ same w w';
  records_law : forall id w, exists l w', QueryContext O (QRecords id) w = (Ok (mkRows (Ok <$> l) None), w') /\
    l ≡ₚ filter (fun r => dr_ZoneID r = id) (db_records w) /\ same w w';
  post_law : forall url auth p w, let '(reply, w') := post_sync O url auth p w in
    db_zones w' = db_zones w /\ db_records w' = db_records w /\ clock w <= clock w' /\
    match reply with
    | Some st => sink w' = if decide (st < 400) then deliver (sink w) p else sink w
    | None => sink w' = sink w \/ sink w' = deliver (sink w) p
    end;
  list_law : forall id w, same w (api_list (cf_zone O id) w).2;
  create_law : forall id r w, same w (api_create (cf_zone O id) r w).2;
  update_law : forall id i r w, same w (api_update (cf_zone O id) i r w).2;
  delete_law : forall id i w, same w (api_delete (cf_zone O id) i w).2;
  now_law : forall w, exists t w', Now O w = (t, w') /\ t <= clock w' /\ same w w' }.

(** ** A reconciliation keeps what its record operations keep *)

Section keeps.
Context {W : Type} (A : CfApi W) (R : relation W) `{!PreOrder R} {MO : MapOrder}.
Hypothesis Hlist : forall w, R w (api_list A w).2.
Hypothesis Hcreate : forall r w, R w (api_create A r w).2.
Hypothesis Hupdate : forall i r w, R w (api_update A i r w).2.
Hypothesis Hdelete : forall i w, R w (api_delete A i w).2.

Lemma put_loop_keeps cur l acc w : R w (put_loop A cur l acc w).2.
Proof.
  revert acc w. induction l as [|[k want] l IH]; intros acc w; simpl; [done|].
  destruct (cur !! k) as [have|]; [destruct (recordChanged have want); [|done]|].
  - specialize (Hupdate (RecID have) (set_id (RecID have) want) w).
    destruct (api_update _ _ _ _) as [res w1]. etrans; [apply Hupdate|apply IH].
  - specialize (Hcreate want w). destruct (api_create _ _ _) as [res w1]. etrans; [apply Hcreate|apply IH].
Qed.

Lemma delete_loop_keeps des l acc w : R w (delete_loop A des l acc w).2.
Proof.
  revert acc w. induction l as [|[k have] l IH]; intros acc w; simpl; [done|].
  destruct (protectedTypes k.1); [done|]. destruct (des !! k); [done|].
  specialize (Hdelete (RecID have) w). destruct (api_delete _ _ _) as [res w1].
  etrans; [apply Hdelete|apply IH].
Qed.

Lemma SyncZone_keeps desired w : R w (CfClient.SyncZone A desired w).2.
Proof.
  unfold CfClient.SyncZone. specialize (Hlist w). destruct (api_list A w) as [[current|e] w1]; [|done]. simpl in *.
  pose proof (put_loop_keeps (index current ∅) (map_range (index desired ∅)) (mkSyncResult 0 0 0 []) w1) as H1.
  destruct (put_loop _ _ _ _ _) as [acc w2].
  pose proof (delete_loop_keeps (index desired ∅) (map_range (index current ∅)) acc w2) as H2.
  destruct (delete_loop _ _ _ _ _) as [acc' w3]. simpl in *. by do 2 (etrans; [eassumption|]).
Qed.

End keeps.

(** ** Convergence *)

Section converge.
Context {W : Type} (O : Watcher.Outside W) `{WatchSpec W O} {MO : MapOrder}.
Implicit Types w : W.

Lemma scan_rows_ok {A} (l acc : list A) : scan_rows (Ok <$> l) acc = Ok (acc ++ l).
Proof.
  revert acc. induction l as [|a l IH]; intros acc; simpl; [by rewrite app_nil_r|].
  by rewrite IH, <-app_assoc.
Qed.

Lemma fetch_ok {A} (q : query A) l w w' :
  QueryContext O q w = (Ok (mkRows (Ok <$> l) None), w') -> fetch O q w = (Ok l, w').
Proof. intros E. unfold fetch. rewrite E. simpl. by rewrite scan_rows_ok. Qed.

(** The configured endpoint takes every push posted below it. *)
Definition accepts (self : Watcher) : Prop :=
  forall auth p w, match (post_sync O (corednsEndpoint self +++ "/api/v1/sync")%string auth p w).1 with
                   | Some st => st < 400 | None => False end.

Lemma SyncAll_endpoint self w : corednsEndpoint (SyncAll O self w).1.2 = corednsEndpoint self.
Proof.
  unfold SyncAll, push_cycle. destruct (fetchZones O w) as [[zones|e] w1]; [|done]. destruct (fetch_all O zones [] w1) as [all w2].
  destruct (syncToCoreDNS O self all w2) as [res w3]. by destruct (Now O _).
Qed.

Lemma syncChanged_endpoint self w : corednsEndpoint (syncChanged O self w).1.2 = corednsEndpoint self.
Proof.
  unfold syncChanged. destruct (lastSync self) as [since|]; [|apply SyncAll_endpoint].
  destruct (fetchChangedZones O since w) as [[[|z zones]|e] w1]; [done| |done]. unfold push_cycle.
  destruct (fetch_all O (z :: zones) [] w1) as [all w2]. destruct (syncToCoreDNS O self all w2) as [res w3]. by destruct (Now O _).
Qed.

Lemma accepts_endpoint self self' : corednsEndpoint self' = corednsEndpoint self -> accepts self' -> accepts self.
Proof. unfold accepts. by intros ->. Qed.

Definition good (w : W) (z : zoneWithRecords) : Prop := zwr_Records z ≡ₚ rows_of (zwr_Zone z) w.

Lemma fetch_all_ok zones acc w :
  exists all w', fetch_all O zones acc w = (acc ++ all, w') /\ same w w' /\
    zwr_Zone <$> all = zones /\ Forall (good w) all.
Proof.
  revert acc w. induction zones as [|z zones IH]; intros acc w; simpl.
  { exists [], w. by rewrite app_nil_r. }
  destruct (records_law (dz_ID z) w) as (l & w1 & E1 & Hl & Hs1). unfold fetchRecords.
  rewrite (fetch_ok _ _ _ _ E1). destruct (IH (acc ++ [mkZwr z l]) w1) as (all & w2 & -> & Hs2 & Hz & Hg).
  exists (mkZwr z l :: all), w2. rewrite <-app_assoc. split_and!; [done|by etrans|simpl; by f_equal|].
  constructor; [done|]. eapply Forall_impl; [exact Hg|]. intros x. unfold good, rows_of.
  by destruct Hs1 as (_ & -> & _).
Qed.

Lemma syncToCoreDNS_ok self all w :
  accepts self -> exists w', syncToCoreDNS O self all w = (Ok tt, w') /\
    db_zones w' = db_zones w /\ db_records w' = db_records w /\ clock w <= clock w' /\
    sink w' = deliver (sink w) (syncZone_of <$> all).
Proof.
  intros Ha. unfold syncToCoreDNS. destruct all as [|z all]; [exists w; by split_and!|].
  match goal with |- context [post_sync _ ?u ?a ?p w] => pose proof (post_law u a p w) as HP; specialize (Ha a p w) end.
  destruct (post_sync _ _ _ _ w) as [[st|] w']; simpl in Ha; [|done]. exists w'. rewrite decide_True in HP by done.
  by rewrite decide_False by lia.
Qed.

Lemma cloudflare_all_keeps self all w : same w (cloudflare_all O self all w).
Proof.
  revert w. induction all as [|z all IH]; intros w; simpl; [done|]. etrans; [|apply IH].
  unfold syncToCloudflare. destruct (cfClient self); [|done]. destruct (dz_CloudflareZoneID _) as [id|]; [|done].
  simpl. case_decide; [done|].
  pose proof (SyncZone_keeps (cf_zone O id) same (list_law id) (create_law id) (update_law id) (delete_law id)
                (cf_desired (zwr_Zone z) (zwr_Records z)) w) as HS.
  by destruct (CfClient.SyncZone _ _ _) as [[? | ?] w1].
Qed.

Lemma push_cycle_ok self zones w :
  accepts self -> exists all t w', push_cycle O self zones w = (set_lastSync self t, w') /\
    db_zones w' = db_zones w /\ db_records w' = db_records w /\ t <= clock w' /\
    zwr_Zone <$> all = zones /\ Forall (good w) all /\
    sink w' = deliver (sink w) (syncZone_of <$> all).
Proof.
  intros Hacc. unfold push_cycle. destruct (fetch_all_ok zones [] w) as (all & w1 & -> & (Z1 & R1 & S1 & _) & Hz & Hg). simpl.
  destruct (syncToCoreDNS_ok self all w1 Hacc) as (w2 & -> & Z2 & R2 & _ & S2).
  destruct (cloudflare_all_keeps self all w2) as (Z3 & R3 & S3 & _).
  destruct (now_law (cloudflare_all O self all w2)) as (t & w4 & -> & Ht & Z4 & R4 & S4 & _).
  exists all, t, w4. split_and!; congruence || done.
Qed.

Lemma deliver_lookup_ne m p k : k ∉ sz_Zone <$> p -> deliver m p !! k = m !! k.
Proof.
  unfold deliver. revert m. induction p as [|z p IH]; intros m; simpl; [done|]. intros [? ?]%not_elem_of_cons.
  rewrite IH by done. by rewrite lookup_insert_ne by congruence.
Qed.

Lemma deliver_lookup m p z : NoDup (sz_Zone <$> p) -> z ∈ p -> deliver m p !! sz_Zone z = Some (sz_Records z).
Proof.
  unfold deliver. revert m. induction p as [|z' p IH]; intros m; simpl; [by intros _ ?%elem_of_nil|].
  intros [Hn Hd]%NoDup_cons [->|Hin]%elem_of_cons; [|by apply IH].
  fold (deliver (<[sz_Zone z' := sz_Records z']> m) p). rewrite deliver_lookup_ne by done. apply lookup_insert_eq.
Qed.

Lemma submseteq_names (zones l : list DBZone) :
  zones ⊆+ l -> NoDup ((dotted_name ∘ dz_Name) <$> l) ->
  NoDup ((dotted_name ∘ dz_Name) <$> zones) /\
  forall z, z ∈ l -> (dotted_name ∘ dz_Name) z ∈ (dotted_name ∘ dz_Name) <$> zones -> z ∈ zones.
Proof.
  intros [r Hr]%submseteq_Permutation Hd. rewrite Hr, fmap_app in Hd. apply NoDup_app in Hd as (Hd & Hdis & _).
  split; [done|]. intros z Hz. rewrite Hr in Hz. apply elem_of_app in Hz as [?|Hz]; [done|].
  intros Hin. exfalso. apply (Hdis _ Hin). apply list_elem_of_fmap. eauto.
Qed.

(** Pushing some of the active zones brings them in sync and leaves the
    others as they were. *)
Lemma push_cycle_syncs self zones w :
  accepts self -> distinct w -> zones ⊆+ filter active (db_zones w) ->
  exists t w', push_cycle O self zones w = (set_lastSync self t, w') /\
    db_zones w' = db_zones w /\ t <= clock w' /\
    (forall z, z ∈ zones -> in_sync w' z) /\
    (forall z, z ∈ db_zones w -> active z -> in_sync w z -> in_sync w' z).
Proof.
  intros Hacc Hdis Hsub. destruct (push_cycle_ok self zones w Hacc) as (all & t & w' & E & Z & R & Ht & Hz & Hg & HS).
  exists t, w'. destruct (submseteq_names _ _ Hsub Hdis) as [Hnd Huniq].
  assert ((dotted_name ∘ dz_Name) <$> zones = sz_Zone <$> (syncZone_of <$> all)) as Hnames.
  { by rewrite <-Hz, <-!list_fmap_compose. }
  rewrite Hnames in Hnd, Huniq.
  assert (forall z, z ∈ zones -> in_sync w' z) as Hin.
  { intros z. rewrite <-Hz. intros (x & -> & Hx)%list_elem_of_fmap.
    exists (zwr_Records x). unfold rows_of. rewrite R. split; [by eapply (proj1 (Forall_forall (good w) all) Hg)|].
    rewrite HS. apply (deliver_lookup _ _ (syncZone_of x) Hnd). apply list_elem_of_fmap. eauto. }
  split_and!; [done..|]. intros z Hzi Ha (l & Hl & Hs).
  destruct (decide (dotted_name (dz_Name z) ∈ sz_Zone <$> (syncZone_of <$> all))) as [Hk|Hk].
  - apply Hin, Huniq; [|done]. by apply list_elem_of_filter.
  - exists l. unfold rows_of in *. rewrite R. split; [done|]. by rewrite HS, deliver_lookup_ne.
Qed.

(** Every active zone is in sync or will be selected by the next tick. *)
Definition watch_inv (self : Watcher) (w : W) : Prop :=
  distinct w /\ exists t, lastSync self = Some t /\ t <= clock w /\
    forall z, z ∈ db_zones w -> active z -> in_sync w z \/ t < dz_UpdatedAt z.

Lemma SyncAll_syncs self w :
  accepts self -> distinct w ->
  exists t w', SyncAll O self w = (Ok tt, set_lastSync self t, w') /\ distinct w' /\ t <= clock w' /\
    forall z, z ∈ db_zones w' -> active z -> in_sync w' z.
Proof.
  intros Hacc Hdis. unfold SyncAll, fetchZones. destruct (zones_law w) as (l & w1 & E & Hl & Hs).
  rewrite (fetch_ok _ _ _ _ E). destruct Hs as (Z1 & _).
  destruct (push_cycle_syncs self l w1 Hacc) as (t & w2 & -> & Z2 & Ht & Hin & _).
  { unfold distinct. by rewrite Z1. }
  { by rewrite Z1, Hl. }
  exists t, w2. split_and!; [done|unfold distinct; by rewrite Z2, Z1|done|]. intros z Hz Ha. apply Hin. rewrite Hl.
  apply list_elem_of_filter. split; [done|]. congruence.
Qed.

Lemma syncChanged_syncs self w :
  accepts self -> watch_inv self w ->
  exists t w', (syncChanged O self w).1.1 = Ok tt /\ (syncChanged O self w).1.2 = set_lastSync self t /\
    (syncChanged O self w).2 = w' /\ distinct w' /\ t <= clock w' /\
    forall z, z ∈ db_zones w' -> active z -> in_sync w' z.
Proof.
  intros Hacc (Hdis & since & Hl & Hc & Hinv). unfold syncChanged, fetchChangedZones. rewrite Hl.
  destruct (changed_law since w) as (l & w1 & E & Hp & Z1 & R1 & S1 & C1).
  rewrite (fetch_ok _ _ _ _ E). assert (distinct w1) as Hdis1 by (unfold distinct; by rewrite Z1).
  assert (forall z, z ∈ db_zones w1 -> active z -> z ∈ l \/ in_sync w1 z) as Hcase.
  { intros z Hz Ha. rewrite Z1 in Hz. destruct (Hinv z Hz Ha) as [Hi|Hu].
    - right. unfold in_sync, rows_of. by rewrite R1, S1.
    - left. rewrite Hp. by apply list_elem_of_filter. }
  destruct l as [|z0 l].
  { exists since, w1. split_and!; [done| |done|done|lia|].
    - destruct self; simpl in *. by subst.
    - intros z Hz Ha. by destruct (Hcase z Hz Ha) as [?%elem_of_nil|]. }
  destruct (push_cycle_syncs self (z0 :: l) w1 Hacc) as (t & w2 & Ep & Z2 & Ht & Hin & Hkeep).
  { done. }
  { rewrite Z1, Hp, (list_filter_iff _ (fun z => since < dz_UpdatedAt z /\ active z)) by tauto.
    rewrite <-list_filter_filter. apply sublist_submseteq, sublist_filter. }
  rewrite Ep. exists t, w2. split_and!; [done|done|done|unfold distinct; by rewrite Z2|done|]. intros z Hz Ha. rewrite Z2 in Hz.
  destruct (Hcase z Hz Ha); auto.
Qed.

Lemma running_inv self w : running O distinct db_write (self, w) -> accepts self -> watch_inv self w.
Proof.
  intros Hr. remember (self, w) as st eqn:E. revert self w E.
  induction Hr as [cfg w Hdis Hnone|self w Hr IH|self w w' Hr IH He]; intros self' w'' [= <- <-] Hacc.
  - apply (accepts_endpoint cfg _ (SyncAll_endpoint cfg w)) in Hacc.
    destruct (SyncAll_syncs cfg w Hacc Hdis) as (t & w' & -> & Hd' & Ht & Hin). split; [done|]. exists t. simpl. eauto.
  - apply (accepts_endpoint self _ (syncChanged_endpoint self w)) in Hacc.
    destruct (syncChanged_syncs self w Hacc (IH _ _ eq_refl Hacc)) as (t & w' & _ & -> & -> & Hd' & Ht & Hin). split; [done|]. exists t. eauto.
  - destruct (IH _ _ eq_refl Hacc) as (_ & t & Hl & Ht & Hin). destruct He as (Hd' & HS & HC & HW).
    split; [done|]. exists t. split_and!; [done|lia|]. intros z Hz Ha. destruct (HW z Hz Ha) as [[Hz' Hrows]|]; [|right; lia].
    destruct (Hin z Hz' Ha) as [(l & Hl' & Hs)|]; [left|by right].
    exists l. by rewrite Hrows, HS.
Qed.

(** C32. Convergence.  Suppose that queries succeed, that the clock does not run
    back, that the configured endpoint takes every push (a status below 400,
    after which it holds what was posted), that transactions of other clients
    commit between cycles and not inside one, that each of them stamps the
    zones it changes later than the clock it started at, and that no two
    active zones have the same name.  Then after any history of transactions
    and ticks the next tick succeeds and leaves the server with the current
    rows of every active zone: no change waits longer than one interval.  The
    routes of plugin/hanzodns do not have the path that is posted to
    ([coredns_push_not_routed]), so that the endpoint must be a server or
    proxy that does; and without the condition on transactions changes are
    lost ([watcher_loses_updates]). *)
Theorem watcher_converges self w :
  accepts self -> running O distinct db_write (self, w) ->
  let '(res, self', w') := syncChanged O self w in
  res = Ok tt /\ forall z, z ∈ db_zones w' -> active z -> in_sync w' z.
Proof.
  intros Hacc Hr. destruct (syncChanged_syncs self w Hacc (running_inv _ _ Hr Hacc)) as (t & w' & E1 & _ & E3 & _ & _ & Hin).
  destruct (syncChanged O self w) as [[res self'] w'']. simpl in *. by subst.
Qed.

End converge.

(** ** What falls outside the interface *)

(** The push goes to a path the server does not have.  A request posted
    to [/api/v1/sync], as [syncToCoreDNS] does below the configured host, is
    answered 404 by the routes of the hanzodns API with the store unchanged,
    so every non-empty push to that API is an error. *)
Theorem coredns_push_not_routed {MO : MapOrder} {W V} (O : Watcher.Outside W) (P : Providers.Outside V) (B : Bodies)
  I cfg t es r s v c self zones w w' :
  Path r = "/api/v1/sync" -> zones <> [] ->
  let '((resp, s', v', changed), c') := serve P B I cfg t es r s v c in
  s' = s /\ v' = v /\ changed = false /\
  ((forall url auth p, post_sync O url auth p w = (Some (status resp), w')) ->
   syncToCoreDNS O self zones w = (Err "coredns sync returned 404", w')).
Proof.
  intros HP Hz. unfold serve. rewrite HP, !decide_False by done. simpl.
  split_and!; [done..|]. intros Hpost. unfold syncToCoreDNS. destruct zones as [|z zones]; [done|].
  by rewrite Hpost.
Qed.

Module WatchSample.

(** A database, a server and a clock in memory.  [code] is the status of
    posts; [during] is a transaction that commits while a post is answered. *)
Record Mem := mkMem {
  m_zones : list DBZone;
  m_records : list DBRecord;
  m_sink : gmap string (list SyncRecord);
  m_clock : Z }.

#[export] Instance mem_view : WatchView Mem := {|
  db_zones := m_zones; db_records := m_records; sink := m_sink; clock := m_clock |}.

Definition mem_query A (q : query A) (w : Mem) : list A :=
  match q with
  | QZones => filter active (m_zones w)
  | QChanged t => filter (fun z => active z /\ t < dz_UpdatedAt z) (m_zones w)
  | QRecords id => filter (fun r => dr_ZoneID r = id) (m_records w)
  end.

Definition no_cloudflare : CfApi Mem :=
  mkCfApi Mem (fun w => (Err "down", w)) (fun _ w => (Err "down", w)) (fun _ _ w => (Err "down", w))
    (fun _ w => (Err "down", w)).

Definition mem (code : Z) (during : option (list DBZone * list DBRecord)) : Watcher.Outside Mem :=
  Watcher.mkOutside Mem
    (fun A q w => (Ok (mkRows (Ok <$> mem_query A q w) None), w))
    (fun _ _ p w =>
       let sk := if decide (code < 400) then deliver (m_sink w) p else m_sink w in
       (Some code, match during with
                   | None => mkMem (m_zones w) (m_records w) sk (m_clock w + 1)
                   | Some (zs, rs) => mkMem zs rs sk (m_clock w + 2)
                   end))
    (fun _ => no_cloudflare)
    (fun w => (m_clock w + 1, mkMem (m_zones w) (m_records w) (m_sink w) (m_clock w + 1))).

#[export] Instance mem_spec code : WatchSpec (mem code None).
Proof.
  split; try (intros; eexists _, _; split; [reflexivity|]; by split); try (intros; reflexivity).
  - intros url auth p w. simpl. split_and!; try done; lia.
  - intros w. eexists _, _. split; [reflexivity|]. unfold same. split_and!; simpl; try reflexivity; lia.
Qed.

Definition zone_at (t : Z) : DBZone := mkDBZone "z" "org" "example.com" "active" None t.
Definition www (content : string) : DBRecord :=
  mkDBRecord "r" "z" "www" "A" content 300 None false false None 0.

Definition self0 : Watcher := mkWatcher "http://dns" EmptyString false 30 None.
Definition db0 : Mem := mkMem [zone_at 5] [www "192.0.2.1"] ∅ 10.
Definition db1 (w : Mem) : Mem := mkMem [zone_at 20] [www "192.0.2.2"] (m_sink w) 20.

Lemma watcher_converges_witness :
  let w1 := (SyncAll (MO := list_order) (mem 200 None) self0 db0).2 in
  let self1 := (SyncAll (MO := list_order) (mem 200 None) self0 db0).1.2 in
  let '(res, _, w') := syncChanged (MO := list_order) (mem 200 None) self1 (db1 w1) in
  res = Ok tt /\ (forall z, z ∈ db_zones w' -> active z -> in_sync w' z) /\
  m_sink w' !! "example.com." = Some [syncRecord_of (www "192.0.2.2")].
Proof.
  intros w1 self1.
  pose proof (watcher_converges (MO := list_order) (mem 200 None) self1 (db1 w1)) as H.
  destruct (syncChanged _ self1 (db1 w1)) as [[res s'] w'] eqn:E.
  assert (m_sink w' !! "example.com." = Some [syncRecord_of (www "192.0.2.2")]) as Hs.
  { replace w' with (syncChanged (MO := list_order) (mem 200 None) self1 (db1 w1)).2 by (by rewrite E).
    vm_compute. reflexivity. }
  assert (res = Ok tt /\ (forall z, z ∈ db_zones w' -> active z -> in_sync w' z)) as [H1 H2]; [|by split_and!].
  apply H; [by intros auth p w|]. apply run_env with w1.
  - apply run_start; [|reflexivity]. apply (bool_decide_eq_true_1 _). vm_compute. reflexivity.
  - split_and!.
    + apply (bool_decide_eq_true_1 _). vm_compute. reflexivity.
    + reflexivity.
    + vm_compute. discriminate.
    + intros z [->|Hz%elem_of_nil]%elem_of_cons _; [|done]. right. vm_compute. reflexivity.
Defined.

Lemma coredns_push_witness :
  syncToCoreDNS (mem 404 None) self0 [mkZwr (zone_at 5) [www "192.0.2.1"]] db0
  = (Err "coredns sync returned 404", mkMem [zone_at 5] [www "192.0.2.1"] ∅ 11).
Proof.
  pose proof (coredns_push_not_routed (MO := list_order) (mem 404 None) ApiSample.outside ApiSample.bodies
    ApiSample.issuer ApiSample.config 1000 (fun _ => StoreSample.env 20)
    (ApiSample.request "POST" "/api/v1/sync" EmptyString) StoreSample.store 0%nat ApiSample.cold
    self0 [mkZwr (zone_at 5) [www "192.0.2.1"]] db0 (mkMem [zone_at 5] [www "192.0.2.1"] ∅ 11) eq_refl ltac:(discriminate)) as H.
  apply H. reflexivity.
Defined.

(** A run of [n] ticks after the first sync. *)
Definition ticks (O : Watcher.Outside Mem) (n : nat) : Watcher * Mem :=
  Nat.iter n (fun st => let '(_, self, w) := syncChanged (MO := list_order) O st.1 st.2 in (self, w))
    (let '(_, self, w) := SyncAll (MO := list_order) O self0 db0 in (self, w)).

(** Two ways a change is lost for good.  A transaction that commits while
    a cycle is pushing is stamped before the time the cycle takes at its end,
    and is not selected by any later tick.  A push the server refuses is only
    logged and the time advances just the same, so the zone is not sent
    again.  In both runs, whatever the number of ticks, the server never
    holds the rows of the database. *)
Theorem watcher_loses_updates :
  (forall n, let '(_, w) := ticks (mem 200 (Some ([zone_at 11], [www "192.0.2.2"]))) n in
     m_records w = [www "192.0.2.2"] /\ m_sink w !! "example.com." = Some [syncRecord_of (www "192.0.2.1")]) /\
  (forall n, let '(_, w) := ticks (mem 503 None) n in
     m_records w = [www "192.0.2.1"] /\ m_sink w !! "example.com." = None).
Proof.
  split; intros n.
  - assert (ticks (mem 200 (Some ([zone_at 11], [www "192.0.2.2"]))) n
            = ticks (mem 200 (Some ([zone_at 11], [www "192.0.2.2"]))) 0) as ->.
    { induction n as [|n IH]; [done|]. unfold ticks in *. rewrite Nat.iter_succ, IH. vm_compute. reflexivity. }
    vm_compute. by split.
  - assert (ticks (mem 503 None) n = ticks (mem 503 None) 0) as ->.
    { induction n as [|n IH]; [done|]. unfold ticks in *. rewrite Nat.iter_succ, IH. vm_compute. reflexivity. }
    vm_compute. by split.
Qed.

End WatchSample.
