(* ===== verification/Typify.v ===== *)
(** * Classifying replies (plugin/pkg/response, plugin/pkg/dnsutil/ttl.go)

    [Typify] sorts a reply into one of eight types, [Classify] groups those
    into classes, and [MinimalTTL] is the lowest TTL of a reply. *)

From Stdlib Require Import Ascii ZArith Lia.
From stdpp Require Import base numbers gmap strings list.
From S2P Require Import Prelude DnsTypes DnsLib.

Local Open Scope Z_scope.

(** ** Types and classes *)

Inductive mtype : Type :=
| NoError | NameError | ServerError | NoData | Delegation | Meta | Update | OtherError.

#[export] Instance mtype_eq_dec : EqDecision mtype.
Proof. solve_decision. Defined.

Inductive mclass : Type := All | Success | Denial | Error_.

#[export] Instance mclass_eq_dec : EqDecision mclass.
Proof. solve_decision. Defined.

(** The table [toString]. *)
Definition mtype_String (t : mtype) : string :=
  match t with
  | NoError => "NOERROR"
  | NameError => "NXDOMAIN"
  | ServerError => "SERVERERROR"
  | NoData => "NODATA"
  | Delegation => "DELEGATION"
  | Meta => "META"
  | Update => "UPDATE"
  | OtherError => "OTHERERROR"
  end.

Definition all_types : list mtype :=
  [NoError; NameError; ServerError; NoData; Delegation; Meta; Update; OtherError].

(** The loop over the table, in the order [order] of its keys. *)
Definition TypeFromString (order : list mtype) (s : string) : mtype * bool :=
  match list_find (fun t => s = mtype_String t) order with
  | Some (_, t) => (t, true)
  | None => (NoError, false)
  end.

Definition mclass_String (c : mclass) : string :=
  match c with All => "all" | Success => "success" | Denial => "denial" | Error_ => "error" end.

Definition ClassFromString (s : string) : mclass * bool :=
  if decide (s = "all") then (All, true)
  else if decide (s = "success") then (Success, true)
  else if decide (s = "denial") then (Denial, true)
  else if decide (s = "error") then (Error_, true)
  else (All, false).

Definition Classify (t : mtype) : mclass :=
  match t with
  | NoError | Delegation => Success
  | NameError | NoData => Denial
  | _ => Error_
  end.

Section typify.
Context {L : DnsLib}.

(** ** [Typify] *)

Fixpoint typifyExpiredRRSIG (rrs : list RR) (t : Z) : bool :=
  match rrs with
  | [] => false
  | r :: rrs' =>
      if decide (rr_type r <> TypeRRSIG) then typifyExpiredRRSIG rrs' t
      else if negb (ValidityPeriod r t) then true
      else typifyExpiredRRSIG rrs' t
  end.

Definition typifyExpired (m : Msg) (t : Z) : bool :=
  if typifyExpiredRRSIG (Answer m) t then true
  else if typifyExpiredRRSIG (Ns_ m) t then true
  else if typifyExpiredRRSIG (Extra m) t then true
  else false.

(** The loop over the authority section: is there an SOA, how many NS. *)
Fixpoint scan_ns (rrs : list RR) (soa : bool) (ns : Z) : bool * Z :=
  match rrs with
  | [] => (soa, ns)
  | r :: rrs' =>
      if decide (rr_type r = TypeSOA) then scan_ns rrs' true ns
      else if decide (rr_type r = TypeNS) then scan_ns rrs' soa (ns + 1)
      else scan_ns rrs' soa ns
  end.

Definition is_transfer (m : Msg) : bool :=
  match Question m with
  | q :: _ => bool_decide (Qtype q = TypeAXFR) || bool_decide (Qtype q = TypeIXFR)
  | [] => false
  end.

Definition Typify (om : option Msg) (t : Z) : mtype * option RR :=
  match om with
  | None => (OtherError, None)
  | Some m =>
      let opt := IsEdns0 m in
      let do := match opt with Some o => OptDo o | None => false end in
      if decide (Opcode m = OpcodeUpdate) then (Update, opt)
      else if decide (Opcode m = OpcodeNotify) then (Meta, opt)
      else if is_transfer m then (Meta, opt)
      else if do && typifyExpired m t then (OtherError, opt)
      else if decide (Answer m <> [] /\ Rcode m = RcodeSuccess) then (NoError, opt)
      else
        let '(soa, ns) := scan_ns (Ns_ m) false 0 in
        if soa && bool_decide (Rcode m = RcodeSuccess) then (NoData, opt)
        else if soa && bool_decide (Rcode m = RcodeNameError) then (NameError, opt)
        else if decide (Rcode m = RcodeServerFailure \/ Rcode m = RcodeNotImplemented) then (ServerError, opt)
        else if decide (0 < ns /\ Rcode m = RcodeSuccess) then (Delegation, opt)
        else if decide (Rcode m = RcodeSuccess) then (NoError, opt)
        else (OtherError, opt)
  end.

End typify.

(** ** TTLs, in nanoseconds *)

Definition Second : Z := 1000000000.

(** [int(d.Seconds())]: for durations below 2^22 seconds the float64 sum of
    the whole and the fractional part truncates to the whole part. *)
Definition seconds (d : Z) : Z := d ÷ Second.

Definition MinimalDefaultTTL : Z := 5 * Second.
Definition MaximumDefaultTTL : Z := 3600 * Second.

Fixpoint min_loop (rrs : list RR) (skip_opt : bool) (minTTL : Z) : Z :=
  match rrs with
  | [] => minTTL
  | r :: rrs' =>
      if skip_opt && bool_decide (rr_type r = TypeOPT) then min_loop rrs' skip_opt minTTL
      else if decide (rr_ttl r < u32 (seconds minTTL)) then min_loop rrs' skip_opt (rr_ttl r * Second)
      else min_loop rrs' skip_opt minTTL
  end.

Definition MinimalTTL (m : Msg) (mt : mtype) : Z :=
  if decide (mt <> NoError /\ mt <> NameError /\ mt <> NoData) then MinimalDefaultTTL
  else if bool_decide (Answer m = [] /\ Ns_ m = []) &&
          match Extra m with [] => true | [r] => bool_decide (rr_type r = TypeOPT) | _ => false end
  then MinimalDefaultTTL
  else min_loop (Extra m) true (min_loop (Ns_ m) false (min_loop (Answer m) false MaximumDefaultTTL)).

(** ** Properties *)

(** The TTLs a loop looks at. *)
Definition counted_ttls (skip_opt : bool) (rrs : list RR) : list Z :=
  rr_ttl <$> filter (fun r => skip_opt = true -> rr_type r <> TypeOPT) rrs.

Lemma min_loop_spec rrs skip k :
  Forall (fun r => 0 <= rr_ttl r < 2 ^ 32) rrs -> 0 <= k < 2 ^ 32 ->
  min_loop rrs skip (k * Second) = foldr Z.min k (counted_ttls skip rrs) * Second.
Proof.
  unfold counted_ttls. intros HF. revert k. induction HF as [|r rrs Hr HF IH]; intros k Hk; [done|].
  assert (seconds (k * Second) = k) as Hs by (unfold seconds; by apply Z.quot_mul).
  cbn [min_loop]. rewrite filter_cons. rewrite Hs, u32_small by done.
  assert (forall a l, foldr Z.min (Z.min a k) l = Z.min a (foldr Z.min k l)) as Hmin.
  { intros a l. induction l as [|x l IHl]; simpl; [done|]. rewrite IHl. lia. }
  destruct skip; simpl; [case_bool_decide as Et|].
  - rewrite decide_False by naive_solver. by apply IH.
  - rewrite (decide_True (P := true = true -> rr_type r <> TypeOPT)) by naive_solver. simpl. rewrite <-Hmin.
    destruct (decide (rr_ttl r < k)); rewrite ?Z.min_l, ?Z.min_r by lia; apply IH; lia.
  - simpl. rewrite <-Hmin.
    destruct (decide (rr_ttl r < k)); rewrite ?Z.min_l, ?Z.min_r by lia; apply IH; lia.
Qed.

Lemma foldr_min_range k l : 0 <= k < 2 ^ 32 -> Forall (fun z => 0 <= z < 2 ^ 32) l -> 0 <= foldr Z.min k l < 2 ^ 32.
Proof. intros Hk. induction 1; simpl; lia. Qed.

Lemma counted_range skip rrs :
  Forall (fun r => 0 <= rr_ttl r < 2 ^ 32) rrs -> Forall (fun z => 0 <= z < 2 ^ 32) (counted_ttls skip rrs).
Proof.
  intros HF. apply Forall_fmap. apply Forall_forall. intros r [_ Hr]%list_elem_of_filter.
  by apply (proj1 (Forall_forall _ _) HF).
Qed.

(** The records whose TTL counts: all but the OPT record of the additional
    section. *)
Definition ttls (m : Msg) : list Z :=
  counted_ttls true (Extra m) ++ counted_ttls false (Ns_ m) ++ counted_ttls false (Answer m).

(** [MinimalTTL] is the least of the TTLs that count and one hour; a reply
    without records, or of another type, has five seconds. *)
Lemma MinimalTTL_spec m mt :
  Forall (fun r => 0 <= rr_ttl r < 2 ^ 32) (Answer m ++ Ns_ m ++ Extra m) ->
  MinimalTTL m mt = 5 * Second \/ MinimalTTL m mt = foldr Z.min 3600 (ttls m) * Second.
Proof.
  rewrite !Forall_app. intros (HA & HN & HE). unfold MinimalTTL. case_decide; [by left|].
  destruct (bool_decide _ && _); [by left|right]. unfold MaximumDefaultTTL, ttls.
  assert (0 <= 3600 < 2 ^ 32) as H0 by lia.
  rewrite (min_loop_spec (Answer m)) by done. rewrite (min_loop_spec (Ns_ m)), (min_loop_spec (Extra m));
    auto using foldr_min_range, counted_range. by rewrite !foldr_app.
Qed.

(** Printing and parsing of types and classes, in whatever order the table
    of names is searched. *)
Lemma TypeFromString_String order t :
  order ≡ₚ all_types -> TypeFromString order (mtype_String t) = (t, true).
Proof.
  intros Hp. unfold TypeFromString.
  destruct (list_find (fun t' => mtype_String t = mtype_String t') order) as [[n t']|] eqn:E.
  - apply list_find_Some in E as (_ & E & _). destruct t, t'; done.
  - apply list_find_None in E. rewrite Forall_forall in E. exfalso. apply (E t); [|done].
    rewrite Hp. destruct t; unfold all_types; set_solver.
Qed.

Lemma ClassFromString_String k : ClassFromString (mclass_String k) = (k, true).
Proof. by destruct k. Qed.
