(* ===== verification/ShardCache.v ===== *)
(** * The sharded cache (plugin/pkg/cache)

    256 shards, each a map with a size limit that evicts an arbitrary element
    when it is full.  [contents] is the map a cache stands for; the operations
    are shown to implement a map that may forget one element when it grows. *)

From Stdlib Require Import Ascii ZArith Lia.
From stdpp Require Import base numbers gmap strings list.
From S2P Require Import Prelude.

Local Open Scope Z_scope.

(** ** FNV-1, 64 bits (hash/fnv) *)

Definition fnv_offset : Z := 14695981039346656037.
Definition fnv_prime : Z := 1099511628211.

Definition fnv_step (h b : Z) : Z := Z.lxor (u64 (h * fnv_prime)) b.
Definition fnv_write (h : Z) (what : list Z) : Z := foldl fnv_step h what.

Definition Hash (what : list Z) : Z := fnv_write fnv_offset what.

(** ** Shards *)

Record shard (T : Type) := mkShard { items : gmap Z T; size_ : Z }.
Arguments mkShard {T} _ _.
Arguments items {T} _.
Arguments size_ {T} _.

Definition shardSize : nat := 256.

Definition newShard {T} (size : Z) : shard T := mkShard ∅ size.

Section shard.
Context {MO : MapOrder} {T : Type}.
Implicit Types (s : shard T) (key : Z) (el : T).

(** [for k := range s.items { delete(s.items, k); break }] *)
Definition evict_one (m : gmap Z T) : gmap Z T * bool :=
  match map_range m with
  | [] => (m, false)
  | (k, _) :: _ => (delete k m, true)
  end.

Definition shard_Add key el s : bool * shard T :=
  let '(m, eviction) :=
    if decide (size_ s <= Z.of_nat (size (items s))) then
      match items s !! key with
      | None => evict_one (items s)
      | Some _ => (items s, false)
      end
    else (items s, false) in
  (eviction, mkShard (<[key := el]> m) (size_ s)).

Definition shard_Remove key s : shard T := mkShard (delete key (items s)) (size_ s).
Definition shard_Evict s : shard T := mkShard (evict_one (items s)).1 (size_ s).
Definition shard_Get key s : option T := items s !! key.
Definition shard_Len s : Z := Z.of_nat (size (items s)).

(** [f] sees the map and a key that was in it when the walk began; [false]
    ends the walk of this shard. *)
Fixpoint walk_keys (f : gmap Z T -> Z -> gmap Z T * bool) (keys : list Z) (m : gmap Z T) : gmap Z T :=
  match keys with
  | [] => m
  | k :: keys' => let '(m', ok) := f m k in if ok : bool then walk_keys f keys' m' else m'
  end.

Definition shard_Walk (f : gmap Z T -> Z -> gmap Z T * bool) s : shard T :=
  mkShard (walk_keys f (map_range (items s)).*1 (items s)) (size_ s).

End shard.

(** ** The cache: an array of [shardSize] shards *)

Abbreviation Cache T := (list (shard T)).

Definition New {T} (size : Z) : Cache T := replicate shardSize (newShard (Z.max (size ÷ 256) 4)).

(** [key & (shardSize - 1)] *)
Definition shard_of (key : Z) : nat := Z.to_nat (Z.land key 255).

Section cache.
Context {MO : MapOrder} {T : Type}.
Implicit Types (c : Cache T) (s : shard T) (key : Z) (el : T).

Definition Add key el c : bool * Cache T :=
  match c !! shard_of key with
  | Some s => let '(e, s') := shard_Add key el s in (e, <[shard_of key := s']> c)
  | None => (false, c)   (* not reached: the array has [shardSize] elements *)
  end.

Definition Get key c : option T := c !! shard_of key ≫= shard_Get key.

Definition Remove key c : Cache T := alter (shard_Remove key) (shard_of key) c.

Definition Len c : Z := foldl (fun l s => l + shard_Len s) 0 c.

Definition Walk (f : gmap Z T -> Z -> gmap Z T * bool) c : Cache T := shard_Walk f <$> c.

(** ** Invariant and abstraction *)

(** Every shard holds only its own keys, and no more elements than its
    limit. *)
Definition shard_wf (lim : Z) (i : nat) s : Prop :=
  size_ s = lim /\ Z.of_nat (size (items s)) <= lim /\
  forall key el, items s !! key = Some el -> shard_of key = i.

Definition cache_wf (lim : Z) c : Prop :=
  4 <= lim /\ length c = shardSize /\ forall i s, c !! i = Some s -> shard_wf lim i s.

(** The map a cache stands for. *)
Fixpoint contents c : gmap Z T :=
  match c with [] => ∅ | s :: c' => items s ∪ contents c' end.

Lemma shard_of_lt key : (shard_of key < shardSize)%nat.
Proof.
  unfold shard_of, shardSize. change 255 with (Z.ones 8). rewrite Z.land_ones by lia.
  pose proof (Z.mod_pos_bound key (2 ^ 8) ltac:(lia)). lia.
Qed.

Lemma lookup_shard lim c key : cache_wf lim c -> exists s, c !! shard_of key = Some s /\ shard_wf lim (shard_of key) s.
Proof.
  intros (_ & Hl & Hs). destruct (lookup_lt_is_Some_2 c (shard_of key)) as [s E].
  { rewrite Hl. apply shard_of_lt. }
  exists s. eauto.
Qed.

Lemma lookup_union_list_from (l : list (shard T)) i0 key :
  (forall i s, l !! i = Some s -> forall el, items s !! key = Some el -> shard_of key = (i0 + i)%nat) ->
  (i0 <= shard_of key)%nat ->
  contents l !! key = l !! (shard_of key - i0)%nat ≫= shard_Get key.
Proof.
  revert i0. induction l as [|s l IH]; intros i0 Hl Hi; simpl; [done|].
  rewrite lookup_union. destruct (decide (shard_of key = i0)) as [E|E].
  - rewrite E, Nat.sub_diag. simpl. unfold shard_Get.
    assert (contents l !! key = None) as ->; [|by destruct (items s !! key)].
    destruct (contents l !! key) as [el|] eqn:El; [|done]. exfalso.
    assert (exists i s', l !! i = Some s' /\ items s' !! key = Some el) as (i & s' & E1 & E2).
    { clear -El. induction l as [|s' l IH]; simpl in El; [by rewrite lookup_empty in El|].
      apply lookup_union_Some_raw in El as [El|[_ El]]; [by exists 0%nat, s'|].
      destruct (IH El) as (i & s'' & ? & ?). by exists (S i), s''. }
    specialize (Hl (S i) s' E1 el E2). lia.
  - destruct (shard_of key - i0)%nat as [|n] eqn:En; [lia|]. simpl.
    assert (items s !! key = None) as ->.
    { destruct (items s !! key) eqn:Es; [|done]. specialize (Hl 0%nat s eq_refl _ Es). lia. }
    rewrite (left_id_L None _). rewrite (IH (S i0)); [|intros i s' ? el ?; specialize (Hl (S i) s' ltac:(done) el ltac:(done)); lia|lia].
    by replace (shard_of key - S i0)%nat with n by lia.
Qed.

Lemma Get_contents lim c key : cache_wf lim c -> Get key c = contents c !! key.
Proof.
  intros (_ & _ & Hs). unfold Get. rewrite (lookup_union_list_from _ 0).
  - by rewrite Nat.sub_0_r.
  - intros i s Hi el He. by apply (Hs i s Hi) in He.
  - lia.
Qed.

Lemma New_wf size : cache_wf (Z.max (size ÷ 256) 4) (New size : Cache T).
Proof.
  split_and!; [lia|apply length_replicate|]. intros i s [-> _]%lookup_replicate. split_and!; simpl; [done| |].
  - rewrite map_size_empty. lia.
  - intros key el. by rewrite lookup_empty.
Qed.

(** Replacing the shard of [key] by one with the same limit. *)
Lemma insert_shard_wf lim c key s' :
  cache_wf lim c -> shard_wf lim (shard_of key) s' -> cache_wf lim (<[shard_of key := s']> c).
Proof.
  intros (Hlim & Hl & Hs) Hs'. split_and!; [done|by rewrite length_insert|].
  intros i s [(<- & <- & _)|[_ ?]]%list_lookup_insert_Some; eauto.
Qed.

Lemma insert_shard_contents lim c key s' k :
  cache_wf lim c -> shard_wf lim (shard_of key) s' ->
  contents (<[shard_of key := s']> c) !! k =
    if decide (shard_of k = shard_of key) then items s' !! k else contents c !! k.
Proof.
  intros Hc Hs'. rewrite <-(Get_contents lim c), <-(Get_contents lim (<[_ := _]> c)) by auto using insert_shard_wf.
  destruct Hc as (_ & Hl & _). unfold Get, shard_Get. case_decide as E.
  - rewrite E, list_lookup_insert_eq; [done|]. rewrite Hl. apply shard_of_lt.
  - by rewrite list_lookup_insert_ne by congruence.
Qed.

(** What an addition does to the map of its shard. *)
Definition added key el (e : bool) (m m' : gmap Z T) : Prop :=
  if e then exists k v, k <> key /\ m !! k = Some v /\ m !! key = None /\ m' = <[key := el]> (delete k m)
  else m' = <[key := el]> m.

Lemma shard_Add_spec lim key el s :
  4 <= lim -> shard_wf lim (shard_of key) s ->
  shard_wf lim (shard_of key) (shard_Add key el s).2 /\
  added key el (shard_Add key el s).1 (items s) (items (shard_Add key el s).2) /\
  ((shard_Add key el s).1 = true -> Z.of_nat (size (items s)) = lim).
Proof.
  intros Hlim (Hsz & Hb & Hk). unfold shard_Add. rewrite Hsz.
  assert (forall m, m ⊆ items s -> Z.of_nat (size (<[key := el]> m)) <= lim ->
    shard_wf lim (shard_of key) (mkShard (<[key := el]> m) lim)) as Hwf.
  { intros m Hm Hsize. split_and!; [done|done|]. intros k v. simpl.
    intros [[-> _]|[_ Hv]]%lookup_insert_Some; [done|]. eapply Hk, lookup_weaken; eauto. }
  case_decide as Hfull; [destruct (items s !! key) as [old|] eqn:Eo|]; simpl.
  - split_and!; [apply Hwf; [done|]|done|done]. rewrite map_size_insert_Some by eauto. lia.
  - unfold evict_one. destruct (map_range (items s)) as [|[k v] l] eqn:El.
    { apply (f_equal length) in El. rewrite map_range_length in El. simpl in El. lia. }
    assert (items s !! k = Some v) as Ek by (apply elem_of_map_range; rewrite El; by left).
    simpl. assert (k <> key) by congruence. split_and!.
    + apply Hwf; [apply delete_subseteq|]. rewrite map_size_insert_None by (rewrite lookup_delete_ne; done).
      rewrite map_size_delete_Some by eauto. lia.
    + exists k, v. by split_and!.
    + intros _. lia.
  - split_and!; [apply Hwf; [done|]|done|done]. rewrite map_size_insert. destruct (_ !! key); simpl; lia.
Qed.

Lemma Add_wf lim key el c : cache_wf lim c -> cache_wf lim (Add key el c).2.
Proof.
  intros Hc. destruct (lookup_shard lim c key Hc) as (s & E & Hs). unfold Add. rewrite E.
  pose proof (shard_Add_spec lim key el s (proj1 Hc) Hs) as (Hs' & _). destruct (shard_Add key el s) as [e s'].
  by apply insert_shard_wf.
Qed.

(** An addition is an insertion, after at most one eviction, and that only
    from a shard at its limit. *)
Lemma Add_contents lim key el c :
  cache_wf lim c ->
  added key el (Add key el c).1 (contents c) (contents (Add key el c).2).
Proof.
  intros Hc. destruct (lookup_shard lim c key Hc) as (s & E & Hs). unfold Add. rewrite E.
  pose proof (shard_Add_spec lim key el s (proj1 Hc) Hs) as (Hs' & Ha & _).
  assert (forall k, shard_of k = shard_of key -> contents c !! k = items s !! k) as Hin.
  { intros k Hk. rewrite <-(Get_contents lim c k Hc). unfold Get. by rewrite Hk, E. }
  destruct (shard_Add key el s) as [e s']. simpl in *. destruct e; simpl in *.
  - destruct Ha as (k & v & Hne & Hk & Hno & Hm). assert (shard_of k = shard_of key) as Ek by (by eapply Hs).
    exists k, v. split_and!; [done|by rewrite Hin|by rewrite Hin|]. apply map_eq. intros j.
    rewrite (insert_shard_contents lim) by done. case_decide as Ej.
    + rewrite Hm, !lookup_insert. case_decide; [done|]. rewrite !lookup_delete. by case_decide; [|rewrite Hin].
    + rewrite lookup_insert_ne by congruence. by rewrite lookup_delete_ne by congruence.
  - apply map_eq. intros j. rewrite (insert_shard_contents lim) by done. case_decide as Ej.
    + rewrite Ha, !lookup_insert. case_decide; [done|]. by rewrite Hin.
    + by rewrite lookup_insert_ne by congruence.
Qed.

Lemma Get_Add lim key el c k x : cache_wf lim c -> Get k (Add key el c).2 = Some x -> (k = key /\ x = el) \/ Get k c = Some x.
Proof.
  intros Hw. rewrite (Get_contents lim _ k (Add_wf lim key el c Hw)), (Get_contents lim _ k Hw).
  pose proof (Add_contents lim key el c Hw) as Ha. unfold added in Ha. destruct (Add key el c).1.
  - destruct Ha as (j & v & _ & _ & _ & ->). rewrite lookup_insert_Some, lookup_delete_Some. naive_solver.
  - rewrite Ha, lookup_insert_Some. naive_solver.
Qed.

Lemma Remove_wf_contents lim key c :
  cache_wf lim c -> cache_wf lim (Remove key c) /\ contents (Remove key c) = delete key (contents c).
Proof.
  intros Hc. destruct (lookup_shard lim c key Hc) as (s & E & Hs).
  assert (Remove key c = <[shard_of key := shard_Remove key s]> c) as ->.
  { unfold Remove. apply list_eq. intros i. rewrite list_lookup_alter, list_lookup_insert.
    destruct Hc as (_ & Hl & _). pose proof (shard_of_lt key). case_decide as Ei; [|by rewrite decide_False by naive_solver].
    subst i. rewrite decide_True by (split; [done|lia]). by rewrite E. }
  assert (shard_wf lim (shard_of key) (shard_Remove key s)) as Hs'.
  { destruct Hs as (H1 & H2 & H3). split_and!; [done| |].
    - simpl. etrans; [|exact H2]. apply inj_le, map_subseteq_size, delete_subseteq.
    - intros k v. simpl. rewrite lookup_delete_Some. naive_solver. }
  split; [by apply insert_shard_wf|]. apply map_eq. intros j.
  rewrite (insert_shard_contents lim) by done. rewrite lookup_delete. case_decide as Ej.
  - simpl. rewrite lookup_delete. case_decide; [done|]. rewrite <-(Get_contents lim c j Hc). unfold Get. by rewrite Ej, E.
  - rewrite decide_False by congruence. done.
Qed.

Lemma New_contents size : contents (New size : Cache T) = ∅.
Proof. unfold New. induction shardSize as [|n IH]; simpl; [done|]. by rewrite IH, map_empty_union. Qed.

Lemma contents_from (l : list (shard T)) i0 key el :
  (forall i s, l !! i = Some s -> forall k v, items s !! k = Some v -> shard_of k = (i0 + i)%nat) ->
  contents l !! key = Some el -> (i0 <= shard_of key)%nat.
Proof.
  revert i0. induction l as [|s l IH]; intros i0 Hl; simpl; [by rewrite lookup_empty|].
  intros [Hs|[_ Hs]]%lookup_union_Some_raw.
  - rewrite (Hl 0%nat s eq_refl _ _ Hs). lia.
  - enough (S i0 <= shard_of key)%nat by lia. apply IH; [|done].
    intros i s' Hi k v Hk. rewrite (Hl (S i) s' Hi k v Hk). lia.
Qed.

Lemma Len_contents lim c : cache_wf lim c -> Len c = Z.of_nat (size (contents c)).
Proof.
  intros (_ & _ & Hs). unfold Len.
  assert (forall i0 a, (forall i s, c !! i = Some s -> forall k v, items s !! k = Some v -> shard_of k = (i0 + i)%nat) ->
    foldl (fun l s => l + shard_Len s) a c = a + Z.of_nat (size (contents c))) as Hf.
  { clear Hs. induction c as [|s c' IH]; intros i0 a Hs; simpl; [rewrite map_size_empty; lia|].
    assert (forall i s', c' !! i = Some s' -> forall k v, items s' !! k = Some v -> shard_of k = (S i0 + i)%nat) as Hs'.
    { intros i s' Hi k v Hk. rewrite (Hs (S i) s' Hi k v Hk). lia. }
    rewrite (IH (S i0)) by done. rewrite map_size_disj_union; [unfold shard_Len; lia|].
    apply map_disjoint_spec. intros k v v' Hk Hk'. apply (contents_from _ (S i0)) in Hk'; [|done].
    rewrite (Hs 0%nat s eq_refl _ _ Hk) in Hk'. lia. }
  rewrite (Hf 0%nat); [lia|]. intros i s Hi k v Hk. by apply (Hs i s Hi) in Hk.
Qed.

Lemma Len_bound lim c : cache_wf lim c -> Len c <= 256 * lim.
Proof.
  intros (Hlim & Hl & Hs). unfold Len.
  assert (forall a, Forall (fun s => shard_Len s <= lim) c ->
    foldl (fun l s => l + shard_Len s) a c <= a + Z.of_nat (length c) * lim) as Hf.
  { clear Hl Hs. induction c as [|s c' IH]; intros a HF; simpl; [lia|].
    apply Forall_cons in HF as [H1 HF]. etrans; [apply IH, HF|]. lia. }
  etrans; [apply Hf|].
  - apply Forall_lookup. intros i s Hi. apply (Hs i s Hi).
  - rewrite Hl. unfold shardSize. lia.
Qed.

End cache.

(** ** FNV keeps apart what differs in a prefix of equal length *)

Lemma fnv_step_inj b h h' :
  0 <= h < 2 ^ 64 -> 0 <= h' < 2 ^ 64 -> fnv_step h b = fnv_step h' b -> h = h'.
Proof.
  intros Hh Hh' E. unfold fnv_step in E.
  assert (u64 (h * fnv_prime) = u64 (h' * fnv_prime)) as Em.
  { apply (f_equal (fun x => Z.lxor x b)) in E. by rewrite !Z.lxor_assoc, Z.lxor_nilpotent, !Z.lxor_0_r in E. }
  unfold u64 in Em. apply (f_equal (fun x => (x * 14886173955864302971) mod 2 ^ 64)) in Em.
  rewrite !Z.mul_mod_idemp_l, <-!Z.mul_assoc in Em by lia.
  replace (fnv_prime * 14886173955864302971) with (1 + 887285111055 * 2 ^ 64) in Em by (vm_compute; reflexivity).
  rewrite !Z.mul_add_distr_l, !Z.mul_1_r, !Z.mul_assoc, !Z.mod_add, !Z.mod_small in Em by lia. done.
Qed.

(** C40. The sharded cache implements a bounded map that may forget.  A new
    cache is empty; [Get], [Remove] and [Len] are lookup, deletion and size;
    [Add] inserts, reporting an eviction exactly when one other element was
    dropped to make room, and it never drops one to overwrite a present key;
    and no more than 256 times the shard limit are ever held. *)
Theorem shard_cache_refines {MO : MapOrder} {T} size (c : Cache T) lim key el :
  cache_wf lim c ->
  (cache_wf (Z.max (size ÷ 256) 4) (New size : Cache T) /\ contents (New size : Cache T) = ∅) /\
  Get key c = contents c !! key /\
  (cache_wf lim (Add key el c).2 /\ added key el (Add key el c).1 (contents c) (contents (Add key el c).2)) /\
  (cache_wf lim (Remove key c) /\ contents (Remove key c) = delete key (contents c)) /\
  Len c = Z.of_nat (base.size (contents c)) /\ Len c <= 256 * lim.
Proof.
  intros Hc. split_and!.
  - apply New_wf.
  - apply New_contents.
  - by eapply Get_contents.
  - by apply Add_wf.
  - by eapply Add_contents.
  - by eapply Remove_wf_contents.
  - by eapply Remove_wf_contents.
  - by eapply Len_contents.
  - by apply Len_bound.
Qed.

Lemma shard_cache_refines_witness :
  let c := (Add (MO := list_order) 7 "a"%string (New 0)).2 in
  Get 7 c = contents c !! 7 /\ Get 7 c = Some "a"%string /\ Len c <= 256 * 4.
Proof.
  intros c. assert (cache_wf 4 c) as Hc.
  { apply (Add_wf (MO := list_order)). apply (New_wf (T := string) 0). }
  destruct (shard_cache_refines (MO := list_order) 0 c 4 7 "b"%string Hc) as (_ & H1 & _ & _ & _ & H2).
  split_and!; [exact H1|vm_compute; reflexivity|exact H2].
Defined.
