(* ===== verification/CachePlugin.v ===== *)
(** * The cache plugin (plugin/cache)

    Items, the writer that stores replies, and the handler that serves from
    the positive and negative caches, with stale serving, verification of
    stale entries and prefetching.  Items are shared between the caches and
    the goroutines that refresh them, so a cache maps keys to locations of a
    heap.  A goroutine is a job of the state until it is run. *)

From Stdlib Require Import Ascii ZArith Lia SpecFloat.
From stdpp Require Import base numbers gmap strings list.
From S2P Require Import Prelude DnsTypes DnsLib Ip Store StoreFacts Serve Typify ShardCache.

Local Open Scope Z_scope.

(** ** Frequencies (plugin/cache/freq); [None] is the zero time *)

Record Freq := mkFreq { last : option Z; hits : Z }.

Definition freq_Update (d now : Z) (f : Freq) : Freq :=
  let earliest := now - d in
  if match last f with None => true | Some l => bool_decide (l < earliest) end
  then mkFreq (Some now) 1
  else mkFreq (Some now) (hits f + 1).

Definition Hits (f : Freq) : Z := hits f.
Definition freq_Reset (t h : Z) (f : Freq) : Freq := mkFreq (Some t) h.

(** ** Items *)

Record item := mkItem {
  i_Name : string;
  i_QType : Z;
  i_Rcode : Z;
  i_AuthenticatedData : bool;
  i_RecursionAvailable : bool;
  i_Answer : list RR;
  i_Ns : list RR;
  i_Extra : list RR;
  i_wildcard : string;
  i_origTTL : Z;
  i_stored : Z;
  i_Freq : Freq;
  i_refreshing : bool }.

Definition not_opt (r : RR) : Prop := rr_type r <> TypeOPT.
#[export] Instance not_opt_dec r : Decision (not_opt r).
Proof. unfold not_opt. apply _. Defined.

Definition filterRRSlice (rrs : list RR) (ttl : Z) : list RR := set_ttl ttl <$> filter not_opt rrs.

Definition newItem (m : Msg) (now d : Z) (wildcard : string) : item :=
  mkItem (match Question m with q :: _ => QName q | [] => EmptyString end)
    (match Question m with q :: _ => Qtype q | [] => 0 end)
    (Rcode m) (AuthenticatedData m) (RecursionAvailable m) (Answer m) (Ns_ m) (filter not_opt (Extra m))
    wildcard (u32 (seconds d)) now (mkFreq None 0) false.

Definition ttl_ (i : item) (now : Z) : Z := i_origTTL i - seconds (now - i_stored i).

Definition set_freq (f : Freq) (i : item) : item :=
  mkItem (i_Name i) (i_QType i) (i_Rcode i) (i_AuthenticatedData i) (i_RecursionAvailable i) (i_Answer i)
    (i_Ns i) (i_Extra i) (i_wildcard i) (i_origTTL i) (i_stored i) f (i_refreshing i).
Definition set_refreshing (b : bool) (i : item) : item :=
  mkItem (i_Name i) (i_QType i) (i_Rcode i) (i_AuthenticatedData i) (i_RecursionAvailable i) (i_Answer i)
    (i_Ns i) (i_Extra i) (i_wildcard i) (i_origTTL i) (i_stored i) (i_Freq i) b.

(** ** Keys *)

Definition flag (b : bool) : Z := if b then 49 else 48.

(** The bytes hashed: two flags, the type in network order, the name. *)
Definition hash (qname : string) (qtype : Z) (do cd : bool) : Z :=
  Hash ([flag do; flag cd; u8 (Z.shiftr qtype 8); u8 qtype] ++ bytes qname).

(** [None]: not stored.  The index of the question can panic. *)
Definition key (qname : string) (m : Msg) (t : mtype) (do cd : bool) : result go_fault (option Z) :=
  if Truncated m then Ok None
  else if decide (t = OtherError \/ t = Meta \/ t = Update) then Ok None
  else match Question m with
       | [] => Err IndexOutOfRange
       | q :: _ => Ok (Some (hash qname (Qtype q) do cd))
       end.

Definition computeTTL (msgTTL minTTL maxTTL : Z) : Z := Z.min (Z.max msgTTL minTTL) maxTTL.

(** ** State *)

Record Cache_ := mkCache_ {
  Zones : list string;
  nttl : Z;
  minnttl : Z;
  pttl : Z;
  minpttl : Z;
  failttl : Z;
  prefetch : Z;
  duration : Z;
  percentage : Z;
  staleUpTo : Z;
  verifyStale : bool;
  verifyStaleTimeout : Z;
  pexcept : list string;
  nexcept : list string;
  keepttl : bool }.

Definition NewCache : Cache_ :=
  mkCache_ ["."] (MaximumDefaultTTL ÷ 2) MinimalDefaultTTL MaximumDefaultTTL MinimalDefaultTTL MinimalDefaultTTL
    0 (60 * Second) 10 0 false 0 [] [] false.

Record ResponseWriter := mkWriter {
  rw_state : Msg;
  rw_do : bool;
  rw_cd : bool;
  rw_ad : bool;
  rw_prefetch : bool;
  rw_wildcard : bool;           (* [wildcardFunc] is set *)
  rw_pexcept : list string;
  rw_nexcept : list string }.

(** A goroutine: a prefetch of the item at a location, started at a time, or
    a verification that outlived its timeout. *)
Inductive job : Type :=
| JPrefetch (i : nat) (cw : ResponseWriter) (now : Z)
| JVerify (cw : ResponseWriter).

Record CacheState := mkState {
  ncache : Cache nat;
  pcache : Cache nat;
  heap : gmap nat item;
  jobs : list job }.

Definition set_heap (h : gmap nat item) (st : CacheState) : CacheState :=
  mkState (ncache st) (pcache st) h (jobs st).
Definition set_jobs (j : list job) (st : CacheState) : CacheState :=
  mkState (ncache st) (pcache st) (heap st) j.

(** What the next plugin does with a request: the outcome of its [ServeDNS],
    and the value of the metadata [zone/wildcard] when it writes. *)
Record Upstream := mkUpstream { up_served : Served; up_wildcard : string }.

(** The clock readings of one call, in the order they are taken. *)
Record Clock := mkClock { c_now : Z; c_write : Z; c_item : Z; c_verify : Z }.

(** [plugin.NextOrFailure] on an upstream. *)
Definition doRefresh (next : option (Msg -> Upstream)) (r : Msg) : Upstream :=
  match next with
  | Some h => h r
  | None => mkUpstream (mkServed RcodeServerFailure None true) EmptyString
  end.

Section plugin.
Context {L : DnsLib} {N : DnsNames} {MO : MapOrder} (c : Cache_).

(** ** Storing *)

Definition write_duration (res : Msg) (mt : mtype) : Z :=
  match mt with
  | NameError | NoData => computeTTL (MinimalTTL res mt) (minnttl c) (nttl c)
  | ServerError => failttl c
  | _ => computeTTL (MinimalTTL res mt) (minpttl c) (pttl c)
  end.

(** The reply with its TTLs capped and, for a client that did not ask for
    it, the AD bit cleared. *)
Definition capped (w : ResponseWriter) (res : Msg) (ttl : Z) : Msg :=
  mkMsg (Id res) (Response res) (Opcode res) (Authoritative res) (Truncated res) (RecursionDesired res)
    (RecursionAvailable res)
    (if negb (rw_do w) && negb (rw_ad w) then false else AuthenticatedData res)
    (CheckingDisabled res) (Rcode res) (Question res)
    (filterRRSlice (Answer res) ttl) (filterRRSlice (Ns_ res) ttl) (filterRRSlice (Extra res) ttl).

(** A new item on the heap. *)
Definition alloc (i : item) (st : CacheState) : nat * CacheState :=
  let l := fresh (dom (heap st) : gset nat) in
  (l, set_heap (<[l := i]> (heap st)) st).

Definition question_name (m : Msg) : string :=
  match Question m with q :: _ => QName q | [] => EmptyString end.

Definition set (w : ResponseWriter) (m : Msg) (k : Z) (mt : mtype) (d : Z) (wild : string) (now : Z)
  (st : CacheState) : CacheState :=
  let i := newItem m now d (if rw_wildcard w then wild else EmptyString) in
  match mt with
  | NoError | Delegation =>
      if decide (Matches (rw_pexcept w) (question_name m) <> EmptyString) then st
      else
        let '(l, st) := alloc i st in
        let nc := if rw_prefetch w then Remove k (ncache st) else ncache st in
        mkState nc (Add k l (pcache st)).2 (heap st) (jobs st)
  | NameError | NoData | ServerError =>
      if decide (Matches (rw_nexcept w) (question_name m) <> EmptyString) then st
      else
        let '(l, st) := alloc i st in
        mkState (Add k l (ncache st)).2 (pcache st) (heap st) (jobs st)
  | _ => st
  end.

(** [WriteMsg]: the message for the client, if any, and the new state. *)
Definition WriteMsg (w : ResponseWriter) (res : Msg) (wild : string) (clk : Clock) (st : CacheState)
  : result go_fault (option Msg * CacheState) :=
  let mt := (Typify (Some res) (c_write clk)).1 in
  k ← key (Name_ (rw_state w)) res mt (rw_do w) (rw_cd w);
  let d := write_duration res mt in
  let res' := capped w res (u32 (seconds d)) in
  let st' := match k with
             | Some k => if bool_decide (0 < d) && Match_ (rw_state w) res'
                         then set w res' k mt d wild (c_item clk) st else st
             | None => st
             end in
  Ok (if rw_prefetch w then None else Some res', st').

(** A refresh through the plain writer. *)
Definition refresh (w : ResponseWriter) (up : Upstream) (clk : Clock) (st : CacheState)
  : result go_fault (Served * CacheState) :=
  match written (up_served up) with
  | None => Ok (up_served up, st)
  | Some m =>
      '(client, st) ← WriteMsg w m (up_wildcard up) clk st;
      Ok (mkServed (rcode (up_served up)) client (failed (up_served up)), st)
  end.

(** A refresh through [verifyStaleResponseWriter]: also whether the entry was
    refreshed. *)
Definition refresh_verify (w : ResponseWriter) (up : Upstream) (clk : Clock) (st : CacheState)
  : result go_fault (bool * Served * CacheState) :=
  match written (up_served up) with
  | Some m =>
      if decide (Rcode m = RcodeSuccess \/ Rcode m = RcodeNameError) then
        '(s, st) ← refresh w up clk st;
        Ok (true, s, st)
      else Ok (false, mkServed (rcode (up_served up)) None (failed (up_served up)), st)
  | None => Ok (false, up_served up, st)
  end.

(** ** Looking up *)

Definition matches (i : item) (r : Msg) : bool :=
  if decide (QType_ r = i_QType i) then EqualFold (QName_ r) (i_Name i) else false.

(** Usable now: in its lifetime, or within the window for stale answers. *)
Definition usable (i : item) (r : Msg) (now : Z) : bool :=
  let t := ttl_ i now in
  matches i r &&
  (bool_decide (0 < t) || (bool_decide (0 < staleUpTo c) && bool_decide (- t < seconds (staleUpTo c)))).

Definition get_item (k : Z) (cache : Cache nat) (st : CacheState) : option (nat * item) :=
  l ← Get k cache; i ← heap st !! l; Some (l, i).

Definition getIfNotStale (now : Z) (r : Msg) (st : CacheState) : option (nat * item) :=
  let k := hash (Name_ r) (QType_ r) (Do r) (CheckingDisabled r) in
  let positive := match get_item k (pcache st) st with
                  | Some (l, p) => if usable p r now then Some (l, p) else None
                  | None => None
                  end in
  match get_item k (ncache st) st with
  | Some (l, i) =>
      if usable i r now then
        if decide (i_Rcode i = RcodeServerFailure)
        then match positive with Some p => Some p | None => Some (l, i) end
        else Some (l, i)
      else positive
  | None => positive
  end.

Definition exists_ (name : string) (qtype : Z) (do cd : bool) (st : CacheState) : option (nat * item) :=
  let k := hash name qtype do cd in
  match get_item k (ncache st) st with
  | Some i => Some i
  | None => get_item k (pcache st) st
  end.

Definition toMsg (i : item) (m : Msg) (now : Z) (do ad : bool) : Msg :=
  let m1 := SetReply m in
  let ttl := u32 (ttl_ i now) in
  mkMsg (Id m1) (Response m1) (Opcode m1) true (Truncated m1) (RecursionDesired m1) (i_RecursionAvailable i)
    (if negb do && negb ad then false else i_AuthenticatedData i) (CheckingDisabled m1) (i_Rcode i) (Question m1)
    (filterRRSlice (i_Answer i) ttl) (filterRRSlice (i_Ns i) ttl) (filterRRSlice (i_Extra i) ttl).

(** ** Prefetching *)

(** [int(math.Ceil(float64(percentage) / 100 * float64(origTTL)))], in
    IEEE-754 double precision. *)
Definition f64 (z : Z) : spec_float := binary_normalize 53 1024 z 0 false.
Definition ceil (f : spec_float) : Z :=
  match f with
  | S754_finite s m e =>
      let v := if s then Z.neg m else Z.pos m in
      if decide (0 <= e) then v * 2 ^ e else - ((- v) / 2 ^ (- e))
  | _ => 0
  end.
Definition threshold (i : item) : Z :=
  ceil (SFmul 53 1024 (SFdiv 53 1024 (f64 (percentage c)) (f64 100)) (f64 (i_origTTL i))).

Definition update_item (l : nat) (f : item -> item) (st : CacheState) : CacheState :=
  set_heap (alter f l (heap st)) st.

(** The decision, and the frequency it has counted. *)
Definition shouldPrefetch (l : nat) (now : Z) (st : CacheState) : bool * CacheState :=
  if decide (prefetch c <= 0) then (false, st)
  else match heap st !! l with
       | None => (false, st)
       | Some i =>
           let i' := set_freq (freq_Update (duration c) now (i_Freq i)) i in
           (bool_decide (prefetch c <= Hits (i_Freq i')) && bool_decide (ttl_ i' now <= threshold i'),
            update_item l (fun _ => i') st)
       end.

Definition newPrefetchResponseWriter (req : Msg) (do cd : bool) : ResponseWriter :=
  mkWriter req do cd false true false [] [].

(** The compare-and-swap on [refreshing], and the goroutine. *)
Definition tryPrefetch (l : nat) (req : Msg) (do cd : bool) (now : Z) (st : CacheState) : CacheState :=
  match heap st !! l with
  | Some i =>
      if i_refreshing i then st
      else set_jobs (jobs st ++ [JPrefetch l (newPrefetchResponseWriter req do cd) now])
             (update_item l (set_refreshing true) st)
  | None => st
  end.

(** ** The handler *)

(** [verifyWithTimeout]: [timely] says that the refresh is done before the
    timer fires; otherwise it goes on in the background.  [cerr] is the error
    of writing to the client. *)
Definition verifyWithTimeout (next : option (Msg -> Upstream)) (timely cerr : bool) (cw : ResponseWriter) (r : Msg)
  (do ad : bool) (clk : Clock) (st : CacheState) : result go_fault (option Served * CacheState) :=
  if negb timely then Ok (None, set_jobs (jobs st ++ [JVerify cw]) st)
  else
    '(refreshed, s, st) ← refresh_verify cw (doRefresh next r) clk st;
    if negb refreshed then Ok (None, st)
    else match exists_ (Name_ r) (QType_ r) (Do r) (CheckingDisabled r) st with
         | None => Ok (Some (mkServed (rcode s) None (failed s)), st)
         | Some (_, fresh) =>
             let now := if keepttl c then i_stored fresh else c_verify clk in
             let resp := toMsg fresh r now do ad in
             if cerr : bool then Ok (Some (mkServed RcodeServerFailure None true), st)
             else Ok (Some (mkServed RcodeSuccess (Some resp) false), st)
         end.

(** Answer with an item. *)
Definition serve_item (i : item) (r : Msg) (now : Z) (st : CacheState) : Served * CacheState :=
  let now := if keepttl c then i_stored i else now in
  (mkServed RcodeSuccess (Some (toMsg i r now (Do r) (AuthenticatedData r))) false, st).

(** A stale item: verified first, if so configured, and served otherwise. *)
Definition serve_stale (next : option (Msg -> Upstream)) (timely cerr : bool) (l : nat) (i : item) (r : Msg)
  (clk : Clock) (st : CacheState) : result go_fault (Served * CacheState) :=
  let do := Do r in
  let cd := CheckingDisabled r in
  let now := c_now clk + ttl_ i (c_now clk) * Second in
  if verifyStale c then
    let crr := mkWriter r do cd false (bool_decide (0 < verifyStaleTimeout c)) false [] [] in
    if decide (verifyStaleTimeout c = 0) then
      '(refreshed, s, st) ← refresh_verify crr (doRefresh next r) clk st;
      if refreshed : bool then Ok (s, st) else Ok (serve_item i r now st)
    else
      '(served, st) ← verifyWithTimeout next timely cerr crr r do (AuthenticatedData r) clk st;
      match served with
      | Some s => Ok (s, st)
      | None => Ok (serve_item i r now st)
      end
  else Ok (serve_item i r now (tryPrefetch l r do cd now st)).

Definition ServeDNS (next : option (Msg -> Upstream)) (timely cerr : bool) (clk : Clock) (r : Msg) (st : CacheState)
  : result go_fault (Served * CacheState) :=
  let do := Do r in
  let cd := CheckingDisabled r in
  if decide (Matches (Zones c) (Name_ r) = EmptyString) then Ok (up_served (doRefresh next r), st)
  else match getIfNotStale (c_now clk) r st with
       | None =>
           refresh (mkWriter r do cd (AuthenticatedData r) false true (pexcept c) (nexcept c)) (doRefresh next r) clk st
       | Some (l, i) =>
           if decide (ttl_ i (c_now clk) < 0) then serve_stale next timely cerr l i r clk st
           else
             let '(yes, st) := shouldPrefetch l (c_now clk) st in
             let st := if yes : bool then tryPrefetch l r do cd (c_now clk) st else st in
             Ok (serve_item i r (c_now clk) st)
       end.

(** ** The goroutines *)

(** The end of [doPrefetch] and the deferred reset of the flag: carry the
    hits over to the item now cached, clear the flag; the goroutine ends. *)
Definition finish_prefetch (n l : nat) (cw : ResponseWriter) (now : Z) (st : CacheState) : CacheState :=
  let r := rw_state cw in
  let h := match heap st !! l with Some i => Hits (i_Freq i) | None => 0 end in
  let st := match exists_ (Name_ r) (QType_ r) (rw_do cw) (rw_cd cw) st with
            | Some (l1, _) => update_item l1 (fun i => set_freq (freq_Reset now h (i_Freq i)) i) st
            | None => st
            end in
  set_jobs (delete n (jobs st)) (update_item l (set_refreshing false) st).

Definition doPrefetch (next : option (Msg -> Upstream)) (n l : nat) (cw : ResponseWriter) (now : Z) (clk : Clock)
  (st : CacheState) : result go_fault CacheState :=
  '(_, st) ← refresh cw (doRefresh next (rw_state cw)) clk st;
  Ok (finish_prefetch n l cw now st).

(** Run the goroutine at position [n]. *)
Definition run_job (next : option (Msg -> Upstream)) (n : nat) (clk : Clock) (st : CacheState)
  : result go_fault CacheState :=
  match jobs st !! n with
  | None => Ok st
  | Some (JPrefetch l cw now) => doPrefetch next n l cw now clk st
  | Some (JVerify cw) =>
      '(_, _, st) ← refresh_verify cw (doRefresh next (rw_state cw)) clk st;
      Ok (set_jobs (delete n (jobs st)) st)
  end.

(** ** The plugin as a transition system

    Every access to the shared state is one step; a step that stores a reply
    carries it as its label.  [good_writer] holds of every writer the code
    makes: its flags are those of its request. *)

Record event := mkEvent { ev_writer : ResponseWriter; ev_msg : Msg; ev_wild : string; ev_clk : Clock }.

Definition good_writer (w : ResponseWriter) : Prop :=
  rw_do w = Do (rw_state w) /\ rw_cd w = CheckingDisabled (rw_state w).

Inductive cstep : CacheState -> option event -> CacheState -> Prop :=
| step_write w m wild clk client st st' :
    good_writer w -> WriteMsg w m wild clk st = Ok (client, st') ->
    cstep st (Some (mkEvent w m wild clk)) st'
| step_count l now yes st st' : shouldPrefetch l now st = (yes, st') -> cstep st None st'
| step_try l r now st : cstep st None (tryPrefetch l r (Do r) (CheckingDisabled r) now st)
| step_verify w st : good_writer w -> cstep st None (set_jobs (jobs st ++ [JVerify w]) st)
| step_finish n l cw now st :
    jobs st !! n = Some (JPrefetch l cw now) -> cstep st None (finish_prefetch n l cw now st)
| step_verified n cw st :
    jobs st !! n = Some (JVerify cw) -> cstep st None (set_jobs (delete n (jobs st)) st).

(** The states reached from the empty caches, with the replies stored. *)
Inductive creach (ncap pcap : Z) : list event -> CacheState -> Prop :=
| creach_init : creach ncap pcap [] (mkState (New ncap) (New pcap) ∅ [])
| creach_step log st e st' :
    creach ncap pcap log st -> cstep st e st' -> creach ncap pcap (log ++ option_list e) st'.

End plugin.
