(* ===== verification/CacheFacts.v ===== *)
(** * Properties of the cache plugin

    The key keeps questions with different flags apart, every cached item is
    the trace of a stored reply, and so a hit answers with what was received
    for the same question and flags, unless a stale entry is verified first;
    at most one prefetch runs per item. *)

From Stdlib Require Import Ascii ZArith Lia SpecFloat.
From stdpp Require Import base numbers gmap strings list.
From S2P Require Import Prelude DnsTypes DnsLib Serve Typify ShardCache CachePlugin.

Local Open Scope Z_scope.

(** ** Keys *)

Lemma lxor_range n a b : 0 <= n -> 0 <= a < 2 ^ n -> 0 <= b < 2 ^ n -> 0 <= Z.lxor a b < 2 ^ n.
Proof.
  intros Hn Ha Hb. assert (0 <= Z.lxor a b) as H0 by (apply Z.lxor_nonneg; lia). split; [done|].
  destruct (decide (Z.lxor a b = 0)) as [->|Hne]; [lia|]. apply Z.log2_lt_pow2; [lia|].
  pose proof (Z.log2_lxor a b ltac:(lia) ltac:(lia)) as Hl.
  assert (forall x, 0 <= x < 2 ^ n -> Z.log2 x < n \/ x = 0) as Hx.
  { intros x Hx. destruct (decide (x = 0)); [by right|left]. apply Z.log2_lt_pow2; lia. }
  destruct (Hx a Ha) as [?|E1], (Hx b Hb) as [?|E2].
  - lia.
  - subst b. change (Z.log2 0) with 0 in Hl. pose proof (Z.log2_nonneg a). lia.
  - subst a. change (Z.log2 0) with 0 in Hl. pose proof (Z.log2_nonneg b). lia.
  - exfalso. apply Hne. by rewrite E1, E2.
Qed.

Definition is_byte (b : Z) : Prop := 0 <= b < 256.

Lemma fnv_step_range h b : is_byte b -> 0 <= fnv_step h b < 2 ^ 64.
Proof.
  unfold is_byte. intros Hb. apply lxor_range; [lia|unfold u64; apply Z.mod_pos_bound; lia|lia].
Qed.

Lemma fnv_write_inj l h h' :
  Forall is_byte l -> 0 <= h < 2 ^ 64 -> 0 <= h' < 2 ^ 64 -> fnv_write h l = fnv_write h' l -> h = h'.
Proof.
  unfold fnv_write. intros Hl. revert h h'. induction Hl as [|b l Hb Hl IH]; intros h h' Hh Hh'; simpl; [done|].
  intros E. apply IH in E; auto using fnv_step_range. by apply fnv_step_inj in E.
Qed.

Lemma bytes_byte s : Forall is_byte (bytes s).
Proof.
  induction s as [|a s IH]; simpl; constructor; [|done]. unfold is_byte, byte_of.
  pose proof (nat_ascii_bounded a). lia.
Qed.

(** The keys of one question under different flags differ. *)
Lemma hash_flags n t do cd do' cd' : hash n t do cd = hash n t do' cd' -> do = do' /\ cd = cd'.
Proof.
  unfold hash, Hash, fnv_write. change ([flag do; flag cd; ?x; ?y] ++ ?l) with ([flag do; flag cd] ++ x :: y :: l).
  change ([flag do'; flag cd'; ?x; ?y] ++ ?l) with ([flag do'; flag cd'] ++ x :: y :: l).
  rewrite !foldl_app. intros E. apply fnv_write_inj in E.
  - revert E. destruct do, cd, do', cd'; vm_compute; intros; split; congruence.
  - assert (forall z, is_byte (u8 z)) as Hu by (intros; unfold is_byte, u8; apply Z.mod_pos_bound; lia).
    do 2 (constructor; [apply Hu|]). apply bytes_byte.
  - destruct do, cd; vm_compute; split; congruence.
  - destruct do', cd'; vm_compute; split; congruence.
Qed.

(** ** The invariant *)

Section facts.
Context {L : DnsLib} {N : DnsNames} {MO : MapOrder} (c : Cache_).

(** The class, lifetime and stored form of a reply. *)
Definition ev_type (e : event) : mtype := (Typify (Some (ev_msg e)) (c_write (ev_clk e))).1.
Definition ev_duration (e : event) : Z := write_duration c (ev_msg e) (ev_type e).
Definition lifetime (e : event) : Z := u32 (seconds (ev_duration e)).

(** [i] is the item of [e], but for its frequency and flag. *)
Definition made_by (e : event) (i : item) : Prop :=
  exists wild f b, i = set_refreshing b (set_freq f
    (newItem (capped (ev_writer e) (ev_msg e) (lifetime e)) (c_item (ev_clk e)) (ev_duration e) wild)).

(** The reply was accepted for key [k]. *)
Definition stored_as (e : event) (k : Z) : Prop :=
  let w := ev_writer e in
  good_writer w /\ key (Name_ (rw_state w)) (ev_msg e) (ev_type e) (rw_do w) (rw_cd w) = Ok (Some k) /\
  Match_ (rw_state w) (capped w (ev_msg e) (lifetime e)) = true.

Definition entry_ok (log : list event) (h : gmap nat item) (k : Z) (l : nat) : Prop :=
  exists i e, h !! l = Some i /\ e ∈ log /\ made_by e i /\ stored_as e k.

(** The number of prefetches of the item at [l]. *)
Definition is_prefetch_of (l : nat) (j : job) : Prop :=
  match j with JPrefetch l' _ _ => l' = l | JVerify _ => False end.
#[global] Instance is_prefetch_of_dec l j : Decision (is_prefetch_of l j).
Proof. destruct j; simpl; apply _. Defined.
Definition prefetches (l : nat) (st : CacheState) : nat := length (filter (is_prefetch_of l) (jobs st)).

Record cache_inv (nlim plim : Z) (log : list event) (st : CacheState) : Prop := {
  inv_n : cache_wf nlim (ncache st);
  inv_p : cache_wf plim (pcache st);
  inv_nk : forall k l, Get k (ncache st) = Some l -> entry_ok log (heap st) k l;
  inv_pk : forall k l, Get k (pcache st) = Some l -> entry_ok log (heap st) k l;
  inv_jobs : forall l, prefetches l st = match heap st !! l with
                                       | Some i => if i_refreshing i then 1%nat else 0%nat
                                       | None => 0%nat
                                       end }.

Lemma entry_ok_weaken log log' h k l : entry_ok log h k l -> entry_ok (log ++ log') h k l.
Proof. intros (i & e & ? & ? & ? & ?). exists i, e. split_and!; [done|apply elem_of_app; by left|done..]. Qed.

(** Changing frequency or flag of an item keeps the entries. *)
Lemma entry_ok_alter log h k l l1 f :
  (forall i e, made_by e i -> made_by e (f i)) ->
  entry_ok log h k l -> entry_ok log (alter f l1 h) k l.
Proof.
  intros Hf (i & e & Hl & He & Hm & Hs). destruct (decide (l1 = l)) as [->|Hne].
  - exists (f i), e. rewrite lookup_alter_eq, Hl. split_and!; eauto.
  - exists i, e. rewrite lookup_alter_ne by done. eauto.
Qed.

Lemma made_by_freq g i e : made_by e i -> made_by e (set_freq g i).
Proof. intros (wild & f & b & ->). by exists wild, g, b. Qed.
Lemma made_by_refreshing b' i e : made_by e i -> made_by e (set_refreshing b' i).
Proof. intros (wild & f & b & ->). by exists wild, f, b'. Qed.

Lemma Get_Remove lim k (c0 : Cache nat) k' l' :
  cache_wf lim c0 -> Get k' (Remove k c0) = Some l' -> Get k' c0 = Some l'.
Proof.
  intros Hc. destruct (Remove_wf_contents lim k c0 Hc) as [Hw E].
  rewrite (Get_contents lim _ k' Hw), (Get_contents lim _ k' Hc), E, lookup_delete_Some. naive_solver.
Qed.

Lemma cache_inv_weaken nlim plim log log' st : cache_inv nlim plim log st -> cache_inv nlim plim (log ++ log') st.
Proof. intros []. split; eauto using entry_ok_weaken. Qed.

(** An item is added to the heap at a new location. *)
Lemma entry_ok_alloc log st i k l :
  entry_ok log (heap st) k l -> entry_ok log (heap (alloc i st).2) k l.
Proof.
  intros (j & e & Hl & Hr). exists j, e. split; [|done]. simpl. rewrite lookup_insert_ne; [done|].
  intros E. pose proof (is_fresh (dom (heap st) : gset nat)) as Hf. rewrite E in Hf.
  apply Hf. apply elem_of_dom. eauto.
Qed.

Lemma alloc_jobs st i l :
  i_refreshing i = false ->
  (forall l, prefetches l st = match heap st !! l with Some i => if i_refreshing i then 1%nat else 0%nat | None => 0%nat end) ->
  prefetches l st = match heap (alloc i st).2 !! l with
                    | Some i => if i_refreshing i then 1%nat else 0%nat | None => 0%nat end.
Proof.
  intros Hi Hj. simpl. rewrite Hj, lookup_insert. case_decide as E; [|done].
  rewrite <-E, Hi. by rewrite (not_elem_of_dom_1 (D := gset nat)) by apply is_fresh.
Qed.

Lemma set_inv nlim plim log st e k wild :
  cache_inv nlim plim log st -> stored_as e k ->
  cache_inv nlim plim (log ++ [e])
    (set (ev_writer e) (capped (ev_writer e) (ev_msg e) (lifetime e)) k (ev_type e) (ev_duration e) wild
       (c_item (ev_clk e)) st).
Proof.
  intros HI Hs. pose proof HI as HI0. apply (cache_inv_weaken _ _ _ [e]) in HI. destruct HI as [Hn Hp Hnk Hpk Hj].
  unfold set. set (i := newItem _ _ _ _).
  assert (entry_ok (log ++ [e]) (heap (alloc i st).2) k (alloc i st).1) as Hnew.
  { exists i, e. simpl. rewrite lookup_insert_eq. split_and!; [done|apply elem_of_app; right; by left| |done].
    by exists (if rw_wildcard (ev_writer e) then wild else EmptyString), (mkFreq None 0), false. }
  assert (forall k l, Get k (ncache st) = Some l -> entry_ok (log ++ [e]) (heap (alloc i st).2) k l) as Hnk'.
  { intros. by apply entry_ok_alloc, Hnk. }
  assert (forall k l, Get k (pcache st) = Some l -> entry_ok (log ++ [e]) (heap (alloc i st).2) k l) as Hpk'.
  { intros. by apply entry_ok_alloc, Hpk. }
  assert (forall l, prefetches l st = match heap (alloc i st).2 !! l with
    | Some i => if i_refreshing i then 1%nat else 0%nat | None => 0%nat end) as Hj'.
  { intros l. by apply alloc_jobs. }
  assert (cache_inv nlim plim (log ++ [e])
    (mkState (Add k (alloc i st).1 (ncache st)).2 (pcache st) (heap (alloc i st).2) (jobs st))) as Hneg.
  { split; simpl; [by apply Add_wf|done| |exact Hpk'|exact Hj'].
    intros k' l' [[-> ->]|?]%(Get_Add nlim); [exact Hnew|by apply Hnk'|done]. }
  assert (forall nc, cache_wf nlim nc -> (forall k l, Get k nc = Some l -> Get k (ncache st) = Some l) ->
    cache_inv nlim plim (log ++ [e])
      (mkState nc (Add k (alloc i st).1 (pcache st)).2 (heap (alloc i st).2) (jobs st))) as Hpos.
  { intros nc Hnc Hsub. split; simpl; [done|by apply Add_wf|intros; by apply Hnk', Hsub| |exact Hj'].
    intros k' l' [[-> ->]|?]%(Get_Add plim); [exact Hnew|by apply Hpk'|done]. }
  assert (forall b : bool, cache_inv nlim plim (log ++ [e])
    (mkState (if b then Remove k (ncache st) else ncache st) (Add k (alloc i st).1 (pcache st)).2
       (heap (alloc i st).2) (jobs st))) as Hpos'.
  { intros []; apply Hpos; [by apply Remove_wf_contents|by intros ? ?; apply (Get_Remove nlim)|done|done]. }
  destruct (ev_type e); try (by apply cache_inv_weaken); case_decide;
    first [by apply cache_inv_weaken | exact Hneg | exact (Hpos' (rw_prefetch (ev_writer e)))].
Qed.

Lemma WriteMsg_inv nlim plim log st e client st' :
  cache_inv nlim plim log st -> good_writer (ev_writer e) ->
  WriteMsg c (ev_writer e) (ev_msg e) (ev_wild e) (ev_clk e) st = Ok (client, st') ->
  cache_inv nlim plim (log ++ [e]) st'.
Proof.
  intros HI Hw. unfold WriteMsg. fold (ev_type e). fold (ev_duration e). fold (lifetime e).
  intros (k & Hk & E)%bind_ok_inv. injection E as _ <-.
  destruct k as [k|]; [|by apply cache_inv_weaken].
  destruct (bool_decide (0 < ev_duration e) && Match_ _ _) eqn:Em; [|by apply cache_inv_weaken].
  apply andb_true_iff in Em as [_ Em]. apply set_inv; [done|]. by split_and!.
Qed.

(** A change of frequencies only. *)
Lemma update_inv nlim plim log st l f :
  cache_inv nlim plim log st ->
  (forall i e, made_by e i -> made_by e (f i)) -> (forall i, i_refreshing (f i) = i_refreshing i) ->
  cache_inv nlim plim log (update_item l f st).
Proof.
  intros [] Hf Hr. split; simpl; eauto using entry_ok_alter.
  intros l'. rewrite lookup_alter. change (prefetches l' (update_item l f st)) with (prefetches l' st).
  rewrite inv_jobs0. case_decide as E; [|done]. subst l'. destruct (heap st !! l); simpl; [by rewrite Hr|done].
Qed.

Lemma prefetches_app l js j st :
  prefetches l (set_jobs (js ++ [j]) st) = (length (filter (is_prefetch_of l) js) + if decide (is_prefetch_of l j) then 1 else 0)%nat.
Proof.
  unfold prefetches. simpl. rewrite filter_app, length_app. f_equal. rewrite filter_cons, filter_nil. by case_decide.
Qed.

Lemma try_inv nlim plim log st l r now :
  cache_inv nlim plim log st -> cache_inv nlim plim log (tryPrefetch l r (Do r) (CheckingDisabled r) now st).
Proof.
  intros HI. unfold tryPrefetch. destruct (heap st !! l) as [i|] eqn:El; [|done].
  destruct (i_refreshing i) eqn:Er; [done|]. destruct HI as [Hn Hp Hnk Hpk Hj].
  split; simpl; [done|done|eauto using entry_ok_alter, made_by_refreshing..|].
  intros l'. rewrite prefetches_app. simpl. fold (prefetches l' st). rewrite Hj, lookup_alter.
  case_decide as E; [subst l'; rewrite El; simpl; by rewrite Er|]. lia.
Qed.

Lemma filter_delete_jobs l js n j :
  js !! n = Some j ->
  length (filter (is_prefetch_of l) js)
  = (length (filter (is_prefetch_of l) (delete n js)) + if decide (is_prefetch_of l j) then 1 else 0)%nat.
Proof.
  revert n. induction js as [|j' js IH]; intros [|n] H; [done..| |].
  - injection H as ->. rewrite filter_cons. change (delete 0%nat (j :: js)) with js. case_decide; cbn [length]; lia.
  - change (delete (S n) (j' :: js)) with (j' :: delete n js). rewrite !filter_cons. specialize (IH n H).
    destruct (decide (is_prefetch_of l j')); cbn [length]; lia.
Qed.

Lemma finish_inv nlim plim log st n l cw now :
  cache_inv nlim plim log st -> jobs st !! n = Some (JPrefetch l cw now) ->
  cache_inv nlim plim log (finish_prefetch n l cw now st).
Proof.
  intros HI Hn. unfold finish_prefetch.
  match goal with |- context [update_item l (set_refreshing false) ?s] => set (st1 := s) end.
  assert (cache_inv nlim plim log st1 /\ jobs st1 = jobs st) as [HI1 Hjobs].
  { subst st1. destruct (exists_ _ _ _ _ _) as [[l1 i1]|]; [|done]. split; [|done].
    apply update_inv; [done|intros; by apply made_by_freq|done]. }
  destruct HI1 as [Hnc Hpc Hnk Hpk Hj]. rewrite Hjobs.
  split; simpl; [done|done|eauto using entry_ok_alter, made_by_refreshing..|].
  intros l'. specialize (Hj l'). unfold prefetches in *. simpl. rewrite Hjobs, (filter_delete_jobs _ _ _ _ Hn) in Hj.
  rewrite lookup_alter. simpl in Hj. case_decide as E.
  - subst l'. destruct (heap st1 !! l) as [i|]; [|simpl in *; lia]. simpl.
    destruct (i_refreshing i); lia.
  - rewrite Nat.add_0_r in Hj. exact Hj.
Qed.

Lemma jobs_inv nlim plim log st js :
  cache_inv nlim plim log st -> (forall l, length (filter (is_prefetch_of l) js) = prefetches l st) ->
  cache_inv nlim plim log (set_jobs js st).
Proof. intros [] H. split; simpl; try done. intros l. unfold prefetches at 1. simpl. by rewrite H. Qed.

Lemma cstep_inv nlim plim log st e st' :
  cache_inv nlim plim log st -> cstep c st e st' -> cache_inv nlim plim (log ++ option_list e) st'.
Proof.
  intros HI Hs. destruct Hs as [w m wild clk client st st' Hw E|l now yes st st' E|l r now st|w st Hw|n l cw now st Hn|n cw st Hn];
    simpl; rewrite ?app_nil_r.
  - by apply (WriteMsg_inv _ _ _ st (mkEvent w m wild clk) client).
  - revert E. unfold shouldPrefetch. case_decide; [by intros [= _ <-]|].
    destruct (heap st !! l) as [i|] eqn:El; [|by intros [= _ <-]]. intros [= _ <-].
    assert (update_item l (fun _ => set_freq (freq_Update (duration c) now (i_Freq i)) i) st
            = update_item l (fun i => set_freq (freq_Update (duration c) now (i_Freq i)) i) st) as ->.
    { unfold update_item. f_equal. apply map_eq. intros l'. rewrite !lookup_alter. case_decide; [|done]. by subst; rewrite El. }
    apply update_inv; [done|intros; by apply made_by_freq|done].
  - by apply try_inv.
  - apply jobs_inv; [done|]. intros l. unfold prefetches. rewrite filter_app, length_app. simpl. lia.
  - by apply finish_inv.
  - apply jobs_inv; [done|]. intros l. unfold prefetches. rewrite (filter_delete_jobs l _ _ _ Hn).
    rewrite decide_False by (simpl; tauto). lia.
Qed.

Lemma creach_inv ncap pcap log st :
  creach c ncap pcap log st -> cache_inv (Z.max (ncap ÷ 256) 4) (Z.max (pcap ÷ 256) 4) log st.
Proof.
  induction 1 as [|log st e st' Hr IH Hs]; [|by eapply cstep_inv].
  split; simpl; try apply New_wf; try (intros k l; rewrite (Get_contents _ _ _ (New_wf _)), New_contents; by rewrite lookup_empty).
  intros l. by rewrite lookup_empty.
Qed.

(** ** Hits *)

(** [r] asks what the reply [e] was received for. *)
Definition same_question (r : Msg) (e : event) : Prop :=
  let r' := rw_state (ev_writer e) in
  Name_ r = Name_ r' /\ QType_ r = QType_ r' /\ Do r = Do r' /\ CheckingDisabled r = CheckingDisabled r'.

Lemma Name_lower r : Name_ r = ToLower (QName_ r).
Proof. unfold Name_, QName_. by destruct (Question r). Qed.

Lemma usable_same log h k l i r now :
  entry_ok log h k l -> h !! l = Some i -> usable c i r now = true ->
  k = hash (Name_ r) (QType_ r) (Do r) (CheckingDisabled r) ->
  exists e, e ∈ log /\ made_by e i /\ same_question r e.
Proof.
  intros (j & e & Hj & He & Hm & (Hdo & Hcd) & Hk & HM) Hi Hu ->. rewrite Hi in Hj. injection Hj as <-.
  exists e. split_and!; [done|done|]. apply Match_inv in HM as (q & Hq & Hn & Ht). simpl in Hq.
  destruct Hm as (wild & f & b & ->). unfold usable, matches in Hu. simpl in Hu. rewrite Hq in Hu.
  apply andb_true_iff in Hu as [Hu _]. case_decide as Et; [|done].
  unfold EqualFold in Hu. apply bool_decide_eq_true in Hu. rewrite <-Name_lower, Hn in Hu.
  unfold key in Hk. destruct (Truncated _); [done|]. case_decide; [done|]. rewrite Hq in Hk. injection Hk as Hk.
  rewrite Et, Hu, Hdo, Hcd in Hk. apply hash_flags in Hk as [Hk1 Hk2].
  unfold same_question. rewrite Et, Ht. by split_and!.
Qed.

Lemma getIfNotStale_sound nlim plim log st now r l i :
  cache_inv nlim plim log st -> getIfNotStale c now r st = Some (l, i) ->
  heap st !! l = Some i /\ usable c i r now = true /\ exists e, e ∈ log /\ made_by e i /\ same_question r e.
Proof.
  intros [_ _ Hnk Hpk _]. unfold getIfNotStale. set (k := hash _ _ _ _).
  assert (forall (cc : Cache nat) l' i', (forall k l, Get k cc = Some l -> entry_ok log (heap st) k l) ->
    get_item k cc st = Some (l', i') -> usable c i' r now = true ->
    heap st !! l' = Some i' /\ usable c i' r now = true /\ exists e, e ∈ log /\ made_by e i' /\ same_question r e) as Hget.
  { intros cc l' i' Hcc Hg Hu. unfold get_item in Hg. destruct (Get k cc) as [l1|] eqn:Eg; [|done]. simpl in Hg.
    destruct (heap st !! l1) as [i1|] eqn:Eh; [|done]. simpl in Hg. injection Hg as -> ->.
    split_and!; [done|done|]. by eapply usable_same; eauto. }
  set (pos := match get_item k (pcache st) st with
      | Some (l, p) => if usable c p r now then Some (l, p) else None | None => None end).
  assert (forall x, pos = Some x ->
    heap st !! x.1 = Some x.2 /\ usable c x.2 r now = true /\ exists e, e ∈ log /\ made_by e x.2 /\ same_question r e) as Hpos.
  { intros [l' i']. unfold pos. destruct (get_item k (pcache st) st) as [[l1 i1]|] eqn:Eg; [|done].
    destruct (usable c i1 r now) eqn:Eu; [|done]. intros [= -> ->]. by eapply (Hget (pcache st)). }
  destruct (get_item k (ncache st) st) as [[l1 i1]|] eqn:Eg; [|apply (Hpos (l, i))].
  destruct (usable c i1 r now) eqn:Eu; [|apply (Hpos (l, i))].
  assert (Some (l1, i1) = Some (l, i) ->
    heap st !! l = Some i /\ usable c i r now = true /\ exists e, e ∈ log /\ made_by e i /\ same_question r e) as Hneg.
  { intros [= -> ->]. by eapply (Hget (ncache st)). }
  case_decide; [|exact Hneg]. destruct pos as [x|]; [|exact Hneg].
  intros [= ->]. apply (Hpos (l, i) eq_refl).
Qed.

Lemma filterRRSlice_twice l t t' : filterRRSlice (filterRRSlice l t') t = filterRRSlice l t.
Proof.
  unfold filterRRSlice. induction l as [|r l IH]; [done|]. rewrite (filter_cons not_opt r l).
  case_decide as E; [|done]. rewrite !fmap_cons, filter_cons, decide_True by exact E. rewrite fmap_cons. by f_equal.
Qed.

Lemma filter_filterRRSlice l t : filter not_opt (filterRRSlice l t) = filterRRSlice l t.
Proof.
  unfold filterRRSlice. induction l as [|r l IH]; [done|]. rewrite (filter_cons not_opt r l).
  case_decide as E; [|done]. rewrite !fmap_cons, filter_cons, decide_True by exact E. by f_equal.
Qed.

(** The whole seconds since the item of [e] was stored. *)
Definition age (e : event) (now : Z) : Z := seconds (now - c_item (ev_clk e)).

(** The TTL of an answer given at [now]. *)
Definition remaining (e : event) (now : Z) : Z :=
  if keepttl c then lifetime e else Z.max 0 (lifetime e - age e now).

Definition served_at (i : item) (now : Z) : Z :=
  if keepttl c then i_stored i
  else if decide (ttl_ i now < 0) then now + ttl_ i now * Second else now.

Lemma lifetime_range e : 0 <= lifetime e < 2 ^ 32.
Proof. apply u32_range. Qed.

Lemma served_ttl e i now :
  made_by e i -> c_item (ev_clk e) <= now -> u32 (ttl_ i (served_at i now)) = remaining e now.
Proof.
  intros (wild & f & b & ->) Hle. unfold served_at, ttl_, remaining, age. simpl. pose proof (lifetime_range e) as HR.
  fold (lifetime e). set (d := now - c_item (ev_clk e)). assert (0 <= d) as Hd by lia.
  assert (0 <= seconds d) as Hs by (apply Z.quot_pos; unfold Second; lia).
  destruct (keepttl c).
  { rewrite Z.sub_diag. unfold seconds. rewrite Z.quot_0_l by done. rewrite Z.sub_0_r. by apply u32_small. }
  case_decide as Hn.
  - replace (now + (lifetime e - seconds d) * Second - c_item (ev_clk e)) with (d + (lifetime e - seconds d) * Second) by lia.
    assert (seconds (d + (lifetime e - seconds d) * Second) = lifetime e) as ->.
    { unfold seconds in *. assert (d = Second * (d ÷ Second) + Z.rem d Second) as Hd2 by apply Z.quot_rem'.
      pose proof (Z.rem_bound_pos d Second Hd ltac:(done)).
      symmetry. apply Z.quot_unique with (Z.rem d Second); [|lia|unfold Second in *; lia].
      unfold Second in *. lia. }
    rewrite Z.sub_diag. rewrite Z.max_l by lia. done.
  - rewrite Z.max_r by lia. apply u32_small. lia.
Qed.

(** The sections of an answer are those of the reply, without OPT records
    and with the TTL [t]. *)
Definition same_answer (e : event) (t : Z) (m : Msg) : Prop :=
  Rcode m = Rcode (ev_msg e) /\ Answer m = filterRRSlice (Answer (ev_msg e)) t /\
  Ns_ m = filterRRSlice (Ns_ (ev_msg e)) t /\ Extra m = filterRRSlice (Extra (ev_msg e)) t.

Lemma toMsg_same e i r now do ad :
  made_by e i -> same_answer e (u32 (ttl_ i now)) (toMsg i r now do ad).
Proof.
  intros (wild & f & b & ->). unfold same_answer, toMsg. simpl.
  by rewrite filter_filterRRSlice, !filterRRSlice_twice.
Qed.

(** In its lifetime, or in the window for stale answers after it. *)
Definition in_time (e : event) (now : Z) : Prop :=
  age e now < lifetime e \/ 0 < staleUpTo c /\ age e now < lifetime e + seconds (staleUpTo c).

Lemma usable_in_time e i r now : made_by e i -> usable c i r now = true -> in_time e now.
Proof.
  intros (wild & f & b & ->) Hu. unfold usable in Hu. apply andb_true_iff in Hu as [_ Hu]. unfold ttl_ in Hu. simpl in Hu.
  fold (lifetime e) (age e now) in Hu. unfold in_time.
  repeat case_bool_decide; simpl in Hu; try done; lia.
Qed.

(** *** Verification of stale entries *)

(** The writer of a verification, and the reply of the upstream as an event. *)
Definition verify_writer (r : Msg) : ResponseWriter :=
  mkWriter r (Do r) (CheckingDisabled r) false (bool_decide (0 < verifyStaleTimeout c)) false [] [].
Definition verify_event (next : option (Msg -> Upstream)) (r m : Msg) (clk : Clock) : event :=
  mkEvent (verify_writer r) m (up_wildcard (doRefresh next r)) clk.

(** The upstream, asked now, writes the reply [m], which is one that refreshes
    an entry. *)
Definition verified_by (next : option (Msg -> Upstream)) (r m : Msg) : Prop :=
  written (up_served (doRefresh next r)) = Some m /\ (Rcode m = RcodeSuccess \/ Rcode m = RcodeNameError).

Lemma refresh_verify_cases nlim plim log next r clk st :
  cache_inv nlim plim log st ->
  (exists s, refresh_verify c (verify_writer r) (doRefresh next r) clk st = Ok (false, s, st)) \/
  exists m, verified_by next r m /\
    ((refresh_verify c (verify_writer r) (doRefresh next r) clk st = Err IndexOutOfRange /\ Question m = []) \/
     exists s st', refresh_verify c (verify_writer r) (doRefresh next r) clk st = Ok (true, s, st') /\
       written s = (if rw_prefetch (verify_writer r) then None
                    else Some (capped (verify_writer r) m (lifetime (verify_event next r m clk)))) /\
       cache_inv nlim plim (log ++ [verify_event next r m clk]) st').
Proof.
  intros HI. unfold refresh_verify, refresh, verified_by. destruct (written (up_served (doRefresh next r))) as [m|]; [|left; eauto].
  case_decide as Hc; [|left; eauto]. right. exists m. split; [done|]. set (e := verify_event next r m clk).
  pose proof (WriteMsg_inv nlim plim log st e) as HW. unfold e in HW. cbn [ev_writer ev_msg ev_wild ev_clk verify_event] in HW.
  destruct (WriteMsg c (verify_writer r) m _ clk st) as [[client st']|f] eqn:E; cbn [mbind result_bind].
  - right. do 2 eexists. split; [done|]. cbn [written]. split; [|by apply (HW client)].
    apply bind_ok_inv in E as (k & _ & E). injection E as E _. done.
  - left. unfold WriteMsg in E. destruct (key _ _ _ _ _) as [k|f'] eqn:Ek; [done|]. injection E as <-. unfold key in Ek.
    destruct (Truncated m); [done|]. case_decide; [done|]. destruct (Question m); [by injection Ek as <-|done].
Qed.

Lemma exists_entry nlim plim log st name t do cd l i :
  cache_inv nlim plim log st -> exists_ name t do cd st = Some (l, i) ->
  exists e, e ∈ log /\ made_by e i /\ stored_as e (hash name t do cd).
Proof.
  intros [_ _ Hnk Hpk _]. unfold exists_, get_item. set (k := hash _ _ _ _).
  assert (forall l1, entry_ok log (heap st) k l1 -> heap st !! l1 = Some i -> exists e, e ∈ log /\ made_by e i /\ stored_as e k) as Hok.
  { intros l1 (j & e & Hj & ? & ? & ?) Hi. assert (j = i) as -> by congruence. eauto. }
  destruct (Get k (ncache st) ≫= _) as [[l1 i1]|] eqn:En.
  - intros [= -> ->]. apply bind_Some in En as (l1 & Hg & (j & Hj & [= <- <-])%bind_Some). eauto.
  - intros (l1 & Hg & (j & Hj & [= <- <-])%bind_Some)%bind_Some. eauto.
Qed.

(** What is sent after a verification: nothing (a failed write), the reply of
    the upstream with the TTLs of the cache, or an entry found under the key of
    the question. *)
Definition sent_verified (log : list event) (next : option (Msg -> Upstream)) (r m : Msg) (clk : Clock) (s : Served) : Prop :=
  let e0 := verify_event next r m clk in
  written s = None \/ written s = Some (capped (verify_writer r) m (lifetime e0)) \/
  exists e t m', e ∈ log ++ [e0] /\ stored_as e (hash (Name_ r) (QType_ r) (Do r) (CheckingDisabled r)) /\
    written s = Some m' /\ same_answer e t m' /\ Id m' = Id r /\ Question m' = take 1 (Question r).

(** Serving an item that is not usable any more. *)
Lemma serve_stale_sound nlim plim log st next timely cerr l i r clk :
  DnsLibSpec L -> cache_inv nlim plim log st ->
  (exists st', serve_stale c next timely cerr l i r clk st
     = Ok (serve_item c i r (c_now clk + ttl_ i (c_now clk) * Second) st')) \/
  verifyStale c = true /\ exists m, verified_by next r m /\
    match serve_stale c next timely cerr l i r clk st with
    | Err f => f = IndexOutOfRange /\ Question m = []
    | Ok (s, _) => sent_verified log next r m clk s
    end.
Proof.
  intros HL HI. unfold serve_stale. destruct (verifyStale c); [|left; eauto]. fold (verify_writer r).
  pose proof (refresh_verify_cases nlim plim log next r clk st HI) as HR. case_decide as Ht.
  - destruct HR as [[s ->]|(m & Hm & HR)]; [left; eauto|right; split; [done|]; exists m; split; [done|]].
    destruct HR as [[-> Hq]|(s & st' & -> & Hw & _)]; [done|]. cbn [mbind result_bind]. right; left.
    rewrite Hw. unfold verify_writer. cbn [rw_prefetch]. rewrite bool_decide_false by lia. done.
  - unfold verifyWithTimeout. destruct timely; cbn [negb]; [|left; eauto].
    destruct HR as [[s ->]|(m & Hm & HR)]; [left; cbn; eauto|right; split; [done|]; exists m; split; [done|]].
    destruct HR as [[-> Hq]|(s & st' & -> & Hw & HI')]; [done|]. cbn [mbind result_bind negb].
    destruct (exists_ _ _ _ _ st') as [[l' i']|] eqn:Ex; [|by left]. destruct cerr; cbn [mbind result_bind]; [by left|].
    destruct (exists_entry _ _ _ _ _ _ _ _ _ _ HI' Ex) as (e & He & Hmade & Hst). right; right. eexists e, _, _.
    split_and!; [done|done|done|by apply toMsg_same|apply SetReply_law|apply SetReply_law].
Qed.

(** C4. A hit is sound.  Whatever requests, replies, prefetches and
    verifications came before, in any interleaving, the entry that a lookup
    finds is that of a reply received earlier for the same name, type, DO bit
    and CD bit, although the caches are keyed by a 64-bit hash and entries are
    compared by name and type only; and it is found within the lifetime of
    that reply or the configured window after it.  The request is answered with
    the sections and the code of that reply, with the time that is left as TTL,
    0 for a stale entry, or the original lifetime if the cache is configured to
    keep TTLs.  The exception is a stale entry when stale entries are verified
    and the upstream answers in time with a success or a name error: then the
    client gets this answer with the TTLs of the cache, or, if a timeout is
    configured, what is in the cache under the key of the question (of which
    neither the name nor the TTL is checked), or nothing if the write fails;
    an answer without a question makes the code panic. *)
Theorem cache_hit_sound ncap pcap log st next timely cerr clk r l i :
  DnsLibSpec L -> creach c ncap pcap log st ->
  Forall (fun e => c_item (ev_clk e) <= c_now clk) log ->
  Matches (Zones c) (Name_ r) <> EmptyString ->
  getIfNotStale c (c_now clk) r st = Some (l, i) ->
  exists e, e ∈ log /\ same_question r e /\ in_time e (c_now clk) /\
    ((exists m st', ServeDNS c next timely cerr clk r st = Ok (mkServed RcodeSuccess (Some m) false, st') /\
        same_answer e (remaining e (c_now clk)) m /\ Id m = Id r /\ Question m = take 1 (Question r)) \/
     verifyStale c = true /\ ttl_ i (c_now clk) < 0 /\ exists m, verified_by next r m /\
       match ServeDNS c next timely cerr clk r st with
       | Err f => f = IndexOutOfRange /\ Question m = []
       | Ok (s, _) => sent_verified log next r m clk s
       end).
Proof.
  intros HL Hr Hlog Hz Hget. apply creach_inv in Hr.
  destruct (getIfNotStale_sound _ _ _ _ _ _ _ _ Hr Hget) as (Hh & Hu & e & He & Hm & Hq).
  pose proof (proj1 (Forall_forall _ _) Hlog e He) as Hle. exists e. split_and!; [done|done|by eapply usable_in_time|].
  assert (forall now' st1, (now' = if decide (ttl_ i (c_now clk) < 0) then c_now clk + ttl_ i (c_now clk) * Second else c_now clk) ->
    ServeDNS c next timely cerr clk r st = Ok (serve_item c i r now' st1) ->
    exists m st', ServeDNS c next timely cerr clk r st = Ok (mkServed RcodeSuccess (Some m) false, st') /\
      same_answer e (remaining e (c_now clk)) m /\ Id m = Id r /\ Question m = take 1 (Question r)) as Hitem.
  { intros now' st1 Hnow E. do 2 eexists. split; [rewrite E; reflexivity|]. split_and!; [|apply SetReply_law..].
    rewrite <-(served_ttl e i) by done. unfold served_at. rewrite <-Hnow. destruct (keepttl c); by apply toMsg_same. }
  revert Hitem. unfold ServeDNS. rewrite (decide_False (P := Matches (Zones c) (Name_ r) = EmptyString)), Hget by done. case_decide as Ht.
  - intros Hitem. destruct (serve_stale_sound _ _ _ _ next timely cerr l i r clk HL Hr) as [[st' E]|(Hv & m & Hver & H)].
    + left. exact (Hitem _ st' eq_refl E).
    + right. split_and!; [done|done|]. exists m. by split.
  - destruct (shouldPrefetch _ _ _ _) as [yes st1]. intros Hitem. left. by eapply Hitem.
Qed.

(** ** Whole calls are sequences of steps *)

Definition job_writer (j : job) : ResponseWriter :=
  match j with JPrefetch _ cw _ => cw | JVerify cw => cw end.

Lemma finish_jobs n l cw now st : jobs (finish_prefetch n l cw now st) = delete n (jobs st).
Proof. unfold finish_prefetch. by destruct (exists_ _ _ _ _ _) as [[l1 i1]|]. Qed.

Lemma set_keeps_jobs w m k mt d wild now st : jobs (set w m k mt d wild now st) = jobs st.
Proof. unfold set. destruct mt; try done; by case_decide. Qed.

Lemma set_excepted w m k mt d wild now st :
  Matches (rw_pexcept w) (question_name m) <> EmptyString -> pcache (set w m k mt d wild now st) = pcache st.
Proof. intros Hx. unfold set. destruct mt; try done; case_decide; done. Qed.

Lemma cstep_good st e st' :
  cstep c st e st' -> Forall (fun j => good_writer (job_writer j)) (jobs st) ->
  Forall (fun j => good_writer (job_writer j)) (jobs st').
Proof.
  intros Hs HF. destruct Hs as [w m wild clk client st st' Hw E|l now yes st st' E|l r now st|w st Hw|n l cw now st Hn|n cw st Hn].
  - apply bind_ok_inv in E as (k & _ & E). injection E as _ <-.
    destruct k; [case_match|]; rewrite ?set_keeps_jobs; done.
  - revert E. unfold shouldPrefetch. case_decide; [by intros [= _ <-]|]. case_match; by intros [= _ <-].
  - unfold tryPrefetch. case_match; [case_match; [done|]|done]. simpl. apply Forall_app_2; [done|]. by repeat constructor.
  - simpl. apply Forall_app_2; [done|]. by constructor.
  - rewrite finish_jobs. by apply Forall_delete.
  - simpl. by apply Forall_delete.
Qed.

Lemma creach_good ncap pcap log st :
  creach c ncap pcap log st -> Forall (fun j => good_writer (job_writer j)) (jobs st).
Proof. induction 1; [constructor|eauto using cstep_good]. Qed.

Definition extends (ncap pcap : Z) (log : list event) (st : CacheState) : Prop :=
  exists log', creach c ncap pcap (log ++ log') st.

Lemma extends_refl ncap pcap log st : creach c ncap pcap log st -> extends ncap pcap log st.
Proof. exists []. by rewrite app_nil_r. Qed.

Lemma extends_step ncap pcap log st e st' :
  extends ncap pcap log st -> cstep c st e st' -> extends ncap pcap log st'.
Proof. intros [log' Hr] Hs. exists (log' ++ option_list e). rewrite app_assoc. by eapply creach_step. Qed.

Lemma extends_refresh ncap pcap log w up clk st s st' :
  extends ncap pcap log st -> good_writer w -> refresh c w up clk st = Ok (s, st') -> extends ncap pcap log st'.
Proof.
  intros Hr Hw. unfold refresh. destruct (written _) as [m|]; [|by intros [= _ <-]].
  intros ([client st1] & E & [= _ <-])%bind_ok_inv. eapply extends_step; [done|]. by eapply step_write.
Qed.

Lemma extends_verify ncap pcap log w up clk st b s st' :
  extends ncap pcap log st -> good_writer w -> refresh_verify c w up clk st = Ok (b, s, st') ->
  extends ncap pcap log st'.
Proof.
  intros Hr Hw. unfold refresh_verify. destruct (written _) as [m|]; [case_decide|]; try (by intros [= _ _ <-]).
  intros ([s1 st1] & E & [= _ _ <-])%bind_ok_inv. by eapply extends_refresh.
Qed.

Lemma ServeDNS_extends ncap pcap log next timely cerr clk r st s st' :
  creach c ncap pcap log st -> ServeDNS c next timely cerr clk r st = Ok (s, st') -> extends ncap pcap log st'.
Proof.
  intros Hr%extends_refl. unfold ServeDNS. case_decide; [by intros [= _ <-]|].
  destruct (getIfNotStale _ _ _ _) as [[l i]|]; [|by apply extends_refresh].
  case_decide.
  - unfold serve_stale, serve_item. destruct (verifyStale c); [case_decide|].
    + intros ([[b s1] st1] & E & E')%bind_ok_inv. apply (extends_verify ncap pcap log) in E; [|done|done].
      destruct b; by injection E' as _ <-.
    + intros ([o st1] & E & E')%bind_ok_inv. assert (st1 = st') as -> by (destruct o; by injection E').
      revert E. unfold verifyWithTimeout. destruct timely; simpl.
      * intros ([[b s1] st2] & E & E2)%bind_ok_inv. apply (extends_verify ncap pcap log) in E; [|done|done].
        destruct b; simpl in E2; [|by injection E2 as _ <-].
        destruct (exists_ _ _ _ _ _) as [[l2 i2]|]; [destruct cerr|]; by injection E2 as _ <-.
      * intros [= _ <-]. eapply extends_step; [done|]. by apply step_verify.
    + intros [= _ <-]. eapply extends_step; [done|]. apply step_try.
  - destruct (shouldPrefetch c l (c_now clk) st) as [yes st1] eqn:E. unfold serve_item. intros [= _ <-].
    assert (extends ncap pcap log st1) as Hr1 by (eapply extends_step; [done|by eapply step_count]).
    destruct yes; [|done]. eapply extends_step; [done|]. apply step_try.
Qed.

Lemma run_job_extends ncap pcap log next n clk st st' :
  creach c ncap pcap log st -> run_job c next n clk st = Ok st' -> extends ncap pcap log st'.
Proof.
  intros Hr. pose proof (creach_good _ _ _ _ Hr) as HF. apply extends_refl in Hr. unfold run_job.
  destruct (jobs st !! n) as [j|] eqn:En; [|by intros [= <-]].
  pose proof (proj1 (Forall_lookup _ _) HF _ _ En) as Hw. destruct j as [l cw now|cw]; simpl in Hw.
  - unfold doPrefetch. intros ([s st1] & E & [= <-])%bind_ok_inv.
    pose proof (extends_refresh _ _ _ _ _ _ _ _ _ Hr Hw E) as Hr1. eapply extends_step; [done|]. apply step_finish.
    revert E. unfold refresh. destruct (written _); [|by intros [= _ <-]].
    intros ([client st2] & E & [= _ <-])%bind_ok_inv. apply bind_ok_inv in E as (k & _ & E). injection E as _ <-.
    destruct k; [case_match|]; rewrite ?set_keeps_jobs; done.
  - intros ([[b s] st1] & E & [= <-])%bind_ok_inv.
    pose proof (extends_verify _ _ _ _ _ _ _ _ _ _ Hr Hw E) as Hr1. eapply extends_step; [done|]. apply step_verified with cw.
    revert E. unfold refresh_verify, refresh. destruct (written _) as [m|]; [case_decide|]; try by intros [= _ _ <-].
    intros ([s1 st2] & E & [= _ _ <-])%bind_ok_inv. apply bind_ok_inv in E as ([client st3] & E & [= _ <-]).
    apply bind_ok_inv in E as (k & _ & E). injection E as _ <-.
    destruct k; [case_match|]; rewrite ?set_keeps_jobs; done.
Qed.

(** C39. Resources are bounded.  After any history the number of entries of
    each cache is at most the capacity, rounded up to four for each of the
    256 shards, and at most one prefetch is running for an item.  Every call
    of the handler and every run of a background refresh stays within the
    histories quantified over. *)
Theorem cache_bounded ncap pcap log st :
  creach c ncap pcap log st ->
  Len (ncache st) <= 256 * Z.max (ncap ÷ 256) 4 /\ Len (pcache st) <= 256 * Z.max (pcap ÷ 256) 4 /\
  (forall l, (prefetches l st <= 1)%nat) /\
  (forall next timely cerr clk r s st', ServeDNS c next timely cerr clk r st = Ok (s, st') -> extends ncap pcap log st') /\
  (forall next n clk st', run_job c next n clk st = Ok st' -> extends ncap pcap log st').
Proof.
  intros Hr. pose proof (creach_inv _ _ _ _ Hr) as [Hn Hp _ _ Hj]. split_and!.
  - by apply Len_bound.
  - by apply Len_bound.
  - intros l. rewrite Hj. destruct (heap st !! l) as [i|]; [destruct (i_refreshing i)|]; lia.
  - intros. by eapply ServeDNS_extends.
  - intros. by eapply run_job_extends.
Qed.

(** ** Lifetimes and errors *)

(** Lifetimes.  For limits of whole seconds, a positive or negative reply
    lives no longer than the maximum of its class; and no longer than the
    smallest TTL of its records, unless that is below the minimum of its
    class.  SERVFAIL replies live for the configured time. *)
Theorem lifetime_bounds e :
  Forall (fun r => 0 <= rr_ttl r < 2 ^ 32) (Answer (ev_msg e) ++ Ns_ (ev_msg e) ++ Extra (ev_msg e)) ->
  0 <= minpttl c -> 0 <= pttl c < 2 ^ 32 * Second -> 0 <= minnttl c -> 0 <= nttl c < 2 ^ 32 * Second ->
  match ev_type e with
  | ServerError => ev_duration e = failttl c
  | t =>
      let lo := match t with NameError | NoData => minnttl c | _ => minpttl c end in
      let hi := match t with NameError | NoData => nttl c | _ => pttl c end in
      lifetime e * Second <= hi /\
      (lifetime e * Second <= Z.max lo (5 * Second) \/ Forall (fun ttl => lifetime e <= ttl) (ttls (ev_msg e)))
  end.
Proof.
  intros HF Hlo Hhi Hlo' Hhi'.
  assert (forall lo hi, 0 <= lo -> 0 <= hi < 2 ^ 32 * Second ->
    let d := computeTTL (MinimalTTL (ev_msg e) (ev_type e)) lo hi in
    u32 (seconds d) * Second <= hi /\
    (u32 (seconds d) * Second <= Z.max lo (5 * Second) \/ Forall (fun ttl => u32 (seconds d) <= ttl) (ttls (ev_msg e)))) as H.
  { intros lo hi H0 H1 d. unfold computeTTL in d.
    assert (0 <= MinimalTTL (ev_msg e) (ev_type e)) as Hm.
    { destruct (MinimalTTL_spec (ev_msg e) (ev_type e) HF) as [->| ->]; [done|].
      rewrite !Forall_app in HF. destruct HF as (HA & HN & HE). pose proof (foldr_min_range 3600 (ttls (ev_msg e)) ltac:(lia)) as Hr.
      unfold Second. enough (0 <= foldr Z.min 3600 (ttls (ev_msg e))) by lia. apply Hr. unfold ttls.
      rewrite !Forall_app. auto using counted_range. }
    assert (0 <= d <= hi) as Hd by lia.
    assert (0 <= seconds d < 2 ^ 32) as Hs.
    { unfold seconds, Second in *. rewrite Z.quot_div_nonneg by lia. split; [apply Z.div_pos; lia|].
      apply Z.div_lt_upper_bound; lia. }
    rewrite u32_small by done.
    assert (seconds d * Second <= d) as Hsd.
    { unfold seconds, Second. rewrite Z.quot_div_nonneg by lia. pose proof (Z.mul_div_le d 1000000000). lia. }
    split; [lia|]. destruct (decide (MinimalTTL (ev_msg e) (ev_type e) <= lo)) as [Hle|Hgt]; [left; lia|].
    destruct (MinimalTTL_spec (ev_msg e) (ev_type e) HF) as [E|E]; rewrite E in *; [left; lia|right].
    assert (seconds d <= foldr Z.min 3600 (ttls (ev_msg e))) as Hle by (unfold Second in *; lia).
    clear -Hle. induction (ttls (ev_msg e)) as [|x l IH]; simpl in *; constructor; [lia|]. apply IH. lia. }
  unfold lifetime, ev_duration, write_duration.
  pose proof (H (minnttl c) (nttl c) Hlo' Hhi') as HNeg. pose proof (H (minpttl c) (pttl c) Hlo Hhi) as HPos.
  destruct (ev_type e); done.
Qed.

(** Storing a reply fails in one way: a reply that could be cached but
    has no question makes the code index an empty slice.  A truncated reply,
    or one of a kind that is not cached, passes through unstored. *)
Theorem WriteMsg_faults w m wild clk st :
  match WriteMsg c w m wild clk st with
  | Err f => f = IndexOutOfRange /\ Question m = [] /\ Truncated m = false /\
             ~ (Typify (Some m) (c_write clk)).1 ∈ [OtherError; Meta; Update]
  | Ok (client, st') =>
      (client = None <-> rw_prefetch w = true) /\
      (Truncated m = true \/ (Typify (Some m) (c_write clk)).1 ∈ [OtherError; Meta; Update] -> st' = st)
  end.
Proof.
  unfold WriteMsg, key. set (mt := (Typify (Some m) (c_write clk)).1). destruct (Truncated m) eqn:Et.
  { simpl. split; [by destruct (rw_prefetch w)|done]. }
  assert (mt = OtherError \/ mt = Meta \/ mt = Update <-> mt ∈ [OtherError; Meta; Update]) as Hmt by set_solver.
  case_decide as Hd; [simpl; split; [by destruct (rw_prefetch w)|done]|].
  destruct (Question m) as [|q qs] eqn:Eq; simpl.
  - split_and!; [done..|]. by rewrite <-Hmt.
  - split; [by destruct (rw_prefetch w)|]. intros [?|?]; [done|]. exfalso. tauto.
Qed.

End facts.

(** ** Examples *)

Module CacheSample.
#[local] Existing Instance PlainLib.lib.
#[local] Existing Instance Plain.names.
#[local] Existing Instance list_order.

Definition ask (name : string) (cd : bool) : Msg :=
  mkMsg 7 false OpcodeQuery false false true false false cd RcodeSuccess [mkQ name TypeA ClassINET] [] [] [].

Definition a_record (name : string) : RR := mkRR (mkHdr name TypeA ClassINET 60) (RA [192; 0; 2; 1]).
Definition soa_record : RR :=
  mkRR (mkHdr "example.org." TypeSOA ClassINET 60) (RSOA "ns.example.org." "h.example.org." 1 2 3 4 60).

Definition reply (r : Msg) (rc : Z) (ans ns : list RR) : Msg :=
  mkMsg (Id r) true OpcodeQuery false false true false false (CheckingDisabled r) rc (Question r) ans ns [].

Definition answers (rc : Z) (ans ns : list RR) (r : Msg) : Upstream :=
  mkUpstream (mkServed rc (Some (reply r rc ans ns)) false) EmptyString.

Definition at_ (t : Z) : Clock := mkClock (t * Second) (t * Second) (t * Second) (t * Second).

Definition empty : CacheState := mkState (New 1024) (New 1024) ∅ [].

Definition plain_writer (r : Msg) : ResponseWriter := mkWriter r false false false false true [] [].
Definition stored : CacheState :=
  match WriteMsg NewCache (plain_writer (ask "www.Example.org." false))
    (reply (ask "www.Example.org." false) RcodeSuccess [a_record "www.example.org."] []) EmptyString (at_ 100) empty with
  | Ok (_, st) => st | Err _ => empty end.
Definition first_reply : event :=
  mkEvent (plain_writer (ask "www.Example.org." false))
    (reply (ask "www.Example.org." false) RcodeSuccess [a_record "www.example.org."] []) EmptyString (at_ 100).

Lemma stored_reach : creach NewCache 1024 1024 [first_reply] stored.
Proof.
  apply (creach_step NewCache 1024 1024 [] empty (Some first_reply) stored); [apply creach_init|].
  assert (exists cl, WriteMsg NewCache (ev_writer first_reply) (ev_msg first_reply) EmptyString (at_ 100) empty
    = Ok (cl, stored)) as [cl E].
  { unfold stored, ev_writer, ev_msg, first_reply.
    match goal with |- exists _, ?x = _ =>
      assert (is_ok x = true) as Hok by (vm_compute; reflexivity); destruct x as [[cl st]|]; [by exists cl|done] end. }
  exact (step_write NewCache (ev_writer first_reply) (ev_msg first_reply) EmptyString (at_ 100) cl empty stored
           (conj eq_refl eq_refl) E).
Qed.

Lemma cache_hit_witness :
  exists m st', ServeDNS NewCache None true false (at_ 130) (ask "WWW.example.ORG." false) stored
    = Ok (mkServed RcodeSuccess (Some m) false, st') /\
    Answer m = [mkRR (mkHdr "www.example.org." TypeA ClassINET 30) (RA [192; 0; 2; 1])].
Proof.
  destruct (getIfNotStale NewCache (130 * Second) (ask "WWW.example.ORG." false) stored) as [[l i]|] eqn:E;
    [|by vm_compute in E].
  destruct (cache_hit_sound NewCache 1024 1024 [first_reply] stored None true false (at_ 130)
    (ask "WWW.example.ORG." false) l i PlainLib.lib_spec stored_reach) as (e & He & _ & _ & [(m & st' & E1 & (_ & Ha & _) & _)|[Hv _]]).
  - repeat constructor. vm_compute. discriminate.
  - vm_compute. discriminate.
  - exact E.
  - exists m, st'. split; [exact E1|]. rewrite Ha.
    apply list_elem_of_singleton in He as ->. vm_compute. reflexivity.
  - discriminate Hv.
Defined.

Lemma cache_bounded_witness : Len (pcache stored) <= 256 * 4 /\ Len (pcache stored) = 1.
Proof.
  split; [|vm_compute; reflexivity].
  apply (cache_bounded NewCache 1024 1024 [first_reply] stored stored_reach).
Defined.

Lemma lifetime_bounds_witness : lifetime NewCache first_reply * Second <= 3600 * Second /\ lifetime NewCache first_reply = 60.
Proof.
  split; [|vm_compute; reflexivity].
  assert (ev_type first_reply = NoError) as Et by (vm_compute; reflexivity).
  pose proof (lifetime_bounds NewCache first_reply) as H. rewrite Et in H.
  apply H; [cbn; repeat constructor; cbn; lia|vm_compute; split_and?; congruence..].
Defined.

Definition ok {E A} (x : result E A) : option A := match x with Ok a => Some a | Err _ => None end.

(** The success cache is disabled for [example.org.]; stale answers are
    served for an hour. *)
Definition excepting : Cache_ :=
  mkCache_ ["."] (1800 * Second) (5 * Second) (3600 * Second) (5 * Second) (5 * Second) 0 (60 * Second) 10
    (3600 * Second) false 0 ["example.org."] [] false.

(** A denial is cached, goes stale and is asked for again; the prefetch this
    starts gets a positive reply; then the upstream is gone.  The size of the
    positive cache and the names of the last answer. *)
Definition denial_turns_positive : option (Z * list string) :=
  let q := ask "new.example.org." false in
  '(_, st1) ← ok (ServeDNS excepting (Some (answers RcodeNameError [] [soa_record])) true false (at_ 100) q empty);
  '(_, st2) ← ok (ServeDNS excepting None true false (at_ 200) q st1);
  st3 ← ok (run_job excepting (Some (answers RcodeSuccess [a_record "new.example.org."] [])) 0 (at_ 201) st2);
  '(s, _) ← ok (ServeDNS excepting None true false (at_ 202) q st3);
  m ← written s;
  Some (Len (pcache st3), rr_name <$> Answer m).

(** The exception lists are not honoured on refreshes.  The writer of a
    first request leaves the positive cache alone for a name below an
    excepted zone, but the writers of prefetches and of stale verifications
    carry no lists: with the success cache disabled for [example.org.], a
    denial that has gone stale is refreshed in the background by a positive
    reply, which is stored and then served. *)
Theorem exceptions_bypassed :
  (forall {L : DnsLib} {N : DnsNames} {MO : MapOrder} c w m wild clk st client st',
     Matches (rw_pexcept w) (question_name m) <> EmptyString ->
     WriteMsg c w m wild clk st = Ok (client, st') -> pcache st' = pcache st) /\
  Matches (pexcept excepting) "new.example.org." = "example.org." /\
  denial_turns_positive = Some (1, ["new.example.org."]).
Proof.
  split; [|split; vm_compute; reflexivity].
  intros L N MO c w m wild clk st client st' Hx. unfold WriteMsg. intros (k & _ & [= _ <-])%bind_ok_inv.
  destruct k; [|done]. case_match; [|done]. by apply set_excepted.
Qed.

(** Stale entries are served for an hour after they were verified, which may
    take a second. *)
Definition verifying : Cache_ :=
  mkCache_ ["."] (1800 * Second) (5 * Second) (3600 * Second) (5 * Second) (5 * Second) 0 (60 * Second) 10
    (3600 * Second) true Second [] [] false.

Definition truncated (r : Msg) : Upstream :=
  let m := reply r RcodeSuccess [] [] in
  mkUpstream (mkServed RcodeSuccess (Some (mkMsg (Id m) true OpcodeQuery false true true false false false RcodeSuccess (Question m) [] [] [])) false) EmptyString.

(** A verification whose answer is not stored serves the stale entry as if it
    had been refreshed.  The answer of the upstream is a success and is
    truncated, so that the entry counts as refreshed and is not; the entry
    found in the cache ended 40 seconds ago, and is sent with its negative TTL
    as an unsigned number, about 136 years. *)
Theorem verified_ttl_wraps :
  let q := ask "www.example.org." false in
  (x ← ok (ServeDNS verifying (Some (answers RcodeSuccess [a_record "www.example.org."] [])) true false (at_ 100) q empty);
   y ← ok (ServeDNS verifying (Some truncated) true false (at_ 200) q x.2);
   m ← written y.1;
   Some (rr_ttl <$> Answer m)) = Some [2 ^ 32 - 40].
Proof. vm_compute. reflexivity. Qed.

End CacheSample.
