(* ===== verification/FileZone.v ===== *)
(** * Zones and lookups of the file plugin (plugin/file)

    A zone is its apex and the tree of its other records.  [Insert] files a
    record, [Lookup] walks from the origin towards the query name and decides
    between answer, delegation, CNAME and DNAME chasing, wildcard synthesis and
    denial.  Lookups of names outside the zone go through an upstream, which
    is a parameter. *)

From Stdlib Require Import Ascii ZArith Lia.
From stdpp Require Import base numbers gmap strings list.
From S2P Require Import Prelude DnsTypes DnsLib Less Tree.

Local Open Scope Z_scope.

(** ** Records *)

Inductive Result_ : Type := Success | NameError | Delegation | NoData | ServerFailure.

#[export] Instance Result_eq_dec : EqDecision Result_.
Proof. solve_decision. Defined.

Record Apex := mkApex {
  SOA : option RR;
  NS : list RR;
  SIGSOA : list RR;
  SIGNS : list RR }.

Record Zone := mkZone {
  origin : string;
  origLen : nat;
  tree : Tree;
  apex : Apex;
  Expired : bool;
  TransferFrom : list string }.

Definition empty_apex : Apex := mkApex None [] [] [].

Definition set_tree (z : Zone) (t : Tree) : Zone :=
  mkZone (origin z) (origLen z) t (apex z) (Expired z) (TransferFrom z).
Definition set_apex (z : Zone) (a : Apex) : Zone :=
  mkZone (origin z) (origLen z) (tree z) a (Expired z) (TransferFrom z).

(** The four sections of a lookup: answer, authority, additional, result. *)
Record Answer_ := mkAns { ans : list RR; auth : list RR; extra : list RR; res : Result_ }.

(** rrutil: the signatures over a type. *)
Definition covers (subtype : Z) (r : RR) : bool :=
  match Data r with RRRSIG t _ _ => bool_decide (t = subtype) | _ => false end.
Definition SubTypeSignature (rrs : list RR) (subtype : Z) : list RR := filter (fun r => covers subtype r = true) rrs.

Definition set_data (r : RR) (d : rdata) : RR := mkRR (Hdr r) d.

(** [strings.Join] *)
Fixpoint JoinStr (l : list string) (sep : string) : string :=
  match l with
  | [] => EmptyString
  | [s] => s
  | s :: l' => String.append s (String.append sep (JoinStr l' sep))
  end.

Section zone.
Context {L : DnsLib} {N : DnsNames} {MO : MapOrder}.

(** dnsutil.Join *)
Definition Join (labels : list string) : result go_fault string :=
  match last labels with
  | None => Err IndexOutOfRange
  | Some l =>
      if decide (l = dot) then Ok (String.append (JoinStr (take (length labels - 1) labels) dot) dot)
      else Ok (Fqdn (JoinStr labels dot))
  end.

(** ** zone.go *)

Definition NewZone (name : string) : Zone :=
  mkZone (Fqdn name) (CountLabel (Fqdn name)) (mkTree Nil 0) empty_apex false [].

Definition CopyWithoutApex (z : Zone) : Zone :=
  mkZone (Fqdn (origin z)) (CountLabel (Fqdn (origin z))) (mkTree Nil 0) empty_apex (Expired z) (TransferFrom z).

Definition canonicalEscape (name : string) : string :=
  if negb (Contains name "\") then name else default name (RepackName name).

(** The record as it is filed: owner and targets in lower case, except for
    SRV records. *)
Definition lowered (r : RR) : RR :=
  let r := if decide (rr_type r <> TypeSRV) then set_name (ToLower (canonicalEscape (rr_name r))) r else r in
  match Data r with
  | RNS ns => set_data r (RNS (ToLower ns))
  | RSOA ns mbox a b c d e => set_data r (RSOA (ToLower ns) (ToLower mbox) a b c d e)
  | RCNAME t => set_data r (RCNAME (ToLower t))
  | RMX p mx => set_data r (RMX p (ToLower mx))
  | RSVCB t => set_data r (RSVCB (ToLower t))
  | RHTTPS t => set_data r (RHTTPS (ToLower t))
  | _ => r
  end.

(** The Go type of a record is that of its data. *)
Definition typed (r : RR) : bool :=
  let ty t := bool_decide (rr_type r = t) in
  match Data r with
  | RNS _ => ty TypeNS
  | RSOA _ _ _ _ _ _ _ => ty TypeSOA
  | RRRSIG _ _ _ => ty TypeRRSIG
  | RCNAME _ => ty TypeCNAME
  | RDNAME _ => ty TypeDNAME
  | RMX _ _ => ty TypeMX
  | RSRV _ _ _ _ => ty TypeSRV
  | RSVCB _ => ty TypeSVCB
  | RHTTPS _ => ty TypeHTTPS
  | _ => negb (bool_decide (rr_type r ∈ [TypeNS; TypeSOA; TypeRRSIG; TypeCNAME; TypeDNAME; TypeMX; TypeSRV;
                                          TypeSVCB; TypeHTTPS]))
  end.

Inductive insert_error : Type :=
| ErrNSEC3
| Fault (f : go_fault).

Definition Insert_ (z : Zone) (r0 : RR) : result insert_error Zone :=
  if negb (typed r0) then Err (Fault BadAssertion)
  else
    let r := lowered r0 in
    let a := apex z in
    let at_origin := bool_decide (rr_name r = origin z) in
    let to_tree := match Insert (tree z) r with Ok t => Ok (set_tree z t) | Err f => Err (Fault f) end in
    match Data r with
    | RNS _ =>
        if at_origin then Ok (set_apex z (mkApex (SOA a) (NS a ++ [r]) (SIGSOA a) (SIGNS a))) else to_tree
    | RSOA _ _ _ _ _ _ _ => Ok (set_apex z (mkApex (Some r) (NS a) (SIGSOA a) (SIGNS a)))
    | RRRSIG t _ _ =>
        if decide (t = TypeSOA) then Ok (set_apex z (mkApex (SOA a) (NS a) (SIGSOA a ++ [r]) (SIGNS a)))
        else if bool_decide (t = TypeNS) && at_origin
        then Ok (set_apex z (mkApex (SOA a) (NS a) (SIGSOA a) (SIGNS a ++ [r])))
        else to_tree
    | _ =>
        if decide (rr_type r = TypeNSEC3 \/ rr_type r = TypeNSEC3PARAM) then Err ErrNSEC3 else to_tree
    end.

Definition setData (z : Zone) (a : Apex) (t : Tree) : Zone :=
  mkZone (origin z) (origLen z) t a false (TransferFrom z).

(** [None]: no SOA. *)
Definition apex_records (a : Apex) : option (list RR) :=
  match SOA a with
  | None => None
  | Some soa => Some (soa :: SIGSOA a ++ NS a ++ SIGNS a)
  end.

(** [k] more labels off the right end of [qname[:n]]; [None]: overshot. *)
Fixpoint strip_labels (k : nat) (qname : string) (n : nat) : option nat :=
  match k with
  | O => Some n
  | S k' =>
      let '(m, shot) := PrevLabel (take_str n qname) 1 in
      if shot : bool then None else strip_labels k' qname m
  end.

Definition nameFromRight (z : Zone) (qname : string) (i : nat) : string * bool :=
  match i with
  | O => (origin z, false)
  | _ =>
      match strip_labels (origLen z) qname (String.length qname) with
      | None => (qname, true)
      | Some n =>
          match strip_labels i qname n with
          | None => (qname, true)
          | Some n => (drop_str n qname, false)
          end
      end
  end.

(** ** Glue (tree/glue.go) *)

Definition searchGlue (t : Tree) (nm : string) (do : bool) : list RR :=
  let one ty := match Search t nm with
                | (Some e, true) =>
                    Type_ e ty ++ (if do then SubTypeSignature (Type_ e TypeRRSIG) ty else [])
                | _ => []
                end in
  one TypeA ++ one TypeAAAA.

Definition Glue (t : Tree) (nsrrs : list RR) (do : bool) : list RR :=
  nsrrs ≫= fun rr => match Data rr with
                     | RNS ns => if IsSubDomain (rr_name rr) ns then searchGlue t ns do else []
                     | _ => []
                     end.

(** ** Small functions of lookup.go, closest.go, dname.go, wildcard.go *)

Definition typeFromElem (e : Elem) (tp : Z) (do : bool) : list RR :=
  Type_ e tp ++ (if do then SubTypeSignature (Type_ e TypeRRSIG) tp else []).

Definition apex_soa (a : Apex) (soa : RR) (do : bool) : list RR := soa :: (if do then SIGSOA a else []).
Definition apex_ns (a : Apex) (do : bool) : list RR := NS a ++ (if do then SIGNS a else []).

Fixpoint closest_loop (fuel : nat) (z : Zone) (qname : string) : result go_fault (option Elem) :=
  match fuel with
  | O => Err OutOfFuel
  | S fuel' =>
      let '(offset, end_) := NextLabel qname 0 in
      if end_ : bool then Ok (Search (tree z) (origin z)).1
      else match (Search (tree z) qname).1 with
           | Some e => Ok (Some e)
           | None => closest_loop fuel' z (drop_str offset qname)
           end
  end.

Definition ClosestEncloser (z : Zone) (qname : string) : result go_fault (option Elem) :=
  closest_loop (S (String.length qname)) z qname.

Definition substituteDNAME (qname owner target : string) : result go_fault string :=
  if IsSubDomain owner qname && negb (bool_decide (qname = owner)) then
    let labels := SplitDomainName qname in
    if decide (length labels < CountLabel owner)%nat then Err IndexOutOfRange
    else Join (take (length labels - CountLabel owner) labels ++ SplitDomainName target)
  else Ok EmptyString.

Definition synthesizeCNAME (qname : string) (d : RR) : result go_fault (option RR) :=
  match Data d with
  | RDNAME t =>
      target ← substituteDNAME qname (rr_name d) t;
      if decide (target = EmptyString) then Ok None
      else Ok (Some (mkRR (mkHdr qname TypeCNAME ClassINET (rr_ttl d)) (RCNAME target)))
  | _ => Err BadAssertion
  end.

Definition replaceWithAsteriskLabel (qname : string) : string :=
  let '(i, shot) := NextLabel qname 0 in
  if shot : bool then EmptyString else String.append "*." (drop_str i qname).

(** The name an answer record refers to. *)
Definition target_of (rr : RR) : string :=
  match Data rr with
  | RSRV _ _ _ t => t
  | RMX _ t => t
  | RSVCB t => t
  | RHTTPS t => t
  | _ => EmptyString
  end.

Definition additionalProcessing (z : Zone) (answer : list RR) (do : bool) : list RR :=
  answer ≫= fun rr =>
    let nm := target_of rr in
    if bool_decide (nm = EmptyString) || negb (IsSubDomain (origin z) nm) then []
    else match (Search (tree z) nm).1 with
         | None => []
         | Some e =>
             [TypeA; TypeAAAA] ≫= fun addr =>
               match Type_ e addr with
               | [] => []
               | a => a ++ (if do then SubTypeSignature (Type_ e TypeRRSIG) addr else [])
               end
         end.

(** ** CNAME chasing *)

(** The upstream: the recursion depth, the name, the type; an error, or the
    message written, if any. *)
Variable upstream : nat -> string -> Z -> result unit (option Msg).

Definition doLookup (loop : nat) (target : string) (qtype : Z) : list RR * Result_ :=
  match upstream loop target qtype with
  | Err _ => ([], ServerFailure)
  | Ok None => ([], Success)
  | Ok (Some m) =>
      if decide (Rcode m = RcodeNameError) then (Answer m, NameError)
      else if decide (Rcode m = RcodeServerFailure) then (Answer m, ServerFailure)
      else if decide (Rcode m = RcodeSuccess /\ Answer m = []) then (Answer m, NoData)
      else (Answer m, Success)
  end.

Definition cname_target (rrs : list RR) : result go_fault string :=
  match rrs with
  | [] => Err IndexOutOfRange
  | rr :: _ => match Data rr with RCNAME t => Ok t | _ => Err BadAssertion end
  end.

(** [elem == nil || (qtype == NS || qtype == SOA && target == origin)] *)
Definition goes_out (z : Zone) (e : option Elem) (qtype : Z) (target : string) : bool :=
  match e with
  | None => true
  | Some _ => bool_decide (qtype = TypeNS \/ qtype = TypeSOA /\ target = origin z)
  end.

Definition leave (z : Zone) (loop : nat) (rrs : list RR) (target : string) (qtype : Z) (do : bool) : Answer_ :=
  let '(more, r) := doLookup loop target qtype in
  mkAns (rrs ++ more) (apex_ns (apex z) do) [] r.

(** From [Redo]; [k] is the number of CNAMEs that may still be followed. *)
Fixpoint redo (k : nat) (z : Zone) (loop : nat) (e : Elem) (rrs : list RR) (qtype : Z) (do : bool)
  : result go_fault Answer_ :=
  match Type_ e TypeCNAME with
  | [] =>
      let targets := Type_ e qtype in
      Ok (mkAns (rrs ++ (match targets with
                         | [] => []
                         | _ => targets ++ (if do then SubTypeSignature (Type_ e TypeRRSIG) qtype else [])
                         end)) (apex_ns (apex z) do) [] Success)
  | cname =>
      let rrs := rrs ++ cname ++ (if do then SubTypeSignature (Type_ e TypeRRSIG) TypeCNAME else []) in
      target ← cname_target cname;
      let e' := (Search (tree z) target).1 in
      if goes_out z e' qtype target then Ok (leave z loop rrs target qtype do)
      else match e', k with
           | Some e', S k' => redo k' z loop e' rrs qtype do
           | _, _ => Ok (mkAns rrs (apex_ns (apex z) do) [] Success)
           end
  end.

Definition externalLookup (z : Zone) (loop : nat) (e : Elem) (rrs : list RR) (qtype : Z) (do : bool)
  : result go_fault Answer_ :=
  let rrs := rrs ++ (if do then SubTypeSignature (Type_ e TypeRRSIG) TypeCNAME else []) in
  target ← cname_target rrs;
  let e' := (Search (tree z) target).1 in
  if goes_out z e' qtype target then Ok (leave z loop rrs target qtype do)
  else match e' with
       | Some e' => redo 8 z loop e' rrs qtype do
       | None => Err NilDeref
       end.

(** ** [Lookup] *)

(** How the walk from the origin ends: with an answer, or having overshot the
    name, with the last search and the last wildcard found. *)
Inductive walked : Type :=
| Answered (a : Answer_)
| Overshot (e : option Elem) (wild : option Elem).

(** The record a DNAME at [e] synthesizes, if there is one and it applies. *)
Definition dname_at (e : Elem) (qname : string) : result go_fault (option RR) :=
  match Type_ e TypeDNAME with
  | [] => Ok None
  | d :: _ => synthesizeCNAME qname d
  end.

Definition answer_dname (z : Zone) (loop : nat) (e : Elem) (cname : RR) (qtype : Z) (do : bool)
  : result go_fault Answer_ :=
  a ← (if decide (qtype = TypeCNAME) then Ok (mkAns [cname] (apex_ns (apex z) do) [] Success)
       else externalLookup z (S loop) e [cname] qtype do);
  let dnamerrs := Type_ e TypeDNAME ++ (if do then SubTypeSignature (Type_ e TypeRRSIG) TypeDNAME else []) in
  Ok (mkAns (dnamerrs ++ ans a) (auth a) (extra a) (res a)).

Definition answer_delegation (z : Zone) (e : Elem) (do : bool) : Answer_ :=
  let nsrrs := Type_ e TypeNS in
  mkAns [] (nsrrs ++ (if do then typeFromElem e TypeDS do else [])) (Glue (tree z) nsrrs do) Delegation.

Fixpoint walk_loop (fuel i : nat) (z : Zone) (loop : nat) (sname qname : string) (qtype : Z) (do : bool)
  (e wild : option Elem) : result go_fault walked :=
  match fuel with
  | O => Err OutOfFuel
  | S fuel' =>
      let '(parts, shot) := nameFromRight z qname i in
      if shot : bool then Ok (Overshot e wild)
      else match Search (tree z) parts with
           | (_, false) =>
               let wild := match Search (tree z) (replaceWithAsteriskLabel parts) with
                           | (w, true) => w
                           | _ => wild
                           end in
               walk_loop fuel' (S i) z loop sname qname qtype do None wild
           | (None, true) => Err NilDeref
           | (Some e, true) =>
               dn ← dname_at e sname;
               match dn with
               | Some cname => a ← answer_dname z loop e cname qtype do; Ok (Answered a)
               | None =>
                   match Type_ e TypeNS with
                   | [] => walk_loop fuel' (S i) z loop sname qname qtype do (Some e) wild
                   | _ =>
                       if bool_decide (qtype = TypeDS) && bool_decide (ElemName e = qname)
                       then walk_loop fuel' (S i) z loop sname qname qtype do (Some e) wild
                       else Ok (Answered (answer_delegation z e do))
                   end
               end
           end
  end.

(** The name itself was found. *)
Definition answer_found (z : Zone) (soa : RR) (loop : nat) (e : Elem) (qtype : Z) (do : bool)
  : result go_fault Answer_ :=
  let cname := Type_ e TypeCNAME in
  if bool_decide (cname <> []) && bool_decide (qtype <> TypeCNAME) then externalLookup z (S loop) e cname qtype do
  else match Type_ e qtype with
       | [] => Ok (mkAns [] (apex_soa (apex z) soa do ++ (if do then typeFromElem e TypeNSEC do else [])) [] NoData)
       | rrs => Ok (mkAns (rrs ++ (if do then SubTypeSignature (Type_ e TypeRRSIG) qtype else []))
                      (apex_ns (apex z) do) (additionalProcessing z rrs do) Success)
       end.

(** A wildcard was found on the way. *)
Definition answer_wildcard (z : Zone) (soa : RR) (loop : nat) (w : Elem) (qname : string) (qtype : Z) (do : bool)
  : result go_fault Answer_ :=
  let cname := TypeForWildcard w TypeCNAME qname in
  if bool_decide (cname <> []) && bool_decide (qtype <> TypeCNAME) then externalLookup z (S loop) w cname qtype do
  else match TypeForWildcard w qtype qname with
       | [] => Ok (mkAns [] (apex_soa (apex z) soa do ++ (if do then typeFromElem w TypeNSEC do else [])) [] NoData)
       | rrs =>
           let deny := if do then match Prev (tree z) qname with
                                  | (Some d, true) => typeFromElem d TypeNSEC do
                                  | _ => []
                                  end else [] in
           Ok (mkAns (rrs ++ (if do then SubTypeSignature (TypeForWildcard w TypeRRSIG qname) qtype else []))
                 (apex_ns (apex z) do ++ deny) [] Success)
       end.

(** Nothing was found: a denial, with success for an empty non-terminal. *)
Definition answer_denial (z : Zone) (soa : RR) (qname : string) (do : bool) : result go_fault Answer_ :=
  let rcode := match Next (tree z) qname with
               | (Some x, true) => if IsSubDomain qname (ElemName x) then Success else NameError
               | _ => NameError
               end in
  let ret := apex_soa (apex z) soa do in
  if negb do then Ok (mkAns [] ret [] rcode)
  else match Prev (tree z) qname with
       | (Some deny, true) =>
           let ret := ret ++ typeFromElem deny TypeNSEC do in
           if decide (rcode <> NameError) then Ok (mkAns [] ret [] rcode)
           else
             ce ← ClosestEncloser z qname;
             let wild := match ce with
                         | Some ce =>
                             match Prev (tree z) (String.append "*." (ElemName ce)) with
                             | (Some ss, true) =>
                                 if decide (ElemName ss <> ElemName deny) then typeFromElem ss TypeNSEC do else []
                             | _ => []
                             end
                         | None => []
                         end in
             Ok (mkAns [] (ret ++ wild) [] rcode)
       | _ => Ok (mkAns [] ret [] rcode)
       end.

Definition Lookup_ (z : Zone) (loop : nat) (r : Msg) (qname : string) : result go_fault Answer_ :=
  let qtype := QType_ r in
  let do := Do r in
  match SOA (apex z) with
  | None => Ok (mkAns [] [] [] ServerFailure)
  | Some soa =>
      if decide (qname = origin z /\ qtype = TypeSOA)
      then Ok (mkAns (apex_soa (apex z) soa do) (apex_ns (apex z) do) [] Success)
      else if decide (qname = origin z /\ qtype = TypeNS)
      then let nsrrs := apex_ns (apex z) do in Ok (mkAns nsrrs [] (Glue (tree z) nsrrs do) Success)
      else if decide (8 < loop)%nat then Ok (mkAns [] [] [] ServerFailure)
      else
        w ← walk_loop (2 + String.length qname) 0 z loop (Name_ r) qname qtype do None None;
        match w with
        | Answered a => Ok a
        | Overshot (Some e) _ => answer_found z soa loop e qtype do
        | Overshot None (Some w) => answer_wildcard z soa loop w qname qtype do
        | Overshot None None => answer_denial z soa qname do
        end
  end.

End zone.
