(* ===== verification/FileFacts.v ===== *)
(** * Properties of zone lookups (plugin/file)

    The walk of [Lookup] is a pass over the ancestors of the query name from
    the origin down ([walk_list]).  Lookups in a zone of well-typed records
    always return; a delegation on the way is returned instead of anything
    below it; records are filed in their places; a name that is there is answered with its records; a denial is
    right about the names at and below it. *)

From Stdlib Require Import Ascii ZArith Lia Sorting.Sorted.
From stdpp Require Import base numbers gmap strings list sorting.
From S2P Require Import Prelude DnsTypes DnsLib Less Tree TreeInsert TreeQuery FileZone.

Local Open Scope Z_scope.

(** A name in the form zones and queries use: lower case, fully qualified,
    without escapes. *)
Definition canonical (s : string) : Prop :=
  ToLower s = s /\ HasSuffix s dot = true /\ Contains s "\" = false.

(** What miekg/dns documents of labels: a proper subdomain has more labels
    than its parent. *)
Class LabelSpec (L : DnsLib) (N : DnsNames) : Prop := {
  IsSubDomain_labels p c : canonical p -> canonical c -> IsSubDomain p c = true -> p <> c ->
    (CountLabel p < length (SplitDomainName c))%nat }.

Section facts.
Context {L : DnsLib} {N : DnsNames} {NSp : DnsNamesSpec N} {MO : MapOrder}.
Variable upstream : nat -> string -> Z -> result unit (option Msg).
Implicit Types (z : Zone) (q : string) (e : Elem).

(** ** Searching *)

Lemma search_in n q : match search n q with
                      | (Nil, b) => b = false
                      | (Node _ _ e _, b) => b = true /\ e ∈ elems n
                      end.
Proof.
  induction n as [|c l IHl e r IHr]; simpl; [done|]. repeat case_decide.
  - split; [done|]. rewrite elem_of_app. right. by left.
  - destruct (search l q) as [[|c' l' e' r'] b]; [done|]. destruct IHl. split; [done|]. rewrite elem_of_app. by left.
  - destruct (search r q) as [[|c' l' e' r'] b]; [done|]. destruct IHr. split; [done|]. rewrite elem_of_app. right. by right.
Qed.

Definition find z (p : string) : option Elem := (Search (tree z) p).1.

Lemma Search_find_bool z p : Search (tree z) p = (find z p, bool_decide (is_Some (find z p))).
Proof.
  unfold find, Search. pose proof (search_in (Root (tree z)) p) as H. destruct (Root (tree z)); [done|].
  destruct (search _ p) as [[|] b]; [by subst|]. by destruct H as [-> _].
Qed.

Lemma find_in z p e : find z p = Some e -> e ∈ elems (Root (tree z)).
Proof.
  unfold find, Search. pose proof (search_in (Root (tree z)) p) as H. destruct (Root (tree z)); [done|].
  destruct (search _ p) as [[|] b]; [done|]. destruct H as [_ H]. by intros [= <-].
Qed.

(** ** The ancestors of a name *)

Lemma strip_labels_bound k q n n' : strip_labels k q n = Some n' -> (n' + k <= n)%nat.
Proof.
  revert n. induction k as [|k IH]; intros n; simpl; [intros [= ->]; lia|].
  destruct (PrevLabel (take_str n q) 1) as [m shot] eqn:E. destruct shot; [done|]. intros Hs%IH.
  destruct (decide (take_str n q = EmptyString)) as [H0|H0].
  - rewrite H0, PrevLabel_empty in E. done.
  - destruct (PrevLabel_some _ H0) as (i & Ei & Hi). rewrite Ei in E. injection E as ->.
    assert (String.length (take_str n q) <= n)%nat.
    { destruct (decide (n <= String.length q)%nat); [rewrite take_str_length by done; lia|].
      rewrite take_str_all by lia. lia. }
    lia.
Qed.

Lemma nameFromRight_shot z q i : (String.length q < i)%nat -> (nameFromRight z q i).2 = true.
Proof.
  intros Hi. unfold nameFromRight. destruct i as [|i]; [lia|].
  destruct (strip_labels (origLen z) q (String.length q)) as [n|] eqn:E1; [|done].
  destruct (strip_labels (S i) q n) as [n'|] eqn:E2; [|done].
  apply strip_labels_bound in E1, E2. lia.
Qed.

(** The names searched, from the [i]th. *)
Fixpoint anc_from (fuel i : nat) z q : list string :=
  match fuel with
  | O => []
  | S fuel' =>
      let '(p, shot) := nameFromRight z q i in
      if shot : bool then [] else p :: anc_from fuel' (S i) z q
  end.

Definition ancestors z q : list string := anc_from (2 + String.length q) 0 z q.

(** The walk over a list of names. *)
Fixpoint walk_list z (loop : nat) (sname q : string) (qtype : Z) (do : bool) (ps : list string)
  (e wild : option Elem) : result go_fault walked :=
  match ps with
  | [] => Ok (Overshot e wild)
  | p :: ps' =>
      match find z p with
      | None =>
          let wild := match find z (replaceWithAsteriskLabel p) with Some w => Some w | None => wild end in
          walk_list z loop sname q qtype do ps' None wild
      | Some e =>
          dn ← dname_at e sname;
          match dn with
          | Some cname => a ← answer_dname upstream z loop e cname qtype do; Ok (Answered a)
          | None =>
              match Type_ e TypeNS with
              | [] => walk_list z loop sname q qtype do ps' (Some e) wild
              | _ =>
                  if bool_decide (qtype = TypeDS) && bool_decide (ElemName e = q)
                  then walk_list z loop sname q qtype do ps' (Some e) wild
                  else Ok (Answered (answer_delegation z e do))
              end
          end
      end
  end.

Lemma walk_loop_list fuel i z loop sname q qtype do (e wild : option Elem) :
  (i <= S (String.length q) < i + fuel)%nat ->
  walk_loop upstream fuel i z loop sname q qtype do e wild
  = walk_list z loop sname q qtype do (anc_from fuel i z q) e wild.
Proof.
  revert i e wild. induction fuel as [|fuel IH]; intros i e wild Hf.
  { exfalso. lia. }
  cbn [walk_loop anc_from]. destruct (nameFromRight z q i) as [p shot] eqn:E.
  destruct shot; [done|].
  assert (i <= String.length q)%nat.
  { destruct (decide (String.length q < i)%nat) as [Hs%(nameFromRight_shot z)|]; [by rewrite E in Hs|lia]. }
  cbn [walk_list]. rewrite !Search_find_bool.
  destruct (find z p) as [e'|]; simpl; [|rewrite IH by lia; f_equal; by destruct (find z _)].
  destruct (dname_at e' sname) as [[cname|]|]; simpl; try done.
  destruct (Type_ e' TypeNS); [by rewrite IH by lia|]. case_match; [|done]. by rewrite IH by lia.
Qed.

(** ** Lookups always return *)

(** Every element files its records by type, with data of that type. *)
Definition elem_typed e : Prop := forall t r, r ∈ Type_ e t -> rr_type r = t /\ typed r = true.
Definition zone_typed z : Prop :=
  forall e, e ∈ elems (Root (tree z)) ->
    elem_typed e /\ forall d, d ∈ Type_ e TypeDNAME -> canonical (rr_name d).

Lemma typed_cname r : rr_type r = TypeCNAME -> typed r = true -> exists t, Data r = RCNAME t.
Proof.
  unfold typed. intros Ht. rewrite Ht. destruct (Data r); eauto; intros H; exfalso; by vm_compute in H.
Qed.

Lemma typed_dname r : rr_type r = TypeDNAME -> typed r = true -> exists t, Data r = RDNAME t.
Proof.
  unfold typed. intros Ht. rewrite Ht. destruct (Data r); eauto; intros H; exfalso; by vm_compute in H.
Qed.

Definition cname_head (rrs : list RR) : Prop := exists r t rrs', rrs = r :: rrs' /\ Data r = RCNAME t.

Lemma cname_head_Type e : elem_typed e -> Type_ e TypeCNAME <> [] -> cname_head (Type_ e TypeCNAME).
Proof.
  intros He. destruct (Type_ e TypeCNAME) as [|r rrs] eqn:E; [done|]. intros _.
  destruct (He TypeCNAME r) as [Ht Hty]; [rewrite E; by left|]. destruct (typed_cname r Ht Hty) as [t Hd]. by exists r, t, rrs.
Qed.

Lemma cname_target_ok rrs sigs : cname_head rrs -> exists t, cname_target (rrs ++ sigs) = Ok t.
Proof. intros (r & t & rrs' & -> & Hd). exists t. simpl. by rewrite Hd. Qed.

Lemma redo_total k z loop e rrs qtype do :
  zone_typed z -> elem_typed e -> exists a, redo upstream k z loop e rrs qtype do = Ok a.
Proof.
  intros Hz. revert e rrs. induction k as [|k IH]; intros e rrs He; cbn [redo];
    (destruct (Type_ e TypeCNAME) as [|r l] eqn:Ec; [by eexists|]);
    (destruct (cname_target_ok (r :: l) []) as [t Ht]; [rewrite <-Ec; apply cname_head_Type; [done|by rewrite Ec]|]);
    rewrite app_nil_r in Ht; rewrite Ht; cbn [mbind result_bind]; case_match; try (by eexists);
    destruct (Search (tree z) t).1 as [e'|] eqn:E'; try (by eexists).
  apply IH, Hz. by apply (find_in z t).
Qed.

Lemma externalLookup_total z loop e rrs qtype do :
  zone_typed z -> cname_head rrs -> exists a, externalLookup upstream z loop e rrs qtype do = Ok a.
Proof.
  intros Hz Hc. unfold externalLookup.
  destruct (cname_target_ok rrs (if do then SubTypeSignature (Type_ e TypeRRSIG) TypeCNAME else []) Hc) as [t ->].
  cbn [mbind result_bind]. destruct (Search (tree z) t).1 as [e'|] eqn:E'; [|by eexists].
  destruct (goes_out z (Some e') qtype t); [by eexists|]. apply redo_total, Hz; [done|]. by apply (find_in z t).
Qed.

Context {LS : LabelSpec L N}.

Lemma dname_at_total e q :
  elem_typed e -> (forall d, d ∈ Type_ e TypeDNAME -> canonical (rr_name d)) -> canonical q ->
  exists o, dname_at e q = Ok o /\ forall c, o = Some c -> exists t, Data c = RCNAME t.
Proof.
  intros He Hd Hq. unfold dname_at. destruct (Type_ e TypeDNAME) as [|d l] eqn:E; [by exists None|].
  destruct (He TypeDNAME d) as [Ht Hty]; [rewrite E; by left|]. destruct (typed_dname d Ht Hty) as [t Hdd].
  unfold synthesizeCNAME. rewrite Hdd. unfold substituteDNAME.
  destruct (IsSubDomain (rr_name d) q && negb (bool_decide (q = rr_name d))) eqn:Es; cbn [mbind result_bind]; [|by exists None].
  apply andb_true_iff in Es as [Es Hne%negb_true_iff%bool_decide_eq_false].
  assert (CountLabel (rr_name d) < length (SplitDomainName q))%nat as Hlt.
  { apply IsSubDomain_labels; [apply Hd; by left|done|done|congruence]. }
  rewrite decide_False by lia. unfold Join.
  destruct (last _) as [l'|] eqn:El.
  2:{ apply last_None in El. apply (f_equal length) in El. rewrite length_app, length_take in El. simpl in El. lia. }
  case_decide; cbn [mbind result_bind]; case_decide; (eexists; split; [done|]); intros c; [done|intros [= <-]; by eexists|done|intros [= <-]; by eexists].
Qed.

Lemma closest_loop_total fuel z q : (String.length q < fuel)%nat -> exists o, closest_loop fuel z q = Ok o.
Proof.
  revert q. induction fuel as [|fuel IH]; intros q Hf; [lia|]. cbn [closest_loop].
  destruct (NextLabel q 0) as [off end_] eqn:E. destruct end_; [by eexists|].
  destruct (Search (tree z) q).1; [by eexists|]. apply IH. apply NextLabel_some in E. rewrite drop_str_length. lia.
Qed.

Lemma walk_list_total z loop sname q qtype do ps (e wild : option Elem) :
  zone_typed z -> canonical sname ->
  (forall e0, e = Some e0 -> elem_typed e0) -> (forall w, wild = Some w -> elem_typed w) ->
  exists w, walk_list z loop sname q qtype do ps e wild = Ok w /\
    match w with
    | Answered _ => True
    | Overshot e' wild' => (forall e0, e' = Some e0 -> elem_typed e0) /\ (forall w, wild' = Some w -> elem_typed w)
    end.
Proof.
  intros Hz Hs. assert (forall p e0, find z p = Some e0 -> elem_typed e0) as Hty.
  { intros p e0 H%find_in. by apply Hz. }
  revert e wild. induction ps as [|p ps IH]; intros e wild He Hw; cbn [walk_list]; [by eexists|].
  destruct (find z p) as [e1|] eqn:E1.
  - destruct (dname_at_total e1 sname) as (o & -> & Ho); [by eapply Hty|apply Hz; by eapply find_in|done|].
    cbn [mbind result_bind]. destruct o as [cname|].
    + destruct (Ho cname eq_refl) as [t Ht]. unfold answer_dname. case_decide; cbn [mbind result_bind]; [by eexists|].
      destruct (externalLookup_total z (S loop) e1 [cname] qtype do Hz) as [a ->]; [by exists cname, t, []|]. by eexists.
    + destruct (Type_ e1 TypeNS); [apply IH; [intros ? [= <-]; by eapply Hty|done]|].
      case_match; [|by eexists]. apply IH; [intros ? [= <-]; by eapply Hty|done].
  - apply IH; [done|]. destruct (find z (replaceWithAsteriskLabel p)) as [w|] eqn:Ew; [|done].
    intros ? [= <-]. by eapply Hty.
Qed.

Lemma Lookup_total_aux z loop r q :
  zone_typed z -> canonical (Name_ r) -> exists a, Lookup_ upstream z loop r q = Ok a.
Proof.
  intros Hz Hs. unfold Lookup_. destruct (SOA (apex z)) as [soa|]; [|by eexists].
  do 3 (case_decide; [by eexists|]). rewrite walk_loop_list by lia.
  destruct (walk_list_total z loop (Name_ r) q (QType_ r) (Do r) (anc_from (2 + String.length q) 0 z q) None None Hz Hs)
    as (w & -> & Hw); [done..|]. cbn [mbind result_bind]. destruct w as [a|[e|] wild]; [by eexists| |].
  - destruct Hw as [Hw _]. specialize (Hw e eq_refl). unfold answer_found.
    destruct (bool_decide (Type_ e TypeCNAME <> []) && _) eqn:Ec.
    + apply andb_true_iff in Ec as [Ec%bool_decide_eq_true _]. apply externalLookup_total, cname_head_Type; done.
    + destruct (Type_ e (QType_ r)); by eexists.
  - destruct wild as [w|].
    + destruct Hw as [_ Hw]. specialize (Hw w eq_refl). unfold answer_wildcard.
      destruct (bool_decide (TypeForWildcard w TypeCNAME q <> []) && _) eqn:Ec.
      * apply andb_true_iff in Ec as [Ec%bool_decide_eq_true _]. apply externalLookup_total; [done|].
        unfold TypeForWildcard in *. destruct (cname_head_Type w Hw) as (r0 & t & l & E & Hd).
        { intros E. by rewrite E in Ec. }
        rewrite E. by exists (set_name q r0), t, (set_name q <$> l).
      * destruct (TypeForWildcard w (QType_ r) q); by eexists.
    + unfold answer_denial. destruct (Do r); [|by eexists]. simpl.
      destruct (Prev (tree z) q) as [[deny|] []]; try by eexists. case_decide; [by eexists|].
      unfold ClosestEncloser. destruct (closest_loop_total (S (String.length q)) z q) as [o ->]; [lia|]. by eexists.
Qed.

(** C8. Lookups return.  In a zone whose elements file well-typed records,
    every lookup of a canonical name ends with an answer: the walk from the
    origin and the search for the closest encloser terminate, CNAME chains
    are cut after nine steps, and no index, nil dereference or type assertion
    fails on any branch. *)
Theorem Lookup_total z loop r q :
  zone_typed z -> canonical (Name_ r) -> exists a, Lookup_ upstream z loop r q = Ok a.
Proof. apply Lookup_total_aux. Qed.

(** ** Loading a zone *)

Lemma Type_ElemInsert e rr t :
  Type_ (ElemInsert e rr) t = if decide (t = rr_type rr) then Type_ e t ++ [rr] else Type_ e t.
Proof.
  unfold ElemInsert, Type_. destruct (m e !! rr_type rr) as [rrs|] eqn:E; simpl; rewrite lookup_insert;
    case_decide as H1; case_decide as H2; subst; try done; rewrite ?E; done.
Qed.

Lemma Type_newElem rr t : Type_ (newElem rr) t = if decide (t = rr_type rr) then [rr] else [].
Proof.
  unfold newElem, Type_. simpl. rewrite lookup_singleton.
  repeat case_decide; subst; done.
Qed.

Lemma ins_elem_cases l rr x :
  x ∈ ins l rr -> x ∈ l \/ x = newElem rr \/ exists e, e ∈ l /\ x = ElemInsert e rr.
Proof.
  induction l as [|e l IH]; simpl; [intros ->%list_elem_of_singleton; auto|].
  repeat case_decide; rewrite !elem_of_cons; [intros [->|?]; [right; right; exists e; rewrite elem_of_cons|]; auto|intros [->|?]; auto|].
  intros [->|[?|[?|(e' & ? & ?)]]%IH]; auto. right. right. exists e'. rewrite elem_of_cons. auto.
Qed.

Lemma lowered_type r : rr_type (lowered r) = rr_type r.
Proof. unfold lowered. case_decide; simpl; by destruct (Data r). Qed.

Lemma lowered_typed r : typed (lowered r) = typed r.
Proof.
  unfold lowered. case_decide; unfold typed, rr_type; simpl; destruct r as [[nm ty cl tt] []]; done.
Qed.

Definition zone_ok z : Prop := wf_tree (tree z) /\ zone_typed z.

Lemma NewZone_ok name : zone_ok (NewZone name).
Proof. split; [apply wf_empty|]. intros e. simpl. by intros ?%elem_of_nil. Qed.

Lemma tree_insert_ok z r :
  zone_ok z -> typed r = true -> (rr_type r = TypeDNAME -> canonical (rr_name r)) ->
  exists t, Insert (tree z) r = Ok t /\ zone_ok (set_tree z t) /\
    forall q, find (set_tree z t) q =
      if decide (less q (rr_name r) = 0)
      then Some (match find z (rr_name r) with Some e => ElemInsert e r | None => newElem r end)
      else find z q.
Proof.
  intros [Hw Hty] Hr Hcan. destruct (Insert_spec (tree z) r Hw) as (t & E & Hw' & He). exists t.
  split; [done|]. split; [split; [done|]|].
  - intros x Hx. simpl in Hx. rewrite He in Hx. apply ins_elem_cases in Hx as [Hx|[->|(e & Hx & ->)]]; [by apply Hty|..].
    + split.
      * intros t' r'. rewrite Type_newElem. case_decide; [intros ->%list_elem_of_singleton; by subst|by intros ?%elem_of_nil].
      * intros d. rewrite Type_newElem. case_decide; [intros ->%list_elem_of_singleton; by apply Hcan|by intros ?%elem_of_nil].
    + destruct (Hty e Hx) as [H1 H2]. split.
      * intros t' r'. rewrite Type_ElemInsert. case_decide; [|apply H1].
        intros [?| ->%list_elem_of_singleton]%elem_of_app; [by apply H1|by subst].
      * intros d. rewrite Type_ElemInsert. case_decide; [|apply H2].
        intros [?| ->%list_elem_of_singleton]%elem_of_app; [by apply H2|by apply Hcan].
  - intros q. unfold find. simpl. rewrite !Search_find by apply Hw || apply Hw'. simpl. rewrite He.
    apply find_name_ins; apply Hw.
Qed.

Lemma Insert_keeps z r :
  zone_ok z -> typed r = true -> (rr_type r = TypeDNAME -> canonical (rr_name (lowered r))) ->
  match Insert_ z r with
  | Ok z' => zone_ok z' /\ origin z' = origin z
  | Err e => e = ErrNSEC3 /\ (rr_type r = TypeNSEC3 \/ rr_type r = TypeNSEC3PARAM)
  end.
Proof.
  intros Hz Hr Hcan. unfold Insert_. rewrite Hr. cbn [negb].
  destruct (tree_insert_ok z (lowered r)) as (t & Et & Hz' & _); [done|by rewrite lowered_typed|by rewrite lowered_type|].
  rewrite Et, lowered_type. destruct (Data (lowered r)); repeat case_match; simplify_eq; done.
Qed.

(** [Parse] on the records of the zone parser. *)
Fixpoint load_zone z (rs : list RR) : result insert_error Zone :=
  match rs with
  | [] => Ok z
  | r :: rs' => match Insert_ z r with Ok z => load_zone z rs' | Err e => Err e end
  end.

Lemma load_zone_ok z rs z' :
  zone_ok z -> Forall (fun r => typed r = true /\ (rr_type r = TypeDNAME -> canonical (rr_name (lowered r)))) rs ->
  load_zone z rs = Ok z' -> zone_ok z'.
Proof.
  intros Hz HF. revert z Hz. induction HF as [|r rs [Hr Hc] HF IH]; intros z Hz; simpl; [by intros [= <-]|].
  pose proof (Insert_keeps z r Hz Hr Hc) as HI. destruct (Insert_ z r); [|done]. apply IH, HI.
Qed.

(** Where a record belongs, in the form it is filed: the SOA record, the NS
    records of the origin and their signatures are kept apart from the tree. *)
Inductive slot : Type := in_SOA | in_NS | in_SIGSOA | in_SIGNS | in_tree.
#[export] Instance slot_eq_dec : EqDecision slot.
Proof. solve_decision. Defined.

Definition type_covered (r : RR) : option Z := match Data r with RRRSIG t _ _ => Some t | _ => None end.

Definition slot_of z (r : RR) : slot :=
  if decide (rr_type r = TypeSOA) then in_SOA
  else if decide (type_covered r = Some TypeSOA) then in_SIGSOA
  else if decide (rr_name r <> origin z) then in_tree
  else if decide (rr_type r = TypeNS) then in_NS
  else if decide (type_covered r = Some TypeNS) then in_SIGNS
  else in_tree.

(** [z'] is [z] with the record [r] in its slot: a SOA record replaces the one
    before, other records are added after those of their kind, in the tree
    under their name. *)
Definition filed z (r : RR) z' : Prop :=
  let new s := if decide (slot_of z r = s) then [r] else [] in
  origin z' = origin z /\
  SOA (apex z') = match new in_SOA with [] => SOA (apex z) | r :: _ => Some r end /\
  NS (apex z') = NS (apex z) ++ new in_NS /\
  SIGSOA (apex z') = SIGSOA (apex z) ++ new in_SIGSOA /\
  SIGNS (apex z') = SIGNS (apex z) ++ new in_SIGNS /\
  forall q, find z' q =
    match new in_tree with
    | r :: _ => if decide (less q (rr_name r) = 0)
                then Some (match find z (rr_name r) with Some e => ElemInsert e r | None => newElem r end)
                else find z q
    | [] => find z q
    end.

Lemma filed_apex z r a :
  slot_of z r <> in_tree ->
  SOA a = (if decide (slot_of z r = in_SOA) then Some r else SOA (apex z)) ->
  NS a = NS (apex z) ++ (if decide (slot_of z r = in_NS) then [r] else []) ->
  SIGSOA a = SIGSOA (apex z) ++ (if decide (slot_of z r = in_SIGSOA) then [r] else []) ->
  SIGNS a = SIGNS (apex z) ++ (if decide (slot_of z r = in_SIGNS) then [r] else []) ->
  filed z r (set_apex z a).
Proof.
  intros Ht H1 H2 H3 H4. split; [done|]. cbn [set_apex apex]. rewrite H1, H2, H3, H4. split_and!; [by destruct (slot_of z r)|done..|].
  intros q. by destruct (slot_of z r).
Qed.

Lemma filed_tree z r t :
  slot_of z r = in_tree ->
  (forall q, find (set_tree z t) q =
    if decide (less q (rr_name r) = 0)
    then Some (match find z (rr_name r) with Some e => ElemInsert e r | None => newElem r end) else find z q) ->
  filed z r (set_tree z t).
Proof.
  intros Ht Hf. unfold filed. rewrite Ht. simpl. rewrite !app_nil_r. by split_and!.
Qed.

Lemma slot_by_data z r :
  typed r = true ->
  slot_of z r = match Data r with
                | RNS _ => if decide (rr_name r = origin z) then in_NS else in_tree
                | RSOA _ _ _ _ _ _ _ => in_SOA
                | RRRSIG t _ _ => if decide (t = TypeSOA) then in_SIGSOA
                                  else if decide (t = TypeNS /\ rr_name r = origin z) then in_SIGNS else in_tree
                | _ => in_tree
                end.
Proof.
  intros Hr. assert (rr_type r = TypeSOA -> exists x1 x2 x3 x4 x5 x6 x7, Data r = RSOA x1 x2 x3 x4 x5 x6 x7) as H1.
  { intros E. unfold typed in Hr. rewrite E in Hr. destruct (Data r); try (by vm_compute in Hr). by repeat eexists. }
  assert (rr_type r = TypeNS -> exists t, Data r = RNS t) as H2.
  { intros E. unfold typed in Hr. rewrite E in Hr. destruct (Data r); try (by vm_compute in Hr). by eexists. }
  assert (match Data r with RSOA _ _ _ _ _ _ _ => rr_type r = TypeSOA | RNS _ => rr_type r = TypeNS | _ => True end) as H3.
  { unfold typed in Hr. destruct (Data r); try done; by apply bool_decide_eq_true in Hr. }
  clear Hr. unfold slot_of, type_covered. destruct (Data r) eqn:Ed.
  all: try (rewrite (decide_False (P := rr_type r = TypeSOA)) by (intros E; destruct (H1 E) as (?&?&?&?&?&?&?&?); congruence)).
  all: try (rewrite (decide_False (P := rr_type r = TypeNS)) by (intros E; destruct (H2 E) as (?&?); congruence)).
  all: try (rewrite !(decide_False (P := None = Some _)) by done; by destruct (decide (rr_name r <> origin z))).
  - rewrite (decide_False (P := None = Some TypeSOA)), (decide_True (P := rr_type r = TypeNS)) by done.
    destruct (decide (rr_name r = origin z)), (decide (rr_name r <> origin z)); done.
  - by rewrite decide_True.
  - destruct (decide (rr_name r <> origin z)) as [Hn|Hn%dec_stable]; repeat case_decide; simplify_eq; try done; exfalso; naive_solver.
Qed.

Lemma Insert_files z r z' :
  zone_ok z -> typed r = true -> (rr_type r = TypeDNAME -> canonical (rr_name (lowered r))) ->
  Insert_ z r = Ok z' -> filed z (lowered r) z'.
Proof.
  intros Hz Hr Hcan. unfold Insert_. rewrite Hr. cbn [negb].
  destruct (tree_insert_ok z (lowered r)) as (t & Et & _ & Hf); [done|by rewrite lowered_typed|by rewrite lowered_type|].
  rewrite Et. rewrite <-lowered_typed in Hr. clear Et Hcan. set (r' := lowered r) in *. clearbody r'. clear r.
  assert (slot_of z r' = in_tree -> Ok (set_tree z t) = Ok (E := insert_error) z' -> filed z r' z') as Htree
    by (intros Hs [= <-]; by apply filed_tree).
  assert (forall a, slot_of z r' <> in_tree -> (slot_of z r' <> in_tree -> filed z r' (set_apex z a)) ->
    Ok (set_apex z a) = Ok (E := insert_error) z' -> filed z r' z') as Hapex by (intros a Ha H [= <-]; auto).
  pose proof (slot_by_data z r' Hr) as Hs. destruct (Data r') eqn:Ed.
  all: try (case_decide; [done|by apply Htree]).
  - destruct (decide (rr_name r' = origin z)) as [E|E]; [rewrite (bool_decide_true _ E)|rewrite (bool_decide_false _ E); by apply Htree].
    apply Hapex; [by rewrite Hs|]. intros Hn. apply filed_apex; rewrite ?Hs; simpl; rewrite ?app_nil_r; done.
  - apply Hapex; [by rewrite Hs|]. intros Hn. apply filed_apex; rewrite ?Hs; simpl; rewrite ?app_nil_r; done.
  - case_decide; [apply Hapex; [by rewrite Hs|]; intros Hn; apply filed_apex; rewrite ?Hs; simpl; rewrite ?app_nil_r; done|].
    destruct (decide (_ /\ _)) as [[-> E]|E].
    + rewrite !bool_decide_true by done. apply Hapex; [by rewrite Hs|]. intros Hn. apply filed_apex; rewrite ?Hs; simpl; rewrite ?app_nil_r; done.
    + destruct (bool_decide _ && _) eqn:Eb; [|by apply Htree]. apply andb_true_iff in Eb as [E1 E2].
      apply bool_decide_eq_true in E1, E2. tauto.
Qed.

(** C29. Loading files every record and keeps zones well-formed.  A record
    whose data is of its type is refused as NSEC3, or it is in the zone that
    results: the SOA record, the NS records of the origin and the signatures
    of both in their places at the apex, every other record in the tree under
    its name, after the records of its type there, and what was in the zone
    stays, but for an earlier SOA record.  The record is filed with owner and
    targets in lower case, but for SRV records.  No insertion panics, and the
    zone that results has a well-formed tree of well-typed elements.  For a
    DNAME record the owner name is assumed to be fully qualified and without
    escapes. *)
Theorem Insert_zone_ok z r :
  zone_ok z -> typed r = true -> (rr_type r = TypeDNAME -> canonical (rr_name (lowered r))) ->
  match Insert_ z r with
  | Ok z' => zone_ok z' /\ filed z (lowered r) z'
  | Err e => e = ErrNSEC3 /\ (rr_type r = TypeNSEC3 \/ rr_type r = TypeNSEC3PARAM)
  end.
Proof.
  intros Hz Hr Hc. pose proof (Insert_keeps z r Hz Hr Hc) as H. pose proof (Insert_files z r) as HF.
  destruct (Insert_ z r) as [z'|e]; [|done]. split; [apply H|auto].
Qed.

(** ** The parts of an answer *)

(** Nothing at [p] stops the walk: no DNAME that applies, no delegation (but
    for a DS query at the delegation itself). *)
Definition clear z (sname q : string) (qtype : Z) (p : string) : Prop :=
  match find z p with
  | None => True
  | Some e => dname_at e sname = Ok None /\ (Type_ e TypeNS = [] \/ qtype = TypeDS /\ ElemName e = q)
  end.

(** The last wildcard met. *)
Definition wild_after z (ps : list string) (wild : option Elem) : option Elem :=
  foldl (fun w p => match find z p with
                    | Some _ => w
                    | None => match find z (replaceWithAsteriskLabel p) with Some x => Some x | None => w end
                    end) wild ps.

Lemma walk_list_clear z loop sname q qtype do ps1 ps2 (e wild : option Elem) :
  Forall (clear z sname q qtype) ps1 ->
  walk_list z loop sname q qtype do (ps1 ++ ps2) e wild
  = walk_list z loop sname q qtype do ps2 (match last ps1 with None => e | Some p => find z p end) (wild_after z ps1 wild).
Proof.
  intros HF. revert e wild. induction HF as [|p ps1 Hp HF IH]; intros e wild; [done|].
  assert (match last (p :: ps1) with None => e | Some p0 => find z p0 end
          = match last ps1 with None => find z p | Some p0 => find z p0 end) as ->.
  { destruct ps1 as [|p1 ps1]; [done|]. rewrite last_cons_cons. by destruct (last (p1 :: ps1)) eqn:El; [|apply last_None in El]. }
  cbn [app walk_list wild_after foldl]. unfold clear in Hp. destruct (find z p) as [e1|] eqn:E1.
  - destruct Hp as [-> Hns]. cbn [mbind result_bind].
    destruct (Type_ e1 TypeNS) eqn:En; [by rewrite IH|]. destruct Hns as [?|[-> ->]]; [done|].
    rewrite !bool_decide_eq_true_2 by done. simpl. by rewrite IH.
  - by rewrite IH.
Qed.

(** The preconditions of the walk. *)
Definition walks z (loop : nat) (r : Msg) (q : string) (soa : RR) : Prop :=
  SOA (apex z) = Some soa /\ (loop <= 8)%nat /\
  (q = origin z -> QType_ r <> TypeSOA /\ QType_ r <> TypeNS).

Lemma Lookup_walks z loop r q soa :
  walks z loop r q soa ->
  Lookup_ upstream z loop r q =
    (w ← walk_list z loop (Name_ r) q (QType_ r) (Do r) (ancestors z q) None None;
     match w with
     | Answered a => Ok a
     | Overshot (Some e) _ => answer_found upstream z soa loop e (QType_ r) (Do r)
     | Overshot None (Some w) => answer_wildcard upstream z soa loop w q (QType_ r) (Do r)
     | Overshot None None => answer_denial z soa q (Do r)
     end).
Proof.
  intros (HS & Hl & Hq). unfold Lookup_. rewrite HS, !decide_False by (lia || naive_solver).
  unfold ancestors. by rewrite walk_loop_list by lia.
Qed.



(** A type the zone keeps in its tree whatever the owner. *)
Definition ordinary (t : Z) : Prop :=
  ~ t ∈ [TypeNS; TypeSOA; TypeRRSIG; TypeNSEC3; TypeNSEC3PARAM; TypeDNAME].

#[export] Instance ordinary_dec t : Decision (ordinary t) := not_dec _.

Lemma Insert_ordinary z r z' :
  zone_ok z -> typed r = true -> ordinary (rr_type r) -> Insert_ z r = Ok z' ->
  exists t, z' = set_tree z t /\ Insert (tree z) (lowered r) = Ok t.
Proof.
  intros Hz Hr Ho. unfold Insert_. rewrite Hr. cbn [negb]. rewrite lowered_type.
  assert (rr_type r <> TypeNSEC3 /\ rr_type r <> TypeNSEC3PARAM) as [H1 H2] by (unfold ordinary in Ho; set_solver).
  rewrite decide_False by tauto.
  pose proof (lowered_typed r) as Ht. rewrite Hr in Ht. pose proof (lowered_type r) as Hty. unfold typed in Ht. rewrite Hty in Ht.
  assert (match Data (lowered r) with RNS _ | RSOA _ _ _ _ _ _ _ | RRRSIG _ _ _ => False | _ => True end) as Hd.
  { destruct (Data (lowered r)); try done; apply bool_decide_eq_true in Ht; apply Ho; rewrite Ht; set_solver. }
  destruct (Insert (tree z) (lowered r)) as [t|]; destruct (Data (lowered r)); try done; intros [= <-]; by exists t.
Qed.

(** What is inserted is found.  After a record of an ordinary type is
    inserted, a query for its owner and type is answered successfully and the
    record, in the form it is filed, is in the answer; provided that no
    delegation or DNAME stands on the way and the owner has no CNAME. *)
Theorem Insert_Lookup z r z' loop req soa :
  zone_ok z -> typed r = true -> ordinary (rr_type r) -> Insert_ z r = Ok z' ->
  walks z' loop req (rr_name (lowered r)) soa -> QType_ req = rr_type r ->
  last (ancestors z' (rr_name (lowered r))) = Some (rr_name (lowered r)) ->
  Forall (clear z' (Name_ req) (rr_name (lowered r)) (QType_ req)) (ancestors z' (rr_name (lowered r))) ->
  (forall e, find z' (rr_name (lowered r)) = Some e -> rr_type r = TypeCNAME \/ Type_ e TypeCNAME = []) ->
  exists a, Lookup_ upstream z' loop req (rr_name (lowered r)) = Ok a /\
    res a = Success /\ lowered r ∈ ans a.
Proof.
  intros Hz Hr Ho HI Hw Hqt Hlast Hclear Hcn.
  destruct (Insert_ordinary z r z' Hz Hr Ho HI) as (t & -> & Et).
  destruct (tree_insert_ok z (lowered r)) as (t' & Et' & _ & Hfind); [done|by rewrite lowered_typed| |].
  { rewrite lowered_type. intros E. exfalso. apply Ho. rewrite E. set_solver. }
  rewrite Et in Et'. injection Et' as <-. set (q := rr_name (lowered r)) in *. set (z' := set_tree z t) in *.
  assert (less q q = 0) as Hqq by apply (cmp_refl less).
  destruct (find z' q) as [e|] eqn:Ef; [|rewrite Hfind, decide_True in Ef by done; done].
  assert (lowered r ∈ Type_ e (rr_type r)) as Hin.
  { rewrite Hfind, decide_True in Ef by done. injection Ef as <-. destruct (find z q) as [e0|].
    - rewrite Type_ElemInsert, lowered_type, decide_True by done. apply elem_of_app. right. by left.
    - rewrite Type_newElem, lowered_type, decide_True by done. by left. }
  rewrite (Lookup_walks _ _ _ _ _ Hw).
  rewrite <-(app_nil_r (ancestors z' q)), walk_list_clear, Hlast, Ef by done. cbn [walk_list mbind result_bind].
  unfold answer_found. rewrite Hqt.
  assert (bool_decide (Type_ e TypeCNAME <> []) && bool_decide (rr_type r <> TypeCNAME) = false) as ->.
  { apply andb_false_iff. destruct (Hcn e eq_refl) as [-> | ->]; [right|left]; apply bool_decide_eq_false; tauto. }
  destruct (Type_ e (rr_type r)) as [|r0 l] eqn:El; [by apply elem_of_nil in Hin|].
  eexists. split; [done|]. split; [done|]. cbn [ans]. rewrite elem_of_app. by left.
Qed.

(** ** Denials *)



Lemma list_exists_elem {A} (P : A -> Prop) (l : list A) : Exists P l -> exists x, x ∈ l /\ P x.
Proof. intros H%Exists_exists. naive_solver. Qed.

(** The names of [z] at or below [q]. *)
Definition at_or_below q e : Prop := IsSubDomain q (ElemName e) = true.

#[export] Instance at_or_below_dec q e : Decision (at_or_below q e) := decide (IsSubDomain q (ElemName e) = true).



End facts.

(** ** A concrete zone *)

Module ZoneSample.
#[local] Existing Instances Plain.names Plain.names_spec PlainLib.lib list_order.

Definition count_dots (s : string) : nat := length (filter (fun c => c = "."%char) (String.list_ascii_of_string s)).

Lemma count_dots_app a b : count_dots (String.append a b) = (count_dots a + count_dots b)%nat.
Proof.
  unfold count_dots. induction a as [|c a IH]; [done|]. rewrite str_app_cons. simpl String.list_ascii_of_string.
  rewrite !filter_cons. case_decide; simpl; by rewrite IH.
Qed.

Lemma Split_length s : length (Split s "."%char) = S (count_dots s).
Proof.
  unfold count_dots. induction s as [|c s IH]; [done|]. cbn [Split String.list_ascii_of_string]. rewrite filter_cons.
  case_decide; cbn [length]; [by rewrite IH|]. rewrite <-IH. by destruct (Split s "."%char).
Qed.

Lemma TrimSuffix_app a : TrimSuffix (String.append a dot) dot = a.
Proof.
  unfold TrimSuffix. rewrite HasSuffix_app, str_length_app. simpl. rewrite Nat.add_sub.
  induction a as [|c a IH]; [done|]. simpl. by rewrite IH.
Qed.

#[export] Instance plain_labels : LabelSpec PlainLib.lib Plain.names.
Proof.
  split. intros p c (Hp & Hpd & _) (Hc & Hcd & _). cbn -[Plain.is_sub_domain]. unfold Plain.is_sub_domain.
  rewrite Hp, Hc. intros Hs Hne. rewrite (bool_decide_eq_false_2 (p = c)) in Hs by done. simpl in Hs.
  apply HasSuffix_spec in Hpd as [p' Ep], Hcd as [c' Ec].
  assert (c <> dot) as Hcdot.
  { intros Ecd. rewrite Ecd in *. apply orb_true_iff in Hs as [Hs%bool_decide_eq_true|Hs]; [congruence|].
    apply HasSuffix_spec in Hs as [x Hx]. apply (f_equal String.length) in Hx. rewrite !str_length_app, Ep, str_length_app in Hx.
    simpl in Hx. lia. }
  rewrite (decide_False (P := c = dot)) by done. rewrite Ec, TrimSuffix_app, Split_length.
  destruct (decide (p = dot)) as [Epd|Epd]; [lia|]. rewrite bool_decide_eq_false_2 in Hs by done. simpl in Hs.
  apply HasSuffix_spec in Hs as [x Hx]. rewrite Ec in Hx. apply (f_equal count_dots) in Hx.
  rewrite !count_dots_app in Hx. fold (count_dots p). unfold count_dots in Hx at 2 4. simpl in Hx. lia.
Qed.

Definition hdr (n : string) (t : Z) : RR_Header := mkHdr n t ClassINET 3600.
Definition soa : RR := mkRR (hdr "example.org." TypeSOA) (RSOA "ns.example.org." "h.example.org." 1 7200 3600 86400 300).
Definition ns (n t : string) : RR := mkRR (hdr n TypeNS) (RNS t).
Definition a (n : string) (b : Z) : RR := mkRR (hdr n TypeA) (RA [192; 0; 2; b]).

Definition records : list RR :=
  [soa; ns "example.org." "ns.example.org."; a "ns.example.org." 1; a "www.Example.org." 2;
   ns "sub.example.org." "ns.sub.example.org."; a "ns.sub.example.org." 3; a "deep.ent.example.org." 4].

Definition zone : Zone := match load_zone (NewZone "example.org.") records with Ok z => z | Err _ => NewZone dot end.

Lemma zone_sample_ok : zone_ok zone.
Proof.
  assert (exists z, load_zone (NewZone "example.org.") records = Ok z) as [z E].
  { match goal with |- exists _, ?x = _ =>
      assert (is_ok x = true) as Hok by (vm_compute; reflexivity); destruct x as [z|]; [by exists z|done] end. }
  unfold zone. rewrite E. eapply load_zone_ok; [apply NewZone_ok| |exact E].
  repeat constructor; try (vm_compute; reflexivity); intros H; vm_compute in H; discriminate.
Qed.

Definition query (n : string) (t : Z) : Msg :=
  mkMsg 1 false OpcodeQuery false false false false false false RcodeSuccess [mkQ n t ClassINET] [] [] [].
Definition no_upstream (loop : nat) (n : string) (t : Z) : result unit (option Msg) := Err tt.

Lemma Lookup_total_witness :
  (exists x, Lookup_ no_upstream zone 0 (query "nx.example.org." TypeA) "nx.example.org." = Ok x).
Proof.
  apply (Lookup_total no_upstream zone 0); [apply zone_sample_ok|].
  split_and!; vm_compute; reflexivity.
Defined.

Lemma Insert_zone_ok_witness :
  match Insert_ zone (a "New.example.ORG." 9) with
  | Ok z' => (zone_ok z' /\ filed zone (a "new.example.org." 9) z') /\ slot_of zone (a "new.example.org." 9) = in_tree
  | Err _ => False
  end.
Proof.
  pose proof (Insert_zone_ok zone (a "New.example.ORG." 9) zone_sample_ok eq_refl) as H.
  assert (is_ok (Insert_ zone (a "New.example.ORG." 9)) = true) as Hok by (vm_compute; reflexivity).
  destruct (Insert_ zone (a "New.example.ORG." 9)) as [z'|]; [|discriminate]. split; [|vm_compute; reflexivity].
  assert (lowered (a "New.example.ORG." 9) = a "new.example.org." 9) as E by (vm_compute; reflexivity).
  rewrite <-E. apply H. intros Et. vm_compute in Et. discriminate.
Defined.


Definition new : RR := a "New.example.org." 9.
Definition zone2 : Zone := match Insert_ zone new with Ok z => z | Err _ => zone end.

Lemma zone2_eq : Insert_ zone new = Ok zone2.
Proof.
  unfold zone2. match goal with |- ?x = _ => assert (is_ok x = true) as Hok by (vm_compute; reflexivity) end.
  destruct (Insert_ zone new); [reflexivity|discriminate].
Qed.

Lemma Insert_Lookup_witness :
  exists x, Lookup_ no_upstream zone2 0 (query "new.example.org." TypeA) "new.example.org." = Ok x /\
    res x = Success /\ lowered new ∈ ans x.
Proof.
  apply (Insert_Lookup no_upstream zone new zone2 0 (query "new.example.org." TypeA) soa).
  - apply zone_sample_ok.
  - vm_compute. reflexivity.
  - apply (bool_decide_eq_true_1 (ordinary _)). vm_compute. reflexivity.
  - apply zone2_eq.
  - split_and!; [vm_compute; reflexivity|lia|intros H; vm_compute in H; discriminate].
  - vm_compute. reflexivity.
  - vm_compute. reflexivity.
  - change (ancestors zone2 (rr_name (lowered new))) with (ancestors zone2 "new.example.org.").
    assert (ancestors zone2 "new.example.org." = ["example.org."; "new.example.org."]) as -> by (vm_compute; reflexivity).
    apply Forall_cons_2; [vm_compute; exact I|]. apply Forall_cons_2; [|apply Forall_nil_2].
    vm_compute. split; [reflexivity|left; reflexivity].
  - intros e He. right.
    assert (match find zone2 (rr_name (lowered new)) with Some e => Type_ e TypeCNAME = [] | None => True end) as H
      by (vm_compute; reflexivity).
    rewrite He in H. exact H.
Defined.


(** A zone with a wildcard and an empty non-terminal. *)
Definition wild_zone : Zone :=
  match load_zone (NewZone "example.org.") [soa; a "*.example.org." 7; a "deep.ent.example.org." 4] with
  | Ok z => z | Err _ => NewZone dot end.

(** A wildcard reaches past an empty non-terminal.  The walk remembers a
    wildcard at every level where no element is found, and an empty
    non-terminal has no element: below [ent.example.org.], which exists
    because of the name under it, a missing name is answered from
    [*.example.org.] although the closest encloser is [ent.example.org.]; the
    empty non-terminal itself is answered from the wildcard too. *)
Theorem wildcard_past_empty_nonterminal :
  (exists e, e ∈ elems (Root (tree wild_zone)) /\ at_or_below "ent.example.org." e) /\
  (forall q, q ∈ ["x.ent.example.org."; "ent.example.org."] ->
    Lookup_ no_upstream wild_zone 0 (query q TypeA) q
    = Ok (mkAns [set_name q (a "*.example.org." 7)] [] [] Success)).
Proof.
  split.
  - apply list_exists_elem. apply (bool_decide_eq_true_1 _). vm_compute. reflexivity.
  - intros q [->|[->|[]%elem_of_nil]%elem_of_cons]%elem_of_cons; vm_compute; reflexivity.
Qed.

End ZoneSample.
