(* ===== verification/Xfer.v ===== *)
(** * Zone transfers out (plugin/transfer) and the client's address

    The transfer plugin: which clients a zone may be sent to, the batching of
    a zone's records into messages of less than 64 kilobytes, the reply to a
    client that is up to date, and the notifications sent to secondaries.
    [net.SplitHostPort] of the standard library is here, with the address
    functions of request/request.go that use it.  The size of a record on the
    wire, the network and the plugins that hold zones are parameters. *)

From Stdlib Require Import Ascii ZArith Lia.
From stdpp Require Import base numbers gmap strings list.
From S2P Require Import Prelude DnsTypes DnsLib Serve.

Local Open Scope Z_scope.

(** ** Addresses *)

(** [strings.IndexByte] and [strings.LastIndexByte]; [None] is -1. *)
Fixpoint IndexByte (s : string) (c : ascii) : option nat :=
  match s with
  | EmptyString => None
  | String d s' => if decide (d = c) then Some 0%nat else S <$> IndexByte s' c
  end.

Fixpoint LastIndexByte (s : string) (c : ascii) : option nat :=
  match s with
  | EmptyString => None
  | String d s' =>
      match LastIndexByte s' c with
      | Some i => Some (S i)
      | None => if decide (d = c) then Some 0%nat else None
      end
  end.

(** net.SplitHostPort; [None]: an error. *)
Definition net_SplitHostPort (hostport : string) : option (string * string) :=
  match LastIndexByte hostport ":" with
  | None => None
  | Some i =>
      let no c from := bool_decide (IndexByte (drop_str from hostport) c = None) in
      let parts host j k :=
        if no "["%char j && no "]"%char k then Some (host, drop_str (S i) hostport) else None in
      if HasPrefix hostport "[" then
        match IndexByte hostport "]" with
        | None => None
        | Some e => if decide (S e = i) then parts (take_str (e - 1) (drop_str 1 hostport)) 1%nat (S e) else None
        end
      else
        let host := take_str i hostport in
        if bool_decide (IndexByte host ":" = None) then parts host 0%nat 0%nat else None
  end.

(** What a handler sees of the client: the text of its address, and whether
    it came over TCP. *)
Record Client := mkClient { RemoteAddr : string; over_tcp : bool }.

Definition IP (w : Client) : string :=
  match net_SplitHostPort (RemoteAddr w) with
  | Some (ip, _) => ip
  | None => RemoteAddr w
  end.

Definition Proto (w : Client) : string := if over_tcp w then "tcp" else "udp".

(** ** The plugin *)

Record xfr := mkXfr { Zones : list string; to : list string }.

(** What [Transfer] of a plugin gives: an error, or what it will send on the
    channel. *)
Inductive transferred : Type :=
| ErrNotAuthoritative
| ErrOther
| Chan (records : list (list RR)).

Definition Transferer := string -> Z -> transferred.

Record Transfer := mkTransfer {
  Transferers : list Transferer;
  xfrs : list xfr;
  Next_ : option Handler }.

Fixpoint allowed_loop (hosts : list string) (ip : string) : bool :=
  match hosts with
  | [] => false
  | h :: hosts' =>
      if decide (h = "*") then true
      else match net_SplitHostPort h with
           | None => false
           | Some (t, _) => if decide (t = ip) then true else allowed_loop hosts' ip
           end
  end.

Definition allowed (x : xfr) (w : Client) : bool := allowed_loop (to x) (IP w).

Section transfer.
Context {L : DnsLib} {N : DnsNames}.

Fixpoint longest_loop (xs : list xfr) (name : string) (zone : string) (best : option xfr) : option xfr :=
  match xs with
  | [] => best
  | x :: xs' =>
      let z := Matches (Zones x) name in
      if bool_decide (z <> EmptyString)
         && (bool_decide (String.length zone < String.length z)%nat
             || bool_decide (String.length zone = String.length z) && String.ltb zone z)
      then longest_loop xs' name z (Some x)
      else longest_loop xs' name zone best
  end.

Definition longestMatch (xs : list xfr) (name : string) : option xfr := longest_loop xs name EmptyString None.

(** The records of the first plugin that holds the zone; [None]: no plugin
    does; an error: the plugin failed. *)
Fixpoint first_transferer (ps : list Transferer) (zone : string) (serial : Z)
  : result unit (option (list (list RR))) :=
  match ps with
  | [] => Ok None
  | p :: ps' =>
      match p zone serial with
      | ErrNotAuthoritative => first_transferer ps' zone serial
      | ErrOther => Err tt
      | Chan records => Ok (Some records)
      end
  end.

(** dns.Len *)
Variable RRLen : RR -> Z.

Definition max_batch : Z := 63000.

(** One record: [rrs] is the batch so far, [size] its size, and the batches
    before it have been sent. *)
Definition batch_rr (st : list (list RR) * list RR * Z) (rr : RR) : list (list RR) * list RR * Z :=
  let '(sent, rrs, size) := st in
  if bool_decide (rrs <> []) && bool_decide (max_batch < size + RRLen rr)
  then (sent ++ [rrs], [rr], RRLen rr)
  else (sent, rrs ++ [rr], size + RRLen rr).

Definition soa_of (r : RR) : option RR := match Data r with RSOA _ _ _ _ _ _ _ => Some r | _ => None end.

Fixpoint batch_loop (records : list (list RR)) (st : list (list RR) * list RR * Z) (soa : option RR)
  : result go_fault (list (list RR) * list RR * option RR) :=
  match records with
  | [] => Ok (st.1, soa)
  | [] :: _ => Err IndexOutOfRange
  | (r :: rs) :: records' =>
      let soa := match soa with None => soa_of r | s => s end in
      batch_loop records' (foldl batch_rr st (r :: rs)) soa
  end.

(** What the handler did: the code and error, the envelopes handed to
    [Out], and the message written besides. *)
Record Sent := mkSent { served : Served; envelopes : list (list RR) }.

(** [m.SetRcode(r, REFUSED)] and the reply that holds only the SOA. *)
Definition refusal (r : Msg) : Msg :=
  let m := SetReply r in
  mkMsg (Id m) (Response m) (Opcode m) (Authoritative m) (Truncated m) (RecursionDesired m) (RecursionAvailable m)
    (AuthenticatedData m) (CheckingDisabled m) RcodeRefused (Question m) (Answer m) (Ns_ m) (Extra m).
Definition soa_reply (r : Msg) (soa : RR) : Msg :=
  let m := SetReply r in
  mkMsg (Id m) (Response m) (Opcode m) (Authoritative m) (Truncated m) (RecursionDesired m) (RecursionAvailable m)
    (AuthenticatedData m) (CheckingDisabled m) (Rcode m) (Question m) [soa] (Ns_ m) (Extra m).

(** [Out] writes the envelopes in order and stops at the first that fails;
    [ok n] says whether the [n]th write succeeds.  The handler then ends with
    an error, having handed over the envelopes up to that one. *)
Fixpoint out (ok : nat -> bool) (n : nat) (envs : list (list RR)) : list (list RR) * bool :=
  match envs with
  | [] => ([], true)
  | e :: envs' =>
      if ok n then let '(sent, b) := out ok (S n) envs' in (e :: sent, b) else ([e], false)
  end.

(** The serial of an incremental request, 0 for a full one; [None]: the
    request is malformed. *)
Definition request_serial (r : Msg) : option Z :=
  if decide (QType_ r = TypeIXFR) then
    match Ns_ r with
    | [rr] => match Data rr with RSOA _ _ serial _ _ _ _ => Some serial | _ => None end
    | _ => None
    end
  else Some 0.

(** From the channel of records to the client. *)
Definition send_zone (ok : nat -> bool) (r : Msg) (records : list (list RR)) : result go_fault Sent :=
  b ← batch_loop records ([], [], 0) None;
  let '(full, rrs, soa) := b in
  match rrs, soa with
  | [_], Some s =>
      let '(sent, fine) := out ok 0 full in
      if fine : bool then Ok (mkSent (mkServed 0 (Some (soa_reply r s)) false) sent)
      else Ok (mkSent (mkServed RcodeServerFailure None true) sent)
  | _, _ =>
      let '(sent, fine) := out ok 0 (full ++ (if decide (rrs = []) then [] else [rrs])) in
      if fine : bool then Ok (mkSent (mkServed 0 None false) sent)
      else Ok (mkSent (mkServed RcodeServerFailure None true) sent)
  end.

Definition pass (t : Transfer) (r : Msg) : Sent := mkSent (NextOrFailure (Next_ t) r) [].
Definition give (code : Z) (w : option Msg) (err : bool) : Sent := mkSent (mkServed code w err) [].

Definition transfer_ServeDNS (ok : nat -> bool) (t : Transfer) (w : Client) (r : Msg) : result go_fault Sent :=
  if decide (QType_ r <> TypeAXFR /\ QType_ r <> TypeIXFR) then Ok (pass t r)
  else if decide (Proto w <> "tcp") then Ok (give RcodeRefused None false)
  else match longestMatch (xfrs t) (Name_ r) with
       | None => Ok (pass t r)
       | Some x =>
           if negb (allowed x w) then Ok (give 0 (Some (refusal r)) false)
           else match request_serial r with
                | None => Ok (give RcodeServerFailure None false)
                | Some serial =>
                    match first_transferer (Transferers t) (Name_ r) serial with
                    | Err _ => Ok (give RcodeServerFailure None true)
                    | Ok None => Ok (pass t r)
                    | Ok (Some records) => send_zone ok r records
                    end
                end
       end.

(** ** Notifications (notify.go) *)

(** The exchange with a host, by try: an error or the code of the reply. *)
Variable exchange : string -> nat -> result unit Z.

(** [k] tries left of three; the error of the last try, if it had one. *)
Fixpoint notify_tries (s : string) (n k : nat) : bool * nat :=
  match k with
  | O => (false, 0%nat)
  | S k' =>
      match exchange s n with
      | Ok c => if decide (c = RcodeSuccess) then (true, 1%nat)
                else let '(b, m) := notify_tries s (S n) k' in (b, S m)
      | Err _ => let '(b, m) := notify_tries s (S n) k' in (b, S m)
      end
  end.

(** Did the host accept, and how many messages were sent. *)
Definition sendNotify (s : string) : bool * nat := notify_tries s 0 3.

(** The hosts a message was sent to, with the number of messages, and
    whether all of them accepted. *)
Definition Notify (t : option Transfer) (zone : string) : list (string * nat) * bool :=
  match t with
  | None => ([], true)
  | Some t =>
      match longestMatch (xfrs t) zone with
      | None => ([], true)
      | Some x =>
          let hosts := filter (fun h => h <> "*") (to x) in
          ((fun h => (h, (sendNotify h).2)) <$> hosts, forallb (fun h => (sendNotify h).1) hosts)
      end
  end.

End transfer.
