(* ===== verification/FileSame.v ===== *)
(** * Lookups depend on the data of a zone alone

    Two zones with the same origin, apex and elements in name order answer
    every query alike, whatever the shape of their trees: [Search], [Prev] and
    [Next] are functions of the elements, and a lookup reads the tree through
    these.  Used for zones that were transferred or reloaded. *)

From Stdlib Require Import Ascii ZArith Lia.
From stdpp Require Import base numbers gmap strings list.
From S2P Require Import Prelude DnsTypes DnsLib Less Tree TreeInsert TreeQuery FileZone FileFacts.

Local Open Scope Z_scope.

Section same.
Context {L : DnsLib} {N : DnsNames} {NSp : DnsNamesSpec N} {MO : MapOrder}.
Variable upstream : nat -> string -> Z -> result unit (option Msg).
Implicit Types (z : Zone) (q : string) (e : Elem) (loop : nat).

Record same_data z z' : Prop := {
  same_origin : origin z' = origin z;
  same_len : origLen z' = origLen z;
  same_apex : apex z' = apex z;
  same_elems : elems (Root (tree z')) = elems (Root (tree z));
  same_sorted : sorted (elems (Root (tree z))) }.

Section pair.
Context (z z' : Zone) (Hs : same_data z z').

Lemma same_Search q : Search (tree z') q = Search (tree z) q.
Proof. destruct Hs as [_ _ _ He Hz]. rewrite !Search_find; rewrite ?He; done. Qed.

Lemma same_Prev q : Prev (tree z') q = Prev (tree z) q.
Proof.
  destruct Hs as [_ _ _ He Hz]. destruct (Prev_Next_elems (tree z) q) as [-> _]; [done|].
  destruct (Prev_Next_elems (tree z') q) as [-> _]; rewrite ?He; done.
Qed.

Lemma same_Next q : Next (tree z') q = Next (tree z) q.
Proof.
  destruct Hs as [_ _ _ He Hz]. destruct (Prev_Next_elems (tree z) q) as [_ ->]; [done|].
  destruct (Prev_Next_elems (tree z') q) as [_ ->]; rewrite ?He; done.
Qed.

Lemma same_Glue nsrrs do : Glue (tree z') nsrrs do = Glue (tree z) nsrrs do.
Proof.
  unfold Glue. induction nsrrs as [|r rs IH]; [done|]. rewrite !bind_cons, IH. f_equal.
  destruct (Data r); try done. case_match; [|done]. unfold searchGlue. by rewrite same_Search.
Qed.

Lemma same_additional rrs do : additionalProcessing z' rrs do = additionalProcessing z rrs do.
Proof.
  unfold additionalProcessing. induction rrs as [|r rs IH]; [done|]. rewrite !bind_cons, IH. f_equal.
  by rewrite (same_origin _ _ Hs), same_Search.
Qed.

Lemma same_closest fuel q : closest_loop fuel z' q = closest_loop fuel z q.
Proof.
  revert q. induction fuel as [|fuel IH]; intros q; cbn [closest_loop]; [done|].
  destruct (NextLabel q 0) as [off []]; rewrite ?(same_origin _ _ Hs), same_Search; [done|].
  by destruct (Search (tree z) q).1.
Qed.

Lemma same_leave loop rrs target qtype do : leave upstream z' loop rrs target qtype do = leave upstream z loop rrs target qtype do.
Proof. unfold leave. by rewrite (same_apex _ _ Hs). Qed.

Lemma same_redo k loop e rrs qtype do : redo upstream k z' loop e rrs qtype do = redo upstream k z loop e rrs qtype do.
Proof.
  revert e rrs. induction k as [|k IH]; intros e rrs; cbn [redo]; rewrite (same_apex _ _ Hs);
    destruct (Type_ e TypeCNAME); try done; destruct (cname_target _); simpl; try done;
    rewrite same_Search, same_leave; unfold goes_out; rewrite (same_origin _ _ Hs); [done|].
  destruct (Search (tree z) _).1; [|done]. by rewrite IH.
Qed.

Lemma same_external loop e rrs qtype do :
  externalLookup upstream z' loop e rrs qtype do = externalLookup upstream z loop e rrs qtype do.
Proof.
  unfold externalLookup. destruct (cname_target _); cbn [mbind result_bind]; [|done].
  rewrite same_Search, same_leave. unfold goes_out. rewrite (same_origin _ _ Hs).
  destruct (Search (tree z) _).1; [|done]. by rewrite same_redo.
Qed.

Lemma same_nameFromRight q i : nameFromRight z' q i = nameFromRight z q i.
Proof. unfold nameFromRight. by rewrite (same_origin _ _ Hs), (same_len _ _ Hs). Qed.

Lemma same_walk fuel i loop sname q qtype do (e w : option Elem) :
  walk_loop upstream fuel i z' loop sname q qtype do e w = walk_loop upstream fuel i z loop sname q qtype do e w.
Proof.
  revert i e w. induction fuel as [|fuel IH]; intros i e w; cbn [walk_loop]; [done|].
  rewrite same_nameFromRight. destruct (nameFromRight z q i) as [p []]; [done|].
  rewrite !same_Search. destruct (Search (tree z) p) as [[e'|] []]; try done.
  destruct (dname_at e' sname) as [[cn|]|]; simpl; try done.
  - unfold answer_dname. by rewrite (same_apex _ _ Hs), same_external.
  - unfold answer_delegation. rewrite same_Glue. by destruct (Type_ e' TypeNS); rewrite ?IH.
Qed.

Lemma same_Lookup loop r q : Lookup_ upstream z' loop r q = Lookup_ upstream z loop r q.
Proof.
  unfold Lookup_. rewrite (same_apex _ _ Hs), (same_origin _ _ Hs), same_Glue, same_walk.
  destruct (SOA (apex z)) as [soa|]; [|done]. repeat case_decide; try done.
  destruct (walk_loop _ _ _ _ _ _ _ _ _ _ _) as [[a|[e|] w]|]; simpl; try done.
  - unfold answer_found. rewrite same_external, (same_apex _ _ Hs). destruct (Type_ e (QType_ r)); [done|]. by rewrite same_additional.
  - destruct w as [w|].
    + unfold answer_wildcard. by rewrite same_external, same_Prev, (same_apex _ _ Hs).
    + unfold answer_denial, ClosestEncloser. rewrite same_Next, same_Prev, same_closest, (same_apex _ _ Hs).
      destruct (Do r); [|done]. cbn [negb]. destruct (Prev (tree z) q) as [[d|] []]; try done.
      case_decide; [done|]. destruct (closest_loop (S (String.length q)) z q) as [[ce|]|]; cbn [mbind result_bind]; [|done|done]. by rewrite same_Prev.
Qed.

End pair.

End same.
