(* ===== verification/Secondary.v ===== *)
(** * Zones kept up to date (plugin/file, plugin/secondary)

    The rest of the file plugin: loading a zone ([Parse], file.go), sending
    it ([Transfer], xfr.go), fetching it from the primaries and following
    their serial numbers (secondary.go), reloading it from disk (reload.go),
    notifications (notify.go) and the query handler (file.go); and the start
    of a secondary zone (plugin/secondary/setup.go).  The goroutine that runs
    [Update] is a transition system on the zone, the retry flag and the
    tickers it armed. *)

From Stdlib Require Import Ascii ZArith Lia.
From stdpp Require Import base numbers gmap strings list.
From S2P Require Import Prelude DnsTypes DnsLib Serve Less Tree FileZone Xfer.

Local Open Scope Z_scope.

(** ** Serial numbers *)

Definition MaxSerialIncrement : Z := 2147483647.

(** [less] of secondary.go, on [uint32]. *)
Definition serial_less (a b : Z) : bool :=
  if decide (a < b) then bool_decide (u32 (b - a) <= MaxSerialIncrement)
  else bool_decide (MaxSerialIncrement < u32 (a - b)).

(** The fields of a [*dns.SOA]. *)
Record SOA_ := mkSOA { Serial_ : Z; Refresh_ : Z; Retry_ : Z; Expire_ : Z }.

Definition soa_fields (r : RR) : option SOA_ :=
  match Data r with
  | RSOA _ _ serial refresh retry expire _ => Some (mkSOA serial refresh retry expire)
  | _ => None
  end.

Definition getSOA (z : Zone) : option SOA_ := SOA (apex z) ≫= soa_fields.

Definition SOASerialIfDefined (z : Zone) : Z := match getSOA z with Some s => Serial_ s | None => -1 end.

Section secondary.
Context {L : DnsLib} {N : DnsNames} {MO : MapOrder}.

(** ** Sending a zone (xfr.go) *)

(** What is sent on the channel, one list per send; [None]: no SOA. *)
Definition zone_Transfer (z : Zone) (serial : Z) : option (list (list RR)) :=
  match apex_records (apex z), SOA (apex z) with
  | Some recs, Some soa =>
      if bool_decide (serial <> 0) && bool_decide (SOASerialIfDefined z = serial) then Some [[soa]]
      else
        let visit (sent : list (list RR)) e : result (list (list RR) * unit) (list (list RR)) := Ok (sent ++ [All_ e]) in
        match Walk visit (tree z) [] with
        | Ok sent => Some ([recs] ++ sent ++ [[soa]])
        | Err _ => None
        end
  | _, _ => None
  end.

(** ** Fetching a zone (secondary.go) *)

(** Records filed in order; the flag says that all were. *)
Fixpoint insert_rrs (z1 : Zone) (rs : list RR) : result go_fault (Zone * bool) :=
  match rs with
  | [] => Ok (z1, true)
  | r :: rs' =>
      match Insert_ z1 r with
      | Ok z1 => insert_rrs z1 rs'
      | Err ErrNSEC3 => Ok (z1, false)
      | Err (Fault f) => Err f
      end
  end.

(** The envelopes of a transfer: records, or an error that ends it. *)
Fixpoint receive (z1 : Zone) (c : list (result unit (list RR))) : result go_fault (Zone * bool) :=
  match c with
  | [] => Ok (z1, true)
  | Err _ :: _ => Ok (z1, false)
  | Ok rs :: c' =>
      x ← insert_rrs z1 rs;
      if x.2 : bool then receive x.1 c' else Ok (x.1, false)
  end.

(** What the primaries answer: the transfer, which may fail to start, and
    the reply to the query for the SOA. *)
Record Primaries := mkPrimaries {
  axfr : string -> result unit (list (result unit (list RR)));
  soa_query : string -> result unit Msg }.

(** The loop over the primaries; the flag is [Err != nil]. *)
Fixpoint transfer_loop (net : Primaries) (z1 : Zone) (froms : list string) (err : bool)
  : result go_fault (Zone * bool) :=
  match froms with
  | [] => Ok (z1, err)
  | tr :: froms' =>
      match axfr net tr with
      | Err _ => transfer_loop net z1 froms' true
      | Ok c =>
          x ← receive z1 c;
          if x.2 : bool then Ok (x.1, false) else transfer_loop net x.1 froms' true
      end
  end.

(** The zone afterwards, and whether an error is returned. *)
Definition TransferIn (net : Primaries) (z : Zone) : result go_fault (Zone * bool) :=
  match TransferFrom z with
  | [] => Ok (z, false)
  | froms =>
      x ← transfer_loop net (CopyWithoutApex z) froms false;
      if x.2 : bool then Ok (z, true) else Ok (setData z (apex x.1) (tree x.1), false)
  end.

(** The serial of the first SOA among the answers. *)
Fixpoint answer_serial (ans : list RR) : result go_fault (option Z) :=
  match ans with
  | [] => Ok None
  | a :: ans' =>
      if decide (rr_type a = TypeSOA)
      then match soa_fields a with Some s => Ok (Some (Serial_ s)) | None => Err BadAssertion end
      else answer_serial ans'
  end.

Fixpoint should_loop (net : Primaries) (froms : list string) (err : bool) : result go_fault (option Z * bool) :=
  match froms with
  | [] => Ok (None, err)
  | tr :: froms' =>
      match soa_query net tr with
      | Err _ => should_loop net froms' true
      | Ok ret =>
          if decide (Rcode ret <> RcodeSuccess) then should_loop net froms' false
          else
            s ← answer_serial (Answer ret);
            match s with
            | Some s => Ok (Some s, false)
            | None => should_loop net froms' false
            end
      end
  end.

(** Is a transfer due, and was there an error. *)
Definition shouldTransfer (net : Primaries) (z : Zone) : result go_fault (bool * bool) :=
  x ← should_loop net (TransferFrom z) false;
  match x.1 with
  | None => Ok (false, x.2)
  | Some serial =>
      match getSOA z with
      | None => Ok (true, x.2)
      | Some soa => Ok (serial_less (Serial_ soa) serial, x.2)
      end
  end.

(** ** The update loop *)

Definition time_second : Z := 10 ^ 9.

(** The tickers armed at [at_], with their intervals. *)
Record Tickers := mkTickers { at_ : Z; refresh : Z; retry : Z; expire : Z }.

Definition NewTicker (d : Z) : result go_fault Z := if decide (d <= 0) then Err BadInterval else Ok d.

(** From the label [Restart]. *)
Definition restart (now : Z) (z : Zone) : result go_fault Tickers :=
  match getSOA z with
  | None => Err NilDeref
  | Some soa =>
      a ← NewTicker (time_second * Refresh_ soa);
      b ← NewTicker (time_second * Retry_ soa);
      c ← NewTicker (time_second * Expire_ soa);
      Ok (mkTickers now a b c)
  end.

(** The goroutine: waiting for a SOA, in the select, returned, or dead of a
    panic. *)
Inductive phase : Type :=
| Waiting
| Running (retryActive : bool) (tk : Tickers)
| Stopped
| Panicked.

Record Secondary_ := mkSec { zone_ : Zone; ph : phase }.

(** Check the primaries and transfer: the zone, and whether it went without
    an error. *)
Definition check_transfer (net : Primaries) (z : Zone) : result go_fault (Zone * bool) :=
  c ← shouldTransfer net z;
  if c.2 : bool then Ok (z, false)
  else if c.1 : bool then x ← TransferIn net z; Ok (x.1, negb x.2)
  else Ok (z, true).

Definition settle (now : Z) (z : Zone) (active : bool) (tk : Tickers) (r : result go_fault (Zone * bool)) : Secondary_ :=
  match r with
  | Err _ => mkSec z Panicked
  | Ok (z', true) =>
      match restart now z' with
      | Ok tk' => mkSec z' (Running false tk')
      | Err _ => mkSec z' Panicked
      end
  | Ok (z', false) => mkSec z' (Running active tk)
  end.

Definition set_expired (z : Zone) : Zone := mkZone (origin z) (origLen z) (tree z) (apex z) true (TransferFrom z).

(** What wakes the goroutine. *)
Inductive wake : Type := SoaSeen | ExpireTick | RetryTick | RefreshTick | Shutdown.

(** One turn of the loop, at time [now] with what the network answers. *)
Definition on_wake (now : Z) (net : Primaries) (w : wake) (s : Secondary_) : Secondary_ :=
  let z := zone_ s in
  match ph s, w with
  | Waiting, SoaSeen =>
      match getSOA z with
      | None => s
      | Some _ => match restart now z with Ok tk => mkSec z (Running false tk) | Err _ => mkSec z Panicked end
      end
  | Running active tk, ExpireTick => if active then mkSec (set_expired z) (Running active tk) else s
  | Running active tk, RetryTick =>
      if active then settle now z true tk (check_transfer net z) else s
  | Running active tk, RefreshTick => settle now z true tk (check_transfer net z)
  | Running _ _, Shutdown => mkSec z Stopped
  | _, _ => s
  end.

(** A ticker fires no sooner than its interval after it was armed. *)
Definition due (now : Z) (w : wake) (p : phase) : Prop :=
  match p, w with
  | Running _ tk, ExpireTick => at_ tk + expire tk <= now
  | Running _ tk, RetryTick => at_ tk + retry tk <= now
  | Running _ tk, RefreshTick => at_ tk + refresh tk <= now
  | _, _ => True
  end.

(** Runs of the goroutine; every wake sees an answer of the network for which
    [P] holds. *)
Inductive sec_run (P : Z -> Primaries -> Prop) : Z * Secondary_ -> Z * Secondary_ -> Prop :=
| run_refl x : sec_run P x x
| run_wake t s now s1 now' net w :
    sec_run P (t, s) (now, s1) -> now <= now' -> due now' w (ph s1) -> P now' net ->
    sec_run P (t, s) (now', on_wake now' net w s1).

(** The start of a secondary zone (plugin/secondary/setup.go): transfers
    until one succeeds, with the delay before each further one; [None]: none
    of the attempts did. *)
Definition start_max : Z := 10 * time_second.

Fixpoint startup_loop (attempts : list Primaries) (dur : Z) (z : Zone) : result go_fault (option Zone * list Z) :=
  match attempts with
  | [] => Ok (None, [])
  | net :: rest =>
      x ← TransferIn net z;
      if x.2 : bool then
        let next := if decide (start_max < 2 * dur) then start_max else 2 * dur in
        y ← startup_loop rest next x.1;
        Ok (y.1, dur :: y.2)
      else Ok (Some x.1, [])
  end.

Definition startup (attempts : list Primaries) (z : Zone) : result go_fault (option Zone * list Z) :=
  startup_loop attempts (250 * 10 ^ 6) z.

(** ** Notifications (notify.go) *)

Fixpoint from_primary (froms : list string) (remote : string) : bool :=
  match froms with
  | [] => false
  | f :: froms' =>
      match net_SplitHostPort f with
      | Some (from, _) => if decide (from = remote) then true else from_primary froms' remote
      | None => from_primary froms' remote
      end
  end.

Definition isNotify (z : Zone) (w : Client) (r : Msg) : bool :=
  if decide (Opcode r <> OpcodeNotify) then false else from_primary (TransferFrom z) (IP w).

(** ** Loading and reloading (file.go, reload.go) *)

Inductive parse_error : Type := NoChange | InsertFailed (e : insert_error) | SyntaxError | NoSOA.

(** The records the zone parser yields, in order. *)
Fixpoint parse_loop (rs : list RR) (serial : Z) (seenSOA : bool) (z : Zone) : result parse_error (Zone * bool) :=
  match rs with
  | [] => Ok (z, seenSOA)
  | r :: rs' =>
      let unchanged := match soa_fields r with
                       | Some s => negb seenSOA && bool_decide (0 <= serial) && bool_decide (Serial_ s = u32 serial)
                       | None => false
                       end in
      if unchanged : bool then Err NoChange
      else match Insert_ z r with
           | Ok z => parse_loop rs' serial (seenSOA || bool_decide (is_Some (soa_fields r))) z
           | Err e => Err (InsertFailed e)
           end
  end.

(** [bad] is the error the parser ended with. *)
Definition Parse (rs : list RR) (bad : bool) (orig : string) (serial : Z) : result parse_error Zone :=
  x ← parse_loop rs serial false (NewZone orig);
  if bad then Err SyntaxError else if x.2 : bool then Ok x.1 else Err NoSOA.

(** A zone with the state of its reload ticker. *)
Record Reloading := mkRel { live : Zone; ReloadByMtime : bool; file_mtime : Z }.

(** What a tick finds on disk: the modification time and what the parser
    yields; [None] for a file that cannot be read. *)
Record Disk := mkDisk { mtime : option Z; content : option (list RR * bool) }.

(** One tick; the flag says that the zone was replaced and notifications
    were sent. *)
Definition reload_tick (d : Disk) (s : Reloading) : result go_fault (Reloading * bool) :=
  let z := live s in
  let go serial :=
    match content d with
    | None => Ok (s, false)
    | Some (rs, bad) =>
        match Parse rs bad (origin z) serial with
        | Err (InsertFailed (Fault f)) => Err f
        | Err _ => Ok (s, false)
        | Ok z1 => Ok (mkRel (setData z (apex z1) (tree z1)) (ReloadByMtime s) (file_mtime s), true)
        end
    end in
  if ReloadByMtime s then
    match mtime d with
    | None => Ok (s, false)
    | Some t => if decide (t <= file_mtime s) then Ok (s, false) else go 0
    end
  else go (SOASerialIfDefined z).

(** ** The query handler (file.go) *)

(** A nil zone in the map is answered like a missing one. *)
Record File := mkFile {
  Next_h : option Handler;
  Z_ : gmap string Zone;
  Names : list string;
  Fall : list string }.

Definition set_zone (f : File) (n : string) (z : Zone) : File :=
  mkFile (Next_h f) (<[n := z]> (Z_ f)) (Names f) (Fall f).

Definition file_Transfer (f : File) (zone : string) (serial : Z) : transferred :=
  match Z_ f !! zone with
  | None => ErrNotAuthoritative
  | Some z => match zone_Transfer z serial with Some c => Chan c | None => ErrOther end
  end.

Variable upstream : nat -> string -> Z -> result unit (option Msg).

Definition with_sections (m : Msg) (aa : bool) (rc : Z) (an ns ex : list RR) : Msg :=
  mkMsg (Id m) (Response m) (Opcode m) aa (Truncated m) (RecursionDesired m) (RecursionAvailable m)
    (AuthenticatedData m) (CheckingDisabled m) rc (Question m) an ns ex.

(** The message for the outcome of a lookup. *)
Definition reply_for (r : Msg) (a : Answer_) : Served :=
  let m := SetReply r in
  let write aa rc := mkServed RcodeSuccess (Some (with_sections m aa rc (ans a) (auth a) (extra a))) false in
  match res a with
  | Success | NoData => write true (Rcode m)
  | NameError => write true RcodeNameError
  | Delegation => write false (Rcode m)
  | ServerFailure =>
      if decide (ans a = []) then mkServed RcodeServerFailure None false else write true RcodeServerFailure
  end.

(** A notification: reply, then check the primary and transfer. *)
Definition on_notify (net : Primaries) (w : Client) (r : Msg) (z : Zone) : result go_fault (Served * Zone) :=
  if isNotify z w r then
    let m := SetReply r in
    let reply := with_sections m true (Rcode m) (Answer m) (Ns_ m) (Extra m) in
    c ← shouldTransfer net z;
    z' ← (if c.1 : bool then x ← TransferIn net z; Ok x.1 else Ok z);
    Ok (mkServed RcodeSuccess (Some reply) false, z')
  else Ok (mkServed RcodeSuccess None false, z).

Definition file_ServeDNS (net : Primaries) (loop : nat) (f : File) (w : Client) (r : Msg)
  : result go_fault (Served * File) :=
  let qname := Name_ r in
  let zone := Matches (Names f) qname in
  if decide (zone = EmptyString) then
    match Next_h f with
    | None => Ok (mkServed RcodeRefused None false, f)
    | Some _ => Ok (NextOrFailure (Next_h f) r, f)
    end
  else match Z_ f !! zone with
       | None => Ok (mkServed RcodeServerFailure None false, f)
       | Some z =>
           if decide (QType_ r = TypeAXFR \/ QType_ r = TypeIXFR) then Ok (mkServed RcodeRefused None false, f)
           else if decide (Opcode r = OpcodeNotify) then
             x ← on_notify net w r z;
             Ok (x.1, set_zone f zone x.2)
           else if Expired z then Ok (mkServed RcodeServerFailure None false, f)
           else
             a ← Lookup_ upstream z loop r qname;
             if bool_decide (ans a = []) && bool_decide (res a = NameError \/ res a = Success) && Through (Fall f) qname
             then Ok (NextOrFailure (Next_h f) r, f)
             else Ok (reply_for r a, f)
       end.

End secondary.
