(* ===== verification/ZoneCopy.v ===== *)
(** * A transferred zone is the zone

    What a primary sends of a zone ([zone_Transfer], xfr.go), cut into
    messages in any way, files into the same zone at the secondary
    ([TransferIn], secondary.go): the same apex, the same elements under the
    same names with the same records in the same order. *)

From Stdlib Require Import Ascii ZArith Lia Sorting.Sorted.
From stdpp Require Import base numbers gmap strings list sorting.
From S2P Require Import Prelude DnsTypes DnsLib Serve Less Tree TreeInsert TreeQuery FileZone FileFacts FileSame Xfer Secondary.

Local Open Scope Z_scope.

(** ** Inserting the records of an element *)

Lemma fold_type (l : list RR) (e : Elem) t l0 :
  m e !! t = Some l0 -> Forall (fun r => rr_type r = t) l ->
  foldl ElemInsert e l = mkElem (<[t := l0 ++ l]> (m e)) (name e).
Proof.
  intros He HF. revert e l0 He. induction HF as [|r l Hr HF IH]; intros e l0 He; simpl.
  - rewrite app_nil_r, insert_id by done. by destruct e.
  - rewrite (IH (ElemInsert e r) (l0 ++ [r])); unfold ElemInsert; rewrite Hr, He; simpl.
    + by rewrite insert_insert_eq, <-app_assoc.
    + by rewrite lookup_insert_eq.
Qed.

Lemma fold_new_type (l : list RR) (e : Elem) t :
  m e !! t = None -> l <> [] -> Forall (fun r => rr_type r = t) l ->
  foldl ElemInsert e l = mkElem (<[t := l]> (m e)) (name e).
Proof.
  intros He Hl HF. destruct HF as [|r l Hr HF]; [done|]. cbn [foldl].
  rewrite (fold_type _ _ t [r]); [|unfold ElemInsert; rewrite Hr, He; simpl; by rewrite lookup_insert_eq|done].
  unfold ElemInsert. rewrite Hr, He. simpl. by rewrite insert_insert_eq.
Qed.

(** The entries of a map of records by type. *)
Definition entries_ok (kvs : list (Z * list RR)) : Prop :=
  Forall (fun kv => kv.2 <> [] /\ Forall (fun r => rr_type r = kv.1) kv.2) kvs.

Lemma fold_entries (kvs : list (Z * list RR)) (e : Elem) :
  entries_ok kvs -> NoDup kvs.*1 -> (forall k, k ∈ kvs.*1 -> m e !! k = None) ->
  foldl ElemInsert e (concat kvs.*2) = mkElem (list_to_map kvs ∪ m e) (name e).
Proof.
  intros HF. revert e. induction HF as [|[k l] kvs [Hl Hk] HF IH]; intros e Hd Hn; simpl in *.
  - rewrite map_empty_union. by destruct e.
  - apply NoDup_cons in Hd as [Hk' Hd]. rewrite foldl_app, (fold_new_type l e k) by (done || apply Hn; by left).
    rewrite IH; simpl; [|done|].
    + f_equal. rewrite <-insert_union_l, <-insert_union_r; [done|]. by apply not_elem_of_list_to_map_1.
    + intros k' Hin. rewrite lookup_insert_ne by (by intros ->). apply Hn. by right.
Qed.

Lemma newElem_fold (r : RR) nm : rr_name r = nm -> newElem r = ElemInsert (mkElem ∅ nm) r.
Proof. intros <-. unfold newElem, ElemInsert. simpl. by rewrite lookup_empty, insert_empty. Qed.

(** An element as it is filed: its records are under their types and carry
    its name. *)
Definition elem_filed (e : Elem) : Prop :=
  m e <> ∅ /\ forall t l, m e !! t = Some l ->
    l <> [] /\ Forall (fun r => rr_type r = t /\ rr_name r = name e) l.

Section copy.
Context {L : DnsLib} {N : DnsNames} {NSp : DnsNamesSpec N} {MO : MapOrder}.
Implicit Types (z : Zone) (e : Elem).

Lemma entries_filed e : elem_filed e -> entries_ok (map_range (m e)).
Proof.
  intros [_ He]. apply Forall_forall. intros [k l] Hkl%elem_of_map_range. simpl.
  destruct (He k l Hkl) as [Hl HF]. split; [done|]. eapply Forall_impl; [exact HF|]. by intros r [? _].
Qed.

Lemma All_name e : elem_filed e -> Forall (fun r => rr_name r = name e) (All_ e).
Proof.
  intros [_ He]. apply Forall_concat, Forall_forall. intros l ([k l'] & -> & Hkl)%list_elem_of_fmap.
  apply elem_of_map_range in Hkl. destruct (He k l' Hkl) as [_ HF].
  eapply Forall_impl; [exact HF|]. by intros r [_ ?].
Qed.

Lemma All_cons e : elem_filed e -> exists r rs, All_ e = r :: rs.
Proof.
  intros Hf. pose proof (entries_filed e Hf) as HF. destruct Hf as [Hne _]. unfold All_.
  destruct (map_range (m e)) as [|[k l] kvs] eqn:E.
  - exfalso. apply Hne, map_to_list_empty_iff. apply Permutation_nil_r. rewrite <-(map_range_perm (m e)). by rewrite E.
  - apply Forall_cons in HF as [[Hl _] _]. simpl in *. destruct l; [done|]. simpl. eauto.
Qed.

Lemma fold_All e : elem_filed e -> foldl ElemInsert (mkElem ∅ (name e)) (All_ e) = e.
Proof.
  intros Hf. unfold All_. rewrite fold_entries; [|by apply entries_filed|apply map_range_keys_NoDup|done].
  simpl. rewrite map_union_empty. destruct e as [mm nm]. f_equal. simpl.
  rewrite (list_to_map_proper (map_range mm) (map_to_list mm));
    [apply list_to_map_to_list|apply map_range_keys_NoDup|apply map_range_perm].
Qed.

(** ** Inserting into the list of elements, at its end *)

Definition all_before (l : list Elem) (nm : string) : Prop := Forall (fun x => less (ElemName x) nm < 0) l.

Lemma ins_end l r : all_before l (rr_name r) -> ins l r = l ++ [newElem r].
Proof.
  induction 1 as [|x l Hx HF IH]; [done|]. cbn [ins app].
  assert (0 < Less x (rr_name r)) by (unfold Less; by apply cmp_flip).
  rewrite !decide_False by lia. by rewrite IH.
Qed.

Lemma ins_last l e r :
  all_before l (rr_name r) -> Less e (rr_name r) = 0 -> ins (l ++ [e]) r = l ++ [ElemInsert e r].
Proof.
  intros HF He. induction HF as [|x l Hx HF IH]; cbn [ins app].
  - by rewrite decide_True.
  - assert (0 < Less x (rr_name r)) by (unfold Less; by apply cmp_flip).
    rewrite !decide_False by lia. by rewrite IH.
Qed.

Lemma foldl_ElemInsert_name rs e : name (foldl ElemInsert e rs) = name e.
Proof. revert e. induction rs as [|r rs IH]; intros e; simpl; [done|]. by rewrite IH, ElemInsert_name. Qed.

Lemma ins_more l e rs nm :
  all_before l nm -> elem_ok e -> name e = nm -> Forall (fun r => rr_name r = nm) rs ->
  foldl ins (l ++ [e]) rs = l ++ [foldl ElemInsert e rs].
Proof.
  intros Hl Ho Hn HF. revert e Ho Hn. induction HF as [|r rs Hr HF IH]; intros e Ho Hn; simpl; [done|].
  assert (Less e (rr_name r) = 0) as He.
  { unfold Less. rewrite ElemName_ok, Hn, Hr by done. apply (cmp_refl less). }
  rewrite ins_last by (exact He || by rewrite Hr). apply IH; [by apply ElemInsert_ok|by rewrite ElemInsert_name].
Qed.

Lemma ins_All l e : all_before l (name e) -> elem_filed e -> foldl ins l (All_ e) = l ++ [e].
Proof.
  intros Hl Hf. pose proof (All_name e Hf) as HF. pose proof (fold_All e Hf) as HA.
  destruct (All_cons e Hf) as (r & rs & E). rewrite E in *. apply Forall_cons in HF as [Hr HF]. cbn [foldl] in *.
  rewrite ins_end by (by rewrite Hr).
  rewrite (ins_more l (newElem r) rs (name e)) by (done || apply newElem_ok).
  by rewrite (newElem_fold r (name e)), HA.
Qed.

(** A sorted list of elements is rebuilt from its records. *)
Lemma ins_concat l pre :
  sorted (pre ++ l) -> Forall elem_ok (pre ++ l) -> Forall elem_filed l ->
  foldl ins pre (concat (All_ <$> l)) = pre ++ l.
Proof.
  intros Hs Ho HF. revert pre Hs Ho. induction HF as [|e l He HF IH]; intros pre Hs Ho; simpl; [by rewrite app_nil_r|].
  rewrite foldl_app, ins_All; [|..|done].
  - rewrite IH; rewrite <-?app_assoc; done.
  - apply Forall_forall. intros x Hx. rewrite <-ElemName_ok.
    + apply sorted_split in Hs as (_ & _ & HL & _). apply (proj1 (Forall_forall _ _) HL x Hx).
    + apply (proj1 (Forall_forall _ _) Ho). rewrite elem_of_app. right. by left.
Qed.

(** ** Names equal up to [less] *)

(** Lower case and without escapes. *)
Definition plain (s : string) : Prop := ToLower s = s /\ Contains s "\" = false.

Lemma Contains_bytes s : Contains s "\" = false -> 92 ∉ bytes s.
Proof.
  induction s as [|c s IH]; cbn [bytes]; [by intros _ ?%elem_of_nil|].
  cbn [Contains HasPrefix]. intros [Hc Hs]%orb_false_iff [E|Hin]%elem_of_cons; [|by apply IH].
  rewrite andb_true_r in Hc. apply bool_decide_eq_false in Hc. apply Hc. unfold byte_of in E.
  rewrite <-(ascii_nat_embedding c). replace (nat_of_ascii c) with 92%nat by lia. done.
Qed.

Lemma bytes_app a b : bytes (String.append a b) = bytes a ++ bytes b.
Proof. induction a as [|c a IH]; [done|]. rewrite str_app_cons. cbn [bytes app]. by rewrite IH. Qed.

Lemma bytes_inj a b : bytes a = bytes b -> a = b.
Proof.
  revert b. induction a as [|c a IH]; intros [|d b]; cbn [bytes]; try done. intros [= Hc Hab]. f_equal; [|by apply IH].
  unfold byte_of in Hc. rewrite <-(ascii_nat_embedding c), <-(ascii_nat_embedding d). f_equal. lia.
Qed.

Lemma norm_label_plain a ai aj :
  plain a -> norm_label a ai aj = bytes (drop_str ai (take_str aj a)).
Proof.
  intros [Hl Hc%Contains_bytes].
  assert (exists u v, a = String.append u (String.append (drop_str ai (take_str aj a)) v)) as (u & v & E).
  { exists (take_str ai (take_str aj a)), (drop_str aj a). by rewrite str_app_assoc, take_drop_str, take_drop_str. }
  set (w := drop_str ai (take_str aj a)) in *. assert (ToLower w = w) as Hw.
  { rewrite E, !ToLower_app in Hl. apply bytes_inj. apply (f_equal bytes) in Hl. rewrite !bytes_app in Hl.
    apply app_inj_1 in Hl as [_ Hl]; [|by rewrite !bytes_length, ToLower_length].
    by apply app_inj_1 in Hl as [Hl _]; [|by rewrite !bytes_length, ToLower_length]. }
  unfold norm_label. fold w. rewrite Hw. apply doDDD_id. intros Hin. apply Hc. rewrite E, !bytes_app, !elem_of_app. auto.
Qed.

Lemma label_keys_concat fuel a aj :
  plain a -> (aj < fuel)%nat -> (aj <= String.length a)%nat ->
  concat (reverse (label_keys_loop fuel a aj)) = bytes (take_str aj a).
Proof.
  intros Ha. revert aj. induction fuel as [|fuel IH]; intros aj Hf Hj; [lia|]. cbn [label_keys_loop].
  destruct (PrevLabel_step a aj Hj) as [[-> ->]|(i & Hi & ->)]; [by destruct a|].
  rewrite reverse_cons, concat_app, IH, norm_label_plain by (done || lia). cbn [concat]. rewrite app_nil_r.
  rewrite <-(take_drop_str i (take_str aj a)) at 2. by rewrite bytes_app, take_take_str by lia.
Qed.

Lemma less_plain a b : plain a -> plain b -> less a b = 0 -> a = b.
Proof.
  intros Ha Hb. rewrite less_keys. intros E%Compare_keys_eq. apply bytes_inj.
  rewrite <-(take_str_all (String.length a) a), <-(take_str_all (String.length b) b) by lia.
  rewrite <-(label_keys_concat (S (String.length a)) a), <-(label_keys_concat (S (String.length b)) b) by (done || lia).
  unfold label_keys in E. by rewrite E.
Qed.

(** ** The records of a zone *)

Definition as_filed (r : RR) : Prop := typed r = true /\ lowered r = r.

(** A record that [Insert] files in the tree of a zone with this origin. *)
Definition in_tree (o : string) (r : RR) : Prop :=
  as_filed r /\
  match Data r with
  | RNS _ => rr_name r <> o
  | RSOA _ _ _ _ _ _ _ => False
  | RRRSIG t _ _ => t <> TypeSOA /\ ~ (t = TypeNS /\ rr_name r = o)
  | _ => ~ (rr_type r = TypeNSEC3 \/ rr_type r = TypeNSEC3PARAM)
  end.

Definition is_soa (r : RR) : Prop := as_filed r /\ is_Some (soa_fields r).
Definition is_sigsoa (r : RR) : Prop := as_filed r /\ covers TypeSOA r = true.
Definition is_ns (o : string) (r : RR) : Prop :=
  as_filed r /\ rr_name r = o /\ match Data r with RNS _ => True | _ => False end.
Definition is_signs (o : string) (r : RR) : Prop := as_filed r /\ rr_name r = o /\ covers TypeNS r = true.

(** Every record is where [Insert] puts it. *)
Record filed z : Prop := {
  filed_wf : wf_tree (tree z);
  filed_elems : Forall (fun e => elem_filed e /\ plain (name e)) (elems (Root (tree z)));
  filed_tree : Forall (fun e => forall t r, r ∈ Type_ e t -> in_tree (origin z) r) (elems (Root (tree z)));
  filed_soa : forall s, SOA (apex z) = Some s -> is_soa s;
  filed_sigsoa : Forall is_sigsoa (SIGSOA (apex z));
  filed_ns : Forall (is_ns (origin z)) (NS (apex z));
  filed_signs : Forall (is_signs (origin z)) (SIGNS (apex z)) }.

Lemma covers_inv t r : covers t r = true -> exists i x, Data r = RRRSIG t i x.
Proof. unfold covers. destruct (Data r); try done. intros H%bool_decide_eq_true. subst. eauto. Qed.

Lemma soa_fields_inv r : is_Some (soa_fields r) -> exists a b c d x f g, Data r = RSOA a b c d x f g.
Proof. unfold soa_fields. destruct (Data r); intros [? [=]]. do 7 eexists. done. Qed.

Lemma Insert_in_tree z r :
  wf_tree (tree z) -> in_tree (origin z) r ->
  exists t, Insert_ z r = Ok (set_tree z t) /\ wf_tree t /\ elems (Root t) = ins (elems (Root (tree z))) r.
Proof.
  intros Hw [[Ht Hl] Hr]. destruct (Insert_spec (tree z) r Hw) as (t & E & Hw' & He). exists t.
  split; [|done]. unfold Insert_. rewrite Ht, Hl, E. cbn [negb].
  destruct (Data r); try done; repeat first [rewrite decide_False by done|rewrite bool_decide_false by done]; try done.
  destruct Hr as [H1 H2]. rewrite decide_False by done.
  case_bool_decide; [|done]. by rewrite bool_decide_false by tauto.
Qed.

Lemma insert_rrs_tree rs z :
  wf_tree (tree z) -> Forall (in_tree (origin z)) rs ->
  exists t, insert_rrs z rs = Ok (set_tree z t, true) /\ wf_tree t /\
    elems (Root t) = foldl ins (elems (Root (tree z))) rs.
Proof.
  intros Hw HF. revert z Hw HF. induction rs as [|r rs IH]; intros z Hw HF.
  - exists (tree z). split; [by destruct z|done].
  - apply Forall_cons in HF as [Hr HF]. destruct (Insert_in_tree z r Hw Hr) as (t & E & Hw' & He).
    destruct (IH (set_tree z t) Hw' HF) as (t' & E' & Hw'' & He'). exists t'.
    cbn [insert_rrs foldl]. rewrite E, E', He'. simpl. by rewrite He.
Qed.

Lemma insert_rrs_app z rs1 rs2 z1 :
  insert_rrs z rs1 = Ok (z1, true) -> insert_rrs z (rs1 ++ rs2) = insert_rrs z1 rs2.
Proof.
  revert z. induction rs1 as [|r rs1 IH]; intros z; simpl; [by intros [= ->]|].
  destruct (Insert_ z r) as [z'|[]]; [apply IH|done|done].
Qed.

(** What [Insert] does with the records of the apex. *)
Lemma Insert_soa z r :
  is_soa r -> Insert_ z r = Ok (set_apex z (mkApex (Some r) (NS (apex z)) (SIGSOA (apex z)) (SIGNS (apex z)))).
Proof.
  intros [[Ht Hl] Hs]. apply soa_fields_inv in Hs as (a & b & c & d & e & f & g & Hd).
  unfold Insert_. by rewrite Ht, Hl, Hd.
Qed.

Lemma insert_rrs_sigsoa rs z :
  Forall is_sigsoa rs ->
  insert_rrs z rs = Ok (set_apex z (mkApex (SOA (apex z)) (NS (apex z)) (SIGSOA (apex z) ++ rs) (SIGNS (apex z))), true).
Proof.
  intros HF. revert z. induction HF as [|r rs [[Ht Hl] Hs] HF IH]; intros z.
  - rewrite app_nil_r. by destruct z as [? ? ? [] ? ?].
  - apply covers_inv in Hs as (i & e & Hd). cbn [insert_rrs]. unfold Insert_. rewrite Ht, Hl, Hd. cbn [negb].
    rewrite decide_True by done. rewrite IH. simpl. by rewrite <-app_assoc.
Qed.

Lemma insert_rrs_ns rs z :
  Forall (is_ns (origin z)) rs ->
  insert_rrs z rs = Ok (set_apex z (mkApex (SOA (apex z)) (NS (apex z) ++ rs) (SIGSOA (apex z)) (SIGNS (apex z))), true).
Proof.
  revert z. induction rs as [|r rs IH]; intros z HF.
  - rewrite app_nil_r. by destruct z as [? ? ? [] ? ?].
  - apply Forall_cons in HF as [([Ht Hl] & Hn & Hd) HF]. cbn [insert_rrs]. unfold Insert_. rewrite Ht, Hl. cbn [negb].
    destruct (Data r); try done. rewrite bool_decide_true by done. rewrite IH by done. simpl. by rewrite <-app_assoc.
Qed.

Lemma insert_rrs_signs rs z :
  Forall (is_signs (origin z)) rs ->
  insert_rrs z rs = Ok (set_apex z (mkApex (SOA (apex z)) (NS (apex z)) (SIGSOA (apex z)) (SIGNS (apex z) ++ rs)), true).
Proof.
  revert z. induction rs as [|r rs IH]; intros z HF.
  - rewrite app_nil_r. by destruct z as [? ? ? [] ? ?].
  - apply Forall_cons in HF as [([Ht Hl] & Hn & Hs) HF]. apply covers_inv in Hs as (i & e & Hd).
    cbn [insert_rrs]. unfold Insert_. rewrite Ht, Hl, Hd. cbn [negb].
    rewrite decide_False by done. rewrite !bool_decide_true by done. cbn [andb]. rewrite IH by done. simpl.
    by rewrite <-app_assoc.
Qed.

(** A zone filed again, record by record in the order it is sent. *)
Lemma refile z y soa :
  filed z -> SOA (apex z) = Some soa -> origin y = origin z -> tree y = mkTree Nil 0 -> apex y = empty_apex ->
  exists y', insert_rrs y ((soa :: SIGSOA (apex z) ++ NS (apex z) ++ SIGNS (apex z))
                            ++ concat (All_ <$> elems (Root (tree z))) ++ [soa]) = Ok (y', true) /\
    apex y' = apex z /\ elems (Root (tree y')) = elems (Root (tree z)) /\ origin y' = origin y /\ origLen y' = origLen y.
Proof.
  intros [Hw He Ht Hs H1 H2 H3] Hsoa Ho Hty Hay. specialize (Hs soa Hsoa).
  destruct y as [o n t a ex tf]. simpl in *. subst o t a.
  rewrite Insert_soa by done. rewrite (insert_rrs_app _ (SIGSOA (apex z) ++ NS (apex z) ++ SIGNS (apex z)) _
    (mkZone (origin z) n (mkTree Nil 0) (apex z) ex tf)).
  2: { set (w x := mkZone (origin z) n (mkTree Nil 0) x ex tf).
       rewrite (insert_rrs_app _ _ _ (w (mkApex (Some soa) [] (SIGSOA (apex z)) [])) (insert_rrs_sigsoa _ (w (mkApex (Some soa) [] [] [])) H1)).
       rewrite (insert_rrs_app _ _ _ (w (mkApex (Some soa) (NS (apex z)) (SIGSOA (apex z)) [])) (insert_rrs_ns _ (w (mkApex (Some soa) [] (SIGSOA (apex z)) [])) H2)).
       rewrite (insert_rrs_signs _ (w (mkApex (Some soa) (NS (apex z)) (SIGSOA (apex z)) [])) H3). unfold w, set_apex. simpl. rewrite <-Hsoa. by destruct (apex z). }
  destruct (insert_rrs_tree (concat (All_ <$> elems (Root (tree z)))) (mkZone (origin z) n (mkTree Nil 0) (apex z) ex tf))
    as (t & E & Hw' & Het); [apply wf_empty| |].
  { simpl. apply Forall_concat, Forall_forall. intros l (e & -> & Hin)%list_elem_of_fmap.
    apply Forall_concat, Forall_forall. intros l ([k l'] & -> & Hkl)%list_elem_of_fmap.
    apply elem_of_map_range in Hkl. apply Forall_forall. intros r Hr.
    apply (proj1 (Forall_forall _ _) Ht e Hin k). unfold Type_. by rewrite Hkl. }
  rewrite (insert_rrs_app _ _ _ _ E). cbn [insert_rrs]. rewrite Insert_soa by done.
  eexists. split; [done|]. simpl. split; [destruct (apex z); simpl in *; by subst|]. split; [|done].
  rewrite Het. apply (ins_concat _ []); [apply Hw|apply Hw|].
  eapply Forall_impl; [exact He|]. by intros e [? _].
Qed.

(** ** Zones are filed as they are loaded *)

Definition lowered_name (r : RR) : string :=
  if decide (rr_type r <> TypeSRV) then ToLower (canonicalEscape (rr_name r)) else rr_name r.

Definition lowered_data (d : rdata) : rdata :=
  match d with
  | RNS ns => RNS (ToLower ns)
  | RSOA ns mbox a b c d e => RSOA (ToLower ns) (ToLower mbox) a b c d e
  | RCNAME t => RCNAME (ToLower t)
  | RMX p mx => RMX p (ToLower mx)
  | RSVCB t => RSVCB (ToLower t)
  | RHTTPS t => RHTTPS (ToLower t)
  | d => d
  end.

Lemma lowered_eq r : lowered r = mkRR (mkHdr (lowered_name r) (rr_type r) (Class_ (Hdr r)) (rr_ttl r)) (lowered_data (Data r)).
Proof. unfold lowered, lowered_name. by case_decide; destruct r as [[nm ty cl tt] []]. Qed.

Lemma lowered_idem r : Contains (rr_name (lowered r)) "\" = false -> lowered (lowered r) = lowered r.
Proof.
  intros Hp. rewrite (lowered_eq (lowered r)). rewrite lowered_eq in *. cbn [rr_name Hdr Name rr_type Rrtype Class_ rr_ttl Ttl Data] in *.
  f_equal; [f_equal|by destruct (Data r); simpl; rewrite ?ToLower_idemp].
  unfold lowered_name at 1. cbn [rr_name Hdr Name rr_type Rrtype]. unfold canonicalEscape. rewrite Hp. cbn [negb].
  case_decide as Ht; [|done]. unfold lowered_name. rewrite decide_True by done. apply ToLower_idemp.
Qed.

Lemma lowered_filed r : typed r = true -> plain (rr_name (lowered r)) -> as_filed (lowered r).
Proof. intros Ht [_ Hc]. split; [by rewrite lowered_typed|by apply lowered_idem]. Qed.

Lemma elem_filed_new r : elem_filed (newElem r).
Proof.
  split; [apply insert_non_empty|]. intros t l. simpl. intros [<- <-]%lookup_singleton_Some.
  split; [done|]. by apply Forall_singleton.
Qed.

Lemma elem_filed_insert e r : elem_filed e -> rr_name r = name e -> elem_filed (ElemInsert e r).
Proof.
  intros [Hn He] Hr. split.
  - unfold ElemInsert. destruct (m e !! rr_type r); apply insert_non_empty.
  - intros t l. rewrite ElemInsert_name. unfold ElemInsert.
    destruct (m e !! rr_type r) as [l0|] eqn:E; simpl; intros [[<- <-]|[_ Hl]]%lookup_insert_Some; try by apply He.
    + destruct (He _ _ E) as [_ HF]. split; [by destruct l0|]. apply Forall_app. split; [done|by apply Forall_singleton].
    + split; [done|]. by apply Forall_singleton.
Qed.

Lemma ins_cases l r x :
  x ∈ ins l r -> x ∈ l \/ x = newElem r \/ exists e, e ∈ l /\ Less e (rr_name r) = 0 /\ x = ElemInsert e r.
Proof.
  induction l as [|e l IH]; simpl; [intros ->%list_elem_of_singleton; auto|].
  repeat case_decide; rewrite !elem_of_cons.
  - intros [->|?]; [|auto]. right. right. exists e. rewrite elem_of_cons. auto.
  - intros [->|?]; auto.
  - intros [->|[?|[?|(e' & ? & ? & ?)]]%IH]; auto. right. right. exists e'. rewrite elem_of_cons. auto.
Qed.

Lemma filed_insert z t r :
  filed z -> in_tree (origin z) r -> plain (rr_name r) -> wf_tree t ->
  elems (Root t) = ins (elems (Root (tree z))) r -> filed (set_tree z t).
Proof.
  intros [Hw He Ht Hs H1 H2 H3] Hr Hp Hwt E. split; try done.
  - simpl. rewrite E. apply Forall_forall. intros x [Hx|[->|(e & Hx & Hl & ->)]]%ins_cases.
    + by apply (proj1 (Forall_forall _ _) He).
    + split; [apply elem_filed_new|done].
    + destruct (proj1 (Forall_forall _ _) He e Hx) as [Hf Hpe].
      assert (rr_name r = name e) as Hn.
      { apply less_plain; try done. rewrite <-(ElemName_ok e); [exact Hl|].
        by apply (proj1 (Forall_forall _ _) (wf_elems _ Hw)). }
      rewrite ElemInsert_name. split; [by apply elem_filed_insert|done].
  - simpl. rewrite E. apply Forall_forall. intros x [Hx|[->|(e & Hx & Hl & ->)]]%ins_cases t0 r0.
    + by apply (proj1 (Forall_forall _ _) Ht).
    + rewrite Type_newElem. case_decide; [by intros ->%list_elem_of_singleton|by intros ?%elem_of_nil].
    + rewrite Type_ElemInsert. case_decide; [|by apply (proj1 (Forall_forall _ _) Ht)].
      intros [?| ->%list_elem_of_singleton]%elem_of_app; [by eapply (proj1 (Forall_forall _ _) Ht)|done].
Qed.

Lemma Insert_filed z r z' :
  filed z -> typed r = true -> plain (rr_name (lowered r)) -> Insert_ z r = Ok z' -> filed z'.
Proof.
  intros Hz Hr Hp HI. pose proof (lowered_filed r Hr Hp) as Hf.
  assert (in_tree (origin z) (lowered r) -> filed z') as Htree.
  { intros Ht. destruct (Insert_in_tree z (lowered r) (filed_wf _ Hz) Ht) as (t & E & Hw & He).
    assert (z' = set_tree z t) as ->; [|by eapply filed_insert].
    destruct Hf as [H1 H2]. unfold Insert_ in E, HI. rewrite H2, H1 in E. rewrite Hr in HI. congruence. }
  destruct Hz as [Hw He Htr Hs H1 H2 H3]. unfold Insert_ in HI. rewrite Hr in HI. cbn [negb] in HI.
  unfold in_tree in Htree.
  destruct (Data (lowered r)) eqn:Ed; try (apply Htree; split; [done|]; by case_decide).
  - case_bool_decide as Ho; [|by apply Htree]. injection HI as <-. split; try done. simpl.
    apply Forall_app. split; [done|]. apply Forall_singleton. split; [done|]. by rewrite Ed.
  - injection HI as <-. split; try done. simpl. intros s [= <-]. split; [done|]. unfold soa_fields. by rewrite Ed.
  - case_decide as Hso.
    + injection HI as <-. split; try done. simpl. apply Forall_app. split; [done|]. apply Forall_singleton.
      split; [done|]. unfold covers. rewrite Ed. by apply bool_decide_true.
    + destruct (bool_decide (TypeCovered = TypeNS) && bool_decide (rr_name (lowered r) = origin z)) eqn:Eb.
      * apply andb_true_iff in Eb as [E1%bool_decide_eq_true E2%bool_decide_eq_true].
        injection HI as <-. split; try done. simpl. apply Forall_app. split; [done|]. apply Forall_singleton.
        split; [done|]. split; [done|]. unfold covers. rewrite Ed. by apply bool_decide_true.
      * apply Htree. split; [done|]. split; [done|]. apply andb_false_iff in Eb as [E|E];
          apply bool_decide_eq_false in E; tauto.
Qed.

Lemma NewZone_filed nm : filed (NewZone nm).
Proof. split; simpl; try apply Forall_nil_2; [apply wf_empty|done]. Qed.

Lemma load_filed z rs z' :
  filed z -> Forall (fun r => typed r = true /\ plain (rr_name (lowered r))) rs -> load_zone z rs = Ok z' -> filed z'.
Proof.
  intros Hz HF. revert z Hz. induction HF as [|r rs [Hr Hp] HF IH]; intros z Hz; simpl; [by intros [= <-]|].
  destruct (Insert_ z r) as [z1|] eqn:E; [|done]. apply IH. by eapply Insert_filed.
Qed.

End copy.
