(* ===== verification/TransferFacts.v ===== *)
(** * Transfers from primary to secondary

    The whole path of a zone: the transfer plugin decides who may have it and
    cuts it into messages (plugin/transfer), the secondary files what arrives
    (plugin/file/secondary.go) and then answers like the primary; and what
    goes wrong on the way. *)

From Stdlib Require Import Ascii ZArith Lia Sorting.Sorted.
From stdpp Require Import base numbers gmap strings list sorting.
From S2P Require Import Prelude DnsTypes DnsLib Serve Less Tree TreeInsert TreeQuery FileZone FileFacts FileSame Xfer Secondary ZoneCopy.

Local Open Scope Z_scope.

(** ** Batches *)

Section batches.
Variable RRLen : RR -> Z.

Definition total (rs : list RR) : Z := foldr (fun r n => RRLen r + n) 0 rs.

Lemma total_app a b : total (a ++ b) = total a + total b.
Proof. induction a as [|x a IH]; simpl; [done|]. rewrite IH. lia. Qed.

(** A message that fits, or a single record. *)
Definition fits (rs : list RR) : Prop := rs <> [] /\ (total rs <= max_batch \/ length rs = 1%nat).

Definition batch_inv (st : list (list RR) * list RR * Z) (done_ : list RR) : Prop :=
  let '(sent, rrs, size) := st in
  concat sent ++ rrs = done_ /\ Forall fits sent /\ size = total rrs /\ (rrs = [] /\ done_ = [] \/ fits rrs).

Lemma batch_rr_inv st d r : batch_inv st d -> batch_inv (batch_rr RRLen st r) (d ++ [r]).
Proof.
  destruct st as [[sent rrs] size]. intros (Hc & Hf & Hs & Hr). unfold batch_rr.
  destruct (bool_decide (rrs <> []) && bool_decide (max_batch < size + RRLen r)) eqn:E.
  - apply andb_true_iff in E as [E1%bool_decide_eq_true _]. destruct Hr as [[Hr _]|Hr]; [done|].
    split_and!; [rewrite concat_app; simpl; by rewrite app_nil_r, Hc|apply Forall_app; split; [done|by apply Forall_singleton]| |].
    + simpl. lia.
    + right. split; [done|]. by right.
  - split_and!; [by rewrite app_assoc, Hc|done|rewrite total_app; simpl; lia|]. right. split; [by destruct rrs|].
    apply andb_false_iff in E as [E|E]; apply bool_decide_eq_false in E.
    + right. destruct rrs; [done|]. by destruct E.
    + left. rewrite total_app. simpl. lia.
Qed.

Lemma batch_fold_inv rs st d : batch_inv st d -> batch_inv (foldl (batch_rr RRLen) st rs) (d ++ rs).
Proof.
  revert st d. induction rs as [|r rs IH]; intros st d H; simpl; [by rewrite app_nil_r|].
  apply (batch_rr_inv _ _ r), IH in H. by rewrite <-app_assoc in H.
Qed.

Lemma batch_loop_inv records st d soa :
  batch_inv st d ->
  match batch_loop RRLen records st soa with
  | Ok (sent, rrs, soa') =>
      (exists size, batch_inv (sent, rrs, size) (d ++ concat records)) /\
      (soa = None -> soa' = head (omap (fun l => head l ≫= soa_of) records))  /\
      (forall s, soa = Some s -> soa' = Some s)
  | Err _ => [] ∈ records
  end.
Proof.
  revert st d soa. induction records as [|[|r rs] records IH]; intros st d soa H; cbn [batch_loop].
  - destruct st as [[sent rrs] size]. simpl. rewrite app_nil_r. split_and!; eauto.
  - by left.
  - apply (batch_fold_inv (r :: rs)) in H.
    specialize (IH _ _ (match soa with None => soa_of r | s => s end) H).
    destruct (batch_loop _ _ _ _) as [[[sent rrs] soa']|]; [|by right]. destruct IH as (H1 & H2 & H3).
    simpl in *. rewrite <-app_assoc in H1. simpl in H1. split; [done|]. split.
    + intros ->. destruct (soa_of r) as [s|]; simpl; auto.
    + intros s ->. by apply H3.
Qed.

End batches.

Lemma out_spec ok n envs :
  let '(sent, fine) := out ok n envs in
  sent `prefix_of` envs /\ (fine = true -> sent = envs) /\ ((forall k, ok k = true) -> fine = true).
Proof.
  revert n. induction envs as [|e envs IH]; intros n; simpl; [done|]. specialize (IH (S n)).
  destruct (out ok (S n) envs) as [sent fine]. destruct IH as (H1 & H2 & H3). destruct (ok n) eqn:E.
  - split_and!; [by apply prefix_cons|by intros ->%H2|done].
  - split_and!; [apply prefix_cons, prefix_nil|done|]. intros H. by rewrite H in E.
Qed.

Section transfers.
Context {L : DnsLib} {LS : DnsLibSpec L} {N : DnsNames} {NSp : DnsNamesSpec N} {MO : MapOrder}.
Variable RRLen : RR -> Z.
Variable upstream : nat -> string -> Z -> result unit (option Msg).
Implicit Types (z y : Zone) (net : Primaries) (w : Client) (t : Transfer).

(** ** What the client receives *)

(** The records of the messages the handler sent. *)
Definition received (s : Sent) : list RR :=
  concat (envelopes s) ++ match written (served s) with Some m => Answer m | None => [] end.

(** What the interface [Transferer] asks of a plugin: the SOA first, no empty
    send, and the SOA again at the end, unless it is all there is. *)
Definition proper (soa : RR) (records : list (list RR)) : Prop :=
  soa_of soa = Some soa /\ ([] ∉ records) /\
  (records = [[soa]] \/ exists rs mid, records = (soa :: rs) :: mid ++ [[soa]]).

Lemma proper_last soa records : proper soa records -> last (concat records) = Some soa.
Proof.
  intros (_ & _ & [->|(rs & mid & ->)]); [done|]. simpl. rewrite concat_app. simpl.
  rewrite app_comm_cons, app_assoc. by rewrite last_snoc.
Qed.

Lemma proper_head soa records : proper soa records -> head (omap (fun l => head l ≫= soa_of) records) = Some soa.
Proof. intros (Hs & _ & [->|(rs & mid & ->)]); simpl; by rewrite Hs. Qed.

Lemma concat_prefix {A} (a b : list (list A)) : a `prefix_of` b -> concat a `prefix_of` concat b.
Proof. intros [c ->]. rewrite concat_app. by eexists. Qed.

(** The end of the handler: the envelopes [envs], and the message [last_]
    if they all went out. *)
Lemma deliver ok envs (last_ : option Msg) records :
  Forall (fits RRLen) envs -> concat envs ++ match last_ with Some m => Answer m | None => [] end = concat records ->
  let '(sent, fine) := out ok 0 envs in
  let s := if fine : bool then mkSent (mkServed 0 last_ false) sent
           else mkSent (mkServed RcodeServerFailure None true) sent in
  Forall (fits RRLen) (envelopes s) /\ received s `prefix_of` concat records /\
  (failed (served s) = false -> received s = concat records) /\
  ((forall k, ok k = true) -> failed (served s) = false).
Proof.
  intros Hf Hc. pose proof (out_spec ok 0 envs) as Ho. destruct (out ok 0 envs) as [sent fine].
  destruct Ho as (Hp & Ha & Hok). destruct fine; simpl.
  - rewrite (Ha eq_refl). unfold received. simpl. rewrite Hc. split_and!; done.
  - unfold received. simpl. rewrite app_nil_r. split_and!; try done.
    + destruct Hp as [k ->]. by apply Forall_app in Hf as [? _].
    + rewrite <-Hc. by apply prefix_app_r, concat_prefix.
    + intros H. by apply Hok in H.
Qed.

Lemma send_zone_spec ok r soa records :
  proper soa records ->
  exists s, send_zone RRLen ok r records = Ok s /\ Forall (fits RRLen) (envelopes s) /\
    received s `prefix_of` concat records /\
    (failed (served s) = false -> received s = concat records) /\
    ((forall k, ok k = true) -> failed (served s) = false).
Proof.
  intros Hp. pose proof (batch_loop_inv RRLen records ([], [], 0) [] None) as HB.
  unfold send_zone. destruct (batch_loop RRLen records ([], [], 0) None) as [[[full rrs] soa']|] eqn:E.
  2: { exfalso. apply Hp. apply HB. split_and!; try done. by left. }
  destruct HB as ((size & Hc & Hf & _ & Hr) & Hsoa & _); [split_and!; try done; by left|].
  rewrite (Hsoa eq_refl), (proper_head soa records Hp). cbn [mbind result_bind]. simpl in Hc.
  pose proof (proper_last _ _ Hp) as Hl. destruct Hr as [[_ Hd]|Hr]; [simpl in Hd; by rewrite Hd in Hl|].
  destruct rrs as [|x [|x' rrs']]; [by destruct Hr|..].
  - assert (x = soa) as -> by (rewrite <-Hc, last_snoc in Hl; congruence).
    pose proof (deliver ok full (Some (soa_reply r soa)) records Hf Hc) as HD.
    destruct (out ok 0 full) as [sent []]; (eexists; split; [done|exact HD]).
  - rewrite decide_False by done.
    pose proof (deliver ok (full ++ [x :: x' :: rrs']) None records) as HD.
    destruct (out ok 0 _) as [sent []]; (eexists; split; [done|apply HD]);
      first [by apply Forall_app; split; [|apply Forall_singleton]|by rewrite concat_app, app_nil_r; simpl; rewrite app_nil_r].
Qed.

(** A zone is delivered whole and in order.  Of a zone a plugin sends as
    the interface asks, the handler sends messages that are below the limit
    of 63000 bytes, or hold a single record; what the client receives is
    always a beginning of the zone, and is the whole zone when the handler
    reports no error, which it does when every write succeeds. *)
Theorem zone_delivered ok r soa records :
  proper soa records ->
  exists s, send_zone RRLen ok r records = Ok s /\ Forall (fits RRLen) (envelopes s) /\
    received s `prefix_of` concat records /\
    (failed (served s) = false -> received s = concat records) /\
    ((forall k, ok k = true) -> failed (served s) = false).
Proof. apply send_zone_spec. Qed.

(** ** Who may have a zone *)

(** The client is named in the block, or the block names everyone. *)
Definition listed (x : xfr) w : Prop :=
  "*" ∈ to x \/ exists h port, h ∈ to x /\ net_SplitHostPort h = Some (IP w, port).

Lemma allowed_listed x w : allowed x w = true -> listed x w.
Proof.
  unfold allowed, listed. induction (to x) as [|h hs IH]; cbn [allowed_loop]; [done|].
  case_decide as Hh; [subst; left; by left|].
  destruct (net_SplitHostPort h) as [[t0 p]|] eqn:E; [|done].
  case_decide; [subst; right; exists h, p; split; [by left|done]|].
  intros [Hs|(h' & p' & Hs & Hi)]%IH; [left; by right|right; exists h', p'; split; [by right|done]].
Qed.

(** Zones go only to listed clients.  Unless the query is handed to the
    next plugin, records are sent only over TCP, for a full or incremental
    transfer request, to a client that the longest matching block lists. *)
Theorem transfers_to_listed ok t w r s :
  transfer_ServeDNS RRLen ok t w r = Ok s ->
  s = pass t r \/ received s = [] \/
  (over_tcp w = true /\ (QType_ r = TypeAXFR \/ QType_ r = TypeIXFR) /\
   exists x, longestMatch (xfrs t) (Name_ r) = Some x /\ listed x w).
Proof.
  unfold transfer_ServeDNS. case_decide as Hq; [intros [= <-]; by left|].
  case_decide as Hp; [intros [= <-]; right; by left|].
  destruct (longestMatch (xfrs t) (Name_ r)) as [x|]; [|intros [= <-]; by left].
  destruct (allowed x w) eqn:Ha; cbn [negb].
  - intros _. right. right. split.
    + unfold Proto in Hp. by destruct (over_tcp w).
    + split; [|by exists x; split; [|apply allowed_listed]].
      destruct (decide (QType_ r = TypeAXFR)); [auto|]. destruct (decide (QType_ r = TypeIXFR)); tauto.
  - intros [= <-]. right. left. unfold received. simpl. apply SetReply_law.
Qed.

(** ** The secondary's copy *)

Lemma zone_Transfer_full z soa :
  SOA (apex z) = Some soa ->
  zone_Transfer z 0 = Some ([soa :: SIGSOA (apex z) ++ NS (apex z) ++ SIGNS (apex z)]
                            ++ (All_ <$> elems (Root (tree z))) ++ [[soa]]).
Proof.
  intros Hs. unfold zone_Transfer, apex_records. rewrite Hs. cbn [bool_decide andb].
  set (visit := fun (sent : list (list RR)) e => _).
  assert (forall l acc, run_list (Er := unit) visit l acc = Ok (acc ++ (All_ <$> l))) as Hrun.
  { induction l as [|e l IH]; intros acc; simpl; [by rewrite app_nil_r|]. unfold visit at 1. simpl.
    by rewrite IH, <-app_assoc. }
  assert (Walk visit (tree z) [] = Ok (All_ <$> elems (Root (tree z)))) as ->; [|done].
  unfold Walk. destruct (Root (tree z)) eqn:E; [done|]. rewrite <-E, walk_elems, Hrun. done.
Qed.

Lemma zone_Transfer_proper z soa records :
  filed z -> SOA (apex z) = Some soa -> zone_Transfer z 0 = Some records -> proper soa records.
Proof.
  intros Hz Hs. rewrite (zone_Transfer_full z soa Hs). intros [= <-]. split_and!.
  - destruct (filed_soa _ Hz soa Hs) as [_ Hf]. apply soa_fields_inv in Hf as (a & b & c & d & x & f & g & Hd).
    unfold soa_of. by rewrite Hd.
  - rewrite !elem_of_cons, elem_of_app, list_elem_of_fmap, list_elem_of_singleton.
    intros [[=]|[(e & He & Hin)|[=]]]. pose proof (proj1 (Forall_forall _ _) (filed_elems _ Hz) e Hin) as [Hf _].
    destruct (All_cons e Hf) as (r & rs & E). by rewrite E in He.
  - right. eauto.
Qed.

Lemma insert_rrs_split z rs1 rs2 z2 :
  insert_rrs z (rs1 ++ rs2) = Ok (z2, true) ->
  exists z1, insert_rrs z rs1 = Ok (z1, true) /\ insert_rrs z1 rs2 = Ok (z2, true).
Proof.
  revert z. induction rs1 as [|r rs1 IH]; intros z; simpl; [eauto|].
  destruct (Insert_ z r) as [z'|[]]; [apply IH|done|done].
Qed.

(** However the records are cut into envelopes. *)
Lemma receive_concat chunks z z2 :
  insert_rrs z (concat chunks) = Ok (z2, true) -> receive z (Ok <$> chunks) = Ok (z2, true).
Proof.
  revert z. induction chunks as [|c chunks IH]; intros z; simpl; [done|].
  intros (z1 & E1 & E2)%insert_rrs_split. rewrite E1. simpl. by apply IH.
Qed.

(** The primary [tr] answers with these envelopes, and no primary before it
    starts a transfer. *)
Definition first_answer net y (tr : string) (chunks : list (list RR)) : Prop :=
  exists pre post, TransferFrom y = pre ++ tr :: post /\ Forall (fun p => is_ok (axfr net p) = false) pre /\
    axfr net tr = Ok (Ok <$> chunks).

Lemma TransferIn_first net y tr chunks z1 :
  first_answer net y tr chunks -> insert_rrs (CopyWithoutApex y) (concat chunks) = Ok (z1, true) ->
  TransferIn net y = Ok (setData y (apex z1) (tree z1), false).
Proof.
  intros (pre & post & Hf & Hpre & Hc) HI. unfold TransferIn.
  assert (forall err, transfer_loop net (CopyWithoutApex y) (pre ++ tr :: post) err = Ok (z1, false)) as HL.
  { clear Hf. induction Hpre as [|p pre Hp Hpre IH]; intros err; simpl.
    - by rewrite Hc, (receive_concat _ _ _ HI).
    - by destruct (axfr net p). }
  rewrite Hf. destruct (pre ++ tr :: post) eqn:E; [by destruct pre|]. by rewrite HL.
Qed.

(** A zone fetched from what its primary sends. *)
Lemma copy_zone net y tr chunks z soa :
  filed z -> SOA (apex z) = Some soa -> Fqdn (origin z) = origin z -> origin y = origin z -> origLen y = origLen z ->
  first_answer net y tr chunks -> (exists records, zone_Transfer z 0 = Some records /\ concat chunks = concat records) ->
  exists y', TransferIn net y = Ok (y', false) /\ same_data z y' /\ Expired y' = false.
Proof.
  intros Hz Hs Hfq Ho Hl Hfirst (records & Hr & Hch). rewrite (zone_Transfer_full z soa Hs) in Hr. injection Hr as <-.
  destruct (refile z (CopyWithoutApex y) soa Hz Hs) as (z1 & E & Ha & He & _ & _); simpl; [by rewrite Ho|done|done|].
  cbn [concat] in Hch. rewrite concat_app in Hch. cbn [concat] in Hch. rewrite app_nil_r in Hch. rewrite <-Hch in E.
  rewrite (TransferIn_first net y tr chunks z1 Hfirst E). eexists. split; [done|]. split; [|done].
  split; simpl; try done. apply (filed_wf _ Hz).
Qed.

(** C3. A secondary is a copy of its primary.  A zone loaded by the primary's
    file plugin is requested in full by a client the transfer plugin lists;
    if the handler reports no error, then a secondary for the same origin
    that receives what was sent, in any envelopes, replaces its zone without
    an error, is not expired, and from then on every lookup in it, of any
    name, type and DNSSEC option, gives exactly what the primary's zone gives,
    whatever it held before and however the two trees are shaped. *)
Theorem transfer_copies_zone ok (f : File) t w r x s z soa net y tr chunks :
  filed z -> SOA (apex z) = Some soa -> Fqdn (origin z) = origin z ->
  Z_ f !! Name_ r = Some z -> Transferers t = [file_Transfer f] ->
  QType_ r = TypeAXFR -> over_tcp w = true -> longestMatch (xfrs t) (Name_ r) = Some x -> allowed x w = true ->
  transfer_ServeDNS RRLen ok t w r = Ok s -> failed (served s) = false ->
  origin y = origin z -> origLen y = origLen z ->
  first_answer net y tr chunks -> concat chunks = received s ->
  exists y', TransferIn net y = Ok (y', false) /\ Expired y' = false /\
    forall loop r' q, Lookup_ upstream y' loop r' q = Lookup_ upstream z loop r' q.
Proof.
  intros Hz Hs Hfq HZ Ht Hq Htcp Hx Ha. unfold transfer_ServeDNS, Proto.
  rewrite decide_False by (intros [H _]; done). rewrite Htcp, decide_False by (intros H; by destruct H). rewrite Hx, Ha. cbn [negb].
  unfold request_serial. rewrite decide_False by (rewrite Hq; done). rewrite Ht. cbn [first_transferer].
  unfold file_Transfer. rewrite HZ. destruct (zone_Transfer z 0) as [records|] eqn:Er; [|by rewrite (zone_Transfer_full z soa Hs) in Er].
  destruct (send_zone_spec ok r soa records) as (s0 & -> & _ & _ & Hfull & _); [by eapply zone_Transfer_proper|].
  intros [= <-] Hok Ho Hl Hfirst Hch. rewrite (Hfull Hok) in Hch.
  destruct (copy_zone net y tr chunks z soa) as (y' & HT & Hsame & He); try done.
  { by exists records. }
  exists y'. split; [done|]. split; [done|]. intros loop r' q. by apply same_Lookup.
Qed.

End transfers.

(** ** A primary with a zone and a listed secondary *)

Module XferSample.
#[local] Existing Instances Plain.names Plain.names_spec PlainLib.lib PlainLib.lib_spec list_order.
Import FileFacts.ZoneSample.

(** Records of 25000 bytes, so that two fit in a message. *)
Definition big (r : RR) : Z := 25000.
Definition primary : File := mkFile None {[ "example.org." := zone ]} ["example.org."] [].
Definition plugin : Transfer := mkTransfer [file_Transfer primary] [mkXfr ["example.org."] ["192.0.2.9:53"]] None.
Definition client : Client := mkClient "192.0.2.9:40000" true.
Definition axfr_query : Msg := query "example.org." TypeAXFR.
Definition always (n : nat) : bool := true.

Definition sent : Sent :=
  match transfer_ServeDNS big always plugin client axfr_query with Ok s => s | Err _ => pass plugin axfr_query end.

Lemma sent_eq : transfer_ServeDNS big always plugin client axfr_query = Ok sent.
Proof.
  assert (is_ok (transfer_ServeDNS big always plugin client axfr_query) = true) as Hok by (vm_compute; reflexivity).
  unfold sent. destruct (transfer_ServeDNS big always plugin client axfr_query); [reflexivity|discriminate].
Qed.

Lemma zone_filed : filed zone.
Proof.
  assert (exists z, load_zone (NewZone "example.org.") FileFacts.ZoneSample.records = Ok z) as [z E].
  { match goal with |- exists _, ?x = _ =>
      assert (is_ok x = true) as Hok by (vm_compute; reflexivity); destruct x as [z|]; [by exists z|discriminate] end. }
  unfold zone. rewrite E. eapply load_filed; [apply NewZone_filed| |exact E].
  repeat apply Forall_cons_2; try apply Forall_nil_2; (split; [vm_compute; reflexivity|split; vm_compute; reflexivity]).
Qed.

(** The secondary asks a dead primary first; then the zone arrives one record
    per envelope. *)
Definition secondary : Zone :=
  mkZone "example.org." 2 (mkTree Nil 0) empty_apex true ["192.0.2.7:53"; "192.0.2.8:53"].
Definition chunks : list (list RR) := (fun r => [r]) <$> received sent.
Definition network : Primaries :=
  mkPrimaries (fun tr => if decide (tr = "192.0.2.8:53") then Ok (Ok <$> chunks) else Err tt) (fun tr => Err tt).

Lemma chunks_first : first_answer network secondary "192.0.2.8:53" chunks.
Proof.
  exists ["192.0.2.7:53"], []. split; [reflexivity|]. split; [|reflexivity].
  apply Forall_cons_2; [reflexivity|apply Forall_nil_2].
Qed.

Lemma concat_singletons (l : list RR) : concat ((fun r => [r]) <$> l) = l.
Proof. induction l as [|x l IH]; [done|]. rewrite fmap_cons. cbn [concat app]. by rewrite IH. Qed.

Lemma transfer_copies_witness :
  exists y', TransferIn network secondary = Ok (y', false) /\ Expired y' = false /\
    forall loop r' q, Lookup_ no_upstream y' loop r' q = Lookup_ no_upstream zone loop r' q.
Proof.
  apply (transfer_copies_zone big no_upstream always primary plugin client axfr_query
           (mkXfr ["example.org."] ["192.0.2.9:53"]) sent zone soa network secondary "192.0.2.8:53" chunks).
  - apply zone_filed.
  - vm_compute. reflexivity.
  - vm_compute. reflexivity.
  - reflexivity.
  - reflexivity.
  - reflexivity.
  - reflexivity.
  - vm_compute. reflexivity.
  - vm_compute. reflexivity.
  - apply sent_eq.
  - vm_compute. reflexivity.
  - vm_compute. reflexivity.
  - vm_compute. reflexivity.
  - apply chunks_first.
  - apply concat_singletons.
Defined.

Lemma zone_delivered_witness :
  exists s, send_zone big always axfr_query (default [] (zone_Transfer zone 0)) = Ok s /\ Forall (fits big) (envelopes s) /\
    received s `prefix_of` concat (default [] (zone_Transfer zone 0)) /\
    (failed (served s) = false -> received s = concat (default [] (zone_Transfer zone 0))) /\
    ((forall k, always k = true) -> failed (served s) = false).
Proof.
  apply (zone_delivered big always axfr_query soa).
  apply (zone_Transfer_proper zone soa); [apply zone_filed|vm_compute; reflexivity|].
  destruct (zone_Transfer zone 0) eqn:E; [reflexivity|vm_compute in E; discriminate].
Defined.

Lemma transfers_to_listed_witness :
  sent = pass plugin axfr_query \/ received sent = [] \/
  (over_tcp client = true /\ (QType_ axfr_query = TypeAXFR \/ QType_ axfr_query = TypeIXFR) /\
   exists x, longestMatch (xfrs plugin) (Name_ axfr_query) = Some x /\ listed x client).
Proof. apply (transfers_to_listed big always plugin client axfr_query sent sent_eq). Defined.

(** The zone of the example goes out in several messages. *)
Example sent_messages : length <$> envelopes sent = [2; 2; 2; 2]%nat /\ length (received sent) = 8%nat.
Proof. vm_compute. split; reflexivity. Qed.

End XferSample.
