(* ===== verification/UpdateFacts.v ===== *)
(** * A secondary zone over time

    The update loop (plugin/file/secondary.go) as a transition system: it
    brings the zone up to the primary's at a tick that sees a newer serial;
    it never leaves the expired state while the primary's serial stays the
    same; it takes a primary that refuses for one that is up to date; and a
    zone taken from several primaries can mix their records.  Reloading from
    disk (reload.go) by modification time, and what [Parse] does with a
    serial of zero. *)

From Stdlib Require Import Ascii ZArith Lia.
From stdpp Require Import base numbers gmap strings list.
From S2P Require Import Prelude DnsTypes DnsLib Serve Less Tree TreeInsert FileZone FileFacts FileSame Xfer Secondary ZoneCopy TransferFacts.

Local Open Scope Z_scope.

(** ** Serial numbers *)

(** The comparison of serial numbers is that of RFC 1982: [b] is newer
    than [a] when it is less than 2^31 ahead, modulo 2^32; two serials exactly
    2^31 apart, which the RFC leaves undefined, are ordered with the larger
    number first, so that no two serials are each newer than the other. *)
Theorem serial_less_rfc1982 a b :
  0 <= a < 2 ^ 32 -> 0 <= b < 2 ^ 32 ->
  (serial_less a b = true <-> 0 < (b - a) mod 2 ^ 32 < 2 ^ 31 \/ (b - a) mod 2 ^ 32 = 2 ^ 31 /\ b < a) /\
  (serial_less a b = true -> serial_less b a = false).
Proof.
  intros Ha Hb. unfold serial_less, u32, MaxSerialIncrement.
  assert ((b - a) mod 2 ^ 32 = if decide (a <= b) then b - a else b - a + 2 ^ 32) as ->.
  { case_decide; [apply Z.mod_small; lia|]. symmetry. apply (Z.mod_unique _ _ (-1)); lia. }
  repeat (case_decide; try lia); rewrite ?bool_decide_eq_true, ?bool_decide_eq_false;
    rewrite ?(Z.mod_small (a - b)) by lia; lia.
Qed.

Lemma serial_less_witness :
  (serial_less 4294967295 0 = true <->
   0 < (0 - 4294967295) mod 2 ^ 32 < 2 ^ 31 \/ (0 - 4294967295) mod 2 ^ 32 = 2 ^ 31 /\ 0 < 4294967295) /\
  (serial_less 4294967295 0 = true -> serial_less 0 4294967295 = false).
Proof. apply (serial_less_rfc1982 4294967295 0); lia. Defined.

Section update.
Context {L : DnsLib} {N : DnsNames} {NSp : DnsNamesSpec N} {MO : MapOrder}.
Variable upstream : nat -> string -> Z -> result unit (option Msg).
Implicit Types (z y : Zone) (net : Primaries) (s : Secondary_) (tk : Tickers).

(** The primaries of [y] report this serial. *)
Definition reports net y (n : Z) : Prop := should_loop net (TransferFrom y) false = Ok (Some n, false).

Lemma shouldTransfer_reports net y n soa :
  reports net y n -> getSOA y = Some soa -> shouldTransfer net y = Ok (serial_less (Serial_ soa) n, false).
Proof. intros Hr Hs. unfold shouldTransfer. rewrite Hr. simpl. by rewrite Hs. Qed.

Definition intervals_ok (soa : SOA_) : Prop := 0 < Refresh_ soa /\ 0 < Retry_ soa /\ 0 < Expire_ soa.

Lemma restart_cases now z soa :
  getSOA z = Some soa ->
  (intervals_ok soa /\ restart now z = Ok (mkTickers now (time_second * Refresh_ soa) (time_second * Retry_ soa)
                                             (time_second * Expire_ soa))) \/
  (~ intervals_ok soa /\ restart now z = Err BadInterval).
Proof.
  intros Hs. unfold restart, NewTicker, intervals_ok, time_second. rewrite Hs.
  change (10 ^ 9) with 1000000000.
  repeat (case_decide; cbn [mbind result_bind]); first [right; split; [lia|done]|left; split; [lia|done]].
Qed.

(** C38. A secondary catches up.  At a refresh tick, or a retry tick while it
    is retrying, at which the primaries report a newer serial and the first
    that starts a transfer sends the records of a zone, the zone of the
    secondary answers every lookup like that zone and is not expired.  The
    loop goes on with tickers armed anew from the received SOA, unless one of
    its intervals is zero: then arming the ticker panics. *)
Theorem secondary_catches_up now w y active tk net z zsoa soa n tr chunks :
  w = RefreshTick \/ w = RetryTick /\ active = true ->
  getSOA y = Some soa -> reports net y n -> serial_less (Serial_ soa) n = true ->
  filed z -> SOA (apex z) = Some zsoa -> Fqdn (origin z) = origin z -> origin y = origin z -> origLen y = origLen z ->
  first_answer net y tr chunks -> (exists records, zone_Transfer z 0 = Some records /\ concat chunks = concat records) ->
  exists y' fields, zone_ (on_wake now net w (mkSec y (Running active tk))) = y' /\ Expired y' = false /\
    (forall loop r q, Lookup_ upstream y' loop r q = Lookup_ upstream z loop r q) /\
    soa_fields zsoa = Some fields /\
    ph (on_wake now net w (mkSec y (Running active tk))) =
      if decide (0 < Refresh_ fields /\ 0 < Retry_ fields /\ 0 < Expire_ fields)
      then Running false (mkTickers now (time_second * Refresh_ fields) (time_second * Retry_ fields)
                                        (time_second * Expire_ fields))
      else Panicked.
Proof.
  intros Hw Hy Hr Hless Hz Hs Hfq Ho Hl Hfirst Hch.
  destruct (copy_zone net y tr chunks z zsoa) as (y' & HT & Hsame & He); try done.
  assert (check_transfer net y = Ok (y', true)) as HC.
  { unfold check_transfer. rewrite (shouldTransfer_reports net y n soa Hr Hy), Hless. simpl. by rewrite HT. }
  assert (exists fields, soa_fields zsoa = Some fields) as [fields Hf] by apply (filed_soa _ Hz zsoa Hs).
  assert (getSOA y' = Some fields) as Hg by (unfold getSOA; by rewrite (same_apex _ _ Hsame), Hs).
  assert (on_wake now net w (mkSec y (Running active tk)) = settle now y true tk (Ok (y', true))) as ->.
  { destruct Hw as [->|[-> ->]]; cbn [on_wake zone_ ph]; by rewrite HC. }
  exists y', fields. unfold settle.
  destruct (restart_cases now y' fields Hg) as [[Hi ->]|[Hi ->]]; cbn [zone_ ph];
    (split; [done|split; [done|split; [intros; by apply same_Lookup|split; [done|]]]]).
  - by rewrite decide_True.
  - by rewrite decide_False.
Qed.

(** ** What the loop does not do *)

(** A turn at which the primaries report a serial that is not newer leaves
    the zone's records alone. *)
Lemma on_wake_same now net w s n soa :
  getSOA (zone_ s) = Some soa -> reports net (zone_ s) n -> serial_less (Serial_ soa) n = false ->
  zone_ (on_wake now net w s) = zone_ s \/ zone_ (on_wake now net w s) = set_expired (zone_ s).
Proof.
  intros Hg Hr Hless. destruct s as [y p]. cbn [zone_] in *.
  assert (check_transfer net y = Ok (y, true)) as HC.
  { unfold check_transfer. rewrite (shouldTransfer_reports net y n soa Hr Hg), Hless. done. }
  assert (forall tk, zone_ (settle now y true tk (Ok (y, true))) = y) as Hset.
  { intros tk. unfold settle. by destruct (restart now y). }
  destruct p as [|active tk| |]; destruct w; cbn [on_wake zone_ ph]; rewrite ?HC, ?Hset; auto.
  - destruct (getSOA y); [|by left]. left. by destruct (restart now y).
  - destruct active; auto.
  - destruct active; rewrite ?Hset; auto.
Qed.

Lemma set_expired_id y : Expired y = true -> set_expired y = y.
Proof. intros He. destruct y. unfold set_expired. simpl in *. by subst. Qed.

Lemma run_same y soa p t now s :
  Expired y = true -> getSOA y = Some soa ->
  sec_run (fun _ net => exists n, reports net y n /\ serial_less (Serial_ soa) n = false) (t, mkSec y p) (now, s) ->
  zone_ s = y.
Proof.
  intros He Hg Hrun. remember (t, mkSec y p) as a eqn:Ea. remember (now, s) as b eqn:Eb. revert now s Eb.
  induction Hrun as [x|t' s0 now1 s1 now' net' wk Hrun IH Hle Hdue (n & Hrep & Hless)]; intros now0 s' Eb.
  - subst. by injection Eb as -> <-.
  - injection Eb as -> <-. specialize (IH Ea _ _ eq_refl).
    destruct (on_wake_same now0 net' wk s1 n soa) as [->| ->]; rewrite ?IH; try done. by apply set_expired_id.
Qed.

(** An expired zone stays expired.  Once the zone is marked expired, and
    as long as its primaries answer again but with a serial that is not newer
    than the zone's, no run of the update loop clears the mark, however long
    it is and whichever tickers fire, and every query for the zone is answered
    with SERVFAIL.  Only a transfer clears the mark, and no transfer happens
    until the primary's serial grows; RFC 1035 lets a zone that was confirmed
    to be current be used. *)
Theorem expired_until_newer_serial t y p soa now s (f : File) net loop w r :
  Expired y = true -> getSOA y = Some soa ->
  sec_run (fun _ net => exists n, reports net y n /\ serial_less (Serial_ soa) n = false) (t, mkSec y p) (now, s) ->
  Z_ f !! Matches (Names f) (Name_ r) = Some (zone_ s) -> Matches (Names f) (Name_ r) <> EmptyString ->
  QType_ r <> TypeAXFR -> QType_ r <> TypeIXFR -> Opcode r <> OpcodeNotify ->
  zone_ s = y /\ file_ServeDNS upstream net loop f w r = Ok (mkServed RcodeServerFailure None false, f).
Proof.
  intros He Hg Hrun HZ Hm Ha Hi Hn.
  assert (zone_ s = y) as Hy by (eapply (run_same y soa p t now s); eauto).
  split; [done|]. unfold file_ServeDNS. rewrite decide_False by done. rewrite HZ, Hy.
  rewrite !decide_False by tauto. by rewrite He.
Qed.

(** Every primary answers the query for the SOA, with an error code. *)
Definition refuses net y : Prop :=
  Forall (fun tr => exists ret, soa_query net tr = Ok ret /\ Rcode ret <> RcodeSuccess) (TransferFrom y).

Lemma check_refused net y : refuses net y -> check_transfer net y = Ok (y, true).
Proof.
  intros HF. assert (forall err, should_loop net (TransferFrom y) err = Ok (None, err && bool_decide (TransferFrom y = []))) as HL.
  { unfold refuses in HF. induction HF as [|tr froms (ret & Hq & Hc) HF IH]; intros err; cbn [should_loop].
    - by rewrite bool_decide_true, andb_true_r.
    - rewrite Hq, decide_True by done. rewrite IH. by rewrite andb_false_r. }
  unfold check_transfer, shouldTransfer. by rewrite HL.
Qed.

(** A primary that refuses is taken for one that is up to date.  While
    every primary answers the SOA query with an error code, the check counts
    as a success with nothing to transfer: the retry flag is never set, the
    expire ticker is armed anew at every refresh, and the zone is served
    unchanged and unexpired for ever.  The comment of [Update] says that the
    zone is retried when the check fails and expires when it could not be
    transferred in time. *)
Theorem refused_zone_never_expires t y tk now s :
  Expired y = false ->
  sec_run (fun _ net => refuses net y) (t, mkSec y (Running false tk)) (now, s) ->
  zone_ s = y /\ Expired (zone_ s) = false /\ forall active tk', ph s = Running active tk' -> active = false.
Proof.
  intros He Hrun. assert (zone_ s = y /\ forall active tk', ph s = Running active tk' -> active = false) as [Hz Hp].
  { remember (t, mkSec y (Running false tk)) as a eqn:Ea. remember (now, s) as b eqn:Eb. revert now s Eb.
    induction Hrun as [x|t' s0 now1 s1 now' net wk Hrun IH Hle Hdue Href]; intros now0 s' Eb.
    - subst. injection Eb as -> <-. split; [done|]. simpl. by intros active tk' [= <- _].
    - injection Eb as -> <-. destruct (IH Ea _ _ eq_refl) as [Hz Hp]. pose proof (check_refused net y Href) as HC.
      destruct s1 as [y1 p]. cbn [zone_] in Hz. subst y1. destruct p as [|active tk'| |]; destruct wk; cbn [on_wake zone_ ph]; try done.
      + destruct (getSOA y); [|done]. destruct (restart now0 y); simpl; [|done]. split; [done|]. by intros ? ? [= <- _].
      + rewrite (Hp active tk' eq_refl). split; [done|]. by intros ? ? [= <- _].
      + rewrite (Hp active tk' eq_refl). split; [done|]. by intros ? ? [= <- _].
      + rewrite HC. cbn [settle]. destruct (restart now0 y); simpl; [|done]. split; [done|]. by intros ? ? [= <- _]. }
  split; [done|]. split; [by rewrite Hz|done].
Qed.

(** A transfer can mix two primaries.  When the first primary breaks off
    after some records and the second sends its zone, the records of both are
    filed: the zone being built is not started afresh for the next primary. *)
Theorem transfer_mixes_primaries net y p1 p2 c1 c2 z1 :
  TransferFrom y = [p1; p2] ->
  axfr net p1 = Ok ((Ok <$> c1) ++ [Err tt]) -> axfr net p2 = Ok (Ok <$> c2) ->
  insert_rrs (CopyWithoutApex y) (concat c1 ++ concat c2) = Ok (z1, true) ->
  TransferIn net y = Ok (setData y (apex z1) (tree z1), false).
Proof.
  intros Hf H1 H2 (zm & E1 & E2)%insert_rrs_split. unfold TransferIn. rewrite Hf. cbn [transfer_loop]. rewrite H1.
  assert (forall c z0, insert_rrs z0 (concat c) = Ok (zm, true) -> receive z0 ((Ok <$> c) ++ [Err tt]) = Ok (zm, false)) as Hrec.
  { induction c as [|x c IH]; intros z0; simpl; [by intros [= ->]|].
    intros (z' & Ea & Eb)%insert_rrs_split. rewrite Ea. simpl. by apply IH. }
  rewrite (Hrec _ _ E1). cbn [mbind result_bind snd fst]. rewrite H2, (receive_concat _ _ _ E2). done.
Qed.

(** ** Reloading *)

(** Reloading by modification time never settles.  The time recorded
    with the zone is never written, so a tick that replaced the zone leaves a
    state in which the next tick, with the same file, replaces it and sends
    notifications again. *)
Theorem reload_by_mtime_repeats d (s s' : Reloading) :
  ReloadByMtime s = true -> reload_tick d s = Ok (s', true) -> reload_tick d s' = Ok (s', true).
Proof.
  unfold reload_tick. intros Hb. rewrite Hb. destruct (mtime d) as [t|]; [|done]. case_decide as Ht; [done|].
  destruct (content d) as [[rs bad]|]; [|done]. destruct (Parse rs bad (origin (live s)) 0) as [z1|[| [|] | |]] eqn:E; try done.
  intros [= <-]. simpl. by rewrite decide_False, E by done.
Qed.

(** A zone whose serial is 0 is not loaded at startup, where [Parse] is
    called with serial 0. *)
Lemma Parse_serial_zero r rs bad orig soa :
  soa_fields r = Some soa -> Serial_ soa = 0 -> Parse (r :: rs) bad orig 0 = Err NoChange.
Proof. intros Hs H0. unfold Parse. cbn [parse_loop]. by rewrite Hs, H0. Qed.

End update.

(** ** A secondary and its primaries *)

Module UpdateSample.
#[local] Existing Instances Plain.names Plain.names_spec PlainLib.lib PlainLib.lib_spec list_order.
Import FileFacts.ZoneSample TransferFacts.XferSample.

(** The zone of the primary, its serial one behind. *)
Definition old_soa : RR := mkRR (hdr "example.org." TypeSOA) (RSOA "ns.example.org." "h.example.org." 0 7200 3600 86400 300).
Definition old : Zone :=
  mkZone "example.org." 2 (mkTree Nil 0) (mkApex (Some old_soa) [] [] []) true ["192.0.2.7:53"; "192.0.2.8:53"].

Definition soa_msg (rc : Z) (ans : list RR) : Msg :=
  mkMsg 1 true OpcodeQuery true false false false false false rc [mkQ "example.org." TypeSOA ClassINET] ans [] [].
Definition newer : Primaries := mkPrimaries (axfr network) (fun _ => Ok (soa_msg RcodeSuccess [soa])).
Definition current : Primaries := mkPrimaries (axfr network) (fun _ => Ok (soa_msg RcodeSuccess [old_soa])).
Definition refusing : Primaries := mkPrimaries (axfr network) (fun _ => Ok (soa_msg RcodeRefused [])).
Definition armed : Tickers := mkTickers 0 (time_second * 7200) (time_second * 3600) (time_second * 86400).

Lemma secondary_catches_up_witness :
  exists y' fields, zone_ (on_wake (10 ^ 13) newer RefreshTick (mkSec old (Running true armed))) = y' /\
    Expired y' = false /\
    (forall loop r q, Lookup_ no_upstream y' loop r q = Lookup_ no_upstream zone loop r q) /\
    soa_fields soa = Some fields /\
    ph (on_wake (10 ^ 13) newer RefreshTick (mkSec old (Running true armed))) =
      if decide (0 < Refresh_ fields /\ 0 < Retry_ fields /\ 0 < Expire_ fields)
      then Running false (mkTickers (10 ^ 13) (time_second * Refresh_ fields) (time_second * Retry_ fields)
                                              (time_second * Expire_ fields))
      else Panicked.
Proof.
  apply (secondary_catches_up no_upstream (10 ^ 13) RefreshTick old true armed newer zone soa (mkSOA 0 7200 3600 86400) 1
           "192.0.2.8:53" chunks).
  - left. reflexivity.
  - reflexivity.
  - vm_compute. reflexivity.
  - vm_compute. reflexivity.
  - apply zone_filed.
  - vm_compute. reflexivity.
  - vm_compute. reflexivity.
  - vm_compute. reflexivity.
  - vm_compute. reflexivity.
  - exists ["192.0.2.7:53"], []. split; [reflexivity|]. split; [|reflexivity].
    apply Forall_cons_2; [reflexivity|apply Forall_nil_2].
  - exists (default [] (zone_Transfer zone 0)). split.
    + destruct (zone_Transfer zone 0) eqn:E; [reflexivity|vm_compute in E; discriminate].
    + unfold chunks. rewrite concat_singletons. vm_compute. reflexivity.
Defined.

Definition holder : File := mkFile None {[ "example.org." := old ]} ["example.org."] [].

(** A day later, after a retry that found the primary with the same serial. *)
Lemma expired_witness :
  zone_ (on_wake (10 ^ 14) current RetryTick (mkSec old (Running true armed))) = old /\
  file_ServeDNS no_upstream current 0 holder client (query "www.example.org." TypeA)
  = Ok (mkServed RcodeServerFailure None false, holder).
Proof.
  apply (expired_until_newer_serial no_upstream 0 old (Running true armed) (mkSOA 0 7200 3600 86400) (10 ^ 14)).
  - reflexivity.
  - reflexivity.
  - apply (run_wake _ 0 (mkSec old (Running true armed)) 0 (mkSec old (Running true armed)) (10 ^ 14) current RetryTick).
    + apply run_refl.
    + lia.
    + vm_compute. discriminate.
    + exists 0. split; vm_compute; reflexivity.
  - vm_compute. reflexivity.
  - vm_compute. discriminate.
  - vm_compute. discriminate.
  - vm_compute. discriminate.
  - vm_compute. discriminate.
Defined.

Definition fresh : Zone :=
  mkZone "example.org." 2 (mkTree Nil 0) (mkApex (Some old_soa) [] [] []) false ["192.0.2.7:53"; "192.0.2.8:53"].

Lemma refused_witness :
  zone_ (on_wake (10 ^ 14) refusing RefreshTick (mkSec fresh (Running false armed))) = fresh /\
  Expired (zone_ (on_wake (10 ^ 14) refusing RefreshTick (mkSec fresh (Running false armed)))) = false /\
  forall active tk', ph (on_wake (10 ^ 14) refusing RefreshTick (mkSec fresh (Running false armed))) = Running active tk' ->
    active = false.
Proof.
  apply (refused_zone_never_expires 0 fresh armed (10 ^ 14)); [reflexivity|].
  apply (run_wake _ 0 (mkSec fresh (Running false armed)) 0 (mkSec fresh (Running false armed)) (10 ^ 14) refusing RefreshTick).
  - apply run_refl.
  - lia.
  - vm_compute. discriminate.
  - apply Forall_cons_2; [|apply Forall_cons_2; [|apply Forall_nil_2]];
      (exists (soa_msg RcodeRefused []); split; [reflexivity|vm_compute; discriminate]).
Defined.

(** The first primary breaks off after a name the second does not have. *)
Definition half : list (list RR) := [[soa; a "gone.example.org." 9]].
Definition broken : Primaries :=
  mkPrimaries (fun tr => if decide (tr = "192.0.2.7:53") then Ok ((Ok <$> half) ++ [Err tt]) else Ok (Ok <$> chunks))
    (fun _ => Err tt).
Definition mixed : Zone :=
  match insert_rrs (CopyWithoutApex secondary) (concat half ++ concat chunks) with Ok (z, _) => z | Err _ => secondary end.

Lemma mixed_eq : insert_rrs (CopyWithoutApex secondary) (concat half ++ concat chunks) = Ok (mixed, true).
Proof.
  assert (match insert_rrs (CopyWithoutApex secondary) (concat half ++ concat chunks) with Ok (_, b) => b | Err _ => false end = true)
    as Hok by (vm_compute; reflexivity).
  unfold mixed. destruct (insert_rrs _ _) as [[z b]|]; [by rewrite Hok|discriminate].
Qed.

Lemma transfer_mixes_witness :
  TransferIn broken secondary = Ok (setData secondary (apex mixed) (tree mixed), false) /\
  ~ (exists chunk, chunk ∈ chunks /\ a "gone.example.org." 9 ∈ chunk) /\
  match find (setData secondary (apex mixed) (tree mixed)) "gone.example.org." with
  | Some e => Type_ e TypeA = [a "gone.example.org." 9]
  | None => False
  end.
Proof.
  split; [|split].
  - apply (transfer_mixes_primaries broken secondary "192.0.2.7:53" "192.0.2.8:53" half chunks mixed);
      [reflexivity|reflexivity|reflexivity|apply mixed_eq].
  - intros (chunk & Hc & Hin). assert (bool_decide (Forall (fun c => ~ a "gone.example.org." 9 ∈ c) chunks) = true) as H
      by (vm_compute; reflexivity).
    apply bool_decide_eq_true in H. exact (proj1 (Forall_forall _ _) H chunk Hc Hin).
  - vm_compute. reflexivity.
Defined.

Definition by_mtime : Reloading := mkRel zone true 0.
Definition disk : Disk := mkDisk (Some 5) (Some (FileFacts.ZoneSample.records, false)).
Definition reloaded : Reloading := match reload_tick disk by_mtime with Ok (s, _) => s | Err _ => by_mtime end.

Lemma reload_by_mtime_witness : reload_tick disk reloaded = Ok (reloaded, true).
Proof.
  apply (reload_by_mtime_repeats disk by_mtime reloaded); [reflexivity|].
  assert (match reload_tick disk by_mtime with Ok (_, b) => b | Err _ => false end = true) as Hok by (vm_compute; reflexivity).
  unfold reloaded. destruct (reload_tick disk by_mtime) as [[s b]|]; [by rewrite Hok|discriminate].
Defined.

End UpdateSample.
