(* ===== verification/FileServeFacts.v ===== *)
(** * The query handler of the file plugin (plugin/file/file.go)

    The handler never panics and keeps every zone well formed, whatever the
    query with a canonical name and whatever records, with data of their type,
    the primaries send after a notification; and what its fallthrough relies
    on: which lookups succeed with no answer. *)

From Stdlib Require Import Ascii ZArith Lia.
From stdpp Require Import base numbers gmap strings list.
From S2P Require Import Prelude DnsTypes DnsLib Serve Less Tree TreeInsert TreeQuery FileZone FileFacts FileSame Xfer Secondary.

Local Open Scope Z_scope.

Section handler.
Context {L : DnsLib} {N : DnsNames} {NSp : DnsNamesSpec N} {LS : LabelSpec L N} {MO : MapOrder}.
Variable upstream : nat -> string -> Z -> result unit (option Msg).
Implicit Types (z y : Zone) (net : Primaries) (f : File).

(** ** No panics *)

(** Records as the library decodes them from the wire: the data has the type
    of the header. *)
Definition rec_ok (r : RR) : Prop := typed r = true /\ (rr_type r = TypeDNAME -> canonical (rr_name (lowered r))).

Record net_ok net : Prop := {
  axfr_ok tr c rs : axfr net tr = Ok c -> Ok rs ∈ c -> Forall rec_ok rs;
  soa_query_ok tr m : soa_query net tr = Ok m -> Forall (fun r => typed r = true) (Answer m) }.

Lemma insert_rrs_ok rs z : zone_ok z -> Forall rec_ok rs -> exists z' b, insert_rrs z rs = Ok (z', b) /\ zone_ok z'.
Proof.
  intros Hz HF. revert z Hz. induction HF as [|r rs [Hr Hc] HF IH]; intros z Hz; simpl; [eauto|].
  pose proof (Insert_keeps z r Hz Hr Hc) as HI. destruct (Insert_ z r) as [z'|e]; destruct HI as [HI _]; [by apply IH|].
  rewrite HI. eauto.
Qed.

Lemma receive_ok c z :
  zone_ok z -> (forall rs, Ok rs ∈ c -> Forall rec_ok rs) -> exists z' b, receive z c = Ok (z', b) /\ zone_ok z'.
Proof.
  revert z. induction c as [|[rs|] c IH]; intros z Hz Hc; simpl; [eauto| |eauto].
  destruct (insert_rrs_ok rs z Hz) as (z' & b & -> & Hz'); [apply Hc; by left|]. simpl.
  destruct b; [|eauto]. apply IH; [done|]. intros rs' H. apply Hc. by right.
Qed.

Lemma transfer_loop_ok net froms z err :
  net_ok net -> zone_ok z -> exists z' b, transfer_loop net z froms err = Ok (z', b) /\ zone_ok z'.
Proof.
  intros Hn. revert z err. induction froms as [|tr froms IH]; intros z err Hz; simpl; [eauto|].
  destruct (axfr net tr) as [c|] eqn:E; [|by apply IH].
  destruct (receive_ok c z Hz) as (z' & b & -> & Hz'); [intros rs; by apply (axfr_ok _ Hn tr)|]. simpl.
  destruct b; [eauto|by apply IH].
Qed.

Lemma TransferIn_ok net z : net_ok net -> zone_ok z -> exists z' b, TransferIn net z = Ok (z', b) /\ zone_ok z'.
Proof.
  intros Hn Hz. unfold TransferIn. destruct (TransferFrom z) as [|tr froms]; [eauto|].
  destruct (transfer_loop_ok net (tr :: froms) (CopyWithoutApex z) false Hn) as (z' & b & -> & [Hw Ht]); [apply (NewZone_ok (origin z))|].
  simpl. destruct b; eauto. do 2 eexists. split; [done|]. by split.
Qed.

Lemma typed_soa r : rr_type r = TypeSOA -> typed r = true -> is_Some (soa_fields r).
Proof.
  unfold typed, soa_fields. intros Ht. rewrite Ht. destruct (Data r); eauto; intros H; exfalso; by vm_compute in H.
Qed.

Lemma answer_serial_ok rs : Forall (fun r => typed r = true) rs -> exists o, answer_serial rs = Ok o.
Proof.
  induction 1 as [|r rs Hr HF IH]; simpl; [eauto|]. case_decide as Ht; [|done].
  destruct (typed_soa r Ht Hr) as [s ->]. eauto.
Qed.

Lemma shouldTransfer_ok net z : net_ok net -> exists b e, shouldTransfer net z = Ok (b, e).
Proof.
  intros Hn. assert (forall froms err, exists o e, should_loop net froms err = Ok (o, e)) as HL.
  { induction froms as [|tr froms IH]; intros err; simpl; [eauto|].
    destruct (soa_query net tr) as [m|] eqn:E; [|apply IH]. case_decide; [apply IH|].
    destruct (answer_serial_ok (Answer m) (soa_query_ok _ Hn tr m E)) as [[s|] ->]; simpl; [eauto|apply IH]. }
  unfold shouldTransfer. destruct (HL (TransferFrom z) false) as ([n|] & e & ->); simpl; [|eauto].
  destruct (getSOA z); eauto.
Qed.

Definition file_ok f : Prop := forall n z, Z_ f !! n = Some z -> zone_ok z.

(** C9. The handler of the file plugin is safe.  With well-formed zones, for
    every query with a canonical name and every answer of the upstream, it
    returns: no lookup loops or panics, a NOTIFY is handled whether or not it
    leads to a transfer and however that ends, and every zone the plugin
    holds afterwards is well formed again.  Of the primaries it is assumed
    that the records they send have data of their type and that their DNAME
    records have canonical owners; they may refuse, stop in the middle or
    send any such records. *)
Theorem file_ServeDNS_safe net loop f w r :
  file_ok f -> net_ok net -> canonical (Name_ r) ->
  exists s f', file_ServeDNS upstream net loop f w r = Ok (s, f') /\ file_ok f' /\ Names f' = Names f.
Proof.
  intros Hf Hn Hq. unfold file_ServeDNS. case_decide; [destruct (Next_h f); eauto|].
  destruct (Z_ f !! Matches (Names f) (Name_ r)) as [z|] eqn:E; [|eauto]. pose proof (Hf _ _ E) as Hz.
  case_decide; [eauto|]. case_decide.
  - assert (exists s z', on_notify net w r z = Ok (s, z') /\ zone_ok z') as (s & z' & -> & Hz').
    { unfold on_notify. destruct (isNotify z w r); [|eauto].
      destruct (shouldTransfer_ok net z Hn) as (b & e & ->). simpl. destruct b; simpl; [|eauto].
      destruct (TransferIn_ok net z Hn Hz) as (z' & b' & -> & Hz'). simpl. eauto. }
    simpl. do 2 eexists. split; [done|]. split; [|done]. intros n z0. simpl.
    intros [[_ <-]|[_ Hl]]%lookup_insert_Some; [done|by eapply Hf].
  - destruct (Expired z); [eauto|].
    destruct (Lookup_total_aux upstream z loop r (Name_ r) (proj2 Hz) Hq) as [a ->]. simpl.
    case_match; eauto.
Qed.

(** ** Success without an answer *)

Lemma redo_answers k z loop e rrs qtype do a :
  redo upstream k z loop e rrs qtype do = Ok a -> rrs `prefix_of` ans a.
Proof.
  revert e rrs. induction k as [|k IH]; intros e rrs; cbn [redo]; destruct (Type_ e TypeCNAME) as [|c l].
  all: try (intros [= <-]; simpl; by eexists).
  all: destruct (cname_target (c :: l)) as [t|]; cbn [mbind result_bind]; [|done]; destruct (goes_out _ _ _ _);
    [intros [= <-]; unfold leave; destruct (doLookup _ _ _ _) as [more rc]; simpl; rewrite <-app_assoc; by eexists|].
  - destruct (Search (tree z) t).1; intros [= <-]; simpl; by eexists.
  - destruct (Search (tree z) t).1 as [e'|]; [intros H%IH; by eapply prefix_app_l|intros [= <-]; simpl; by eexists].
Qed.

Lemma external_answers z loop e rrs qtype do a :
  externalLookup upstream z loop e rrs qtype do = Ok a -> rrs <> [] -> ans a <> [].
Proof.
  unfold externalLookup. intros H Hne.
  assert ((rrs ++ (if do then SubTypeSignature (Type_ e TypeRRSIG) TypeCNAME else [])) `prefix_of` ans a) as Hp.
  { destruct (cname_target _) as [t|]; cbn [mbind result_bind] in H; [|done]. destruct (goes_out _ _ _ _).
    - injection H as <-. unfold leave. destruct (doLookup _ _ _ _) as [more rc]. simpl. by eexists.
    - destruct (Search (tree z) t).1; [|done]. by eapply redo_answers. }
  destruct rrs; [done|]. intros E. rewrite E in Hp. by apply prefix_nil_not in Hp.
Qed.

Lemma walk_answers fuel i z loop sname q qtype do (e w : option Elem) a :
  walk_loop upstream fuel i z loop sname q qtype do e w = Ok (Answered a) -> ans a = [] -> res a = Delegation.
Proof.
  revert i e w. induction fuel as [|fuel IH]; intros i e w; cbn [walk_loop]; [done|].
  destruct (nameFromRight z q i) as [p []]; [done|]. destruct (Search (tree z) p) as [[e'|] []]; try done; try apply IH.
  destruct (dname_at e' sname) as [[cn|]|] eqn:Ed; cbn [mbind result_bind]; [|destruct (Type_ e' TypeNS); [apply IH|]|done].
  - unfold answer_dname. destruct (if decide _ then _ else _) as [a0|]; cbn [mbind result_bind]; [|done].
    intros [= <-]. simpl. unfold dname_at in Ed. by destruct (Type_ e' TypeDNAME).
  - case_match; [apply IH|]. by intros [= <-].
Qed.

(** When a lookup succeeds with an empty answer.  The handler passes such
    a query on when fallthrough is configured, on the ground that every other
    success carries records.  Exactly two cases remain: the name is an empty
    non-terminal (a name of the zone is below it), or the query is for the NS
    records of the origin of a zone that has none. *)
Theorem success_without_answer z loop r q a :
  Lookup_ upstream z loop r q = Ok a -> res a = Success -> ans a = [] ->
  (exists x, Next (tree z) q = (Some x, true) /\ IsSubDomain q (ElemName x) = true) \/
  (q = origin z /\ QType_ r = TypeNS /\ NS (apex z) = []).
Proof.
  unfold Lookup_. destruct (SOA (apex z)) as [soa|]; [|by intros [= <-]].
  case_decide as H1; [by intros [= <-]|]. case_decide as H2.
  { intros [= <-] _. simpl. intros [E _]%app_nil. right. naive_solver. }
  case_decide; [by intros [= <-]|].
  destruct (walk_loop _ _ _ _ _ _ _ _ _ _ _) as [[a0|[e|] w]|] eqn:Ew; cbn [mbind result_bind]; [..|done].
  - intros [= <-] Hr Ha. apply walk_answers in Ew; [congruence|done].
  - unfold answer_found. destruct (bool_decide (Type_ e TypeCNAME <> []) && _) eqn:Ec.
    + apply andb_true_iff in Ec as [Ec%bool_decide_eq_true _]. intros HX _ Ha. by eapply external_answers in HX.
    + by destruct (Type_ e (QType_ r)); intros [= <-].
  - destruct w as [w|].
    + unfold answer_wildcard. destruct (bool_decide (TypeForWildcard w TypeCNAME q <> []) && _) eqn:Ec.
      * apply andb_true_iff in Ec as [Ec%bool_decide_eq_true _]. intros HX _ Ha. by eapply external_answers in HX.
      * by destruct (TypeForWildcard w (QType_ r) q); intros [= <-].
    + assert (forall rc, rc = match Next (tree z) q with
                              | (Some x, true) => if IsSubDomain q (ElemName x) then Success else NameError
                              | _ => NameError end -> rc = Success ->
              exists x, Next (tree z) q = (Some x, true) /\ IsSubDomain q (ElemName x) = true) as Hrc.
      { intros rc -> HX. destruct (Next (tree z) q) as [[x|] []]; try done. exists x. split; [done|]. by destruct (IsSubDomain _ _). }
      unfold answer_denial. intros HX Hr _. left. apply (Hrc _ eq_refl).
      destruct (Do r); cbn [negb] in HX; [|by injection HX as <-].
      destruct (Prev (tree z) q) as [[d|] []]; try by injection HX as <-. case_decide; [by injection HX as <-|].
      destruct (ClosestEncloser z q); cbn [mbind result_bind] in HX; [by injection HX as <-|done].
Qed.

End handler.

Module HandlerSample.
#[local] Existing Instances Plain.names Plain.names_spec PlainLib.lib list_order.
Import FileFacts.ZoneSample.

(** A secondary that is notified by its primary. *)
Definition secondary : Zone := mkZone "example.org." 2 (mkTree Nil 0) empty_apex false ["192.0.2.8:53"].
Definition holder : File := mkFile None {[ "example.org." := secondary ]} ["example.org."] [].
Definition primary : Client := mkClient "192.0.2.8:5353" false.
Definition notify : Msg :=
  mkMsg 1 false OpcodeNotify false false false false false false RcodeSuccess [mkQ "example.org." TypeSOA ClassINET] [] [] [].
Definition soa_msg : Msg :=
  mkMsg 1 true OpcodeQuery true false false false false false RcodeSuccess [mkQ "example.org." TypeSOA ClassINET] [soa] [] [].
Definition network : Primaries := mkPrimaries (fun _ => Ok [Ok (FileFacts.ZoneSample.records ++ [soa])]) (fun _ => Ok soa_msg).

Lemma network_ok : net_ok network.
Proof.
  split.
  - intros tr c rs [= <-] H. apply list_elem_of_singleton in H. injection H as ->.
    repeat apply Forall_cons_2; try apply Forall_nil_2;
      (split; [vm_compute; reflexivity|intros E; vm_compute in E; discriminate]).
  - intros tr m [= <-]. apply Forall_cons_2; [vm_compute; reflexivity|apply Forall_nil_2].
Qed.

Lemma holder_ok : file_ok holder.
Proof.
  intros n z Hz. simpl in Hz. apply lookup_singleton_Some in Hz as [_ <-]. split; [apply wf_empty|].
  intros e He. exfalso. simpl in He. by apply elem_of_nil in He.
Qed.

Lemma file_ServeDNS_safe_witness :
  exists s f', file_ServeDNS no_upstream network 0 holder primary notify = Ok (s, f') /\ file_ok f' /\ Names f' = ["example.org."].
Proof.
  apply (file_ServeDNS_safe no_upstream network 0 holder primary notify); [apply holder_ok|apply network_ok|].
  split_and!; vm_compute; reflexivity.
Defined.

(** The notified zone was transferred. *)
Example notified :
  match file_ServeDNS no_upstream network 0 holder primary notify with
  | Ok (s, f') => is_Some (written s) /\ (Z_ f' !! "example.org." ≫= getSOA) = Some (mkSOA 1 7200 3600 86400)
  | Err _ => False
  end.
Proof. vm_compute. split; [by eexists|reflexivity]. Qed.

Definition ent_answer : Answer_ :=
  match Lookup_ no_upstream zone 0 (FileFacts.ZoneSample.query "ent.example.org." TypeA) "ent.example.org." with
  | Ok x => x
  | Err _ => mkAns [] [] [] ServerFailure
  end.

Lemma success_without_answer_witness :
  (exists x, Next (tree zone) "ent.example.org." = (Some x, true) /\ IsSubDomain "ent.example.org." (ElemName x) = true) \/
  ("ent.example.org." = origin zone /\ TypeA = TypeNS /\ NS (apex zone) = []).
Proof.
  apply (success_without_answer no_upstream zone 0 (FileFacts.ZoneSample.query "ent.example.org." TypeA) "ent.example.org." ent_answer).
  - assert (is_ok (Lookup_ no_upstream zone 0 (FileFacts.ZoneSample.query "ent.example.org." TypeA) "ent.example.org.") = true) as Hok
      by (vm_compute; reflexivity).
    unfold ent_answer. destruct (Lookup_ _ _ _ _ _); [reflexivity|discriminate].
  - vm_compute. reflexivity.
  - vm_compute. reflexivity.
Defined.

End HandlerSample.
