(* ===== verification/Server.v ===== *)
(** * The server (core/dnsserver/server.go)

    [NewServer] builds the plugin chains and files the configurations by
    zone; [ServeDNS] takes a request from the wire to the chain of the zone
    that serves it, and answers itself when there is none or when the chain
    asks for it.  Every message a chain writes goes through the writer of
    request/writer.go, which mirrors the OPT record of the request
    ([SizeAndDo], request/edns0.go) and cuts the message to the client's
    buffer ([Scrub]).  Metadata collection, tracing and metrics are not part
    of it. *)

From Stdlib Require Import Ascii ZArith Lia.
From stdpp Require Import base numbers gmap strings list.
From S2P Require Import Prelude DnsTypes DnsLib Ip Serve Xfer.

Local Open Scope Z_scope.

Definition RcodeFormatError : Z := 1.
Definition RcodeBadVers : Z := 16.
Definition EDNS0EXPIRE : Z := 9.
Definition EDNS0COOKIE : Z := 10.
Definition EDNS0TCPKEEPALIVE : Z := 11.
Definition EDNS0PADDING : Z := 12.

(** The methods of an OPT record of github.com/miekg/dns. *)
Class DnsOpt := {
  OptVersion : RR -> Z;
  SetVersion : Z -> RR -> RR;
  SetUDPSize : Z -> RR -> RR;
  SetDo : RR -> RR;
  SetExtendedRcode : Z -> RR -> RR;
  Truncate : Msg -> Z -> Msg * bool;      (* the message, and its Compress flag *)
  MsgLen : Msg -> Z
}.

(** ** Plugins (plugin/plugin.go) *)

(** What a chain wrote, and the code it returned unless it panicked. *)
Definition Chain : Type := Msg -> option Msg * result go_fault Z.

Definition chain_of (h : Handler) : Chain := fun r => (written (h r), Ok (rcode (h r))).

Definition ClientWrite (rc : Z) : bool :=
  negb (bool_decide (rc ∈ [RcodeServerFailure; RcodeRefused; RcodeFormatError; RcodeNotImplemented])).

(** ** Configuration *)

Record Plugin := mkPlugin { plugin_name : string; plugin_new : option Chain -> Chain }.

Record Config := mkConfig {
  Zone_ : string;
  Plugins : list Plugin;
  FilterFuncs : list (Client -> Msg -> bool);
  Debug : bool }.

(** A configuration with its chain built. *)
Record Site := mkSite { site_config : Config; pluginChain : option Chain }.

Record Server := mkServer {
  zones : gmap string (list Site);
  debug : bool;
  classChaos : bool }.

Definition EnableChaos : list string := ["chaos"; "forward"; "proxy"].

Definition build (ps : list Plugin) : option Chain := foldr (fun p stack => Some (plugin_new p stack)) None ps.

Definition add_site (s : Server) (site : Config) : Server :=
  mkServer
    (<[Zone_ site := default [] (zones s !! Zone_ site) ++ [mkSite site (build (Plugins site))]]> (zones s))
    (debug s || Debug site)
    (classChaos s || existsb (fun p => bool_decide (plugin_name p ∈ EnableChaos)) (Plugins site)).

Definition NewServer (group : list Config) : Server := foldl add_site (mkServer ∅ false false) group.

(** ** The client (request/request.go) *)

(** Its address without the zone. *)
Definition source_ip (w : Client) : option (list Z) :=
  ParseIP (match IndexByte (IP w) "%" with Some idx => take_str idx (IP w) | None => IP w end).

(** [Request.Family]; the address of the connection is the one its text
    denotes. *)
Definition Family (w : Client) : Z :=
  match source_ip w with
  | Some ip => if decide (To4 ip = None) then 2 else 1
  | None => 2
  end.

(** ** Messages with another question *)

Definition set_question (m : Msg) (q : list Question_) : Msg :=
  mkMsg (Id m) (Response m) (Opcode m) (Authoritative m) (Truncated m) (RecursionDesired m) (RecursionAvailable m)
    (AuthenticatedData m) (CheckingDisabled m) (Rcode m) q (Answer m) (Ns_ m) (Extra m).

(** [m.Question[0].Name = n] *)
Definition set_first_name (m : Msg) (n : string) : result go_fault Msg :=
  match Question m with
  | [] => Err IndexOutOfRange
  | q :: qs => Ok (set_question m (mkQ n (Qtype q) (Qclass q) :: qs))
  end.

(** ** Replies (request/request.go, edns0.go, writer.go) *)

Section replies.
Context {L : DnsLib} {OP : DnsOpt}.
Variable SupportedOption : Z -> bool.

Definition supportedOptions (o : list EDNS0) : list EDNS0 :=
  filter (fun opt => opt_code opt ∈ [EDNS0NSID; EDNS0EXPIRE; EDNS0COOKIE; EDNS0TCPKEEPALIVE; EDNS0PADDING]
                     \/ SupportedOption (opt_code opt) = true) o.

Definition clear_flags (o : RR) : RR := set_ttl (Z.land (rr_ttl o) (* 0xff00 *) 65280) o.
Definition opt_header (o : RR) : RR := mkRR (mkHdr dot TypeOPT (Class_ (Hdr o)) (rr_ttl o)) (Data o).

(** The request's own record, made ready for the reply. *)
Definition reused (o : RR) : RR :=
  let o := clear_flags (SetVersion 0 (opt_header o)) in
  match Data o with
  | ROPT ((_ :: _) as opts) => mkRR (Hdr o) (ROPT (supportedOptions opts))
  | _ => o
  end.

(** The reply's own record, made to reflect the request's. *)
Definition normalised (o mo : RR) : RR :=
  let mo := clear_flags (SetUDPSize (UDPSize o) (SetVersion 0 (opt_header mo))) in
  if OptDo o then SetDo mo else mo.

(** The record [mo] of the list changed in place. *)
Fixpoint replace_opt (mo mo' : RR) (l : list RR) : list RR :=
  match l with
  | [] => []
  | x :: l' => if decide (x = mo) then mo' :: l' else x :: replace_opt mo mo' l'
  end.

Definition set_Extra (m : Msg) (ex : list RR) : Msg :=
  mkMsg (Id m) (Response m) (Opcode m) (Authoritative m) (Truncated m) (RecursionDesired m) (RecursionAvailable m)
    (AuthenticatedData m) (CheckingDisabled m) (Rcode m) (Question m) (Answer m) (Ns_ m) ex.

Definition SizeAndDo (r m : Msg) : Msg :=
  match IsEdns0 r with
  | None => m
  | Some o =>
      match IsEdns0 m with
      | Some mo => set_Extra m (replace_opt mo (normalised o mo) (Extra m))
      | None => set_Extra m (Extra m ++ [reused o])
      end
  end.

(** The flag is [Compress]. *)
Definition Scrub (w : Client) (r reply : Msg) : Msg * bool :=
  let '(reply, compress) := Truncate reply (Size_ (Proto w) r) in
  if compress : bool then (reply, true)
  else if decide (Proto w = "udp") then
    let rl := MsgLen reply in
    (reply, bool_decide (1480 < rl /\ Family w = 1) || bool_decide (1220 < rl /\ Family w = 2))
  else (reply, false).

(** ScrubWriter.WriteMsg *)
Definition ScrubWrite (w : Client) (r m : Msg) : Msg * bool := Scrub w r (SizeAndDo r m).

Definition SetRcode (r : Msg) (rc : Z) : Msg :=
  let m := SetReply r in
  mkMsg (Id m) (Response m) (Opcode m) (Authoritative m) (Truncated m) (RecursionDesired m) (RecursionAvailable m)
    (AuthenticatedData m) (CheckingDisabled m) rc (Question m) (Answer m) (Ns_ m) (Extra m).

Definition errorMsg (r : Msg) (rc : Z) : Msg := SizeAndDo r (SetRcode r rc).

(** edns.Version: the reply to a request of another EDNS version. *)
Definition bad_version (r : Msg) : option Msg :=
  match IsEdns0 r with
  | None => None
  | Some o =>
      if decide (OptVersion o = 0) then None
      else
        let o := SetExtendedRcode RcodeBadVers (SetVersion 0 (mkRR (mkHdr dot TypeOPT 0 0) (ROPT []))) in
        Some (set_Extra (SetRcode r RcodeBadVers) [o])
  end.

(** ** The multiplexer *)

Context {N : DnsNames}.

Definition passAllFilterFuncs (w : Client) (r : Msg) (fs : list (Client -> Msg -> bool)) : bool :=
  forallb (fun f => f w r) fs.

(** Who serves a request: a chain, or nobody. *)
Inductive routed : Type := Refused | To (c : Chain) | Searching (ds : option Chain).

(** The configurations of one zone; [ds] is the last chain kept for a query
    for a DS record. *)
Fixpoint scan (w : Client) (r : Msg) (is_ds : bool) (hs : list Site) (ds : option Chain) : routed :=
  match hs with
  | [] => Searching ds
  | h :: hs' =>
      match pluginChain h with
      | None => Refused
      | Some c =>
          if passAllFilterFuncs w r (FilterFuncs (site_config h))
          then if is_ds then scan w r is_ds hs' (Some c) else To c
          else scan w r is_ds hs' ds
      end
  end.

(** From the whole name towards the root. *)
Fixpoint route_loop (fuel : nat) (s : Server) (w : Client) (r : Msg) (is_ds : bool) (q : string) (off : nat) (ds : option Chain)
  : result go_fault routed :=
  match fuel with
  | O => Err OutOfFuel
  | S fuel' =>
      match scan w r is_ds (default [] (zones s !! drop_str off q)) ds with
      | Searching ds =>
          let '(off', end_) := NextLabel q off in
          if end_ : bool then Ok (Searching ds) else route_loop fuel' s w r is_ds q off' ds
      | found => Ok found
      end
  end.

(** The root zone as a last resort: configurations without plugins are
    passed over. *)
Fixpoint scan_root (w : Client) (r : Msg) (hs : list Site) : option Chain :=
  match hs with
  | [] => None
  | h :: hs' =>
      match pluginChain h with
      | Some c => if passAllFilterFuncs w r (FilterFuncs (site_config h)) then Some c else scan_root w r hs'
      | None => scan_root w r hs'
      end
  end.

Definition route (s : Server) (w : Client) (r : Msg) (q : Question_) : result go_fault (option Chain) :=
  let is_ds := bool_decide (Qtype q = TypeDS) in
  let name := ToLower (QName q) in
  x ← route_loop (S (String.length name)) s w r is_ds name 0 None;
  match x with
  | Refused => Ok None
  | To c => Ok (Some c)
  | Searching (Some c) => Ok (Some c)
  | Searching None => Ok (scan_root w r (default [] (zones s !! dot)))
  end.

(** The messages written to the client, in order, each with its Compress
    flag; and whether the process died of a panic. *)
Record Handled := mkHandled { messages : list (Msg * bool); died : bool }.

Definition server_ServeDNS (s : Server) (w : Client) (r : Msg) : Handled :=
  let answer m := mkHandled [(m, false)] false in
  let write m := ScrubWrite w r m in
  match Question r with
  | [] => answer (errorMsg r RcodeServerFailure)
  | q :: _ =>
      if negb (classChaos s) && bool_decide (Qclass q <> ClassINET) then answer (errorMsg r RcodeRefused)
      else match bad_version r with
           | Some m => answer m
           | None =>
               match route s w r q with
               | Err _ => if debug s then mkHandled [] true else mkHandled [write (errorMsg r RcodeServerFailure)] false
               | Ok None => mkHandled [write (errorMsg r RcodeRefused)] false
               | Ok (Some c) =>
                   let '(m, res) := c r in
                   let first := match m with Some m => [write m] | None => [] end in
                   match res with
                   | Ok rc => mkHandled (first ++ (if ClientWrite rc then [] else [write (errorMsg r rc)])) false
                   | Err _ =>
                       if debug s then mkHandled first true
                       else mkHandled (first ++ [write (errorMsg r RcodeServerFailure)]) false
                   end
               end
           end
  end.

End replies.
