(* ===== verification/ServerFacts.v ===== *)
(** * Properties of the server (core/dnsserver)

    The multiplexer finds the chain that a reference definition over the
    suffixes of the name gives; a server whose plugins keep the protocol of
    package plugin answers every request exactly once; and what an error
    reply says of EDNS. *)

From Stdlib Require Import Ascii ZArith Lia.
From stdpp Require Import base numbers gmap strings list.
From S2P Require Import Prelude DnsTypes DnsLib Store StoreFacts Serve Xfer Server.

Local Open Scope Z_scope.

Section facts.
Context {L : DnsLib} {OP : DnsOpt} {N : DnsNames} {NSp : DnsNamesSpec N}.
Variable SupportedOption : Z -> bool.
Implicit Types (s : Server) (w : Client) (r : Msg) (c : Chain) (hs : list Site).

(** ** Routing *)

(** The suffixes of a name at its labels, from the whole name on. *)
Fixpoint suffixes_from (fuel : nat) (q : string) (off : nat) : list string :=
  match fuel with
  | O => []
  | S fuel' =>
      let '(off', end_) := NextLabel q off in
      drop_str off q :: (if end_ : bool then [] else suffixes_from fuel' q off')
  end.

Definition suffixes (q : string) : list string := suffixes_from (S (String.length q)) q 0.

(** The configurations of a zone that decide: the one without plugins, or
    those whose filters pass. *)
Definition decides w r (h : Site) : bool :=
  match pluginChain h with
  | None => true
  | Some _ => passAllFilterFuncs w r (FilterFuncs (site_config h))
  end.

Definition deciding s w r (q : string) : list (option Chain) :=
  suffixes q ≫= fun z => pluginChain <$> filter (fun h => decides w r h = true) (default [] (zones s !! z)).

(** The topmost of the deciding chains, unless a configuration without
    plugins comes first. *)
Fixpoint topmost (l : list (option Chain)) (ds : option Chain) : routed :=
  match l with
  | [] => Searching ds
  | None :: _ => Refused
  | Some c :: l' => topmost l' (Some c)
  end.

(** The nearest of them. *)
Definition nearest (l : list (option Chain)) (rest : routed) : routed :=
  match l with
  | [] => rest
  | None :: _ => Refused
  | Some c :: _ => To c
  end.

Lemma scan_nearest w r hs :
  scan w r false hs None = nearest (pluginChain <$> filter (fun h => decides w r h = true) hs) (Searching None).
Proof.
  induction hs as [|h hs IH]; [done|]. cbn [scan]. rewrite filter_cons.
  destruct (decide (decides w r h = true)) as [D|D]; unfold decides in D; rewrite ?fmap_cons;
    destruct (pluginChain h) as [c|]; try done.
  - by rewrite D.
  - by rewrite (not_true_is_false _ D).
Qed.

Lemma scan_topmost w r hs ds :
  scan w r true hs ds = topmost (pluginChain <$> filter (fun h => decides w r h = true) hs) ds.
Proof.
  revert ds. induction hs as [|h hs IH]; intros ds; [done|]. cbn [scan]. rewrite filter_cons.
  destruct (decide (decides w r h = true)) as [D|D]; unfold decides in D; rewrite ?fmap_cons;
    destruct (pluginChain h) as [c|]; try done.
  - rewrite D. simpl. by rewrite IH.
  - by rewrite (not_true_is_false _ D).
Qed.

Lemma nearest_app a b rest : nearest (a ++ b) rest = nearest a (nearest b rest).
Proof. by destruct a as [|[]]. Qed.

Lemma topmost_app a b ds : topmost (a ++ b) ds = match topmost a ds with Searching ds' => topmost b ds' | x => x end.
Proof. revert ds. induction a as [|[c|] a IH]; intros ds; simpl; auto. Qed.

(** The loop ends within its fuel and looks at the suffixes in order. *)
Lemma route_loop_spec fuel s w r (is_ds : bool) q off ds :
  (off <= String.length q < off + fuel)%nat -> (is_ds = false -> ds = None) ->
  let l := suffixes_from fuel q off ≫= fun z => pluginChain <$> filter (fun h => decides w r h = true) (default [] (zones s !! z)) in
  route_loop fuel s w r is_ds q off ds = Ok (if is_ds then topmost l ds else nearest l (Searching None)).
Proof.
  revert off ds. induction fuel as [|fuel IH]; intros off ds Hf Hds; [exfalso; lia|].
  cbn [suffixes_from route_loop]. destruct (NextLabel q off) as [off' end_] eqn:E. rewrite bind_cons.
  assert (end_ = false -> forall ds', (is_ds = false -> ds' = None) -> route_loop fuel s w r is_ds q off' ds'
    = Ok (let l := suffixes_from fuel q off' ≫= fun z => pluginChain <$> filter (fun h => decides w r h = true) (default [] (zones s !! z)) in
          if is_ds then topmost l ds' else nearest l (Searching None))) as Hnext.
  { intros -> ds' Hd. apply NextLabel_some in E. apply IH; [lia|done]. }
  destruct is_ds; cbn [negb] in *.
  - rewrite scan_topmost, topmost_app. destruct (topmost _ ds) as [| |ds']; try done.
    destruct end_; [done|]. by rewrite Hnext.
  - rewrite (Hds eq_refl), scan_nearest, nearest_app. destruct (pluginChain <$> _) as [|[c|] l]; try done.
    cbn [nearest]. destruct end_; [done|]. by rewrite Hnext.
Qed.

Lemma route_eq s w r q :
  route s w r q =
  Ok (match (if decide (Qtype q = TypeDS) then topmost (deciding s w r (ToLower (QName q))) None
             else nearest (deciding s w r (ToLower (QName q))) (Searching None)) with
      | Refused => None
      | To c => Some c
      | Searching (Some c) => Some c
      | Searching None => scan_root w r (default [] (zones s !! dot))
      end).
Proof.
  unfold route. rewrite route_loop_spec by (lia || done). unfold deciding, suffixes. simpl.
  case_bool_decide; [rewrite decide_True by done|rewrite decide_False by done]; by case_match; repeat case_match.
Qed.

(** C27. Routing follows the suffixes of the name.  Taking the configurations
    of all the suffixes of the question's name, from the whole name to the
    last label, that have no plugins or whose filters pass: an ordinary query
    is served by the first of them, so by the most specific zone; a query for
    a DS record by the last; either is refused when the configuration it
    stops at, or meets on the way for DS, has no plugins; and when there is
    none at all the first passing configuration of the root zone serves it.
    The loop always ends. *)
Theorem route_reference s w r q :
  route s w r q =
  Ok (match (if decide (Qtype q = TypeDS) then topmost (deciding s w r (ToLower (QName q))) None
             else nearest (deciding s w r (ToLower (QName q))) (Searching None)) with
      | Refused => None
      | To c => Some c
      | Searching (Some c) => Some c
      | Searching None => scan_root w r (default [] (zones s !! dot))
      end).
Proof. apply route_eq. Qed.

(** ** One reply to each request *)

(** The protocol of package plugin: a chain returns SERVFAIL, REFUSED,
    FORMERR or NOTIMP when it wrote nothing and leaves the reply to the
    server, and any other code when it wrote one; a chain that panics has
    written nothing. *)
Definition protocol c : Prop :=
  forall r, match c r with
            | (m, Ok rc) => is_Some m <-> ClientWrite rc = true
            | (m, Err _) => m = None
            end.

Definition opt_protocol (o : option Chain) : Prop := match o with Some c => protocol c | None => True end.

(** A plugin that keeps the protocol if the rest of the chain does. *)
Definition plugin_ok (p : Plugin) : Prop := forall next, opt_protocol next -> protocol (plugin_new p next).

Lemma build_protocol ps : Forall plugin_ok ps -> opt_protocol (build ps).
Proof. induction 1 as [|p ps Hp HF IH]; simpl; [done|]. by apply Hp. Qed.

Definition sites_ok s : Prop := forall z hs h, zones s !! z = Some hs -> h ∈ hs -> opt_protocol (pluginChain h).

Lemma NewServer_ok group : Forall (fun g => Forall plugin_ok (Plugins g)) group -> sites_ok (NewServer group).
Proof.
  unfold NewServer. assert (sites_ok (mkServer ∅ false false)) as H0 by (intros z hs h; simpl; by rewrite lookup_empty).
  revert H0. generalize (mkServer ∅ false false) as s. induction group as [|g group IH]; intros s Hs HF; [done|].
  apply Forall_cons in HF as [Hg HF]. apply IH; [|done]. intros z hs h. simpl.
  intros [[<- <-]|[_ Hl]]%lookup_insert_Some; [|by eapply Hs].
  intros [Hin| ->%list_elem_of_singleton]%elem_of_app; [|by apply build_protocol].
  destruct (zones s !! Zone_ g) as [hs'|] eqn:E; [by eapply Hs|by apply elem_of_nil in Hin].
Qed.

Lemma deciding_sites s w r q o : o ∈ deciding s w r q -> exists z hs h, zones s !! z = Some hs /\ h ∈ hs /\ pluginChain h = o.
Proof.
  unfold deciding. intros (z & Hin & _)%list_elem_of_bind. apply list_elem_of_fmap in Hin as (h & -> & Hf).
  apply list_elem_of_filter in Hf as [_ Hh]. destruct (zones s !! z) as [hs|] eqn:E; [by exists z, hs, h|by apply elem_of_nil in Hh].
Qed.

Lemma route_sites s w r q c :
  route s w r q = Ok (Some c) -> exists z hs h, zones s !! z = Some hs /\ h ∈ hs /\ pluginChain h = Some c.
Proof.
  assert (forall l ds, match topmost l ds with
                       | Searching (Some c) => Some c ∈ l \/ ds = Some c
                       | To _ => False
                       | _ => True end) as Htop.
  { induction l as [|[c0|] l IH]; intros ds; simpl; [by destruct ds; auto| |done].
    specialize (IH (Some c0)). destruct (topmost l (Some c0)) as [| |[c1|]]; try done.
    destruct IH as [?|[= <-]]; left; rewrite elem_of_cons; auto. }
  rewrite route_eq.
  assert (scan_root w r (default [] (zones s !! dot)) = Some c ->
    exists z hs h, zones s !! z = Some hs /\ h ∈ hs /\ pluginChain h = Some c) as Hroot.
  { destruct (zones s !! dot) as [hs|] eqn:E; [|done]. simpl. intros Hr.
    assert (exists h, h ∈ hs /\ pluginChain h = Some c) as (h & Hh & Hc).
    { clear E. induction hs as [|h hs IH]; [done|]. simpl in Hr. destruct (pluginChain h) as [c'|] eqn:Ec.
      - destruct (passAllFilterFuncs _ _ _); [injection Hr as ->; exists h; split; [by left|done]|].
        destruct (IH Hr) as (h' & ? & ?). exists h'. split; [by right|done].
      - destruct (IH Hr) as (h' & ? & ?). exists h'. split; [by right|done]. }
    by exists dot, hs, h. }
  case_decide.
  - specialize (Htop (deciding s w r (ToLower (QName q))) None).
    destruct (topmost _ None) as [|c'|[c'|]]; [done|done|intros [= ->]|by intros [= H']; apply Hroot].
    destruct Htop as [Hin|]; [by eapply deciding_sites|done].
  - destruct (deciding s w r (ToLower (QName q))) as [|[c'|] l] eqn:E; simpl; [by intros [= H']; apply Hroot| |done].
    intros [= ->]. apply (deciding_sites s w r (ToLower (QName q)) (Some c)). rewrite E. by left.
Qed.

(** C16. Every request gets exactly one reply.  On a server built from plugins
    that keep the protocol, with panics recovered, one message is written for
    every request, whatever its questions, class, EDNS version and zone, and
    whether the chain answers, declines, is missing or panics. *)
Theorem server_replies_once group w r :
  Forall (fun g => Forall plugin_ok (Plugins g)) group -> debug (NewServer group) = false ->
  exists m, messages (server_ServeDNS SupportedOption (NewServer group) w r) = [m] /\
    died (server_ServeDNS SupportedOption (NewServer group) w r) = false.
Proof.
  intros HF Hd. pose proof (NewServer_ok group HF) as Hs. set (s := NewServer group) in *. clearbody s.
  unfold server_ServeDNS. rewrite Hd. destruct (Question r) as [|q qs]; [by eexists|].
  destruct (negb (classChaos s) && _); [by eexists|]. destruct (bad_version r); [by eexists|].
  destruct (route s w r q) as [[c|]|] eqn:E; [|by eexists|by eexists].
  apply route_sites in E as (z & hs & h & Hz & Hh & Hc). pose proof (Hs z hs h Hz Hh) as Hp. rewrite Hc in Hp.
  specialize (Hp r). destruct (c r) as [m [rc|f]].
  - destruct (ClientWrite rc); destruct m as [m|]; simpl; try by eexists.
    + exfalso. destruct Hp as [_ Hp]. by destruct (Hp eq_refl).
    + exfalso. destruct Hp as [Hp _]. discriminate (Hp (mk_is_Some _ _ eq_refl)).
  - rewrite Hp. by eexists.
Qed.

(** ** Error replies *)

(** The layout of the OPT record (RFC 6891), which the library documents: the
    class is the payload size, the TTL holds the extended code, the version
    and the flags, of which bit 15 is DO. *)
Class OptSpec : Prop := {
  OptDo_bit o : OptDo o = Z.testbit (rr_ttl o) 15;
  UDPSize_class o : UDPSize o = Class_ (Hdr o);
  OptVersion_bits o : OptVersion o = Z.land (Z.shiftr (rr_ttl o) 16) 255;
  SetVersion_bits v o : SetVersion v o = set_ttl (Z.lor (Z.land (rr_ttl o) 4278255615) (Z.shiftl v 16)) o }.
Context {LS : DnsLibSpec L} {OS : OptSpec}.

Definition supported (opt : EDNS0) : Prop :=
  opt_code opt ∈ [EDNS0NSID; EDNS0EXPIRE; EDNS0COOKIE; EDNS0TCPKEEPALIVE; EDNS0PADDING] \/ SupportedOption (opt_code opt) = true.

Lemma reused_spec o :
  let o' := reused SupportedOption o in
  rr_name o' = dot /\ rr_type o' = TypeOPT /\ UDPSize o' = UDPSize o /\ OptDo o' = OptDo o /\ OptVersion o' = 0 /\
  match Data o' with ROPT opts => Forall supported opts | _ => True end.
Proof.
  assert (forall n ty cl t d,
    clear_flags (SetVersion 0 (opt_header (mkRR (mkHdr n ty cl t) d)))
    = mkRR (mkHdr dot TypeOPT cl (Z.land (Z.lor (Z.land t 4278255615) (Z.shiftl 0 16)) 65280)) d) as Hc.
  { intros. unfold clear_flags, opt_header. by rewrite SetVersion_bits. }
  destruct o as [[n ty cl t] d]. unfold reused. rewrite Hc. set (t' := Z.land _ 65280).
  assert (forall d', OptDo (mkRR (mkHdr dot TypeOPT cl t') d') = OptDo (mkRR (mkHdr n ty cl t) d)) as Hdo.
  { intros d'. rewrite !OptDo_bit. change (Z.testbit t' 15 = Z.testbit t 15). subst t'.
    rewrite Z.land_spec, Z.lor_spec, Z.land_spec. change (Z.shiftl 0 16) with 0. rewrite Z.bits_0, orb_false_r.
    change (Z.testbit 4278255615 15) with true. change (Z.testbit 65280 15) with true. by rewrite !andb_true_r. }
  assert (forall d', OptVersion (mkRR (mkHdr dot TypeOPT cl t') d') = 0) as Hv.
  { intros d'. rewrite OptVersion_bits. change (Z.land (Z.shiftr t' 16) 255 = 0). subst t'. rewrite Z.shiftr_land.
    change (Z.shiftr 65280 16) with 0. by rewrite Z.land_0_r. }
  destruct d as [| | | | | | | | | | | | | | | |[|x opts]| | | |]; cbn [Data Hdr]; rewrite ?Hdo, ?Hv, !UDPSize_class; split_and!; try done.
  apply Forall_forall. intros y. unfold supportedOptions. by intros [Hy _]%list_elem_of_filter.
Qed.

(** An error reply of the server.  It carries the code, the id and the
    question of the request and no records but an OPT record, which is there
    exactly when the request has one: with the payload size and the DO bit of
    the request, version 0, and of the request's options only supported
    ones. *)
Theorem error_reply r rc :
  let m := errorMsg SupportedOption r rc in
  Rcode m = rc /\ Id m = Id r /\ Response m = true /\ Question m = take 1 (Question r) /\ Answer m = [] /\ Ns_ m = [] /\
  match IsEdns0 r with
  | None => Extra m = []
  | Some o => exists o', Extra m = [o'] /\ rr_name o' = dot /\ rr_type o' = TypeOPT /\ UDPSize o' = UDPSize o /\
      OptDo o' = OptDo o /\ OptVersion o' = 0 /\ match Data o' with ROPT opts => Forall supported opts | _ => True end
  end.
Proof.
  destruct (SetReply_law r) as (HI & HR & _ & _ & _ & HQ & HA & HN & HE).
  unfold errorMsg, SizeAndDo. destruct (IsEdns0 r) as [o|]; [|simpl; by rewrite HE].
  destruct (IsEdns0 (SetRcode r rc)) as [mo|] eqn:E.
  { apply IsEdns0_law in E as [E _]. simpl in E. rewrite HE in E. by apply elem_of_nil in E. }
  cbn [set_Extra Rcode Id Response Question Answer Ns_ Extra SetRcode]. rewrite HE. split_and!; try done.
  exists (reused SupportedOption o). split; [done|]. apply reused_spec.
Qed.

End facts.

(** ** The hanzodns plugin keeps the protocol *)

Section hanzodns.
Context {N : DnsNames} {MO : MapOrder}.

Definition handler_protocol (h : Handler) : Prop := forall r, is_Some (written (h r)) <-> ClientWrite (rcode (h r)) = true.

Lemma chain_of_protocol h : handler_protocol h -> protocol (chain_of h).
Proof. intros Hh r. apply (Hh r). Qed.

Lemma NextOrFailure_protocol next r :
  (forall h, next = Some h -> handler_protocol h) ->
  is_Some (written (NextOrFailure next r)) <-> ClientWrite (rcode (NextOrFailure next r)) = true.
Proof.
  intros Hn. destruct next as [h|]; [by apply Hn|]. simpl. split; [by intros [? [=]]|done].
Qed.

Variables (NameString : string -> string) (SetReply : Msg -> Msg) (StringToType : string -> Z).

Lemma ServeDNS_protocol Next Fall st :
  (forall h, Next = Some h -> handler_protocol h) ->
  handler_protocol (ServeDNS NameString SetReply StringToType Next Fall st).
Proof.
  intros Hn r. unfold ServeDNS.
  case_bool_decide; [by apply NextOrFailure_protocol|]. case_bool_decide; [by apply NextOrFailure_protocol|].
  destruct (Lookup _ _ _); [|simpl; split; [done|by eexists]].
  destruct (Through _ _); [by apply NextOrFailure_protocol|]. simpl. split; [by intros [? [=]]|done].
Qed.

End hanzodns.

(** ** A server with the hanzodns plugin *)

Module ServerSample.
#[local] Existing Instances Plain.names Plain.names_spec PlainLib.lib PlainLib.lib_spec list_order.
Import Serve.ServeSample StoreFacts.

Definition opt : DnsOpt := {|
  OptVersion := fun o => Z.land (Z.shiftr (rr_ttl o) 16) 255;
  SetVersion := fun v o => set_ttl (Z.lor (Z.land (rr_ttl o) 4278255615) (Z.shiftl v 16)) o;
  SetUDPSize := fun n o => mkRR (mkHdr (rr_name o) (rr_type o) n (rr_ttl o)) (Data o);
  SetDo := fun o => set_ttl (Z.lor (rr_ttl o) 32768) o;
  SetExtendedRcode := fun c o => set_ttl (Z.lor (Z.land (rr_ttl o) 16777215) (Z.shiftl (Z.shiftr c 4) 24)) o;
  Truncate := fun m _ => (m, false);
  MsgLen := fun _ => 512 |}.
#[local] Existing Instance opt.

Lemma opt_spec : OptSpec.
Proof. split; reflexivity. Qed.

(** The plugin at the end of a chain. *)
Definition hanzodns : Plugin :=
  mkPlugin "hanzodns" (fun _ => chain_of (ServeDNS (fun n => n) PlainLib.reply_to type_of_string None [] StoreSample.store)).
Definition group : list Config := [mkConfig "example.com." [hanzodns] [] false; mkConfig dot [] [] false].
Definition asker : Client := mkClient "192.0.2.1:1053" false.
Definition none_supported (c : Z) : bool := false.

Lemma group_ok : Forall (fun g => Forall plugin_ok (Plugins g)) group.
Proof.
  repeat apply Forall_cons_2; try apply Forall_nil_2. intros next _.
  apply chain_of_protocol, ServeDNS_protocol. discriminate.
Qed.

Definition asked : Question_ := mkQ "www.Example.com." TypeA ClassINET.

Lemma route_reference_witness :
  route (NewServer group) asker query asked =
  Ok (match nearest (deciding (NewServer group) asker query "www.example.com.") (Searching None) with
      | Refused => None
      | To c => Some c
      | Searching (Some c) => Some c
      | Searching None => scan_root asker query (default [] (zones (NewServer group) !! dot))
      end).
Proof. exact (route_reference (NewServer group) asker query asked). Defined.

(** A request with DO set and two options, one of them supported. *)
Definition edns_query : Msg :=
  mkMsg 7 false 0 false false true false false false 0 [mkQ "nx.example.net." TypeA ClassINET] [] []
    [mkRR (mkHdr dot TypeOPT 1232 32768) (ROPT [EDNS0_other EDNS0COOKIE [1; 2]; EDNS0_LOCAL 65001 []])].

Lemma error_reply_witness :
  let m := errorMsg none_supported edns_query RcodeRefused in
  Rcode m = RcodeRefused /\ Id m = 7 /\ Response m = true /\ Question m = take 1 (Question edns_query) /\ Answer m = [] /\
  Ns_ m = [] /\
  match IsEdns0 edns_query with
  | None => Extra m = []
  | Some o => exists o', Extra m = [o'] /\ rr_name o' = dot /\ rr_type o' = TypeOPT /\ UDPSize o' = UDPSize o /\
      OptDo o' = OptDo o /\ OptVersion o' = 0 /\
      match Data o' with ROPT opts => Forall (supported none_supported) opts | _ => True end
  end.
Proof. apply (@error_reply PlainLib.lib opt none_supported PlainLib.lib_spec opt_spec edns_query RcodeRefused). Defined.

(** The refusal of a query for a zone that is not served. *)
Example refused_outside :
  (fun mc => (Rcode mc.1, Extra mc.1)) <$> messages (server_ServeDNS none_supported (NewServer group) asker edns_query)
  = [(RcodeRefused, [mkRR (mkHdr dot TypeOPT 1232 32768) (ROPT [EDNS0_other EDNS0COOKIE [1; 2]])])].
Proof. vm_compute. reflexivity. Qed.

End ServerSample.
