(* ===== verification/Filters.v ===== *)
(** * Small plugins: acl, any, dns64, loadbalance, minimal

    Plugins that inspect or change a message on its way through the chain
    (plugin/acl, plugin/any, plugin/dns64, plugin/loadbalance,
    plugin/minimal).  A plugin is given the rest of the chain and yields a
    chain (Server.v), which says what was written and whether it panicked. *)

From Stdlib Require Import Ascii ZArith Lia.
From stdpp Require Import base numbers gmap strings list.
From S2P Require Import Prelude DnsTypes DnsLib Ip Serve Typify Xfer Server.

Local Open Scope Z_scope.

Definition TypeNone : Z := 0.
Definition TypeHINFO : Z := 13.
Definition TypeANY : Z := 255.
Definition ExtendedErrorCodeBlocked : Z := 15.
Definition ExtendedErrorCodeFiltered : Z := 17.

(** plugin.NextOrFailure *)
Definition next_or_failure (next : option Chain) : Chain :=
  fun r => match next with Some c => c r | None => (None, Ok RcodeServerFailure) end.

(** ** acl *)

Module Acl.

Inductive action : Type := actionNone | actionAllow | actionBlock | actionFilter | actionDrop.

Section acl.
Context {L : DnsLib} {N : DnsNames}.

(** The address tree of github.com/infobloxopen/go-trees, and
    [Msg.SetEdns0]. *)
Context {Filter : Type} (GetByIP : Filter -> list Z -> bool) (SetEdns0 : Msg -> Z -> bool -> Msg).

Record policy := mkPolicy { p_action : action; qtypes : list Z; p_filter : Filter }.
Record rule := mkRule { r_zones : list string; policies : list policy }.

Fixpoint match_loop (ps : list policy) (ip : list Z) (qtype : Z) : action :=
  match ps with
  | [] => actionNone
  | p :: ps' =>
      if bool_decide (TypeNone ∈ qtypes p) || bool_decide (qtype ∈ qtypes p)
      then if GetByIP (p_filter p) ip then p_action p else match_loop ps' ip qtype
      else match_loop ps' ip qtype
  end.

Definition matchWithPolicies (ps : list policy) (w : Client) (r : Msg) : action :=
  match source_ip w with
  | None => actionBlock
  | Some ip => match_loop ps ip (QType_ r)
  end.

(** A reply with an extended error; the OPT record is there once [SetEdns0]
    has been called. *)
Definition with_ede (m : Msg) (code : Z) : result go_fault Msg :=
  let m := SetEdns0 m 4096 true in
  match IsEdns0 m with
  | None => Err NilDeref
  | Some o =>
      let opts := match Data o with ROPT opts => opts | _ => [] end in
      Ok (set_Extra m (replace_opt o (mkRR (Hdr o) (ROPT (opts ++ [EDNS0_EDE code]))) (Extra m)))
  end.

Definition refuse_with (r : Msg) (rc code : Z) : option Msg * result go_fault Z :=
  match with_ede (SetRcode r rc) code with
  | Ok m => (Some m, Ok RcodeSuccess)
  | Err f => (None, Err f)
  end.

Fixpoint acl_loop (w : Client) (rules : list rule) (next : option Chain) (r : Msg) : option Msg * result go_fault Z :=
  match rules with
  | [] => next_or_failure next r
  | rl :: rules' =>
      if decide (Matches (r_zones rl) (Name_ r) = EmptyString) then acl_loop w rules' next r
      else match matchWithPolicies (policies rl) w r with
           | actionDrop => (None, Ok RcodeSuccess)
           | actionBlock => refuse_with r RcodeRefused ExtendedErrorCodeBlocked
           | actionAllow => next_or_failure next r
           | actionFilter => refuse_with r RcodeSuccess ExtendedErrorCodeFiltered
           | actionNone => acl_loop w rules' next r
           end
  end.

Definition acl_ServeDNS (w : Client) (rules : list rule) (next : option Chain) : Chain := fun r => acl_loop w rules next r.

End acl.

End Acl.

(** ** any *)

Module Any.

Definition any_ServeDNS {L : DnsLib} (next : option Chain) : Chain := fun r =>
  match Question r with
  | [] => (None, Err IndexOutOfRange)
  | q :: _ =>
      if decide (Qtype q <> TypeANY) then next_or_failure next r
      else
        let m := SetReply r in
        (Some (mkMsg (Id m) (Response m) (Opcode m) (Authoritative m) (Truncated m) (RecursionDesired m) (RecursionAvailable m)
                 (AuthenticatedData m) (CheckingDisabled m) (Rcode m) (Question m)
                 [mkRR (mkHdr (QName q) TypeHINFO ClassINET 8482) (RHINFO "ANY obsoleted" "See RFC 8482")] (Ns_ m) (Extra m)), Ok 0)
  end.

End Any.

(** ** dns64 *)

Module Dns64.

(** The prefixes [parsePrefix] accepts, of IPv6 networks. *)
Definition valid_prefix (p : IPNet) : bool :=
  bool_decide (length (net_IP p) = 16%nat) &&
  negb (bool_decide ((ones p mod 8)%nat <> 0%nat \/ (ones p < 32)%nat \/ (96 < ones p)%nat)).

(** [v6[i] = x], out of range a panic. *)
Definition put (v6 : list Z) (i : nat) (x : Z) : result go_fault (list Z) :=
  if decide (i < length v6)%nat then Ok (<[i := x]> v6) else Err IndexOutOfRange.
Definition at_index (l : list Z) (i : nat) : result go_fault Z :=
  match l !! i with Some x => Ok x | None => Err IndexOutOfRange end.

(** [k] bytes of [from], starting at [j], copied to [v6] from [i] on. *)
Fixpoint copy_bytes (k i j : nat) (from v6 : list Z) : result go_fault (list Z) :=
  match k with
  | O => Ok v6
  | S k' => x ← at_index from j; v6 ← put v6 i x; copy_bytes k' (S i) (S j) from v6
  end.

(** The three loops of [to6]; [None]: not an IPv4 address. *)
Definition to6 (prefix : IPNet) (addr : list Z) : result go_fault (option (list Z)) :=
  match To4 addr with
  | None => Ok None
  | Some addr =>
      let n := (ones prefix / 8)%nat in
      v6 ← copy_bytes n 0 0 (net_IP prefix) (replicate 16 0);
      let k := (8 - n)%nat in
      v6 ← copy_bytes k n 0 addr v6;
      let i := (n + k)%nat in
      let i := if decide (i = 8)%nat then 9%nat else i in
      v6 ← copy_bytes (4 - k) i k addr v6;
      Ok (Some v6)
  end.

Record DNS64 := mkDNS64 { Prefix : IPNet; TranslateAll : bool; AllowIPv4 : bool }.

Section dns64.
Context {L : DnsLib} {N : DnsNames}.

Definition QClass_ (r : Msg) : Z := match Question r with [] => 0 | q :: _ => Qclass q end.

Definition requestShouldIntercept (d : DNS64) (w : Client) (r : Msg) : bool :=
  if negb (AllowIPv4 d) && bool_decide (Family w = 1) then false
  else bool_decide (QType_ r = TypeAAAA) && bool_decide (QClass_ r = ClassINET).

Definition responseShouldDNS64 (d : DNS64) (now : Z) (orig : Msg) : bool :=
  if decide ((Typify (Some orig) now).1 = NameError) then false
  else if TranslateAll d then true
  else negb (existsb (fun rr => bool_decide (rr_type rr = TypeAAAA)) (Answer orig)).

(** The TTL of the last SOA of the authority section, 600 without one. *)
Definition soa_ttl (ns : list RR) : Z :=
  foldl (fun t rr => if decide (rr_type rr = TypeSOA) then rr_ttl rr else t) 600 ns.

Definition translate (d : DNS64) (soattl : Z) (rr : RR) : result go_fault RR :=
  if decide (rr_type rr <> TypeA) then Ok rr
  else match Data rr with
       | RA a =>
           aaaa ← to6 (Prefix d) a;
           Ok (mkRR (mkHdr (rr_name rr) TypeAAAA (Class_ (Hdr rr)) (Z.min (rr_ttl rr) soattl)) (RAAAA (default [] aaaa)))
       | _ => Err BadAssertion
       end.

Fixpoint translate_all (d : DNS64) (soattl : Z) (rrs : list RR) : result go_fault (list RR) :=
  match rrs with
  | [] => Ok []
  | rr :: rrs' => x ← translate d soattl rr; l ← translate_all d soattl rrs'; Ok (x :: l)
  end.

Definition Synthesize (d : DNS64) (origReq orig resp : Msg) : result go_fault Msg :=
  let m := SetReply origReq in
  ans ← translate_all d (soa_ttl (Ns_ orig)) (Answer resp);
  Ok (mkMsg (Id m) (Response m) (Opcode m) (Authoritative m) (Truncated resp) (RecursionDesired m) (RecursionAvailable m)
        (AuthenticatedData m) (CheckingDisabled m) (Rcode m) (Question m) ans (Ns_ resp) (Extra resp)).

(** The lookup of the A records: an error, or the message written, if any. *)
Variable upstream : Msg -> string -> Z -> result unit (option Msg).

(** [None] stands for the error of the lookup. *)
Definition DoDNS64 (d : DNS64) (r orig : Msg) : result go_fault (option Msg) :=
  match upstream r (Name_ r) TypeA with
  | Err _ => Ok None
  | Ok None => Err NilDeref
  | Ok (Some resp) => m ← Synthesize d r orig resp; Ok (Some m)
  end.

Definition dns64_ServeDNS (d : DNS64) (w : Client) (now : Z) (next : option Chain) : Chain := fun r =>
  if negb (requestShouldIntercept d w r) then next_or_failure next r
  else match next with
       | None => (None, Err NilDeref)
       | Some c =>
           match c r with
           | (_, Err f) => (None, Err f)
           | (None, Ok rc) => (None, Ok rc)
           | (Some orig, Ok rc) =>
               if negb (responseShouldDNS64 d now orig) then (Some orig, Ok rc)
               else match DoDNS64 d r orig with
                    | Ok None => (None, Ok RcodeServerFailure)
                    | Ok (Some m) => (Some m, Ok (Rcode m))
                    | Err f => (None, Err f)
                    end
           end
       end.

End dns64.

End Dns64.

(** ** loadbalance *)

Module LoadBalance.

Definition swap (l : list RR) (j p : nat) : list RR :=
  match l !! j, l !! p with
  | Some a, Some b => <[p := a]> (<[j := b]> l)
  | _, _ => l
  end.

(** The numbers drawn by [dns.Id], one per turn. *)
Fixpoint shuffle_loop (k j l : nat) (ids : nat -> Z) (records : list RR) : list RR :=
  match k with
  | O => records
  | S k' =>
      let p := (j + Z.to_nat (ids j mod Z.of_nat (l - j)))%nat in
      shuffle_loop k' (S j) l ids (if decide (j = p) then records else swap records j p)
  end.

Definition roundRobinShuffle (ids : nat -> Z) (records : list RR) : list RR :=
  match records with
  | [] => []
  | [a] => [a]
  | [a; b] => if decide (ids 0%nat mod 2 = 0) then [b; a] else [a; b]
  | _ => shuffle_loop (length records) 0 (length records) ids records
  end.

(** The loop that sorts the records by type: CNAME, address, MX and the
    rest. *)
Record buckets := mkBuckets { cname : list RR; address : list RR; mx : list RR; rest : list RR }.

Definition bucket (b : buckets) (r : RR) : buckets :=
  if decide (rr_type r = TypeCNAME) then mkBuckets (cname b ++ [r]) (address b) (mx b) (rest b)
  else if decide (rr_type r = TypeA \/ rr_type r = TypeAAAA) then mkBuckets (cname b) (address b ++ [r]) (mx b) (rest b)
  else if decide (rr_type r = TypeMX) then mkBuckets (cname b) (address b) (mx b ++ [r]) (rest b)
  else mkBuckets (cname b) (address b) (mx b) (rest b ++ [r]).

Definition roundRobin (ids ids' : nat -> Z) (rrs : list RR) : list RR :=
  let b := foldl bucket (mkBuckets [] [] [] []) rrs in
  cname b ++ rest b ++ roundRobinShuffle ids (address b) ++ roundRobinShuffle ids' (mx b).

(** The draws of the three sections. *)
Definition randomShuffle (ids : nat -> nat -> Z) (m : Msg) : Msg :=
  mkMsg (Id m) (Response m) (Opcode m) (Authoritative m) (Truncated m) (RecursionDesired m) (RecursionAvailable m)
    (AuthenticatedData m) (CheckingDisabled m) (Rcode m) (Question m)
    (roundRobin (ids 0%nat) (ids 1%nat) (Answer m)) (roundRobin (ids 2%nat) (ids 3%nat) (Ns_ m))
    (roundRobin (ids 4%nat) (ids 5%nat) (Extra m)).

Definition LoadBalance_WriteMsg (shuffle : Msg -> Msg) (res : Msg) : result go_fault Msg :=
  if decide (Rcode res <> RcodeSuccess) then Ok res
  else match Question res with
       | [] => Err IndexOutOfRange
       | q :: _ => if decide (Qtype q = TypeAXFR \/ Qtype q = TypeIXFR) then Ok res else Ok (shuffle res)
       end.

(** The handler wraps the writer of the rest of the chain. *)
Definition loadbalance_ServeDNS (shuffle : Msg -> Msg) (next : option Chain) : Chain := fun r =>
  match next_or_failure next r with
  | (None, res) => (None, res)
  | (Some m, res) =>
      match LoadBalance_WriteMsg shuffle m with
      | Ok m => (Some m, res)
      | Err f => (None, Err f)
      end
  end.

End LoadBalance.

(** ** minimal *)

Module Minimal.

Definition without_sections (m : Msg) : Msg :=
  mkMsg (Id m) (Response m) (Opcode m) (Authoritative m) (Truncated m) (RecursionDesired m) (RecursionAvailable m)
    (AuthenticatedData m) (CheckingDisabled m) (Rcode m) (Question m) (Answer m) [] [].

(** [next] with the error of its handler.  Writing a nil message panics in
    the writer of the server. *)
Definition minimal_ServeDNS {L : DnsLib} (now : Z) (next : option (Msg -> Served)) : Chain := fun r =>
  let s := NextOrFailure next r in
  if failed s then (None, Ok (rcode s))
  else
    let ty := (Typify (written s) now).1 in
    let cl := Classify ty in
    match written s with
    | None => (None, Err NilDeref)
    | Some m =>
        if decide (cl = Denial \/ cl = Error_ \/ ty = Delegation) then (Some m, Ok 0)
        else if decide (ty <> NoError) then (Some m, Ok 0)
        else (Some (without_sections m), Ok 0)
    end.

End Minimal.
