(* ===== verification/FilterFacts.v ===== *)
(** * Properties of the small plugins

    The access lists decide by the first policy that applies; dns64 embeds
    addresses as RFC 6052 lays down, and the address can be read back;
    loadbalance permutes address and MX records only and can reach every
    order; and which of the plugins keep the protocol of package plugin. *)

From Stdlib Require Import Ascii ZArith Lia.
From stdpp Require Import base numbers gmap strings list.
From S2P Require Import Prelude DnsTypes DnsLib Ip Store StoreFacts Serve Typify Xfer Server ServerFacts Filters.

Local Open Scope Z_scope.

(** ** acl *)

Section acl.
Import Acl.
Context {L : DnsLib} {LS : DnsLibSpec L} {N : DnsNames}.
Context {Filter : Type} (GetByIP : Filter -> list Z -> bool) (SetEdns0 : Msg -> Z -> bool -> Msg).

(** [SetEdns0] appends an OPT record without options, and [IsEdns0] finds
    it. *)
Hypothesis SetEdns0_law : forall m size d, exists o,
  SetEdns0 m size d = set_Extra m (Extra m ++ [o]) /\ Data o = ROPT [] /\ is_Some (IsEdns0 (SetEdns0 m size d)).

Implicit Types (w : Client) (r : Msg) (rules : list (@rule Filter)).

Definition applies (ip : list Z) (qtype : Z) (p : @policy Filter) : Prop :=
  (TypeNone ∈ qtypes p \/ qtype ∈ qtypes p) /\ GetByIP (p_filter p) ip = true.

#[local] Instance applies_dec ip qtype p : Decision (applies ip qtype p).
Proof. unfold applies. apply _. Defined.

(** The rules for the zones of the name, and the policy of them that
    decides: the first that applies. *)
Definition concerned r rules : list rule := filter (fun rl => Matches (r_zones rl) (Name_ r) <> EmptyString) rules.

Definition decision w r rules : action :=
  match source_ip w with
  | None => if concerned r rules is [] then actionAllow else actionBlock
  | Some ip =>
      match filter (applies ip (QType_ r)) (concerned r rules ≫= policies) with
      | p :: _ => p_action p
      | [] => actionAllow
      end
  end.

Definition configured rules : Prop := Forall (fun rl => Forall (fun p => p_action p <> actionNone) (policies rl)) rules.

Lemma match_loop_first ps ip qtype :
  match_loop GetByIP ps ip qtype = match filter (applies ip qtype) ps with p :: _ => p_action p | [] => actionNone end.
Proof.
  induction ps as [|p ps IH]; [done|]. cbn [match_loop]. rewrite filter_cons.
  destruct (decide (applies ip qtype p)) as [[Ht Hg]|Hn].
  - rewrite Hg. by destruct Ht as [Ht|Ht]; rewrite (bool_decide_eq_true_2 _ Ht), ?orb_true_r.
  - rewrite IH. destruct (_ || _) eqn:E; [|done]. destruct (GetByIP _ _) eqn:G; [|done]. destruct Hn. split; [|done].
    apply orb_true_iff in E as [E|E]; apply bool_decide_eq_true in E; auto.
Qed.

Lemma refuse_with_spec r rc code :
  exists m o, refuse_with SetEdns0 r rc code = (Some m, Ok RcodeSuccess) /\ Rcode m = rc /\ Id m = Id r /\ Answer m = [] /\
    Extra m = [o] /\ Data o = ROPT [EDNS0_EDE code].
Proof.
  destruct (SetReply_law r) as (HI & _ & _ & _ & _ & _ & HA & _ & HE).
  destruct (SetEdns0_law (SetRcode r rc) 4096 true) as (o & Hs & Hd & [o' Ho]). unfold refuse_with, with_ede. rewrite Ho.
  pose proof (IsEdns0_law _ _ Ho) as [Hin _]. rewrite Hs in Hin |- *. simpl in Hin |- *. rewrite HE in Hin |- *.
  apply list_elem_of_singleton in Hin as ->. rewrite Hd. simpl. rewrite decide_True by done. by do 2 eexists.
Qed.

Lemma acl_loop_decides w rules next r :
  configured rules ->
  acl_loop GetByIP SetEdns0 w rules next r =
  match decision w r rules with
  | actionDrop => (None, Ok RcodeSuccess)
  | actionBlock => refuse_with SetEdns0 r RcodeRefused ExtendedErrorCodeBlocked
  | actionFilter => refuse_with SetEdns0 r RcodeSuccess ExtendedErrorCodeFiltered
  | _ => next_or_failure next r
  end.
Proof.
  unfold decision, concerned. induction 1 as [|rl rules Hrl _ IH]; [by destruct (source_ip w)|].
  cbn [acl_loop]. rewrite filter_cons.
  destruct (decide (Matches (r_zones rl) (Name_ r) = EmptyString)) as [Hz|Hz].
  { rewrite decide_False by (intros HX; by apply HX). apply IH. }
  rewrite decide_True by done. unfold matchWithPolicies. destruct (source_ip w) as [ip|]; [|done].
  rewrite match_loop_first, bind_cons, filter_app.
  destruct (filter _ (policies rl)) as [|p ps] eqn:E; [apply IH|]. simpl.
  assert (p_action p <> actionNone) as Hp.
  { assert (p ∈ p :: ps) as Hin by (by left). rewrite <-E in Hin. apply list_elem_of_filter in Hin as [_ Hin].
    by eapply Forall_forall in Hin; [|exact Hrl]. }
  by destruct (p_action p).
Qed.

(** The access list decides by the first policy that applies.  Taking
    the policies of all the rules for a zone of the name in order, the first
    that covers the type of the question and the address of the client
    decides: block and filter are answered with REFUSED and with an empty
    answer, each with its extended error, and drop is not answered, whatever
    the rest of the chain is; only an allowed query, or one no policy applies
    to, reaches the rest of the chain.  A client whose address cannot be
    parsed is blocked from every zone that has a rule. *)
Theorem acl_first_policy w rules next r :
  configured rules ->
  let served := acl_ServeDNS GetByIP SetEdns0 w rules next r in
  match decision w r rules with
  | actionDrop => served = (None, Ok RcodeSuccess)
  | actionBlock => exists m o, served = (Some m, Ok RcodeSuccess) /\ Rcode m = RcodeRefused /\ Id m = Id r /\ Answer m = [] /\
      Extra m = [o] /\ Data o = ROPT [EDNS0_EDE ExtendedErrorCodeBlocked]
  | actionFilter => exists m o, served = (Some m, Ok RcodeSuccess) /\ Rcode m = RcodeSuccess /\ Id m = Id r /\ Answer m = [] /\
      Extra m = [o] /\ Data o = ROPT [EDNS0_EDE ExtendedErrorCodeFiltered]
  | _ => served = next_or_failure next r
  end.
Proof.
  intros Hc. unfold acl_ServeDNS. cbn zeta. rewrite acl_loop_decides by done.
  destruct (decision w r rules); try done; apply refuse_with_spec.
Qed.

End acl.

(** ** dns64 *)

Section dns64.
Import Dns64.

(** The layout of RFC 6052, section 2.2: the prefix, then the address, with
    octet 8 left zero where the prefix does not cover it, then zeros. *)
Definition rfc6052 (n : nat) (p a : list Z) : list Z :=
  let body := take n p ++ a in
  let v6 := if decide (n <= 8)%nat then take 8 body ++ [0] ++ drop 8 body else body in
  v6 ++ replicate (16 - length v6) 0.

(** The address read back. *)
Definition embedded (n : nat) (v6 : list Z) : list Z :=
  take 4 (drop n (if decide (n <= 8)%nat then take 8 v6 ++ drop 9 v6 else v6)).

Lemma To4_length ip a : To4 ip = Some a -> length a = 4%nat.
Proof.
  unfold To4. case_decide; [by intros [= <-]|]. case_decide as HX; [|done]. intros [= <-]. rewrite length_drop. lia.
Qed.

Lemma valid_prefix_cases p :
  valid_prefix p = true -> length (net_IP p) = 16%nat /\ (ones p / 8)%nat ∈ seq 4 9.
Proof.
  unfold valid_prefix. intros [Hl Ho]%andb_true_iff. apply bool_decide_eq_true in Hl. split; [done|].
  apply negb_true_iff, bool_decide_eq_false in Ho. apply elem_of_seq.
  pose proof (Nat.Div0.div_mod (ones p) 8). lia.
Qed.

Lemma to6_rfc6052 p addr a :
  valid_prefix p = true -> To4 addr = Some a ->
  to6 p addr = Ok (Some (rfc6052 (ones p / 8) (net_IP p) a)).
Proof.
  intros [Hl Hn]%valid_prefix_cases Ha. unfold to6. rewrite Ha. apply To4_length in Ha.
  destruct a as [|a0 [|a1 [|a2 [|a3 [|]]]]]; try discriminate Ha. set (n := (ones p / 8)%nat) in *. clearbody n.
  destruct (net_IP p) as [|x0 [|x1 [|x2 [|x3 [|x4 [|x5 [|x6 [|x7 [|x8 [|x9 [|xa [|xb [|xc [|xd [|xe [|xf [|]]]]]]]]]]]]]]]]];
    try discriminate Hl.
  simpl in Hn. rewrite !elem_of_cons, elem_of_nil in Hn.
  destruct Hn as [-> |[-> |[-> |[-> |[-> |[-> |[-> |[-> |[-> |[]]]]]]]]]]; vm_compute; reflexivity.
Qed.

Lemma rfc6052_embedded n p a :
  length p = 16%nat -> length a = 4%nat -> n ∈ seq 4 9 ->
  length (rfc6052 n p a) = 16%nat /\ take n (rfc6052 n p a) = take n p /\ embedded n (rfc6052 n p a) = a.
Proof.
  intros Hl Ha Hn. destruct a as [|a0 [|a1 [|a2 [|a3 [|]]]]]; try discriminate Ha.
  destruct p as [|x0 [|x1 [|x2 [|x3 [|x4 [|x5 [|x6 [|x7 [|x8 [|x9 [|xa [|xb [|xc [|xd [|xe [|xf [|]]]]]]]]]]]]]]]]];
    try discriminate Hl.
  simpl in Hn. rewrite !elem_of_cons, elem_of_nil in Hn.
  destruct Hn as [-> |[-> |[-> |[-> |[-> |[-> |[-> |[-> |[-> |[]]]]]]]]]]; vm_compute; done.
Qed.

Context {L : DnsLib} {LS : DnsLibSpec L}.

(** Records of type A hold an IPv4 address. *)
Definition a_typed (rr : RR) : Prop := rr_type rr = TypeA -> exists a4 a, Data rr = RA a4 /\ To4 a4 = Some a.

(** An A record and the AAAA record made of it; every other record as it
    is. *)
Definition translated (d : DNS64) (soattl : Z) (rr rr' : RR) : Prop :=
  if decide (rr_type rr = TypeA) then
    exists a4 a v6, Data rr = RA a4 /\ To4 a4 = Some a /\
      rr' = mkRR (mkHdr (rr_name rr) TypeAAAA (Class_ (Hdr rr)) (Z.min (rr_ttl rr) soattl)) (RAAAA v6) /\
      v6 = rfc6052 (ones (Prefix d) / 8) (net_IP (Prefix d)) a /\
      take (ones (Prefix d) / 8) v6 = take (ones (Prefix d) / 8) (net_IP (Prefix d)) /\
      length v6 = 16%nat /\ embedded (ones (Prefix d) / 8) v6 = a
  else rr' = rr.

Lemma translate_all_spec d t rrs :
  valid_prefix (Prefix d) = true -> Forall a_typed rrs ->
  exists rrs', translate_all d t rrs = Ok rrs' /\ Forall2 (translated d t) rrs rrs'.
Proof.
  intros Hp. induction 1 as [|rr rrs Hrr _ (rrs' & IH & HF)]; [by exists []|]. cbn [translate_all]. rewrite IH.
  assert (exists rr', translate d t rr = Ok rr' /\ translated d t rr rr') as (rr' & -> & Ht).
  { unfold translate, translated. destruct (decide (rr_type rr = TypeA)) as [HA|HA].
    - rewrite decide_False by (intros HX; by apply HX). destruct (Hrr HA) as (a4 & a & Hd & Ha). rewrite Hd.
      rewrite (to6_rfc6052 _ a4 a Hp Ha). eexists. split; [done|]. exists a4, a. eexists. split_and!; try done.
      all: apply valid_prefix_cases in Hp as [Hl Hn]; apply To4_length in Ha;
        by destruct (rfc6052_embedded _ _ a Hl Ha Hn) as (? & ? & ?).
    - rewrite decide_True by done. by eexists. }
  eexists. split; [reflexivity|by constructor].
Qed.

(** The synthesis of dns64.  With a prefix the configuration accepts, the
    reply made of an answer to the A query never fails and has the records of
    that answer in order: each A record becomes an AAAA record of the same
    name and class, its TTL at most that of the SOA of the AAAA reply (600
    without one), its address laid out as RFC 6052 says, so that it starts
    with the prefix and the IPv4 address can be read back; every other record
    and the other sections are passed on unchanged. *)
Theorem Synthesize_translates d origReq orig resp :
  valid_prefix (Prefix d) = true -> Forall a_typed (Answer resp) ->
  exists m, Synthesize d origReq orig resp = Ok m /\
    Forall2 (translated d (soa_ttl (Ns_ orig))) (Answer resp) (Answer m) /\
    Ns_ m = Ns_ resp /\ Extra m = Extra resp /\ Truncated m = Truncated resp /\
    Id m = Id origReq /\ Rcode m = RcodeSuccess /\ Question m = take 1 (Question origReq).
Proof.
  intros Hp HA. destruct (translate_all_spec d (soa_ttl (Ns_ orig)) _ Hp HA) as (rrs' & Ht & HF).
  destruct (SetReply_law origReq) as (HI & _ & _ & _ & HR & HQ & _).
  unfold Synthesize. rewrite Ht. eexists. split; [reflexivity|]. by split_and!.
Qed.

End dns64.

(** ** loadbalance *)

Section loadbalance.
Import LoadBalance.
Implicit Types (rrs : list RR) (ids : nat -> Z).

Definition is_address (r : RR) : Prop := rr_type r = TypeA \/ rr_type r = TypeAAAA.
Definition is_rest (r : RR) : Prop := rr_type r <> TypeCNAME /\ ~ is_address r /\ rr_type r <> TypeMX.

#[export] Instance is_address_dec r : Decision (is_address r).
Proof. unfold is_address. apply _. Defined.
#[export] Instance is_rest_dec r : Decision (is_rest r).
Proof. unfold is_rest. apply _. Defined.

Lemma buckets_spec rrs b :
  foldl bucket b rrs =
  mkBuckets (cname b ++ filter (fun r => rr_type r = TypeCNAME) rrs) (address b ++ filter is_address rrs)
    (mx b ++ filter (fun r => rr_type r = TypeMX) rrs) (rest b ++ filter is_rest rrs).
Proof.
  revert b. induction rrs as [|r rrs IH]; intros b; [destruct b; simpl; by rewrite !app_nil_r|].
  cbn [foldl]. rewrite IH. unfold bucket.
  assert (TypeCNAME <> TypeMX /\ ~ (TypeCNAME = TypeA \/ TypeCNAME = TypeAAAA)) as [? ?] by (split; [discriminate|intros [|]; discriminate]).
  assert (~ (TypeMX = TypeA \/ TypeMX = TypeAAAA)) by (intros [|]; discriminate).
  rewrite !filter_cons. repeat case_decide; unfold is_address, is_rest, is_address in *; cbn [cname address mx rest];
    rewrite <-?app_assoc; try done; exfalso; naive_solver congruence.
Qed.

Lemma swap_split l1 a l2 b l3 :
  swap (l1 ++ a :: l2 ++ b :: l3) (length l1) (length l1 + S (length l2)) = l1 ++ b :: l2 ++ a :: l3.
Proof.
  unfold swap. rewrite list_lookup_middle by done.
  replace (l1 ++ a :: l2 ++ b :: l3) with ((l1 ++ a :: l2) ++ b :: l3) at 1 by (by rewrite <-app_assoc).
  rewrite list_lookup_middle by (rewrite length_app; simpl; lia).
  rewrite <-(Nat.add_0_r (length l1)) at 2. rewrite insert_app_r. simpl.
  replace (l1 ++ b :: l2 ++ b :: l3) with ((l1 ++ b :: l2) ++ b :: l3) by (by rewrite <-app_assoc).
  replace (length l1 + S (length l2))%nat with (length (l1 ++ b :: l2) + 0)%nat by (rewrite length_app; simpl; lia).
  rewrite insert_app_r. simpl. by rewrite <-app_assoc.
Qed.

(** The turn at [j] of a list brings one of its later records there. *)
Lemma split_at rrs (j p : nat) :
  (j < p)%nat -> (p < length rrs)%nat ->
  exists l1 a l2 b l3, rrs = l1 ++ a :: l2 ++ b :: l3 /\ j = length l1 /\ p = (length l1 + S (length l2))%nat.
Proof.
  intros Hj Hp. destruct (lookup_lt_is_Some_2 rrs p Hp) as [b Hb].
  destruct (lookup_lt_is_Some_2 rrs j ltac:(lia)) as [a Ha].
  pose proof (take_drop_middle _ _ _ Ha) as Hs. apply list_elem_of_split_length in Hb as (k1 & l3 & -> & ->).
  assert ((length k1 > j)%nat) as Hk by lia. rewrite lookup_app_l in Ha by lia.
  apply list_elem_of_split_length in Ha as (l1 & l2 & -> & ->). exists l1, a, l2, b, l3. rewrite length_app. simpl.
  split_and!; [by rewrite <-app_assoc|done|lia].
Qed.

Lemma swap_perm rrs (j p : nat) : (j < p)%nat -> (p < length rrs)%nat -> swap rrs j p ≡ₚ rrs.
Proof.
  intros Hj Hp. destruct (split_at rrs j p Hj Hp) as (l1 & a & l2 & b & l3 & -> & -> & ->). rewrite swap_split.
  apply Permutation_app_head. rewrite <-!Permutation_middle. constructor.
Qed.

Lemma draw_range ids (j l : nat) : (j < l)%nat -> (j <= j + Z.to_nat (ids j mod Z.of_nat (l - j)) < l)%nat.
Proof. intros Hj. pose proof (Z.mod_pos_bound (ids j) (Z.of_nat (l - j)) ltac:(lia)). lia. Qed.

Lemma shuffle_loop_perm k j l ids rrs : length rrs = l -> (j + k = l)%nat -> shuffle_loop k j l ids rrs ≡ₚ rrs.
Proof.
  revert j rrs. induction k as [|k IH]; intros j rrs Hl Hk; [done|]. cbn [shuffle_loop]. cbn zeta.
  pose proof (draw_range ids j l ltac:(lia)). set (p := (j + Z.to_nat _)%nat) in *. clearbody p. case_decide as HX; [by apply IH; lia|].
  assert (swap rrs j p ≡ₚ rrs) as Hs by (apply swap_perm; lia).
  rewrite IH; [done|by rewrite Hs|lia].
Qed.

(** Later turns do not look at earlier draws. *)
Lemma shuffle_loop_ext k j l ids ids' rrs :
  (forall i, (j <= i)%nat -> ids i = ids' i) -> shuffle_loop k j l ids rrs = shuffle_loop k j l ids' rrs.
Proof.
  revert j rrs. induction k as [|k IH]; intros j rrs He; [done|]. cbn [shuffle_loop]. rewrite He by done.
  apply IH. intros i Hi. apply He. lia.
Qed.

Definition uint16 ids : Prop := forall i, 0 <= ids i < 65536.

Lemma const_uint16 x : 0 <= x < 65536 -> uint16 (fun _ => x).
Proof. by intros Hx i. Qed.

Definition redraw (j : nat) (x : Z) ids : nat -> Z := fun i => if decide (i = j) then x else ids i.

Lemma redraw_at j x ids : redraw j x ids j = x.
Proof. unfold redraw. by rewrite decide_True. Qed.

Lemma redraw_uint16 j x ids : 0 <= x < 65536 -> uint16 ids -> uint16 (redraw j x ids).
Proof. intros Hx Hi i. unfold redraw. case_decide; [done|apply Hi]. Qed.

(** Every order of the records not yet placed can be drawn. *)
Lemma shuffle_loop_reaches pre suf target :
  Z.of_nat (length (pre ++ suf)) <= 65536 -> target ≡ₚ suf ->
  exists ids, uint16 ids /\
    shuffle_loop (length suf) (length pre) (length (pre ++ suf)) ids (pre ++ suf) = pre ++ target.
Proof.
  revert pre suf. induction target as [|t target IH]; intros pre suf Hb Hp.
  { apply Permutation_nil_l in Hp. subst suf. exists (fun _ => 0). split; [apply const_uint16; lia|reflexivity]. }
  assert (t ∈ suf) as Hin by (rewrite <-Hp; by left).
  apply list_elem_of_split in Hin as (s1 & s2 & ->). set (j := length pre). rewrite length_app in Hb.
  set (suf' := match s1 with [] => s2 | a :: s1' => s1' ++ a :: s2 end).
  assert (target ≡ₚ suf') as Hp'.
  { apply (Permutation_cons_inv (a := t)). rewrite Hp. destruct s1 as [|a s1]; simpl; [done|].
    subst suf'. rewrite <-!Permutation_middle. apply perm_swap. }
  assert (length (s1 ++ t :: s2) = S (length suf')) as Hlen.
  { rewrite <-Hp', <-Hp. done. }
  destruct (IH (pre ++ [t]) suf') as (ids & Hu & He); [rewrite !length_app in *; simpl in *; lia|done|].
  exists (redraw j (Z.of_nat (length s1)) ids). split.
  { apply redraw_uint16; [|done]. rewrite length_app in Hb. simpl in Hb. lia. }
  rewrite Hlen. cbn [shuffle_loop]. cbn zeta. rewrite redraw_at.
  rewrite (Z.mod_small _ (Z.of_nat (length (pre ++ s1 ++ t :: s2) - j)))
    by (rewrite !length_app; simpl; subst j; lia).
  rewrite Nat2Z.id.
  rewrite (shuffle_loop_ext _ _ _ _ ids) by (intros i Hi; unfold redraw; rewrite decide_False by lia; done).
  assert ((if decide (j = (j + length s1)%nat) then pre ++ s1 ++ t :: s2 else swap (pre ++ s1 ++ t :: s2) j (j + length s1))
    = (pre ++ [t]) ++ suf') as ->.
  { rewrite <-app_assoc. subst suf'. destruct s1 as [|a s1]; simpl; [by rewrite decide_True by lia|].
    rewrite decide_False by lia. apply swap_split. }
  replace (length (pre ++ s1 ++ t :: s2)) with (length ((pre ++ [t]) ++ suf')) by (rewrite !length_app in *; simpl in *; lia).
  replace (S j) with (length (pre ++ [t])) by (rewrite length_app; simpl; lia). rewrite He. by rewrite <-app_assoc.
Qed.

Lemma roundRobinShuffle_perm ids rrs : roundRobinShuffle ids rrs ≡ₚ rrs.
Proof.
  destruct rrs as [|a [|b [|c rrs]]]; [done|done| |by apply shuffle_loop_perm].
  simpl. case_decide; [constructor|done].
Qed.

Lemma roundRobinShuffle_reaches rrs target :
  Z.of_nat (length rrs) <= 65536 -> target ≡ₚ rrs -> exists ids, uint16 ids /\ roundRobinShuffle ids rrs = target.
Proof.
  intros Hb Hp. destruct rrs as [|a [|b [|c rrs]]].
  - apply Permutation_nil_r in Hp as ->. exists (fun _ => 0). split; [apply const_uint16; lia|done].
  - apply Permutation_singleton_r in Hp as ->. exists (fun _ => 0). split; [apply const_uint16; lia|done].
  - symmetry in Hp. apply Permutation_length_2_inv in Hp as [-> | ->].
    + exists (fun _ => 1). split; [apply const_uint16; lia|done].
    + exists (fun _ => 0). split; [apply const_uint16; lia|done].
  - destruct (shuffle_loop_reaches [] (a :: b :: c :: rrs) target Hb Hp) as (ids & Hu & He). by exists ids.
Qed.

Lemma filter_bound (P : RR -> Prop) `{!forall r, Decision (P r)} rrs n : Z.of_nat (length rrs) <= n -> Z.of_nat (length (filter P rrs)) <= n.
Proof. pose proof (length_filter P rrs). lia. Qed.

(** Load balancing.  Whatever is drawn, CNAME records come first and the
    records of other types next, both in their order, then the addresses and
    then the MX records, each group permuted: no record is lost, added or
    moved into another group.  And the draws, 16 bits each, can bring about
    every order of the addresses and of the MX records, so no record is shut
    out of any place. *)
Theorem roundRobin_balances rrs :
  let sorted a m := filter (fun r => rr_type r = TypeCNAME) rrs ++ filter is_rest rrs ++ a ++ m in
  (forall ids ids', exists a m, a ≡ₚ filter is_address rrs /\ m ≡ₚ filter (fun r => rr_type r = TypeMX) rrs /\
     roundRobin ids ids' rrs = sorted a m) /\
  (forall a m, Z.of_nat (length rrs) <= 65536 ->
     a ≡ₚ filter is_address rrs -> m ≡ₚ filter (fun r => rr_type r = TypeMX) rrs ->
     exists ids ids', uint16 ids /\ uint16 ids' /\ roundRobin ids ids' rrs = sorted a m).
Proof.
  unfold roundRobin. rewrite buckets_spec. cbn [cname address mx rest app]. split.
  - intros ids ids'. do 2 eexists. split_and!; [apply roundRobinShuffle_perm..|done].
  - intros a m Hb Ha Hm.
    destruct (roundRobinShuffle_reaches _ a (filter_bound _ _ _ Hb) Ha) as (ids & Hu & <-).
    destruct (roundRobinShuffle_reaches _ m (filter_bound _ _ _ Hb) Hm) as (ids' & Hu' & <-).
    by exists ids, ids'.
Qed.

End loadbalance.

(** ** The protocol of package plugin *)

Section protocol.
Context {L : DnsLib} {LS : DnsLibSpec L} {N : DnsNames}.

Lemma wrote_protocol (m : Msg) rc : ClientWrite rc = true -> is_Some (Some m) <-> ClientWrite rc = true.
Proof. intros H. split; [done|by eexists]. Qed.

Lemma next_or_failure_protocol next : opt_protocol next -> protocol (next_or_failure next).
Proof. destruct next as [c|]; [done|]. intros _ r. simpl. split; [by intros [? [=]]|done]. Qed.

Lemma any_protocol next : opt_protocol next -> protocol (Any.any_ServeDNS next).
Proof.
  intros Hn r. unfold Any.any_ServeDNS. destruct (Question r) as [|q qs]; [done|].
  case_decide; [by apply next_or_failure_protocol|by apply wrote_protocol].
Qed.

Lemma loadbalance_protocol shuffle next : opt_protocol next -> protocol (LoadBalance.loadbalance_ServeDNS shuffle next).
Proof.
  intros Hn r. pose proof (next_or_failure_protocol next Hn r) as Hp. unfold LoadBalance.loadbalance_ServeDNS.
  destruct (next_or_failure next r) as [[m|] res]; [|done].
  destruct (LoadBalance.LoadBalance_WriteMsg shuffle m) as [m'|f]; [|done].
  destruct res as [rc|f]; [|done]. apply wrote_protocol, Hp. by eexists.
Qed.

Lemma dns64_protocol upstream d w now next :
  opt_protocol next -> protocol (Dns64.dns64_ServeDNS upstream d w now next).
Proof.
  intros Hn r. unfold Dns64.dns64_ServeDNS. destruct (negb _); [by apply next_or_failure_protocol|].
  destruct next as [c|]; [|done]. pose proof (Hn r) as Hp. destruct (c r) as [[orig|] [rc|f]]; try done.
  destruct (negb _); [done|]. unfold Dns64.DoDNS64. destruct (upstream _ _ _) as [[resp|]|]; [|done|split; [by intros [? [=]]|done]].
  unfold Dns64.Synthesize. destruct (Dns64.translate_all _ _ _); [|done]. simpl.
  destruct (SetReply_law r) as (_ & _ & _ & _ & -> & _). by apply wrote_protocol.
Qed.

Context {Filter : Type} (GetByIP : Filter -> list Z -> bool) (SetEdns0 : Msg -> Z -> bool -> Msg).

Lemma acl_protocol w (rules : list (@Acl.rule Filter)) next :
  Forall (fun rl => Forall (fun p => Acl.p_action p <> Acl.actionDrop) (Acl.policies rl)) rules ->
  opt_protocol next -> protocol (Acl.acl_ServeDNS GetByIP SetEdns0 w rules next).
Proof.
  intros Hd Hn r. unfold Acl.acl_ServeDNS. induction Hd as [|rl rules Hrl Hd IH]; [by apply next_or_failure_protocol|].
  cbn [Acl.acl_loop]. case_decide; [done|].
  assert (forall rc code, match Acl.refuse_with SetEdns0 r rc code with
                          | (m, Ok rc) => is_Some m <-> ClientWrite rc = true | (m, Err _) => m = None end) as Href.
  { intros rc code. unfold Acl.refuse_with. destruct (Acl.with_ede _ _ _); [by apply wrote_protocol|done]. }
  destruct (Acl.matchWithPolicies GetByIP (Acl.policies rl) w r) eqn:E; [done|by apply next_or_failure_protocol|apply Href|apply Href|].
  exfalso. unfold Acl.matchWithPolicies in E. destruct (source_ip w) as [ip|]; [|done].
  rewrite match_loop_first in E. destruct (filter _ _) as [|p ps] eqn:F; [done|].
  assert (p ∈ p :: ps) as Hin by (by left). rewrite <-F in Hin. apply list_elem_of_filter in Hin as [_ Hin].
  by apply (proj1 (Forall_forall _ _) Hrl p Hin).
Qed.

(** [minimal] writes the message of the rest of the chain even when there is
    none, as when the rest declined: it panics. *)
Lemma minimal_panics_unwritten now next r :
  failed (NextOrFailure next r) = false -> written (NextOrFailure next r) = None ->
  Minimal.minimal_ServeDNS now next r = (None, Err NilDeref).
Proof. intros Hf Hw. unfold Minimal.minimal_ServeDNS. by rewrite Hf, Hw. Qed.

End protocol.

(** ** A server with all of them *)

Module FilterSample.
#[local] Existing Instances Plain.names Plain.names_spec PlainLib.lib PlainLib.lib_spec list_order ServerSample.opt.
Import Serve.ServeSample StoreFacts ServerSample.

(** A filter is a list of address prefixes. *)
Definition contains (nets : list (list Z)) (ip : list Z) : bool :=
  existsb (fun n => bool_decide (take (length n) (default ip (To4 ip)) = n)) nets.

Definition add_opt (m : Msg) (size : Z) (d : bool) : Msg :=
  set_Extra m (Extra m ++ [mkRR (mkHdr dot TypeOPT size (if d then 32768 else 0)) (ROPT [])]).

Lemma add_opt_law m size d : exists o,
  add_opt m size d = set_Extra m (Extra m ++ [o]) /\ Data o = ROPT [] /\ is_Some (IsEdns0 (add_opt m size d)).
Proof.
  eexists. split; [reflexivity|]. split; [reflexivity|]. simpl.
  destruct (list_find _ _) eqn:E; [by eexists|]. apply list_find_None in E. apply Forall_app in E as [_ E].
  apply Forall_cons in E as [E _]. by destruct E.
Qed.

(** One network may ask, all others are blocked. *)
Definition rules : list (@Acl.rule (list (list Z))) :=
  [Acl.mkRule ["example.com."]
     [Acl.mkPolicy Acl.actionAllow [TypeNone] [[10]]; Acl.mkPolicy Acl.actionBlock [TypeA; TypeAAAA] [[]]]].

Lemma acl_first_policy_witness :
  decision contains asker query rules = Acl.actionBlock /\
  exists m o, Acl.acl_ServeDNS contains add_opt asker rules None query = (Some m, Ok RcodeSuccess) /\
    Rcode m = RcodeRefused /\ Id m = Id query /\ Answer m = [] /\
    Extra m = [o] /\ Data o = ROPT [EDNS0_EDE ExtendedErrorCodeBlocked].
Proof.
  split; [vm_compute; reflexivity|].
  exact (acl_first_policy contains add_opt add_opt_law asker rules None query
           ltac:(repeat (apply Forall_cons_2 || apply Forall_nil_2); discriminate)).
Defined.

(** The well-known prefix 64:ff9b::/96. *)
Definition nat64 : Dns64.DNS64 :=
  Dns64.mkDNS64 (mkIPNet [0; 100; 255; 155; 0; 0; 0; 0; 0; 0; 0; 0; 0; 0; 0; 0] 96) false true.

Definition a_reply : Msg :=
  mkMsg 7 true 0 false false true true false false 0 [mkQ "www.example.com." TypeA ClassINET]
    [mkRR (mkHdr "www.example.com." TypeCNAME ClassINET 900) (RCNAME "web.example.com.");
     mkRR (mkHdr "web.example.com." TypeA ClassINET 900) (RA [192; 0; 2; 33])] [] [].

Lemma Synthesize_translates_witness :
  exists m, Dns64.Synthesize nat64 query a_reply a_reply = Ok m /\
    Forall2 (translated nat64 (Dns64.soa_ttl (Ns_ a_reply))) (Answer a_reply) (Answer m) /\
    Ns_ m = Ns_ a_reply /\ Extra m = Extra a_reply /\ Truncated m = Truncated a_reply /\
    Id m = Id query /\ Rcode m = RcodeSuccess /\ Question m = take 1 (Question query).
Proof.
  apply (Synthesize_translates nat64 query a_reply a_reply); [vm_compute; reflexivity|].
  apply Forall_cons_2; [discriminate|]. apply Forall_cons_2; [|apply Forall_nil_2].
  intros _. exists [192; 0; 2; 33], [192; 0; 2; 33]. split; vm_compute; reflexivity.
Defined.

(** 64:ff9b::192.0.2.33, the example of RFC 6052. *)
Example well_known_prefix :
  Dns64.to6 (Dns64.Prefix nat64) [192; 0; 2; 33] = Ok (Some [0; 100; 255; 155; 0; 0; 0; 0; 0; 0; 0; 0; 192; 0; 2; 33]).
Proof. vm_compute. reflexivity. Qed.

(** ... and 2001:db8:122:344:c0:2:2100::, of a prefix of 56 bits. *)
Example short_prefix :
  Dns64.to6 (mkIPNet [32; 1; 13; 184; 1; 34; 3; 0; 0; 0; 0; 0; 0; 0; 0; 0] 56) [192; 0; 2; 33]
  = Ok (Some [32; 1; 13; 184; 1; 34; 3; 192; 0; 0; 2; 33; 0; 0; 0; 0]).
Proof. vm_compute. reflexivity. Qed.

(** Three addresses in reverse order, by draws 2, 0 and 0. *)
Definition at_ (a : Z) : RR := mkRR (mkHdr "a." TypeA ClassINET 60) (RA [192; 0; 2; a]).

Lemma roundRobin_balances_witness :
  exists ids ids', uint16 ids /\ uint16 ids' /\
    LoadBalance.roundRobin ids ids' [at_ 1; at_ 2; at_ 3] = [at_ 3; at_ 2; at_ 1].
Proof.
  apply (proj2 (roundRobin_balances [at_ 1; at_ 2; at_ 3]) [at_ 3; at_ 2; at_ 1] []).
  - vm_compute. discriminate.
  - apply (Permutation_rev [at_ 3; at_ 2; at_ 1]).
  - reflexivity.
Defined.

(** The chain of a site, in the order of the plugins. *)
Definition site : Config :=
  mkConfig "example.com."
    [mkPlugin "acl" (Acl.acl_ServeDNS contains add_opt asker rules);
     mkPlugin "any" Any.any_ServeDNS;
     mkPlugin "dns64" (Dns64.dns64_ServeDNS (fun _ _ _ => Ok (Some a_reply)) nat64 asker 0);
     mkPlugin "loadbalance" (LoadBalance.loadbalance_ServeDNS (LoadBalance.randomShuffle (fun _ _ => 0)));
     hanzodns] [] false.

Lemma site_ok : Forall plugin_ok (Plugins site).
Proof.
  apply Forall_cons_2; [intros next; apply acl_protocol; repeat (apply Forall_cons_2 || apply Forall_nil_2); discriminate|].
  apply Forall_cons_2; [intros next; apply any_protocol|].
  apply Forall_cons_2; [intros next; apply dns64_protocol|].
  apply Forall_cons_2; [intros next; apply loadbalance_protocol|].
  pose proof group_ok as Hg. by apply Forall_cons in Hg as [Hg _].
Qed.

Lemma server_replies_once_witness :
  exists m, messages (server_ServeDNS none_supported (NewServer [site]) asker query) = [m] /\
    died (server_ServeDNS none_supported (NewServer [site]) asker query) = false.
Proof.
  apply (server_replies_once none_supported [site] asker query); [|reflexivity].
  apply Forall_cons_2; [apply site_ok|apply Forall_nil_2].
Defined.

(** The same query before [minimal] for a name without records: hanzodns
    declines, and [minimal] panics. *)
Example minimal_panics :
  Minimal.minimal_ServeDNS 0
    (Some (ServeDNS (fun n => n) PlainLib.reply_to type_of_string None [] StoreSample.store))
    (mkMsg 7 false 0 false false true false false false 0 [mkQ "nx.example.com." TypeA ClassINET] [] [] [])
  = (None, Err NilDeref).
Proof. vm_compute. reflexivity. Qed.

End FilterSample.
