(* ===== verification/GoStrings.v ===== *)
(** * More of the Go library: packages strings, strconv and net

    Functions on byte strings that several plugins use, beyond the ones of
    Prelude.v, with the laws the proofs need. *)

From Stdlib Require Import Ascii ZArith Lia.
From stdpp Require Import base numbers gmap strings list.
From S2P Require Import Prelude Ip.

Local Open Scope Z_scope.

(** ** Package strings *)

Definition ascii_upper (c : ascii) : ascii :=
  let n := nat_of_ascii c in
  if decide (97 <= n <= 122)%nat then ascii_of_nat (n - 32) else c.

Fixpoint ToUpper (s : string) : string :=
  match s with
  | EmptyString => EmptyString
  | String c s => String (ascii_upper c) (ToUpper s)
  end.

(** [None] where Go returns [ok = false]. *)
Definition CutPrefix (s p : string) : option string :=
  if HasPrefix s p then Some (drop_str (String.length p) s) else None.

Definition CutSuffix (s suf : string) : option string :=
  if HasSuffix s suf then Some (take_str (String.length s - String.length suf) s) else None.

(** [strings.ReplaceAll] of an [old] that is not empty: the matches are found
    from the left and do not overlap.  [skip] bytes belong to the match that
    was just replaced. *)
Fixpoint replace_from (skip : nat) (s old new : string) : string :=
  match s with
  | EmptyString => EmptyString
  | String c s' =>
      match skip with
      | S k => replace_from k s' old new
      | O => if HasPrefix s old then String.append new (replace_from (String.length old - 1) s' old new)
             else String c (replace_from 0 s' old new)
      end
  end.

Definition ReplaceAll (s old new : string) : string := replace_from 0 s old new.

(** ** Package strconv *)

Definition digit_in (base : Z) (c : ascii) : option Z :=
  let n := byte_of (ascii_lower c) in
  let d := if decide (48 <= n <= 57) then Some (n - 48)
           else if decide (97 <= n <= 122) then Some (n - 87) else None in
  match d with
  | Some d => if decide (d < base) then Some d else None
  | None => None
  end.

(** The digits of [ParseUint] in base 0, where underscores may separate
    them. *)
Fixpoint parse_digits_in (base : Z) (s : string) (acc : Z) : option Z :=
  match s with
  | EmptyString => Some acc
  | String c s' =>
      if decide (c = "_"%char) then parse_digits_in base s' acc
      else match digit_in base c with
           | None => None
           | Some d => parse_digits_in base s' (acc * base + d)
           end
  end.

(** What was seen last: the start, a digit, an underscore, something else. *)
Inductive saw : Type := SawStart | SawDigit | SawUnderscore | SawOther.

Fixpoint underscores_from (hex : bool) (s : string) (last : saw) : bool :=
  match s with
  | EmptyString => match last with SawUnderscore => false | _ => true end
  | String c s' =>
      if bool_decide (is_Some (digit_in (if hex then 16 else 10) c)) then underscores_from hex s' SawDigit
      else if decide (c = "_"%char) then
        match last with SawDigit => underscores_from hex s' SawUnderscore | _ => false end
      else match last with SawUnderscore => false | _ => underscores_from hex s' SawOther end
  end.

(** The base a prefix stands for. *)
Definition base_prefix (c : ascii) : option Z :=
  if decide (ascii_lower c = "b"%char) then Some 2
  else if decide (ascii_lower c = "o"%char) then Some 8
  else if decide (ascii_lower c = "x"%char) then Some 16 else None.

Definition underscoreOK (s : string) : bool :=
  match s with
  | String "0" (String c s') =>
      match base_prefix c with
      | Some b => underscores_from (bool_decide (b = 16)) s' SawDigit
      | None => underscores_from false s SawStart
      end
  | _ => underscores_from false s SawStart
  end.

(** [strconv.ParseUint s 0 bits]. *)
Definition ParseUint0 (s : string) (bits : Z) : option Z :=
  let parsed :=
    match s with
    | EmptyString => None
    | String "0" (String c (String d s')) =>
        match base_prefix c with
        | Some b => parse_digits_in b (String d s') 0
        | None => parse_digits_in 8 (String c (String d s')) 0
        end
    | String "0" s' => parse_digits_in 8 s' 0
    | _ => parse_digits_in 10 s 0
    end in
  match parsed with
  | Some n => if decide (n < 2 ^ bits) then if underscoreOK s then Some n else None else None
  | None => None
  end.

(** [hex.DecodeString] *)
Fixpoint hex_DecodeString (s : string) : option (list Z) :=
  match s with
  | EmptyString => Some []
  | String c (String d s') =>
      match digit_in 16 c, digit_in 16 d, hex_DecodeString s' with
      | Some a, Some b, Some l => Some (a * 16 + b :: l)
      | _, _, _ => None
      end
  | String _ EmptyString => None
  end.

(** ** Package net *)

(** [net.CIDRMask] of [n] ones in [k] bytes. *)
Fixpoint CIDRMask (n : Z) (k : nat) : list Z :=
  match k with
  | O => []
  | S k' =>
      (if decide (8 <= n) then 255 else if decide (0 < n) then 256 - 2 ^ (8 - n) else 0) :: CIDRMask (n - 8) k'
  end.

(** [ip.Mask(mask)], with nil as the empty address. *)
Definition Mask (ip mask : list Z) : list Z :=
  let mask := if decide (length mask = 16%nat /\ length ip = 4%nat /\ take 12 mask = replicate 12 255) then drop 12 mask else mask in
  let ip := if decide (length mask = 4%nat /\ length ip = 16%nat /\ take 12 ip = v4_prefix) then drop 12 ip else ip in
  if decide (length ip = length mask) then zip_with Z.land ip mask else [].

Definition To16 (ip : list Z) : option (list Z) :=
  if decide (length ip = 4%nat) then Some (v4_prefix ++ ip)
  else if decide (length ip = 16%nat) then Some ip else None.

(** ** Laws *)

Lemma drop_str_app p s : drop_str (String.length p) (String.append p s) = s.
Proof. induction p as [|c p IH]; [done|]. exact IH. Qed.

Lemma take_str_app p s : take_str (String.length p) (String.append p s) = p.
Proof. induction p as [|c p IH]; [by destruct s|]. simpl. by f_equal. Qed.

Lemma CutPrefix_Some s p t : CutPrefix s p = Some t <-> s = String.append p t.
Proof.
  unfold CutPrefix. destruct (HasPrefix s p) eqn:E.
  - apply HasPrefix_spec in E as [t' ->]. rewrite drop_str_app. split; [by intros [= ->]|].
    intros H. by rewrite <-(drop_str_app p t'), H, drop_str_app.
  - split; [done|]. intros ->. assert (HasPrefix (String.append p t) p = true) as HX by (apply HasPrefix_spec; eauto).
    by rewrite HX in E.
Qed.

Lemma CutSuffix_Some s suf t : CutSuffix s suf = Some t <-> s = String.append t suf.
Proof.
  unfold CutSuffix. destruct (HasSuffix s suf) eqn:E.
  - apply HasSuffix_spec in E as [t' ->].
    replace (String.length (String.append t' suf) - String.length suf)%nat with (String.length t')
      by (rewrite str_length_app; lia).
    rewrite take_str_app. split; [by intros [= ->]|]. intros H. f_equal. by eapply str_app_inj_r.
  - split; [done|]. intros ->. by rewrite HasSuffix_app in E.
Qed.

Lemma digit_in_range base c d : digit_in base c = Some d -> 0 <= d < base.
Proof.
  unfold digit_in. intros H. repeat case_decide; simplify_eq; lia.
Qed.

Lemma parse_digits_in_nonneg base s acc n : 0 <= base -> 0 <= acc -> parse_digits_in base s acc = Some n -> 0 <= n.
Proof.
  intros Hb. revert acc. induction s as [|c s IH]; intros acc Ha; simpl; [by intros [= <-]|].
  case_decide; [by apply IH|]. destruct (digit_in base c) as [d|] eqn:E; [|done].
  apply digit_in_range in E. apply IH. nia.
Qed.

Lemma parse_digits_nonneg s acc n : 0 <= acc -> parse_digits s acc = Some n -> 0 <= n.
Proof.
  revert acc. induction s as [|c s IH]; intros acc Ha; simpl; [by intros [= <-]|].
  unfold digit_of. case_decide; [|done]. apply IH. lia.
Qed.

Lemma ParseUint_range s bits n : ParseUint s bits = Some n -> 0 <= n < 2 ^ bits.
Proof.
  unfold ParseUint. destruct s as [|c s]; [done|]. destruct (parse_digits _ 0) as [m|] eqn:E; [|done].
  case_decide; [|done]. intros [= <-]. split; [by eapply parse_digits_nonneg in E|done].
Qed.

Lemma CIDRMask_length n k : length (CIDRMask n k) = k.
Proof. revert n. induction k; intros n; simpl; [done|]. by rewrite IHk. Qed.
