(* ===== verification/Rewrite.v ===== *)
(** * The rewrite plugin (plugin/rewrite)

    Rules rewrite the question and the options of a request before the rest
    of the chain sees it; each rule that applied leaves response rules, which
    a writer around the client's applies to the reply, last rule first.

    A reply is a copy in which records are shared by address, since rules
    change records in place while the writer walks the sections, and a rule
    may replace a section meanwhile. *)

From Stdlib Require Import Ascii ZArith Lia.
From stdpp Require Import base numbers gmap strings list.
From S2P Require Import Prelude DnsTypes DnsLib Ip GoStrings Serve Http Xfer Server.

Local Open Scope Z_scope.

(** ** What is not in the repository *)

(** Regular expressions of package regexp, and functions of the DNS
    library. *)
Class RewriteLib := {
  Regexp : Type;
  Compile : string -> option Regexp;
  FindStringSubmatch : Regexp -> string -> list string;
  NumSubexp : Regexp -> nat;
  IsDomainName : string -> bool;
  SetEdns0 : Msg -> Z -> bool -> Msg;
  StringToClass : string -> option Z;
  StringToType : string -> option Z;
  StringToRcode : string -> option Z;
  (** [Upstream.Lookup]: an error, or the message written, if any. *)
  Lookup_up : Msg -> string -> Z -> result unit (option Msg)
}.

(** What a rule sees besides the message: the client, the address of the
    server, and the metadata of the request. *)
Record Ctx := mkCtx { client : Client; LocalAddr : string; metadata : string -> option string }.

Inductive mode : Type := Stop | Continue.
Inductive Result : Type := RewriteIgnored | RewriteDone.

#[export] Instance mode_eq_dec : EqDecision mode.
Proof. solve_decision. Defined.
#[export] Instance Result_eq_dec : EqDecision Result.
Proof. solve_decision. Defined.

(** ** Rewriting strings (name.go) *)

Section strings.
Context {R : RewriteLib}.

Inductive stringRewriter : Type :=
| regexStringRewriter (pattern : Regexp) (replacement : string)
| remapStringRewriter (orig replacement : string)
| suffixStringRewriter (suffix replacement : string).

(** [{0}], [{1}] and so on in [s] replaced by the groups. *)
Fixpoint expand (groups : list string) (i : Z) (s : string) : string :=
  match groups with
  | [] => s
  | g :: groups' => expand groups' (i + 1) (ReplaceAll s ("{" +:+ Itoa i +:+ "}") g)
  end.

Definition rewriteString (r : stringRewriter) (src : string) : string :=
  match r with
  | regexStringRewriter p rep =>
      match FindStringSubmatch p src with
      | [] => src
      | groups => expand groups 0 rep
      end
  | remapStringRewriter orig rep =>
      if decide (src = orig) then rep
      else if HasSuffix src ("." +:+ orig) then take_str (String.length src - String.length orig) src +:+ rep
      else src
  | suffixStringRewriter suf rep =>
      match CutSuffix src suf with Some before => before +:+ rep | None => src end
  end.

End strings.

(** ** Replies as the writer sees them *)

(** A message whose records are at addresses of a heap: its header and
    question are those of [head], and [req] is the request it answers, which
    some rules change. *)
Record response := mkResponse {
  req : Msg;
  head : Msg;
  heap : list RR;
  ns : list nat;
  answer : list nat;
  extra : list nat }.

Definition set_rcode (m : Msg) (rc : Z) : Msg :=
  mkMsg (Id m) (Response m) (Opcode m) (Authoritative m) (Truncated m) (RecursionDesired m) (RecursionAvailable m)
    (AuthenticatedData m) (CheckingDisabled m) rc (Question m) (Answer m) (Ns_ m) (Extra m).
Definition set_truncated (m : Msg) (tc : bool) : Msg :=
  mkMsg (Id m) (Response m) (Opcode m) (Authoritative m) tc (RecursionDesired m) (RecursionAvailable m)
    (AuthenticatedData m) (CheckingDisabled m) (Rcode m) (Question m) (Answer m) (Ns_ m) (Extra m).

(** [res1.Copy()] *)
Definition Copy (req m : Msg) : response :=
  let n := length (Ns_ m) in
  let a := length (Answer m) in
  mkResponse req m (Ns_ m ++ Answer m ++ Extra m) (seq 0 n) (seq n a) (seq (n + a) (length (Extra m))).

Definition section_of (res : response) (l : list nat) : list RR := omap (fun i => heap res !! i) l.

(** The message a response stands for. *)
Definition content (res : response) : Msg :=
  let m := head res in
  mkMsg (Id m) (Response m) (Opcode m) (Authoritative m) (Truncated m) (RecursionDesired m) (RecursionAvailable m)
    (AuthenticatedData m) (CheckingDisabled m) (Rcode m) (Question m)
    (section_of res (answer res)) (section_of res (ns res)) (section_of res (extra res)).

Definition set_heap (res : response) (h : list RR) : response := mkResponse (req res) (head res) h (ns res) (answer res) (extra res).
Definition set_head (res : response) (m : Msg) : response := mkResponse (req res) m (heap res) (ns res) (answer res) (extra res).
Definition set_req (res : response) (r : Msg) : response := mkResponse r (head res) (heap res) (ns res) (answer res) (extra res).
Definition write_rr (res : response) (i : nat) (rr : RR) : response := set_heap res (<[i := rr]> (heap res)).

(** ** Values of records (reverter.go) *)

Definition getRecordValueForRewrite (rr : RR) : result go_fault string :=
  let t := rr_type rr in
  if decide (t = TypeSRV) then match Data rr with RSRV _ _ _ x => Ok x | _ => Err BadAssertion end
  else if decide (t = TypeMX) then match Data rr with RMX _ x => Ok x | _ => Err BadAssertion end
  else if decide (t = TypeCNAME) then match Data rr with RCNAME x => Ok x | _ => Err BadAssertion end
  else if decide (t = TypeNS) then match Data rr with RNS x => Ok x | _ => Err BadAssertion end
  else if decide (t = TypeDNAME) then match Data rr with RDNAME x => Ok x | _ => Err BadAssertion end
  else if decide (t = TypeNAPTR) then match Data rr with RNAPTR _ _ _ _ _ x => Ok x | _ => Err BadAssertion end
  else if decide (t = TypeSOA) then match Data rr with RSOA x _ _ _ _ _ _ => Ok x | _ => Err BadAssertion end
  else if decide (t = TypePTR) then match Data rr with RPTR x => Ok x | _ => Err BadAssertion end
  else Ok EmptyString.

(** The type has been checked by [getRecordValueForRewrite]. *)
Definition setRewrittenRecordValue (rr : RR) (value : string) : RR :=
  mkRR (Hdr rr)
    (match Data rr with
     | RSRV p w port _ => RSRV p w port value
     | RMX p _ => RMX p value
     | RCNAME _ => RCNAME value
     | RNS _ => RNS value
     | RDNAME _ => RDNAME value
     | RNAPTR o p f s re _ => RNAPTR o p f s re value
     | RSOA _ mb se rf rt ex mi => RSOA value mb se rf rt ex mi
     | RPTR _ => RPTR value
     | d => d
     end).

(** ** Response rules *)

Section response_rules.
Context {R : RewriteLib} {L : DnsLib}.

(** The ways a name is matched. *)
Inductive matcher : Type :=
| ExactMatch (from : string)
| PrefixMatch (prefix : string)
| SuffixMatch (suffix : string)
| SubstringMatch (substring : string)
| RegexMatch (pattern : Regexp).

(** cname_target.go *)
Record cnameTargetRule := mkCname { rewriteType : matcher; paramFromTarget : string; paramToTarget : string }.

Inductive ResponseRule : Type :=
| nameRewriterResponseRule (s : stringRewriter)
| valueRewriterResponseRule (s : stringRewriter)
| ttlResponseRule (minTTL maxTTL : Z)
| rcodeResponseRule (old new : Z)
| cnameTargetResponseRule (rule : cnameTargetRule)
| edns0SetResponseRule (code : Z)
| edns0ReplaceResponseRule (code : Z) (source : EDNS0).

Definition getFromAndToTarget (r : cnameTargetRule) (input : string) : string * string :=
  let to := paramToTarget r in
  match rewriteType r with
  | ExactMatch _ => (paramFromTarget r, to)
  | PrefixMatch _ =>
      match CutPrefix input (paramFromTarget r) with Some after => (input, to +:+ after) | None => (EmptyString, EmptyString) end
  | SuffixMatch _ =>
      match CutSuffix input (paramFromTarget r) with Some before => (input, before +:+ to) | None => (EmptyString, EmptyString) end
  | SubstringMatch _ =>
      if Contains input (paramFromTarget r) then (input, ReplaceAll input (paramFromTarget r) to) else (EmptyString, EmptyString)
  | RegexMatch p =>
      match FindStringSubmatch p input with
      | [] => (EmptyString, EmptyString)
      | groups => (input, expand groups 0 to)
      end
  end.

(** The loop over the answer: the CNAME records as far as the one that is
    rewritten, whose target is set. *)
Fixpoint cname_prefix (h : list RR) (l : list nat) (from to : string) : list nat * list RR :=
  match l with
  | [] => ([], h)
  | i :: l' =>
      match h !! i with
      | Some (mkRR hd (RCNAME t)) =>
          if decide (t = from) then ([i], <[i := mkRR hd (RCNAME to)]> h)
          else let '(k, h') := cname_prefix h l' from to in (i :: k, h')
      | _ => cname_prefix h l' from to
      end
  end.

Definition rewrite_cname (rule : cnameTargetRule) (res : response) (i : nat) : result go_fault response :=
  match heap res !! i with
  | Some (mkRR hd (RCNAME target)) =>
      if decide (Rrtype hd <> TypeCNAME) then Ok res
      else
        let '(from, to) := getFromAndToTarget rule target in
        if decide (target <> from) then Ok res
        else
          r' ← set_first_name (req res) to;
          let res := set_req res r' in
          match Lookup_up r' to (QType_ r') with
          | Err _ => Ok res
          | Ok None => Ok res
          | Ok (Some up) =>
              let '(kept, h) := cname_prefix (heap res) (answer res) from to in
              Ok (mkResponse r' (set_truncated (head res) (Truncated up)) (h ++ Answer up) (ns res)
                    (kept ++ seq (length h) (length (Answer up))) (extra res))
          end
  | _ => Ok res
  end.

(** The address of the OPT record of a reply. *)
Definition opt_address (res : response) : option nat :=
  match IsEdns0 (content res) with
  | None => None
  | Some o => snd <$> list_find (fun i => heap res !! i = Some o) (extra res)
  end.

(** [Option] without its first entry of a code, and with it replaced. *)
Fixpoint remove_option (code : Z) (l : list EDNS0) : list EDNS0 :=
  match l with
  | [] => []
  | o :: l' => if decide (opt_code o = code) then l' else o :: remove_option code l'
  end.
Fixpoint replace_option (code : Z) (source : EDNS0) (l : list EDNS0) : list EDNS0 :=
  match l with
  | [] => []
  | o :: l' => if decide (opt_code o = code) then source :: l' else o :: replace_option code source l'
  end.

Definition options (o : RR) : list EDNS0 := match Data o with ROPT l => l | _ => [] end.
Definition set_options (o : RR) (l : list EDNS0) : RR := mkRR (Hdr o) (ROPT l).

(** [ednsOpt.Option] of a reply without an OPT record is a nil
    dereference. *)
Definition change_options (f : list EDNS0 -> list EDNS0) (res : response) : result go_fault response :=
  match opt_address res with
  | None => Err NilDeref
  | Some i =>
      match heap res !! i with
      | None => Err NilDeref
      | Some o => Ok (write_rr res i (set_options o (f (options o))))
      end
  end.

Definition clamp (lo hi t : Z) : Z := if decide (t < lo) then lo else if decide (hi < t) then hi else t.

(** [RewriteResponse(res, rr)], [rr] being the record at [i]. *)
Definition RewriteResponse (rule : ResponseRule) (res : response) (i : nat) : result go_fault response :=
  match heap res !! i with
  | None => Err NilDeref
  | Some rr =>
      match rule with
      | nameRewriterResponseRule s => Ok (write_rr res i (set_name (rewriteString s (rr_name rr)) rr))
      | valueRewriterResponseRule s =>
          value ← getRecordValueForRewrite rr;
          if decide (value = EmptyString) then Ok res
          else
            let new := rewriteString s value in
            if decide (new = value) then Ok res else Ok (write_rr res i (setRewrittenRecordValue rr new))
      | ttlResponseRule lo hi => Ok (write_rr res i (set_ttl (clamp lo hi (rr_ttl rr)) rr))
      | rcodeResponseRule old new =>
          if decide (old = Rcode (head res)) then Ok (set_head res (set_rcode (head res) new)) else Ok res
      | cnameTargetResponseRule c => rewrite_cname c res i
      | edns0SetResponseRule code => change_options (remove_option code) res
      | edns0ReplaceResponseRule code source => change_options (replace_option code source) res
      end
  end.

(** [rewriteResourceRecord], with the rules already in reverse order. *)
Fixpoint rewrite_record (rules : list ResponseRule) (res : response) (i : nat) : result go_fault response :=
  match rules with
  | [] => Ok res
  | rule :: rules' => res ← RewriteResponse rule res i; rewrite_record rules' res i
  end.

Definition rewriteResourceRecord (rules : list ResponseRule) (res : response) (i : nat) : result go_fault response :=
  rewrite_record (reverse rules) res i.

(** A loop over a section as it was when the loop began. *)
Fixpoint rewrite_section (rules : list ResponseRule) (l : list nat) (res : response) : result go_fault response :=
  match l with
  | [] => Ok res
  | i :: l' => res ← rewriteResourceRecord rules res i; rewrite_section rules l' res
  end.

(** ** The writer (reverter.go) *)

Record revertPolicy := mkPolicy { noRevert : bool; noRestore : bool }.
Definition DoRevert (p : revertPolicy) : bool := negb (noRevert p).
Definition DoQuestionRestore (p : revertPolicy) : bool := negb (noRestore p).

Record ResponseReverter := mkReverter {
  originalQuestion : Question_;
  ResponseRules : list ResponseRule;
  policy : revertPolicy }.

(** The message handed to the client's writer, and the request. *)
Definition Reverter_WriteMsg (wr : ResponseReverter) (r res1 : Msg) : result go_fault (Msg * Msg) :=
  res ← (if DoQuestionRestore (policy wr) then
           match Question res1 with
           | [] => Err IndexOutOfRange
           | _ :: qs => Ok (Copy r (set_question res1 (originalQuestion wr :: qs)))
           end
         else Ok (Copy r res1));
  res ← (if decide (ResponseRules wr = []) then Ok res
         else
           res ← rewrite_section (ResponseRules wr) (ns res) res;
           res ← rewrite_section (ResponseRules wr) (answer res) res;
           rewrite_section (ResponseRules wr) (extra res) res);
  Ok (content res, req res).

End response_rules.

(** ** Rules for requests *)

Section rules.
Context {R : RewriteLib} {L : DnsLib} {OP : DnsOpt}.

Inductive edns_action : Type := Replace | Set_ | Append | Unset.

Record nameRuleBase := mkNameRule { nextAction : mode; auto : bool; replacement : string; static : list ResponseRule }.

Inductive Rule : Type :=
| nameRule (base : nameRuleBase) (m : matcher)
| ttlRule (nextAction : mode) (m : matcher) (minTTL maxTTL : Z)
| rcodeRule (nextAction : mode) (m : matcher) (old new : Z)
| cnameRule (nextAction : mode) (rule : cnameTargetRule)
| classRule (nextAction : mode) (fromClass toClass : Z)
| typeRule (nextAction : mode) (fromType toType : Z)
| edns0NsidRule (nextAction : mode) (action : edns_action) (revert : bool)
| edns0LocalRule (nextAction : mode) (action : edns_action) (code : Z) (data : list Z) (revert : bool)
| edns0VariableRule (nextAction : mode) (action : edns_action) (code : Z) (variable : string) (revert : bool)
| edns0SubnetRule (nextAction : mode) (action : edns_action) (v4BitMaskLen v6BitMaskLen : Z) (revert : bool).

Definition Mode (rule : Rule) : mode :=
  match rule with
  | nameRule b _ => nextAction b
  | ttlRule a _ _ _ | rcodeRule a _ _ _ | cnameRule a _ | classRule a _ _ | typeRule a _ _
  | edns0NsidRule a _ _ | edns0LocalRule a _ _ _ _ | edns0VariableRule a _ _ _ _ | edns0SubnetRule a _ _ _ _ => a
  end.

(** Does a name match, for the rules that do not change it? *)
Definition matches_name (m : matcher) (name : string) : bool :=
  match m with
  | ExactMatch from => bool_decide (from = name)
  | PrefixMatch p => HasPrefix name p
  | SuffixMatch s => HasSuffix name s
  | SubstringMatch s => Contains name s
  | RegexMatch p => negb (bool_decide (FindStringSubmatch p name = []))
  end.

(** The new name, if the rule matches the name. *)
Definition rewritten (m : matcher) (rep name : string) : option string :=
  match m with
  | ExactMatch from => if decide (from = name) then Some rep else None
  | PrefixMatch p => match CutPrefix name p with Some after => Some (rep +:+ after) | None => None end
  | SuffixMatch s => match CutSuffix name s with Some before => Some (before +:+ rep) | None => None end
  | SubstringMatch s => if Contains name s then Some (ReplaceAll name s rep) else None
  | RegexMatch p => match FindStringSubmatch p name with [] => None | groups => Some (expand groups 0 rep) end
  end.

(** [state.Name()] is remembered from before the question was changed. *)
Definition responseRuleFor (base : nameRuleBase) (qname name : string) : list ResponseRule :=
  if auto base then
    let rewriter := remapStringRewriter qname name in
    nameRewriterResponseRule rewriter :: valueRewriterResponseRule rewriter :: static base
  else static base.

Definition Rewritten : Type := Msg * list ResponseRule * Result.

Definition rewrite_name (base : nameRuleBase) (m : matcher) (r : Msg) : result go_fault Rewritten :=
  let name := Name_ r in
  match rewritten m (replacement base) name with
  | None => Ok (r, [], RewriteIgnored)
  | Some n => r' ← set_first_name r n; Ok (r', responseRuleFor base n name, RewriteDone)
  end.

Definition responseRule (match_ : bool) (rule : ResponseRule) (r : Msg) : Rewritten :=
  if match_ then (r, [rule], RewriteDone) else (r, [], RewriteIgnored).

Definition rewrite_class (from to : Z) (r : Msg) : result go_fault Rewritten :=
  if decide (0 < from /\ 0 < to) then
    match Question r with
    | [] => Err IndexOutOfRange
    | q :: qs =>
        if decide (Qclass q = from) then Ok (set_question r (mkQ (QName q) (Qtype q) to :: qs), [], RewriteDone)
        else Ok (r, [], RewriteIgnored)
    end
  else Ok (r, [], RewriteIgnored).

Definition rewrite_type (from to : Z) (r : Msg) : result go_fault Rewritten :=
  if decide (0 < from /\ 0 < to) then
    if decide (QType_ r = from) then
      match Question r with
      | [] => Err IndexOutOfRange
      | q :: qs => Ok (set_question r (mkQ (QName q) to (Qclass q) :: qs), [], RewriteDone)
      end
    else Ok (r, [], RewriteIgnored)
  else Ok (r, [], RewriteIgnored).

(** *** EDNS0 (edns0.go) *)

(** The request with an OPT record, and that record. *)
Definition setupEdns0Opt (r : Msg) : result go_fault (Msg * RR) :=
  match IsEdns0 r with
  | Some o => Ok (r, o)
  | None =>
      let r := SetEdns0 r 4096 false in
      match IsEdns0 r with Some o => Ok (r, o) | None => Err NilDeref end
  end.

(** The OPT record [o] of the request with other options. *)
Definition with_options (r : Msg) (o : RR) (l : list EDNS0) : Msg :=
  set_Extra r (replace_opt o (set_options o l) (Extra r)).

Definition unsetEdns0Option (code : Z) (l : list EDNS0) : list EDNS0 := filter (fun o => opt_code o <> code) l.

(** The loop over the options: the first one of the kind [is_] is changed by
    [f]; [None] if there is none. *)
Fixpoint change_first (is_ : EDNS0 -> bool) (f : EDNS0 -> EDNS0) (l : list EDNS0) : option (EDNS0 * list EDNS0) :=
  match l with
  | [] => None
  | o :: l' =>
      if is_ o then Some (o, f o :: l')
      else match change_first is_ f l' with Some (old, k) => Some (old, o :: k) | None => None end
  end.

Definition is_nsid (o : EDNS0) : bool := match o with EDNS0_NSID _ => true | _ => false end.
Definition is_subnet (o : EDNS0) : bool := match o with EDNS0_SUBNET _ _ _ _ => true | _ => false end.
Definition is_local (code : Z) (o : EDNS0) : bool := match o with EDNS0_LOCAL c _ => bool_decide (code = c) | _ => false end.

(** The common part of the rules: replace an option that is there, append one
    that is not. *)
Definition rewrite_option (a : edns_action) (is_ : EDNS0 -> bool) (code : Z) (new : EDNS0) (revert : bool) (r : Msg) (o : RR)
  : Rewritten :=
  match a, change_first is_ (fun _ => new) (options o) with
  | (Replace | Set_), Some (old, l) =>
      (with_options r o l, if revert then [edns0ReplaceResponseRule code old] else [], RewriteDone)
  | (Append | Set_), _ =>
      (with_options r o (options o ++ [new]), if revert then [edns0SetResponseRule code] else [], RewriteDone)
  | _, _ => (r, [], RewriteIgnored)
  end.

Definition rewrite_nsid (a : edns_action) (revert : bool) (r : Msg) : result go_fault Rewritten :=
  '(r, o) ← setupEdns0Opt r;
  match a with
  | Unset => Ok (with_options r o (unsetEdns0Option EDNS0NSID (options o)), [], RewriteDone)
  | _ => Ok (rewrite_option a is_nsid EDNS0NSID (EDNS0_NSID EmptyString) revert r o)
  end.

Definition rewrite_local (a : edns_action) (code : Z) (data : list Z) (revert : bool) (r : Msg) : result go_fault Rewritten :=
  '(r, o) ← setupEdns0Opt r;
  match a with
  | Unset => Ok (with_options r o (unsetEdns0Option code (options o)), [], RewriteDone)
  | _ => Ok (rewrite_option a (is_local code) code (EDNS0_LOCAL code data) revert r o)
  end.

(** wire.go *)
Definition uint16ToWire (data : Z) : list Z := [data / 256 mod 256; data mod 256].

Definition ipToWire (family : Z) (ipAddr : string) : option (list Z) :=
  if decide (family = 1) then ParseIP ipAddr ≫= To4
  else if decide (family = 2) then ParseIP ipAddr ≫= To16
  else None.

Definition portToWire (portStr : string) : option (list Z) := uint16ToWire <$> ParseUint portStr 16.

Definition Port (w : Client) : string := match net_SplitHostPort (RemoteAddr w) with Some (_, p) => p | None => "0" end.
Definition LocalPort (c : Ctx) : string := match net_SplitHostPort (LocalAddr c) with Some (_, p) => p | None => "0" end.
Definition LocalIP (c : Ctx) : string := match net_SplitHostPort (LocalAddr c) with Some (ip, _) => ip | None => LocalAddr c end.

(** [None]: an error, or nil data. *)
Definition ruleData (c : Ctx) (variable : string) (r : Msg) : option (list Z) :=
  if decide (variable = "{qname}") then Some (bytes (QName_ r))
  else if decide (variable = "{qtype}") then Some (uint16ToWire (QType_ r))
  else if decide (variable = "{client_ip}") then ipToWire (Family (client c)) (IP (client c))
  else if decide (variable = "{server_ip}") then ipToWire (Family (client c)) (LocalIP c)
  else if decide (variable = "{client_port}") then portToWire (Port (client c))
  else if decide (variable = "{server_port}") then portToWire (LocalPort c)
  else if decide (variable = "{protocol}") then Some (bytes (Proto (client c)))
  else match metadata c (take_str (String.length variable - 2) (drop_str 1 variable)) with
       | Some value => if decide (value = EmptyString) then None else Some (bytes value)
       | None => None
       end.

(** A variable is not appended beside an option of its code. *)
Definition rewrite_variable (c : Ctx) (a : edns_action) (code : Z) (variable : string) (revert : bool) (r : Msg)
  : result go_fault Rewritten :=
  match ruleData c variable r with
  | None => Ok (r, [], RewriteIgnored)
  | Some data =>
      '(r, o) ← setupEdns0Opt r;
      match a, change_first (is_local code) (fun _ => EDNS0_LOCAL code data) (options o) with
      | (Append | Unset), Some _ => Ok (r, [], RewriteIgnored)
      | _, _ => Ok (rewrite_option a (is_local code) code (EDNS0_LOCAL code data) revert r o)
      end
  end.

(** [fillEcsData]; the family of a client is 1 or 2. *)
Definition fillEcsData (c : Ctx) (v4 v6 : Z) : EDNS0 :=
  let ip := default [] (ParseIP (IP (client c))) in
  if decide (Family (client c) = 1) then EDNS0_SUBNET 1 v4 0 (default [] (To4 (Mask ip (CIDRMask v4 4))))
  else EDNS0_SUBNET 2 v6 0 (default [] (To16 (Mask ip (CIDRMask v6 16)))).

Definition rewrite_subnet (c : Ctx) (a : edns_action) (v4 v6 : Z) (revert : bool) (r : Msg) : result go_fault Rewritten :=
  '(r, o) ← setupEdns0Opt r;
  match a, change_first is_subnet (fun _ => fillEcsData c v4 v6) (options o) with
  | Unset, _ => Ok (with_options r o (unsetEdns0Option EDNS0SUBNET (options o)), [], RewriteDone)
  | Append, Some _ => Ok (r, [], RewriteIgnored)
  | _, _ => Ok (rewrite_option a is_subnet EDNS0SUBNET (fillEcsData c v4 v6) revert r o)
  end.

(** [rule.Rewrite(ctx, state)] *)
Definition Rewrite (c : Ctx) (rule : Rule) (r : Msg) : result go_fault Rewritten :=
  match rule with
  | nameRule base m => rewrite_name base m r
  | ttlRule _ m lo hi => Ok (responseRule (matches_name m (Name_ r)) (ttlResponseRule lo hi) r)
  | rcodeRule _ m old new => Ok (responseRule (matches_name m (Name_ r)) (rcodeResponseRule old new) r)
  | cnameRule _ rule =>
      if decide (paramFromTarget rule <> EmptyString /\ paramToTarget rule <> EmptyString)
      then Ok (r, [cnameTargetResponseRule rule], RewriteDone) else Ok (r, [], RewriteIgnored)
  | classRule _ from to => rewrite_class from to r
  | typeRule _ from to => rewrite_type from to r
  | edns0NsidRule _ a revert => rewrite_nsid a revert r
  | edns0LocalRule _ a code data revert => rewrite_local a code data revert r
  | edns0VariableRule _ a code variable revert => rewrite_variable c a code variable revert r
  | edns0SubnetRule _ a v4 v6 revert => rewrite_subnet c a v4 v6 revert r
  end.

(** ** The handler (rewrite.go) *)

(** How the loop over the rules ends: with a name that is not one, at a rule
    that stops, or past the last rule. *)
Inductive ended : Type :=
| InvalidName (r : Msg)
| Stopped (r : Msg) (rules : list ResponseRule)
| PassedOn (r : Msg) (rules : list ResponseRule).

Fixpoint rules_loop (c : Ctx) (rs : list Rule) (r : Msg) (acc : list ResponseRule) : result go_fault ended :=
  match rs with
  | [] => Ok (PassedOn r acc)
  | rule :: rs' =>
      '(r, resp, res) ← Rewrite c rule r;
      match res with
      | RewriteIgnored => rules_loop c rs' r acc
      | RewriteDone =>
          match Question r with
          | [] => Err IndexOutOfRange
          | q :: _ =>
              if negb (IsDomainName (QName q)) then Ok (InvalidName r)
              else
                let acc := acc ++ resp in
                if decide (Mode rule = Stop) then Ok (Stopped r acc) else rules_loop c rs' r acc
          end
      end
  end.

Definition restore_question (r : Msg) (q : Question_) : Msg :=
  set_question r (match Question r with [] => [] | _ :: qs => q :: qs end).

(** The message written, the code returned unless there was a panic, and the
    request as it is then, which the server sees. *)
Record outcome := mkOutcome { wrote : option Msg; returned : result go_fault Z; request : Msg }.

(** What the rest of the chain writes goes through the reverter. *)
Definition through (wr : ResponseReverter) (r : Msg) (served : option Msg * result go_fault Z) : outcome :=
  match served with
  | (None, res) => mkOutcome None res r
  | (Some m, res) =>
      match Reverter_WriteMsg wr r m with
      | Ok (m', r') => mkOutcome (Some m') res r'
      | Err f => mkOutcome None (Err f) r
      end
  end.

Variable SupportedOption : Z -> bool.

(** The reply the plugin makes itself when the rest of the chain wrote
    none. *)
Definition declined (wr : ResponseReverter) (o : outcome) (rc : Z) : outcome :=
  let res := SizeAndDo SupportedOption (request o) (SetRcode (request o) rc) in
  match Reverter_WriteMsg wr (request o) res with
  | Ok (m', r') => mkOutcome (Some m') (Ok RcodeSuccess) r'
  | Err f => mkOutcome (wrote o) (Err f) (request o)
  end.

Definition rewrite_ServeDNS (c : Ctx) (p : revertPolicy) (rs : list Rule) (next : option Chain) (r : Msg) : outcome :=
  let serve r := match next with Some n => n r | None => (None, Ok RcodeServerFailure) end in
  let unwrapped r := mkOutcome (serve r).1 (serve r).2 r in
  match Question r with
  | [] => mkOutcome None (Err IndexOutOfRange) r
  | q :: _ =>
      match rules_loop c rs r [] with
      | Err f => mkOutcome None (Err f) r
      | Ok (InvalidName r') => mkOutcome None (Ok RcodeServerFailure) (restore_question r' q)
      | Ok (Stopped r' rules) =>
          if negb (DoRevert p) then unwrapped r'
          else
            let wr := mkReverter q rules p in
            let o := through wr r' (serve r') in
            match returned o with
            | Ok rc => if ClientWrite rc then o else declined wr o rc
            | Err _ => o
            end
      | Ok (PassedOn r' rules) =>
          if negb (DoRevert p) || bool_decide (rules = []) then unwrapped r'
          else through (mkReverter q rules p) r' (serve r')
      end
  end.

End rules.
