(* ===== verification/RewriteParse.v ===== *)
(** * The rules of the rewrite plugin from the words of a Corefile

    [newRule] of plugin/rewrite/rewrite.go and the constructors it calls
    (name.go, ttl.go, rcode.go, class.go, type.go, cname_target.go,
    edns0.go).  [None] stands for an error. *)

From Stdlib Require Import Ascii ZArith Lia.
From stdpp Require Import base numbers gmap strings list.
From S2P Require Import Prelude DnsTypes DnsLib Ip GoStrings Serve Http Xfer Server Rewrite.

Local Open Scope Z_scope.

Section parse.
Context {R : RewriteLib} {L : DnsLib}.

Definition maxRegexpLen : Z := 10000.

Definition hasClosingDot (s : string) : bool := HasSuffix s dot.
Definition closed (s : string) : string := if hasClosingDot s then s else s +:+ dot.

Definition getSubExprUsage (s : string) : nat :=
  length (filter (fun i => Contains s ("{" +:+ Itoa i +:+ "}") = true) (Z.of_nat <$> seq 0 101)).

Definition isValidRegexPattern (rewriteFrom rewriteTo : string) : option Regexp :=
  if decide (maxRegexpLen < Z.of_nat (String.length rewriteFrom)) then None
  else match Compile rewriteFrom with
       | None => None
       | Some p => if decide (NumSubexp p < getSubExprUsage rewriteTo)%nat then None else Some p
       end.

(** ** Name rules *)

(** The loop of [parseAnswerRules] over the words that are left: is there an
    automatic rule, how many name rules, and the rules. *)
Fixpoint answer_loop (args : list string) (last : string) (auto : bool) (nameRules : nat) (rules : list ResponseRule)
  : option (bool * nat * list ResponseRule) :=
  match args with
  | [] => Some (auto, nameRules, rules)
  | a :: rest =>
      if decide (last = EmptyString /\ a <> "answer") then None
      else match (if decide (a = "answer") then rest else args) with
           | [] => None
           | t :: rest' =>
               if decide (t = "auto") then answer_loop rest' t true nameRules rules
               else if decide (t = "name") then
                 match rest' with
                 | from :: to :: rest'' =>
                     p ← isValidRegexPattern from to;
                     answer_loop rest'' t auto (S nameRules)
                       (rules ++ [nameRewriterResponseRule (regexStringRewriter p (Normalize to))])
                 | _ => None
                 end
               else if decide (t = "value") then
                 match rest' with
                 | from :: to :: rest'' =>
                     p ← isValidRegexPattern from to;
                     answer_loop rest'' t auto nameRules
                       (rules ++ [valueRewriterResponseRule (regexStringRewriter p (Normalize to))])
                 | _ => None
                 end
               else None
           end
  end.

Definition parseAnswerRules (args : list string) : option (bool * list ResponseRule) :=
  if decide (length args < 2)%nat then None
  else
    '(auto, nameRules, rules) ← answer_loop args EmptyString false 0 [];
    if (auto : bool) && bool_decide (0 < nameRules)%nat then None else Some (auto, rules).

(** A suffix rule reverts by the suffixes in the opposite order. *)
Definition newSuffixNameRule (a : mode) (auto : bool) (suffix replacement : string) (answers : list ResponseRule) : Rule :=
  let rewriter := suffixStringRewriter replacement suffix in
  let rules := if auto then [nameRewriterResponseRule rewriter; valueRewriterResponseRule rewriter] else [] in
  nameRule (mkNameRule a false replacement (rules ++ answers)) (SuffixMatch suffix).

Definition newNameRule (a : mode) (args : list string) : option Rule :=
  match args with
  | x :: y :: rest =>
      let matchType := match rest with [] => "exact" | _ => ToLower x end in
      let from := match rest with [] => Normalize x | _ => if decide (matchType = "regex") then y else Normalize y end in
      let to := match rest with
                | [] => Normalize y
                | z :: _ => if decide (matchType = "regex") then z else Normalize z
                end in
      let dots := bool_decide (matchType = "exact" \/ matchType = "suffix") in
      let from := if dots then closed from else from in
      let to := if dots then closed to else to in
      '(auto, answers) ← (match rest with
                          | _ :: ((_ :: _) as ans) => parseAnswerRules ans
                          | _ => Some (false, [])
                          end);
      if decide (matchType = "exact") then
        _ ← isValidRegexPattern to from;
        Some (nameRule (mkNameRule a true to answers) (ExactMatch from))
      else if decide (matchType = "prefix") then Some (nameRule (mkNameRule a auto to answers) (PrefixMatch from))
      else if decide (matchType = "suffix") then Some (newSuffixNameRule a auto from to answers)
      else if decide (matchType = "substring") then Some (nameRule (mkNameRule a auto to answers) (SubstringMatch from))
      else if decide (matchType = "regex") then
        p ← isValidRegexPattern from to;
        Some (nameRule (mkNameRule a auto (Normalize to) answers) (RegexMatch p))
      else None
  | _ => None
  end.

(** ** Rules that match a name: ttl and rcode *)

Definition newMatcher (matchType name : string) : option matcher :=
  let matchType := ToLower matchType in
  if decide (matchType = "exact") then Some (ExactMatch (Normalize name))
  else if decide (matchType = "prefix") then Some (PrefixMatch (Normalize name))
  else if decide (matchType = "suffix") then Some (SuffixMatch (Normalize name))
  else if decide (matchType = "substring") then Some (SubstringMatch (Normalize name))
  else if decide (matchType = "regex") then
    if decide (maxRegexpLen < Z.of_nat (String.length name)) then None else RegexMatch <$> Compile name
  else None.

Definition isValidTTL (v : string) : option (Z * Z) :=
  match Split v "-"%char with
  | [s] => i ← ParseUint s 32; Some (i, i)
  | [s0; s1] =>
      lo ← (if decide (s0 = EmptyString) then Some 0 else ParseUint s0 32);
      hi ← (if decide (s1 = EmptyString) then if decide (s0 = EmptyString) then None else Some 2147483647
            else ParseUint s1 32);
      if decide (hi < lo) then None else Some (lo, hi)
  | _ => None
  end.

Definition newTTLRule (a : mode) (args : list string) : option Rule :=
  match args with
  | [name; s] => '(lo, hi) ← isValidTTL s; Some (ttlRule a (ExactMatch (Normalize name)) lo hi)
  | [matchType; name; s] => '(lo, hi) ← isValidTTL s; m ← newMatcher matchType name; Some (ttlRule a m lo hi)
  | _ => None
  end.

Definition isValidRCode (v : string) : option Z :=
  match ParseUint v 32 with
  | Some i => if decide (i <= 23) then Some i else StringToRcode (ToUpper v)
  | None => StringToRcode (ToUpper v)
  end.

Definition newRCodeRule (a : mode) (args : list string) : option Rule :=
  match args with
  | [name; o; n] =>
      old ← isValidRCode o; new ← isValidRCode n; Some (rcodeRule a (ExactMatch (Normalize name)) old new)
  | [matchType; name; o; n] =>
      old ← isValidRCode o; new ← isValidRCode n; m ← newMatcher matchType name; Some (rcodeRule a m old new)
  | _ => None
  end.

(** ** CNAME targets, classes and types *)

Definition newCNAMERule (a : mode) (args : list string) : option Rule :=
  '(t, from, to) ← (match args with
                    | [t; from; to] => Some (ToLower t, ToLower from, ToLower to)
                    | [from; to] => Some ("exact", ToLower from, ToLower to)
                    | _ => None
                    end);
  m ← (if decide (t = "exact") then Some (ExactMatch from)
       else if decide (t = "prefix") then Some (PrefixMatch from)
       else if decide (t = "suffix") then Some (SuffixMatch from)
       else if decide (t = "substring") then Some (SubstringMatch from)
       else if decide (t = "regex") then
         if decide (maxRegexpLen < Z.of_nat (String.length from)) then None else RegexMatch <$> Compile from
       else None);
  Some (cnameRule a (mkCname m from to)).

Definition newClassRule (a : mode) (args : list string) : option Rule :=
  match args with
  | f :: t :: _ => from ← StringToClass (ToUpper f); to ← StringToClass (ToUpper t); Some (classRule a from to)
  | _ => None
  end.

Definition newTypeRule (a : mode) (args : list string) : option Rule :=
  match args with
  | f :: t :: _ => from ← StringToType (ToUpper f); to ← StringToType (ToUpper t); Some (typeRule a from to)
  | _ => None
  end.

(** ** EDNS0 rules, with the option codes the server is told to support *)

Definition newEdns0LocalRule (m : mode) (a : edns_action) (code data : string) (revert : bool) : option (Rule * list Z) :=
  c ← ParseUint0 code 16;
  decoded ← (if HasPrefix data "0x" then hex_DecodeString (drop_str 2 data) else Some (bytes data));
  Some (edns0LocalRule m a c decoded revert, [c]).

(** metadata.IsLabel *)
Definition IsLabel (label : string) : bool :=
  match IndexByte label "/" with
  | None => false
  | Some p => negb (bool_decide (p = 0)%nat) && negb (bool_decide (String.length label - 1 <= p)%nat)
  end.

Definition isValidVariable (variable : string) : bool :=
  bool_decide (variable ∈ ["{qname}"; "{qtype}"; "{client_ip}"; "{client_port}"; "{protocol}"; "{server_ip}"; "{server_port}"])
  || (HasPrefix variable "{" && HasSuffix variable "}"
      && IsLabel (take_str (String.length variable - 2) (drop_str 1 variable))).

Definition newEdns0VariableRule (m : mode) (a : edns_action) (code variable : string) (revert : bool) : option (Rule * list Z) :=
  c ← ParseUint0 code 16;
  if isValidVariable variable then Some (edns0VariableRule m a c variable revert, [c]) else None.

Definition newEdns0SubnetRule (m : mode) (a : edns_action) (v4BitMaskLen v6BitMaskLen : string) (revert : bool)
  : option (Rule * list Z) :=
  v4 ← ParseUint0 v4BitMaskLen 16;
  if decide (32 < v4) then None
  else
    v6 ← ParseUint0 v6BitMaskLen 16;
    if decide (128 < v6) then None else Some (edns0SubnetRule m a v4 v6 revert, []).

Definition newEdns0UnsetRule (m : mode) (ruleType : string) (args : list string) : option (Rule * list Z) :=
  if decide (ruleType = "local") then
    match args with [_; _; code] => newEdns0LocalRule m Unset code EmptyString false | _ => None end
  else if decide (ruleType = "nsid") then
    match args with [_; _] => Some (edns0NsidRule m Unset false, []) | _ => None end
  else if decide (ruleType = "subnet") then
    match args with [_; _] => Some (edns0SubnetRule m Unset 0 0 false, []) | _ => None end
  else None.

Definition edns0_rule (m : mode) (a : edns_action) (ruleType : string) (args : list string) : option (Rule * list Z) :=
  let revert := bool_decide (last args = Some "revert") in
  let args := if revert then removelast args else args in
  if decide (ruleType = "local") then
    match args with
    | [_; _; code; data] =>
        if HasPrefix data "{" && HasSuffix data "}" then newEdns0VariableRule m a code data revert
        else newEdns0LocalRule m a code data revert
    | _ => None
    end
  else if decide (ruleType = "nsid") then
    match args with [_; _] => Some (edns0NsidRule m a revert, []) | _ => None end
  else if decide (ruleType = "subnet") then
    match args with [_; _; v4; v6] => newEdns0SubnetRule m a v4 v6 revert | _ => None end
  else None.

Definition newEdns0Rule (m : mode) (args : list string) : option (Rule * list Z) :=
  match args with
  | x :: y :: _ =>
      let ruleType := ToLower x in
      let action := ToLower y in
      if decide (action = "append") then edns0_rule m Append ruleType args
      else if decide (action = "replace") then edns0_rule m Replace ruleType args
      else if decide (action = "set") then edns0_rule m Set_ ruleType args
      else if decide (action = "unset") then newEdns0UnsetRule m ruleType args
      else None
  | _ => None
  end.

(** ** [newRule] *)

Definition rule_of (m : mode) (ruleType : string) (args : list string) : option (Rule * list Z) :=
  let plain (o : option Rule) := o ≫= fun r => Some (r, []) in
  if decide (ruleType = "name") then plain (newNameRule m args)
  else if decide (ruleType = "class") then if decide (length args = 2%nat) then plain (newClassRule m args) else None
  else if decide (ruleType = "type") then if decide (length args = 2%nat) then plain (newTypeRule m args) else None
  else if decide (ruleType = "edns0") then newEdns0Rule m args
  else if decide (ruleType = "ttl") then plain (newTTLRule m args)
  else if decide (ruleType = "cname") then plain (newCNAMERule m args)
  else if decide (ruleType = "rcode") then plain (newRCodeRule m args)
  else None.

Definition newRule (args : list string) : option (Rule * list Z) :=
  match args with
  | [] => None
  | a :: rest =>
      let arg0 := ToLower a in
      if decide (arg0 = "continue") then match rest with t :: args => rule_of Continue (ToLower t) args | [] => None end
      else if decide (arg0 = "stop") then match rest with t :: args => rule_of Stop (ToLower t) args | [] => None end
      else rule_of Stop arg0 rest
  end.

End parse.
