(* ===== verification/RewriteFacts.v ===== *)
(** * Properties of the rewrite plugin

    The reply to a rewritten request carries the client's question and its
    names are mapped back, through any sequence of rules; what the words of a
    rule allow; and where the code falls short: a rule that continues leaves
    the rewritten question in the reply, and reverting an option panics on a
    reply without an OPT record. *)

From Stdlib Require Import Ascii ZArith Lia.
From stdpp Require Import base numbers gmap strings list.
From S2P Require Import Prelude DnsTypes DnsLib Ip GoStrings Serve Http Xfer Server ServerFacts Rewrite RewriteParse.

Local Open Scope Z_scope.

Section facts.
Context {R : RewriteLib} {L : DnsLib} {OP : DnsOpt}.
Implicit Types (res : response) (rules : list ResponseRule) (r m : Msg) (rs : list Rule).

(** ** The writer *)

Definition not_cname (rule : ResponseRule) : Prop := match rule with cnameTargetResponseRule _ => False | _ => True end.

(** What the name rules among response rules make of a name: the last rule is
    applied first. *)
Definition rename_by (rule : ResponseRule) (n : string) : string :=
  match rule with nameRewriterResponseRule s => rewriteString s n | _ => n end.
Definition rename rules (n : string) : string := foldr rename_by n rules.

Lemma rename_app a b n : rename (a ++ b) n = rename a (rename b n).
Proof. apply foldr_app. Qed.

(** A response with the same sections and question. *)
Definition same_shape res res' : Prop :=
  ns res' = ns res /\ answer res' = answer res /\ extra res' = extra res /\ Question (head res') = Question (head res) /\
  length (heap res') = length (heap res).

Lemma same_shape_refl res : same_shape res res.
Proof. by split_and!. Qed.
Lemma same_shape_trans a b c : same_shape a b -> same_shape b c -> same_shape a c.
Proof. unfold same_shape. intros (?&?&?&?&?) (?&?&?&?&?). split_and!; congruence. Qed.

Definition names res : list string := rr_name <$> heap res.

Lemma write_rr_shape res i rr : same_shape res (write_rr res i rr).
Proof. split_and!; try done. apply length_insert. Qed.

Lemma write_rr_names res i rr rr' :
  heap res !! i = Some rr -> names (write_rr res i rr') = <[i := rr_name rr']> (names res).
Proof. intros _. unfold names, write_rr, set_heap. simpl. apply list_fmap_insert. Qed.

Lemma write_rr_same_name res i rr rr' :
  heap res !! i = Some rr -> rr_name rr' = rr_name rr -> names (write_rr res i rr') = names res.
Proof.
  intros Hi Hn. rewrite (write_rr_names _ _ _ _ Hi), Hn. apply list_insert_id. unfold names. rewrite list_lookup_fmap, Hi. done.
Qed.

Lemma change_options_spec f res res' :
  change_options f res = Ok res' -> same_shape res res' /\ names res' = names res.
Proof.
  unfold change_options. destruct (opt_address res) as [i|]; [|done]. destruct (heap res !! i) as [o|] eqn:E; [|done].
  intros [= <-]. split; [apply write_rr_shape|]. by eapply write_rr_same_name.
Qed.

Lemma alter_same i (l : list string) f : (forall n, f n = n) -> alter f i l = l.
Proof.
  intros Hf. apply list_eq. intros j. destruct (decide (i = j)) as [<-|Hj];
    [rewrite list_lookup_alter_eq; destruct (l !! i); simpl; by rewrite ?Hf|by rewrite list_lookup_alter_ne].
Qed.

Lemma alter_alter i (l : list string) f g h : (forall n, h n = f (g n)) -> alter f i (alter g i l) = alter h i l.
Proof.
  intros Hh. apply list_eq. intros j. destruct (decide (i = j)) as [<-|Hj].
  - rewrite !list_lookup_alter_eq. destruct (l !! i); simpl; by rewrite ?Hh.
  - by rewrite !list_lookup_alter_ne.
Qed.

Lemma RewriteResponse_spec rule res res' i :
  not_cname rule -> RewriteResponse rule res i = Ok res' ->
  same_shape res res' /\ names res' = alter (rename_by rule) i (names res).
Proof.
  intros Hc. unfold RewriteResponse. destruct (heap res !! i) as [rr|] eqn:E; [|done].
  assert (names res !! i = Some (rr_name rr)) as Hn by (unfold names; by rewrite list_lookup_fmap, E).
  pose proof (alter_same i (names res)) as Hid.
  destruct rule as [s|s|lo hi|old new|c|code|code src]; try done.
  - intros [= <-]. split; [apply write_rr_shape|]. rewrite (write_rr_names _ _ rr) by done.
    apply list_eq. intros j. destruct (decide (i = j)) as [<-|Hj].
    + rewrite list_lookup_alter_eq, Hn, list_lookup_insert_eq; [done|]. by eapply lookup_lt_Some.
    + by rewrite list_lookup_alter_ne, list_lookup_insert_ne.
  - intros H. destruct (getRecordValueForRewrite rr) as [v|]; [|done]. cbn [mbind result_bind] in H. repeat case_decide; simplify_eq.
    + split; [apply same_shape_refl|by rewrite Hid].
    + split; [apply same_shape_refl|by rewrite Hid].
    + split; [apply write_rr_shape|]. rewrite Hid by done. by eapply write_rr_same_name.
  - intros [= <-]. split; [apply write_rr_shape|]. rewrite Hid by done. by eapply write_rr_same_name.
  - case_decide; intros [= <-]; rewrite Hid by done; by split.
  - intros H%change_options_spec. by rewrite Hid.
  - intros H%change_options_spec. by rewrite Hid.
Qed.

Lemma rewrite_record_spec rules res res' i :
  Forall not_cname rules -> rewrite_record rules res i = Ok res' ->
  same_shape res res' /\ names res' = alter (rename (reverse rules)) i (names res).
Proof.
  intros HF. revert res. induction HF as [|rule rules Hr HF IH]; intros res; cbn [rewrite_record].
  - intros [= <-]. split; [apply same_shape_refl|]. by rewrite alter_same.
  - intros (res1 & H1 & H2)%bind_ok_inv. apply RewriteResponse_spec in H1 as [Hs1 Hn1]; [|done].
    apply IH in H2 as [Hs2 Hn2]. split; [by eapply same_shape_trans|]. rewrite Hn2, Hn1, reverse_cons.
    apply alter_alter. intros n. by rewrite rename_app.
Qed.

Lemma rewrite_section_spec rules l res res' :
  Forall not_cname rules -> NoDup l -> rewrite_section rules l res = Ok res' ->
  same_shape res res' /\
  forall j, names res' !! j = (if decide (j ∈ l) then rename rules <$> names res !! j else names res !! j).
Proof.
  intros HF Hl. revert res. induction Hl as [|i l Hi Hl IH]; intros res; cbn [rewrite_section].
  - intros [= <-]. split; [apply same_shape_refl|]. intros j. by rewrite decide_False by (by apply not_elem_of_nil).
  - intros (res1 & H1 & H2)%bind_ok_inv. unfold rewriteResourceRecord in H1.
    apply rewrite_record_spec in H1 as [Hs1 Hn1]; [|by apply Forall_reverse]. rewrite reverse_involutive in Hn1.
    apply IH in H2 as [Hs2 Hn2]. split; [by eapply same_shape_trans|]. intros j. rewrite Hn2, Hn1.
    destruct (decide (i = j)) as [<-|Hj].
    + rewrite decide_False by done. rewrite decide_True by (by left). apply list_lookup_alter_eq.
    + rewrite list_lookup_alter_ne by done. destruct (decide (j ∈ l)) as [Hin|Hin].
      * by rewrite decide_True by (by right).
      * rewrite decide_False; [done|]. rewrite elem_of_cons. intros [->|]; done.
Qed.

Lemma section_names res l : rr_name <$> section_of res l = omap (fun i => names res !! i) l.
Proof.
  unfold section_of. induction l as [|i l IH]; [done|]. cbn [omap list_omap]. unfold names at 1. rewrite list_lookup_fmap.
  destruct (heap res !! i); [cbn [fmap option_fmap option_map]; rewrite <-IH; done|exact IH].
Qed.

Lemma omap_seq_middle {A} (pre mid post : list A) :
  omap (fun i => (pre ++ mid ++ post) !! i) (seq (length pre) (length mid)) = mid.
Proof.
  revert pre. induction mid as [|x mid IH]; intros pre; [done|]. cbn [length seq omap list_omap].
  change ((x :: mid) ++ post) with (x :: (mid ++ post)). rewrite list_lookup_middle by done. f_equal.
  specialize (IH (pre ++ [x])). rewrite length_app, <-!app_assoc in IH. simpl in IH.
  by rewrite Nat.add_1_r in IH.
Qed.

(** The records of a copy are those of the message. *)
Lemma Copy_sections r m (f : RR -> string) :
  omap (fun i => (f <$> heap (Copy r m)) !! i) (ns (Copy r m)) = f <$> Ns_ m /\
  omap (fun i => (f <$> heap (Copy r m)) !! i) (answer (Copy r m)) = f <$> Answer m /\
  omap (fun i => (f <$> heap (Copy r m)) !! i) (extra (Copy r m)) = f <$> Extra m.
Proof.
  unfold Copy. cbn [heap ns answer extra]. rewrite !fmap_app. split_and!.
  - pose proof (omap_seq_middle [] (f <$> Ns_ m) ((f <$> Answer m) ++ (f <$> Extra m))) as H. by rewrite length_fmap in H.
  - pose proof (omap_seq_middle (f <$> Ns_ m) (f <$> Answer m) (f <$> Extra m)) as H. by rewrite !length_fmap in H.
  - pose proof (omap_seq_middle ((f <$> Ns_ m) ++ (f <$> Answer m)) (f <$> Extra m) []) as H.
    rewrite length_app, !length_fmap, app_nil_r, <-app_assoc in H. done.
Qed.

Lemma omap_fmap_lookup (g : string -> string) (l : list string) (is_ : list nat) :
  omap (fun i => (g <$> l) !! i) is_ = g <$> omap (fun i => l !! i) is_.
Proof.
  induction is_ as [|i is_ IH]; [done|]. cbn [omap list_omap]. rewrite list_lookup_fmap. destruct (l !! i); [cbn [fmap option_fmap option_map]; rewrite IH; done|exact IH].
Qed.

(** The three passes together rename every record once. *)
Lemma passes_names r m rules res1 res2 res3 :
  Forall not_cname rules ->
  rewrite_section rules (ns (Copy r m)) (Copy r m) = Ok res1 ->
  rewrite_section rules (answer res1) res1 = Ok res2 ->
  rewrite_section rules (extra res2) res2 = Ok res3 ->
  same_shape (Copy r m) res3 /\ names res3 = rename rules <$> names (Copy r m).
Proof.
  intros HF H1 H2 H3. set (c := Copy r m) in *.
  apply rewrite_section_spec in H1 as [S1 N1]; [|done|apply NoDup_seq].
  destruct S1 as (En & Ea & Ee & Eq & El).
  apply rewrite_section_spec in H2 as [S2 N2]; [|done|rewrite Ea; apply NoDup_seq].
  assert (same_shape c res2) as S12 by (eapply same_shape_trans; [|exact S2]; by split_and!).
  apply rewrite_section_spec in H3 as [S3 N3]; [|done|destruct S12 as (_ & _ & -> & _); apply NoDup_seq].
  split; [by eapply same_shape_trans|]. apply list_eq. intros j. rewrite N3, N2, N1, list_lookup_fmap.
  destruct S12 as (_ & _ & -> & _). rewrite Ea.
  destruct (decide (j < length (heap c))%nat) as [Hj|Hj].
  - subst c. unfold Copy in Hj |- *. cbn [heap ns answer extra] in Hj |- *. rewrite !length_app in Hj.
    rewrite !(decide_ext _ _ _ _ (elem_of_seq _ _ _)). repeat case_decide; try lia; done.
  - assert (names c !! j = None) as -> by (apply lookup_ge_None; unfold names; rewrite length_fmap; lia).
    by repeat case_decide.
Qed.

(** What a writer does to the names of a reply and to its question. *)
Lemma Reverter_WriteMsg_spec wr r m m' r' :
  Forall not_cname (ResponseRules wr) -> Reverter_WriteMsg wr r m = Ok (m', r') ->
  rr_name <$> Answer m' = rename (ResponseRules wr) <$> (rr_name <$> Answer m) /\
  rr_name <$> Ns_ m' = rename (ResponseRules wr) <$> (rr_name <$> Ns_ m) /\
  rr_name <$> Extra m' = rename (ResponseRules wr) <$> (rr_name <$> Extra m).
Proof.
  intros HF H. unfold Reverter_WriteMsg in H. apply bind_ok_inv in H as (res0 & H0 & H). apply bind_ok_inv in H as (res & H1 & H).
  injection H as <- _.
  assert (exists m1, res0 = Copy r m1 /\ Answer m1 = Answer m /\ Ns_ m1 = Ns_ m /\ Extra m1 = Extra m) as (m1 & -> & <- & <- & <-).
  { destruct (DoQuestionRestore _); [destruct (Question m) as [|q qs]; [done|]|]; injection H0 as <-; by eexists. }
  assert (same_shape (Copy r m1) res /\ names res = rename (ResponseRules wr) <$> names (Copy r m1)) as [(En & Ea & Ee & _) N].
  { case_decide as HX.
    - injection H1 as <-. rewrite HX. split; [apply same_shape_refl|]. by rewrite list_fmap_id.
    - apply bind_ok_inv in H1 as (res1 & P1 & H1). apply bind_ok_inv in H1 as (res2 & P2 & P3). by eapply passes_names. }
  unfold content. cbn [Answer Ns_ Extra]. rewrite !section_names, N, En, Ea, Ee, !omap_fmap_lookup.
  destruct (Copy_sections r m1 rr_name) as (Hn & Ha & He). unfold names. by rewrite Hn, Ha, He.
Qed.

(** ** The question of a reply *)

Lemma RewriteResponse_question rule res res' i :
  RewriteResponse rule res i = Ok res' -> Question (head res') = Question (head res).
Proof.
  unfold RewriteResponse. destruct (heap res !! i) as [rr|] eqn:E; [|done].
  destruct rule as [s|s|lo hi|old new|c|code|code src].
  - by intros [= <-].
  - intros (v & _ & H)%bind_ok_inv. by repeat case_decide; simplify_eq.
  - by intros [= <-].
  - by case_decide; intros [= <-].
  - unfold rewrite_cname. rewrite E. destruct rr as [hd d]. destruct d; try by intros [= <-].
    case_decide; [by intros [= <-]|]. destruct (getFromAndToTarget c _) as [from to].
    case_decide; [by intros [= <-]|]. intros (r' & _ & HX)%bind_ok_inv. destruct (Lookup_up _ _ _) as [[up|]|]; [|by simplify_eq..].
    destruct (cname_prefix _ _ _ _) as [kept h]. by simplify_eq.
  - by intros [(_ & _ & _ & -> & _) _]%change_options_spec.
  - by intros [(_ & _ & _ & -> & _) _]%change_options_spec.
Qed.

Lemma rewrite_section_question rules l res res' :
  rewrite_section rules l res = Ok res' -> Question (head res') = Question (head res).
Proof.
  assert (forall rules i res res', rewrite_record rules res i = Ok res' -> Question (head res') = Question (head res)) as Hr.
  { clear. intros rules i. induction rules as [|rule rules IH]; intros res res'; cbn [rewrite_record]; [by intros [= <-]|].
    intros (res1 & H1 & H2)%bind_ok_inv. apply RewriteResponse_question in H1. by rewrite (IH _ _ H2). }
  revert res. induction l as [|i l IH]; intros res; cbn [rewrite_section]; [by intros [= <-]|].
  intros (res1 & H1 & H2)%bind_ok_inv. apply Hr in H1. by rewrite (IH _ H2).
Qed.

Lemma Reverter_question wr r m m' r' :
  DoQuestionRestore (policy wr) = true -> Reverter_WriteMsg wr r m = Ok (m', r') ->
  exists qs, Question m' = originalQuestion wr :: qs.
Proof.
  intros Hp. unfold Reverter_WriteMsg. rewrite Hp. destruct (Question m) as [|q qs]; [done|].
  cbn [mbind result_bind]. intros (res & H1 & H2)%bind_ok_inv. injection H2 as <- _. exists qs.
  change (Question (content res)) with (Question (head res)).
  case_decide; [by injection H1 as <-|].
  apply bind_ok_inv in H1 as (res1 & P1 & H1). apply bind_ok_inv in H1 as (res2 & P2 & P3).
  apply rewrite_section_question in P1, P2, P3. by rewrite P3, P2, P1.
Qed.

Lemma rules_loop_question c rs r acc e :
  rules_loop c rs r acc = Ok e ->
  match e with InvalidName r' | Stopped r' _ => Question r' <> [] | PassedOn _ _ => True end.
Proof.
  revert r acc. induction rs as [|rule rs IH]; intros r acc; cbn [rules_loop]; [by intros [= <-]|].
  intros (((r1 & resp) & res) & _ & H)%bind_ok_inv. destruct res; [by eapply IH|].
  destruct (Question r1) as [|q qs] eqn:Eq; [done|].
  destruct (negb _); [injection H as <-; by rewrite Eq|]. case_decide; [injection H as <-; by rewrite Eq|by eapply IH].
Qed.

Variable SupportedOption : Z -> bool.

(** The client gets its own question back.  With the default policy, over
    a chain that keeps the plugin protocol: once a rule that stops has
    applied, a reply is written, by the chain or by the plugin itself when the
    chain declined, and its question is the one the client asked, whatever
    was rewritten, unless the writer panics; after rules that continue, a
    reply the chain writes has the client's question as soon as one of them
    left a response rule; and a rewrite to something that is not a domain
    name is answered by the server, with the client's question. *)
Theorem rewrite_restores_question c p rs next r q qs :
  Question r = q :: qs -> DoRevert p = true -> DoQuestionRestore p = true -> opt_protocol next ->
  let o := rewrite_ServeDNS SupportedOption c p rs next r in
  match rules_loop c rs r [] with
  | Ok (Stopped _ _) =>
      match returned o with
      | Ok rc => ClientWrite rc = true /\ exists m qs', wrote o = Some m /\ Question m = q :: qs'
      | Err _ => wrote o = None
      end
  | Ok (PassedOn _ (_ :: _)) => forall m, wrote o = Some m -> exists qs', Question m = q :: qs'
  | Ok (InvalidName _) =>
      wrote o = None /\ returned o = Ok RcodeServerFailure /\ exists qs', Question (request o) = q :: qs'
  | _ => True
  end.
Proof.
  intros Hq Hr Hd Hn. unfold rewrite_ServeDNS. rewrite Hq. destruct (rules_loop c rs r []) as [e|] eqn:E; [|done].
  apply rules_loop_question in E. cbn zeta. destruct e as [r'|r' rules|r' [|rule rules]]; [| |done|].
  - split_and!; [done|done|]. unfold restore_question. cbn [request]. destruct (Question r') as [|q' qs']; [done|by eexists].
  - rewrite Hr. cbn [negb]. set (wr := mkReverter q rules p).
    set (served := match next with Some n => n r' | None => _ end).
    assert (match served with (m, Ok rc) => is_Some m <-> ClientWrite rc = true | (m, Err _) => m = None end) as Hp.
    { destruct next as [n|]; [apply (Hn r')|]. simpl. split; [by intros [? [=]]|done]. }
    destruct served as [[m|] [rc|f]]; [| |cbn [through returned]; destruct (ClientWrite rc) eqn:C|done].
    + cbn [through]. destruct (Reverter_WriteMsg wr r' m) as [[m' r1]|f] eqn:W; [|done]. cbn [returned wrote].
      assert (ClientWrite rc = true) as C by (apply Hp; by eexists). rewrite C. cbn [returned wrote]. split; [done|].
      apply Reverter_question in W as [qs' HQ]; [|done]. by eexists _, _.
    + done.
    + exfalso. destruct Hp as [_ Hp]. by destruct (Hp eq_refl).
    + unfold declined. cbn [request wrote]. destruct (Reverter_WriteMsg _ _ _) as [[m' r1]|f] eqn:W; [|done].
      cbn [returned wrote]. split; [done|]. apply Reverter_question in W as [qs' HQ]; [|done]. by eexists _, _.
  - rewrite Hr. cbn [negb orb]. rewrite bool_decide_eq_false_2 by done. intros m.
    destruct (match next with Some n => n r' | None => _ end) as [[m0|] res]; [|done]. cbn [through].
    destruct (Reverter_WriteMsg _ _ _) as [[m' r1]|f] eqn:W; [|done]. intros [= <-].
    by apply Reverter_question in W.
Qed.

(** ** The names of a reply *)

(** [SetEdns0] leaves the question alone. *)
Hypothesis SetEdns0_question : forall m size d, Question (SetEdns0 m size d) = Question m.

(** The rules that undo what they do to names: automatic name rules, and the
    rules that change no names. *)
Definition reverts (rule : Rule) : Prop :=
  match rule with
  | nameRule b _ => (auto b = true /\ static b = []) \/ exists a suf rep, rule = newSuffixNameRule a true suf rep []
  | cnameRule _ _ => False
  | _ => True
  end.

Definition qname r : string := match Question r with q :: _ => QName q | [] => dot end.

(** A name that is its own lower-case presentation. *)
Definition plain (n : string) : Prop := ToLower (NameString n) = n.

(** The names the rules rewrite to are plain. *)
Fixpoint plain_names (c : Ctx) rs r : Prop :=
  match rs with
  | [] => True
  | rule :: rs' =>
      match Rewrite c rule r with
      | Ok (r', _, RewriteDone) => match rule with nameRule _ _ => plain (qname r') | _ => True end /\ plain_names c rs' r'
      | Ok (r', _, RewriteIgnored) => plain_names c rs' r'
      | Err _ => True
      end
  end.

Lemma Name_qname r : Question r <> [] -> Name_ r = ToLower (NameString (qname r)).
Proof. unfold Name_, qname. by destruct (Question r). Qed.

(** Rules that leave the name alone: the new request has the same name, and
    their response rules rename nothing. *)
Definition keeps_name r (x : Rewritten) : Prop :=
  Question x.1.1 <> [] /\ qname x.1.1 = qname r /\ Forall not_cname x.1.2 /\ forall n, rename x.1.2 n = n.

Lemma setupEdns0Opt_question r r' o : setupEdns0Opt r = Ok (r', o) -> Question r' = Question r.
Proof.
  unfold setupEdns0Opt. destruct (IsEdns0 r); [by intros [= <- _]|].
  destruct (IsEdns0 (SetEdns0 r 4096 false)); [|done]. intros [= <- _]. apply SetEdns0_question.
Qed.

Lemma keeps_same r r' rules (x : Result) :
  Question r <> [] -> Question r' = Question r -> Forall not_cname rules -> (forall n, rename rules n = n) ->
  keeps_name r (r', rules, x).
Proof. intros H1 H2 H3 H4. unfold keeps_name, qname. simpl. rewrite H2. by split_and!. Qed.

Lemma rewrite_option_keeps a is_ code new rv r o r0 :
  Question r0 <> [] -> Question r = Question r0 -> keeps_name r0 (rewrite_option a is_ code new rv r o).
Proof.
  intros H1 H2. unfold rewrite_option.
  destruct (change_first _ _ _) as [[old l]|]; destruct a; try destruct rv; apply keeps_same; try done; by repeat constructor.
Qed.

Lemma Ok_inj {E A} (a b : A) : @Ok E A a = Ok b -> b = a.
Proof. by intros [= ->]. Qed.

Lemma Rewrite_keeps c rule r x :
  Question r <> [] -> (match rule with nameRule _ _ | cnameRule _ _ => False | _ => True end) ->
  Rewrite c rule r = Ok x -> keeps_name r x.
Proof.
  intros Hq Hrule H. destruct rule as [| | | |a from to|a from to|a e rv|a e code d rv|a e code v rv|a e v4 v6 rv]; try done; cbn [Rewrite] in H.
  - unfold responseRule in H. destruct (matches_name _ _); injection H as <-; apply keeps_same; try done; by repeat constructor.
  - unfold responseRule in H. destruct (matches_name _ _); injection H as <-; apply keeps_same; try done; by repeat constructor.
  - unfold rewrite_class in H. destruct (Question r) as [|q qs] eqn:E; [done|]. repeat case_decide; injection H as <-.
    + unfold keeps_name, qname. simpl. by rewrite E.
    + apply keeps_same; [by rewrite E|done..].
    + apply keeps_same; [by rewrite E|done..].
  - unfold rewrite_type in H. destruct (Question r) as [|q qs] eqn:E; [done|]. repeat case_decide; injection H as <-.
    + unfold keeps_name, qname. simpl. by rewrite E.
    + apply keeps_same; [by rewrite E|done..].
    + apply keeps_same; [by rewrite E|done..].
  - apply bind_ok_inv in H as ([r1 o] & H1 & H). apply setupEdns0Opt_question in H1.
    destruct e; apply Ok_inj in H as ->; try (by apply rewrite_option_keeps); by apply keeps_same.
  - apply bind_ok_inv in H as ([r1 o] & H1 & H). apply setupEdns0Opt_question in H1.
    destruct e; apply Ok_inj in H as ->; try (by apply rewrite_option_keeps); by apply keeps_same.
  - unfold rewrite_variable in H. destruct (ruleData c v r) as [data|]; [|injection H as <-; by apply keeps_same].
    apply bind_ok_inv in H as ([r1 o] & H1 & H). apply setupEdns0Opt_question in H1.
    destruct (change_first _ _ _) as [[old l]|]; destruct e; apply Ok_inj in H as ->; try (by apply rewrite_option_keeps); by apply keeps_same.
  - apply bind_ok_inv in H as ([r1 o] & H1 & H). apply setupEdns0Opt_question in H1.
    destruct (change_first _ _ _) as [[old l]|]; destruct e; apply Ok_inj in H as ->; try (by apply rewrite_option_keeps); by apply keeps_same.
Qed.

(** A name rule that reverts: its response rules map the new name to the
    name it rewrote. *)
Lemma rewrite_name_reverts b (m : matcher) r r' rules :
  Question r <> [] -> reverts (nameRule b m) -> rewrite_name b m r = Ok (r', rules, RewriteDone) ->
  Question r' <> [] /\ Forall not_cname rules /\ rename rules (qname r') = Name_ r.
Proof.
  intros Hq Hr. unfold rewrite_name. destruct (rewritten m (replacement b) (Name_ r)) as [n|] eqn:E; [|done].
  intros (r1 & H1 & H)%bind_ok_inv. injection H as <- <-. unfold set_first_name in H1.
  destruct (Question r) as [|q qs]; [done|]. injection H1 as <-. split; [done|]. unfold qname, responseRuleFor. simpl.
  destruct Hr as [[-> ->]|(a & suf & rep & Hb)]; simpl.
  - split; [by repeat constructor|]. by rewrite decide_True.
  - unfold newSuffixNameRule in Hb. injection Hb as -> ->. simpl in E |- *. split; [by repeat constructor|].
    destruct (CutSuffix (Name_ r) suf) as [before|] eqn:C; [|done]. injection E as <-.
    apply CutSuffix_Some in C. by rewrite (proj2 (CutSuffix_Some (before +:+ rep) rep before)).
Qed.

Lemma Rewrite_ignored c rule r r' rules :
  Rewrite c rule r = Ok (r', rules, RewriteIgnored) -> match rule with nameRule _ _ | cnameRule _ _ => r' = r | _ => True end.
Proof.
  destruct rule; try done; cbn [Rewrite]; [|case_decide; by intros [= <- _]].
  unfold rewrite_name. destruct (rewritten _ _ _); [by intros (? & _ & [=])%bind_ok_inv|by intros [= <- _]].
Qed.

(** Through the whole list of rules, the response rules map the final name
    back to the client's, as it was written or in lower case. *)
Lemma rules_loop_rename c rs r acc e :
  Forall reverts rs -> plain_names c rs r -> Question r <> [] -> rules_loop c rs r acc = Ok e ->
  match e with
  | InvalidName _ => True
  | Stopped r' rules | PassedOn r' rules =>
      exists resp, rules = acc ++ resp /\ Forall not_cname resp /\
        (rename resp (qname r') = qname r \/ rename resp (qname r') = Name_ r)
  end.
Proof.
  intros HF. revert r acc. induction HF as [|rule rs Hr HF IH]; intros r acc Hp Hq; cbn [rules_loop plain_names] in *.
  { intros [= <-]. exists []. rewrite app_nil_r. split_and!; auto. }
  intros (((r1 & resp1) & res) & E & H)%bind_ok_inv. rewrite E in Hp.
  assert ((match rule with nameRule _ _ => False | _ => True end -> keeps_name r (r1, resp1, res))) as Hk.
  { intros Hn. eapply Rewrite_keeps; [done| |exact E]. by destruct rule. }
  assert (forall resp2 r', (rename resp2 (qname r') = qname r1 \/ rename resp2 (qname r') = Name_ r1) -> res = RewriteDone ->
    (match rule with nameRule _ _ => plain (qname r1) | _ => True end) -> Question r1 <> [] /\ Forall not_cname resp1 /\
    (rename (resp1 ++ resp2) (qname r') = qname r \/ rename (resp1 ++ resp2) (qname r') = Name_ r)) as Hstep.
  { intros resp2 r' H2 -> Hpl. rewrite rename_app. destruct rule as [b m| | | | | | | | |]; try done.
    { destruct (rewrite_name_reverts b m r r1 resp1 Hq Hr E) as (Hq1 & Hc & Hn). split_and!; [done|done|].
      rewrite (Name_qname r1 Hq1), Hpl in H2. right. by destruct H2 as [-> | ->]. }
    all: destruct (Hk I) as (Hq1 & Hn & Hc & Hid); simpl in *; split_and!; [done|done|]; rewrite Hid;
        rewrite (Name_qname r1 Hq1), Hn, <-(Name_qname r Hq) in H2; exact H2. }
  destruct res.
  - assert (Question r1 <> [] /\ qname r1 = qname r) as [Hq1 Hn].
    { destruct rule; try (destruct (Hk I) as (? & ? & _); done). by apply Rewrite_ignored in E as ->. }
    specialize (IH r1 acc Hp Hq1 H). destruct e; [done|..]; destruct IH as (resp & ? & ? & HX); exists resp; split_and!; try done;
      by rewrite (Name_qname r1 Hq1), Hn, <-(Name_qname r Hq) in HX.
  - destruct Hp as [Hpl Hp]. destruct (Question r1) as [|q1 qs1] eqn:Eq; [done|]. destruct (negb _); [by injection H as <-|].
    case_decide.
    + injection H as <-. destruct (Hstep [] r1 (or_introl eq_refl) eq_refl Hpl) as (_ & Hc & HX). rewrite app_nil_r in HX.
      by exists resp1.
    + assert (Question r1 <> []) as Hq1 by (by rewrite Eq). specialize (IH r1 _ Hp Hq1 H).
      destruct e; [done|..]; destruct IH as (resp2 & -> & Hc2 & H2);
        destruct (Hstep resp2 _ H2 eq_refl Hpl) as (_ & Hc & HX); exists (resp1 ++ resp2);
        (split_and!; [by rewrite app_assoc|by apply Forall_app|done]).
Qed.

(** C13. Names are mapped back.  With the default policy and rules that revert
    (automatic name rules of every kind, suffix rules among them, mixed with
    rules that leave names alone), applied one after the other to a request,
    the owner names of the reply that reaches the client are those of the
    chain's reply under one mapping, and it maps the name the chain was asked
    for, the result of all the rewrites, to the client's name, as it was
    written or in lower case.  The names the rules rewrite to are in lower
    case and as the library prints them. *)
Theorem rewrite_reverts_names c p rs (next : Chain) r m rc m' :
  DoRevert p = true -> Forall reverts rs -> plain_names c rs r -> Question r <> [] ->
  match rules_loop c rs r [] with
  | Ok (Stopped r' _) | Ok (PassedOn r' _) =>
      next r' = (Some m, Ok rc) -> ClientWrite rc = true ->
      wrote (rewrite_ServeDNS SupportedOption c p rs (Some next) r) = Some m' ->
      exists back, (back (qname r') = qname r \/ back (qname r') = Name_ r) /\
        rr_name <$> Answer m' = back <$> (rr_name <$> Answer m) /\
        rr_name <$> Ns_ m' = back <$> (rr_name <$> Ns_ m) /\
        rr_name <$> Extra m' = back <$> (rr_name <$> Extra m)
  | _ => True
  end.
Proof.
  intros Hr HF Hp Hq. destruct (rules_loop c rs r []) as [e|] eqn:E; [|done].
  pose proof (rules_loop_rename c rs r [] e HF Hp Hq E) as Hren. unfold rewrite_ServeDNS.
  destruct (Question r) as [|q qs]; [done|]. rewrite E, Hr. cbn [negb orb]. cbn zeta.
  assert (forall r' rules, Forall not_cname rules -> next r' = (Some m, Ok rc) ->
    wrote (through (mkReverter q rules p) r' (next r')) = Some m' ->
    rr_name <$> Answer m' = rename rules <$> (rr_name <$> Answer m) /\
    rr_name <$> Ns_ m' = rename rules <$> (rr_name <$> Ns_ m) /\
    rr_name <$> Extra m' = rename rules <$> (rr_name <$> Extra m)) as Hw.
  { intros r' rules Hc Hn. rewrite Hn. cbn [through]. destruct (Reverter_WriteMsg _ _ _) as [[m1 r1]|] eqn:W; [|done].
    intros [= <-]. by apply Reverter_WriteMsg_spec in W. }
  destruct e as [r'|r' rules|r' rules]; [done|..]; destruct Hren as (resp & -> & Hc & HX); cbn [app]; intros Hn Hcw.
  - intros Hwr. exists (rename resp). split; [done|]. apply (Hw r' resp Hc Hn).
    rewrite Hn in Hwr |- *. cbn [through] in Hwr |- *. destruct (Reverter_WriteMsg _ _ _) as [[m1 r1]|]; [|done].
    cbn [returned] in Hwr. by rewrite Hcw in Hwr.
  - case_bool_decide as HN.
    + rewrite Hn. intros [= <-]. subst resp. exists id. split; [done|]. by rewrite !list_fmap_id.
    + intros Hwr. exists (rename resp). split; [done|]. by apply (Hw r' resp Hc Hn).
Qed.

(** ** Where the reply does not match *)

(** A rule that continues and leaves no response rule is not undone.  A
    type rule with [continue], as the last rule that applies, hands the
    client's own writer to the chain: what the chain replies reaches the
    client as it is, with the rewritten type in its question, where the same
    rule with [stop] restores it. *)
Theorem continue_unrestored c p from to (next : Chain) r q qs m :
  Question r = q :: qs -> Qtype q = from -> 0 < from -> 0 < to -> from <> to -> IsDomainName (QName q) = true ->
  let r' := set_question r (mkQ (QName q) to (Qclass q) :: qs) in
  next r' = (Some m, Ok RcodeSuccess) -> Question m = take 1 (Question r') ->
  wrote (rewrite_ServeDNS SupportedOption c p [typeRule Continue from to] (Some next) r) = Some m /\
  Question m <> take 1 (Question r).
Proof.
  intros Hq Ht Hf Hto Hne Hd r' Hn Hm. unfold rewrite_ServeDNS. rewrite Hq. cbn [rules_loop Rewrite].
  unfold rewrite_type, QType_. rewrite Hq, decide_True by done. rewrite decide_True by done. cbn [mbind result_bind Question set_question].
  cbn [QName]. rewrite Hd. cbn [negb app]. rewrite decide_False by done. cbn [rules_loop].
  rewrite bool_decide_eq_true_2, orb_true_r by done. fold r'. cbn [wrote]. rewrite Hn. split; [done|].
  rewrite Hm. subst r'. simpl. intros [= HX]. rewrite <-HX in Ht. simpl in Ht. congruence.
Qed.

Lemma content_Copy r m : content (Copy r m) = m.
Proof.
  unfold content, section_of. destruct m as [i re op au tr rd ra ad cd rc q an n ex].
  unfold Copy. cbn [head heap ns answer extra Id Response Opcode Authoritative Truncated RecursionDesired RecursionAvailable
    AuthenticatedData CheckingDisabled Rcode Question Answer Ns_ Extra].
  pose proof (omap_seq_middle [] n (an ++ ex)) as H1. pose proof (omap_seq_middle n an ex) as H2.
  pose proof (omap_seq_middle (n ++ an) ex []) as H3. rewrite length_app, app_nil_r, <-app_assoc in H3. simpl in H1.
  by rewrite H1, H2, H3.
Qed.

(** Undoing an option panics on a reply that has records but no OPT record,
    as the replies of the file and hanzodns plugins are. *)
Lemma edns_revert_panics wr r m rules code :
  DoQuestionRestore (policy wr) = false -> ResponseRules wr = rules ++ [edns0SetResponseRule code] ->
  IsEdns0 m = None -> Answer m <> [] -> Ns_ m = [] -> Reverter_WriteMsg wr r m = Err NilDeref.
Proof.
  intros Hp Hr He Ha Hn. unfold Reverter_WriteMsg. rewrite Hp, Hr. cbn [mbind result_bind].
  rewrite decide_False by (by destruct rules).
  assert (ns (Copy r m) = []) as -> by (unfold Copy; cbn [ns]; by rewrite Hn). cbn [rewrite_section mbind result_bind].
  assert (exists is_, answer (Copy r m) = 0%nat :: is_ /\ exists a, heap (Copy r m) !! 0%nat = Some a) as (is_ & -> & a & Ea).
  { unfold Copy. cbn [answer heap]. rewrite Hn. destruct (Answer m) as [|a l]; [done|]. simpl. eauto. }
  cbn [rewrite_section]. unfold rewriteResourceRecord. rewrite reverse_snoc. cbn [rewrite_record]. unfold RewriteResponse at 1.
  rewrite Ea. unfold change_options, opt_address. by rewrite content_Copy, He.
Qed.

(** ** TTL rules *)

Lemma clamp_bounds lo hi t : lo <= hi -> lo <= clamp lo hi t <= hi.
Proof. unfold clamp. repeat case_decide; lia. Qed.

(** The bounds a ttl rule is configured with are 32-bit numbers in order. *)
Lemma isValidTTL_bounds v lo hi : isValidTTL v = Some (lo, hi) -> 0 <= lo <= hi /\ hi < 2 ^ 32.
Proof.
  unfold isValidTTL. destruct (Split v "-"%char) as [|s0 [|s1 [|]]]; try done.
  - intros (i & Hi & H)%bind_Some. apply ParseUint_range in Hi. simplify_eq. lia.
  - intros (x & Hx & (y & Hy & H)%bind_Some)%bind_Some. case_decide; [done|]. simplify_eq.
    assert (0 <= lo < 2 ^ 32 /\ 0 <= hi < 2 ^ 32)
      by (repeat case_decide; simplify_eq; split; first [lia | eapply ParseUint_range; eassumption]).
    lia.
Qed.

End facts.

(** ** A site that rewrites *)

Module RewriteSample.
#[local] Existing Instances Plain.names PlainLib.lib PlainLib.lib_spec ServerSample.opt.

(** Literal patterns without groups, and a library of two types. *)
Definition literal : RewriteLib := {|
  Regexp := string;
  Compile := Some;
  FindStringSubmatch := fun p s => if decide (p = s) then [s] else [];
  NumSubexp := fun _ => 0%nat;
  IsDomainName := fun n => HasSuffix n dot;
  SetEdns0 := fun m size d =>
    set_Extra m (Extra m ++ [mkRR (mkHdr dot TypeOPT size (if d then 32768 else 0)) (ROPT [])]);
  StringToClass := fun s => if decide (s = "IN") then Some ClassINET else None;
  StringToType := fun s => if decide (s = "A") then Some TypeA else if decide (s = "AAAA") then Some TypeAAAA else None;
  StringToRcode := fun s => if decide (s = "NXDOMAIN") then Some RcodeNameError else None;
  Lookup_up := fun _ _ _ => Ok None |}.
#[local] Existing Instance literal.

Lemma literal_question (m : Msg) size d : Question (SetEdns0 m size d) = Question m.
Proof. reflexivity. Qed.

Definition ctx : Ctx := mkCtx ServerSample.asker "192.0.2.53:53" (fun _ => None).
Definition default_policy : revertPolicy := mkPolicy false false.

(** Two rules: a suffix, and then an exact name. *)
Definition words : list (list string) :=
  [["continue"; "name"; "suffix"; ".example.org"; ".internal.net"; "answer"; "auto"];
   ["name"; "www.internal.net"; "host.internal.net"]].
Definition rules : list Rule := Eval vm_compute in omap (fun ws => fst <$> newRule ws) words.

Example words_parse : (fun ws => fst <$> newRule ws) <$> words = Some <$> rules.
Proof. vm_compute. reflexivity. Qed.

Definition asking (n : string) (t : Z) : Msg := mkMsg 7 false 0 false false true false false false 0 [mkQ n t ClassINET] [] [] [].

(** A chain that answers every name with an address. *)
Definition answering : Chain := fun r =>
  let m := PlainLib.reply_to r in
  (Some (mkMsg (Id m) (Response m) (Opcode m) true (Truncated m) (RecursionDesired m) (RecursionAvailable m)
     (AuthenticatedData m) (CheckingDisabled m) (Rcode m) (Question m)
     [mkRR (mkHdr (qname r) TypeA ClassINET 60) (RA [192; 0; 2; 1])] [] []), Ok RcodeSuccess).

Lemma answering_protocol : protocol answering.
Proof. intros r. split; [reflexivity|by eexists]. Qed.

Definition client_query : Msg := asking "WWW.example.org." TypeA.
Definition none_supported (c : Z) : bool := false.

(** The rules, the rewritten name, and the name in the reply. *)
Example reverted :
  (fun o => (qname (request o), (fun m => (qname m, rr_name <$> Answer m)) <$> wrote o))
    (rewrite_ServeDNS none_supported ctx default_policy rules (Some answering) client_query)
  = ("host.internal.net.", Some ("WWW.example.org.", ["www.example.org."])).
Proof. vm_compute. reflexivity. Qed.

Lemma rewrite_restores_question_witness :
  let o := rewrite_ServeDNS none_supported ctx default_policy rules (Some answering) client_query in
  match rules_loop ctx rules client_query [] with
  | Ok (Stopped _ _) =>
      match returned o with
      | Ok rc => ClientWrite rc = true /\ exists m qs', wrote o = Some m /\ Question m = mkQ "WWW.example.org." TypeA ClassINET :: qs'
      | Err _ => wrote o = None
      end
  | Ok (PassedOn _ (_ :: _)) => forall m, wrote o = Some m -> exists qs', Question m = mkQ "WWW.example.org." TypeA ClassINET :: qs'
  | Ok (InvalidName _) =>
      wrote o = None /\ returned o = Ok RcodeServerFailure /\
      exists qs', Question (request o) = mkQ "WWW.example.org." TypeA ClassINET :: qs'
  | _ => True
  end.
Proof.
  exact (rewrite_restores_question none_supported ctx default_policy rules (Some answering) client_query
           (mkQ "WWW.example.org." TypeA ClassINET) [] eq_refl eq_refl eq_refl answering_protocol).
Defined.

Lemma rules_revert : Forall reverts rules.
Proof.
  apply Forall_cons_2; [right|apply Forall_cons_2; [left; split; reflexivity|apply Forall_nil_2]].
  exists Continue, ".example.org.", ".internal.net.". reflexivity.
Qed.

Definition rewritten_query : Msg := asking "host.internal.net." TypeA.

Lemma rules_plain : plain_names ctx rules client_query.
Proof. vm_compute. done. Qed.

Definition served : Msg := Eval vm_compute in default rewritten_query (answering rewritten_query).1.
Definition delivered : Msg := Eval vm_compute in
  default client_query (wrote (rewrite_ServeDNS none_supported ctx default_policy rules (Some answering) client_query)).

Lemma loop_stops : exists resp, rules_loop ctx rules client_query [] = Ok (Stopped rewritten_query resp).
Proof. eexists. vm_compute. reflexivity. Qed.

Lemma rewrite_reverts_names_witness :
  exists back, (back (qname rewritten_query) = qname client_query \/ back (qname rewritten_query) = Name_ client_query) /\
    rr_name <$> Answer delivered = back <$> (rr_name <$> Answer served) /\
    rr_name <$> Ns_ delivered = back <$> (rr_name <$> Ns_ served) /\
    rr_name <$> Extra delivered = back <$> (rr_name <$> Extra served).
Proof.
  destruct loop_stops as [resp E].
  pose proof (rewrite_reverts_names none_supported literal_question ctx default_policy rules answering client_query
                served RcodeSuccess delivered eq_refl rules_revert rules_plain ltac:(discriminate)) as T.
  rewrite E in T. apply T; vm_compute; reflexivity.
Defined.

Lemma continue_unrestored_witness :
  let r' := asking "www.example.org." TypeAAAA in
  wrote (rewrite_ServeDNS none_supported ctx default_policy [typeRule Continue TypeA TypeAAAA] (Some answering)
           (asking "www.example.org." TypeA)) = (answering r').1 /\
  Question (default r' (answering r').1) <> take 1 (Question (asking "www.example.org." TypeA)).
Proof.
  apply (continue_unrestored none_supported ctx default_policy TypeA TypeAAAA answering
           (asking "www.example.org." TypeA) (mkQ "www.example.org." TypeA ClassINET) []);
    first [reflexivity | discriminate].
Defined.

(** The reverted option of a reply without an OPT record. *)
Example revert_option_panics :
  returned (rewrite_ServeDNS none_supported ctx default_policy
    (omap (fun ws => fst <$> newRule ws) [["edns0"; "local"; "set"; "0xffee"; "0x61"; "revert"]]) (Some answering) client_query)
  = Err NilDeref.
Proof. vm_compute. reflexivity. Qed.

End RewriteSample.
