(* ===== verification/Backend.v ===== *)
(** * Service back ends (plugin/backend.go, plugin/backend_lookup.go)

    The lookups shared by the plugins that find services in a store: the
    records of each type from a list of services, following CNAME records
    inside the zone and asking elsewhere for names outside it.  Services and
    the keys they are stored under are those of plugin/etcd/msg. *)

From Stdlib Require Import Ascii ZArith Lia SpecFloat.
From stdpp Require Import base numbers gmap strings list.
From S2P Require Import Prelude DnsTypes DnsLib Ip GoStrings Http Serve Xfer FileZone Server.

Local Open Scope Z_scope.

(** ** Services (plugin/etcd/msg/service.go, type.go) *)

Record Service := mkService {
  Host : string;
  Port : Z;
  Priority : Z;
  Weight : Z;
  Text : string;
  Mail : bool;
  TTL : Z;
  TargetStrip : Z;
  Group_ : string;
  Key : string }.

#[export] Instance Service_eq_dec : EqDecision Service.
Proof. solve_decision. Defined.

Definition set_Host (s : Service) (h : string) : Service :=
  mkService h (Port s) (Priority s) (Weight s) (Text s) (Mail s) (TTL s) (TargetStrip s) (Group_ s) (Key s).

(** The types [HostType] tells apart, with the address. *)
Definition HostType (s : Service) : Z * list Z :=
  match ParseIP (Host s) with
  | None => if decide (Text s = EmptyString) then (TypeCNAME, []) else (TypeTXT, [])
  | Some ip => match To4 ip with Some v4 => (TypeA, v4) | None => (TypeAAAA, ip) end
  end.

Section records.
Context {L : DnsLib} {N : DnsNames}.

(** The loop over [NextLabel] that strips labels. *)
Fixpoint strip_loop (n : nat) (name : string) (offset : nat) (end_ : bool) : nat * bool :=
  match n with
  | O => (offset, end_)
  | S n' => let '(o, e) := NextLabel name offset in strip_loop n' name o e
  end.

Definition targetStrip (name : string) (n : Z) : string :=
  let '(offset, end_) := strip_loop (Z.to_nat n) name 0 false in
  if end_ : bool then name else drop_str offset name.

Definition stripped_host (s : Service) : string :=
  let host := Fqdn (Host s) in
  if decide (0 < TargetStrip s) then targetStrip host (TargetStrip s) else host.

(** [split255]: chunks of 255 bytes. *)
Fixpoint split_loop (fuel : nat) (s : string) : list string :=
  match fuel with
  | O => []
  | S fuel' => if decide (String.length s < 255)%nat then [s] else take_str 255 s :: split_loop fuel' (drop_str 255 s)
  end.

Definition split255 (s : string) : list string :=
  if decide (String.length s < 255)%nat then [s] else split_loop (S (String.length s)) s.

Definition hdr (s : Service) (name : string) (t : Z) : RR_Header := mkHdr name t ClassINET (TTL s).

Definition NewSRV (s : Service) (name : string) (weight : Z) : RR :=
  mkRR (hdr s name TypeSRV) (RSRV (u16 (Priority s)) weight (u16 (Port s)) (stripped_host s)).
Definition NewMX (s : Service) (name : string) : RR := mkRR (hdr s name TypeMX) (RMX (u16 (Priority s)) (stripped_host s)).
Definition NewA (s : Service) (name : string) (ip : list Z) : RR := mkRR (hdr s name TypeA) (RA ip).
Definition NewAAAA (s : Service) (name : string) (ip : list Z) : RR := mkRR (hdr s name TypeAAAA) (RAAAA ip).
Definition NewCNAME (s : Service) (name target : string) : RR := mkRR (hdr s name TypeCNAME) (RCNAME (Fqdn target)).
Definition NewTXT (s : Service) (name : string) : RR := mkRR (hdr s name TypeTXT) (RTXT (split255 (Text s))).
Definition NewPTR (s : Service) (name target : string) : RR := mkRR (hdr s name TypePTR) (RPTR (Fqdn target)).
Definition NewNS (s : Service) (name : string) : RR := mkRR (hdr s name TypeNS) (RNS (stripped_host s)).

(** *** [Group] *)

Fixpoint count_byte (c : ascii) (s : string) : nat :=
  match s with
  | EmptyString => O
  | String d s' => (if decide (c = d) then 1 else 0)%nat + count_byte c s'
  end.

Definition slashes_of (s : Service) : nat := count_byte "/"%char (Key s).

(** The loop for the group of the shortest key: the group, its number of
    slashes, and the slashes of the services it has looked at. *)
Fixpoint group_loop (sx : list Service) (slashes : nat) (group : string) (lengths : list nat) : string * nat * list nat :=
  match sx with
  | [] => (group, slashes, lengths)
  | s :: sx' =>
      let x := slashes_of s in
      let lengths := lengths ++ [x] in
      if decide (x < slashes)%nat then
        if decide (Group_ s = EmptyString) then (group, slashes, lengths) else group_loop sx' x (Group_ s) lengths
      else group_loop sx' slashes group lengths
  end.

(** The services of the group; [None] when two groups disagree. *)
Fixpoint group_members (sx : list Service) (i : nat) (slashes : nat) (group : string) (lengths : list nat) : option (list Service) :=
  match sx with
  | [] => Some []
  | s :: sx' =>
      if decide (Group_ s = EmptyString) then cons s <$> group_members sx' (S i) slashes group lengths
      else if decide (default 0%nat (lengths !! i) = slashes /\ Group_ s <> group) then None
      else if decide (Group_ s = group) then cons s <$> group_members sx' (S i) slashes group lengths
      else group_members sx' (S i) slashes group lengths
  end.

Definition Group (sx : list Service) : list Service :=
  match sx with
  | [] => []
  | s0 :: _ =>
      let '(group, slashes, lengths) := group_loop sx (slashes_of s0) (Group_ s0) [] in
      if decide (group = EmptyString) then sx else default sx (group_members sx 0 slashes group lengths)
  end.

End records.

(** ** Keys (plugin/etcd/msg/path.go) *)

(** [path.Clean] of a rooted path, given its segments: empty segments and dots
    are dropped, two dots remove the segment before. *)
Definition clean_step (acc : list string) (seg : string) : list string :=
  if decide (seg = EmptyString \/ seg = dot) then acc
  else if decide (seg = "..") then removelast acc
  else acc ++ [seg].

Definition Clean (p : string) : string := "/" +:+ JoinStr (foldl clean_step [] (Split p "/"%char)) "/".

(** [path.Join] of elements the first of which starts with a slash. *)
Definition path_Join (l : list string) : string := Clean (JoinStr (filter (fun s => s <> EmptyString) l) "/").

Section keys.
Context {L : DnsLib}.

Definition Path (s prefix : string) : string := path_Join (("/" +:+ prefix +:+ "/") :: reverse (SplitDomainName s)).

(** The labels as far as the first wildcard. *)
Fixpoint before_wildcard (l : list string) : list string * bool :=
  match l with
  | [] => ([], false)
  | k :: l' =>
      if decide (k = "*" \/ k = "any") then ([], true)
      else let '(p, b) := before_wildcard l' in (k :: p, b)
  end.

Definition PathWithWildcard (s prefix : string) : string * bool :=
  let '(l, star) := before_wildcard (reverse (SplitDomainName s)) in
  (path_Join (("/" +:+ prefix +:+ "/") :: l), star).

(** [l[1 : len(l)-1]] of the segments reversed from the second on: the first
    segment after the slash is stripped.  Fewer than two segments panic. *)
Definition Domain (s : string) : result go_fault string :=
  let l := Split s "/"%char in
  let l := if decide (last l = Some EmptyString) then removelast l else l in
  match l with
  | _ :: _ :: rest => Join (reverse rest)
  | _ => Err IndexOutOfRange
  end.

End keys.

(** ** The interface of a back end (backend.go) *)

(** What a lookup can fail with: an error of the back end, a name where a name
    server must be an address, or a panic. *)
Inductive lookup_error (E : Type) : Type :=
| BackendErr (e : E)
| NotAnAddress
| Fault (f : go_fault).
Arguments BackendErr {E} e.
Arguments NotAnAddress {E}.
Arguments Fault {E} f.

Class ServiceBackend := {
  berror : Type;
  b_Services : Msg -> bool -> result berror (list Service);
  b_Reverse : Msg -> bool -> result berror (list Service);
  b_Lookup : Msg -> string -> Z -> result (lookup_error berror) (option Msg);
  b_IsNameError : berror -> bool;
  b_Serial : Msg -> Z;
  b_MinTTL : Msg -> Z }.

Definition lift {E E' A} (f : E -> E') (r : result E A) : result E' A :=
  match r with Ok a => Ok a | Err e => Err (f e) end.

(** dnsutil.DuplicateCNAME *)
Definition DuplicateCNAME (target : string) (records : list RR) : bool :=
  existsb (fun rec => match Data rec with RCNAME t => bool_decide (t = target) | _ => false end) records.

Section lookups.
Context {L : DnsLib} {N : DnsNames} {B : ServiceBackend}.

#[local] Notation LE := (lookup_error berror).

Definition maxCnameChainLength : nat := 10.

(** plugin.Name.Matches *)
Definition name_Matches (n child : string) : bool :=
  bool_decide (n = child) || IsSubDomain n child.

(** Request.NewWithQuestion *)
Definition NewWithQuestion (r : Msg) (name : string) (typ : Z) : result go_fault Msg :=
  match Question r with
  | [] => Err IndexOutOfRange
  | _ :: qs => Ok (set_question r (mkQ (Fqdn name) typ ClassINET :: qs))
  end.

(** A lookup under another name, after which the name is put back as it
    prints. *)
Definition under_name {A} (labels : list string) (r : Msg) (f : Msg -> result berror A) : result LE (result berror A * Msg) :=
  let old := QName_ r in
  n ← lift Fault (Join labels);
  r1 ← lift Fault (set_first_name r n);
  r2 ← lift Fault (set_first_name r old);
  Ok (f r1, r2).

(** The services, and the request as it is then. *)
Definition checkForApex (zone : string) (r : Msg) : result LE (list Service * Msg) :=
  if decide (Name_ r <> zone) then s ← lift BackendErr (b_Services r false); Ok (s, r)
  else
    '(s, r) ← under_name ["apex.dns"; zone] r (fun r => b_Services r false);
    match s with
    | Ok s => Ok (s, r)
    | Err _ => s ← lift BackendErr (b_Services r false); Ok (s, r)
    end.

(** *** A, AAAA and TXT *)

(** How the three differ: where the services come from, the record of a
    service that is not a name, with the text that identifies it, and whether
    truncation of a reply from elsewhere is passed on. *)
Record kind := mkKind {
  k_services : string -> Msg -> result LE (list Service * Msg);
  k_record : Service -> string -> option (string * RR);
  k_tc : bool }.

Definition answer_ : Type := list RR * bool.

(** What a service that is a name adds. *)
Definition follow (again : Msg -> list RR -> result LE answer_) (k : kind) (zone : string) (r : Msg) (prev : list RR)
    (serv : Service) : result LE answer_ :=
  if name_Matches (Name_ r) (Fqdn (Host serv)) then Ok ([], false)
  else
    let newRecord := NewCNAME serv (QName_ r) (Host serv) in
    if decide (maxCnameChainLength < length prev)%nat then Ok ([], false)
    else if DuplicateCNAME (Fqdn (Host serv)) prev then Ok ([], false)
    else if IsSubDomain zone (Fqdn (Host serv)) then
      r1 ← lift Fault (NewWithQuestion r (Host serv) (QType_ r));
      match again r1 (prev ++ [newRecord]) with
      | Ok ([], tc) => Ok ([], tc)
      | Ok (next, tc) => Ok (newRecord :: next, tc)
      | Err (Fault f) => Err (Fault f)
      | Err _ => Ok ([], false)
      end
    else
      match b_Lookup r (Fqdn (Host serv)) (QType_ r) with
      | Ok (Some m1) => Ok (newRecord :: Answer m1, k_tc k && Truncated m1)
      | Err (Fault f) => Err (Fault f)
      | _ => Ok ([], false)
      end.

Fixpoint services_loop (again : Msg -> list RR -> result LE answer_) (k : kind) (zone : string) (r : Msg) (prev : list RR)
    (services : list Service) (dup : list string) (records : list RR) (truncated : bool) : result LE answer_ :=
  match services with
  | [] => Ok (records, truncated)
  | serv :: services' =>
      if decide ((HostType serv).1 = TypeCNAME) then
        '(more, tc) ← follow again k zone r prev serv;
        services_loop again k zone r prev services' dup (records ++ more) (truncated || tc)
      else
        match k_record k serv (QName_ r) with
        | Some (key, rr) =>
            if decide (key ∈ dup) then services_loop again k zone r prev services' dup records truncated
            else services_loop again k zone r prev services' (key :: dup) (records ++ [rr]) truncated
        | None => services_loop again k zone r prev services' dup records truncated
        end
  end.

Fixpoint chase (fuel : nat) (k : kind) (zone : string) (r : Msg) (prev : list RR) : result LE answer_ :=
  match fuel with
  | O => Err (Fault OutOfFuel)
  | S fuel' =>
      '(services, r) ← k_services k zone r;
      services_loop (chase fuel' k zone) k zone r prev services [] [] false
  end.

(** A call is made with at most one record more than the longest chain. *)
Definition chain_fuel : nat := S (S maxCnameChainLength).

Definition kind_A : kind := mkKind checkForApex
  (fun s name => let '(what, ip) := HostType s in if decide (what = TypeA) then Some (Host s, NewA s name ip) else None) true.
Definition kind_AAAA : kind := mkKind checkForApex
  (fun s name => let '(what, ip) := HostType s in if decide (what = TypeAAAA) then Some (Host s, NewAAAA s name ip) else None) true.
Definition kind_TXT : kind := mkKind (fun _ r => s ← lift BackendErr (b_Services r false); Ok (s, r))
  (fun s name => if decide ((HostType s).1 = TypeTXT) then Some (Text s, NewTXT s name) else None) false.

Definition A (zone : string) (r : Msg) (prev : list RR) : result LE answer_ := chase chain_fuel kind_A zone r prev.
Definition AAAA (zone : string) (r : Msg) (prev : list RR) : result LE answer_ := chase chain_fuel kind_AAAA zone r prev.
Definition TXT (zone : string) (r : Msg) (prev : list RR) : result LE answer_ := chase chain_fuel kind_TXT zone r prev.

(** *** SRV *)

(** The sum of the weights of each priority. *)
Definition weight_of (s : Service) : Z := if decide (Weight s = 0) then 100 else Weight s.
Definition weights (services : list Service) : gmap Z Z :=
  foldl (fun w s => <[Priority s := default 0 (w !! Priority s) + weight_of s]> w) ∅ services.

(** [float64] arithmetic (IEEE 754 binary64), and the conversion of a floor to
    uint16 by way of a 64-bit integer. *)
Definition f64 (z : Z) : spec_float := binary_normalize 53 1024 z 0 false.
Definition f64_div (x y : spec_float) : spec_float := SFdiv 53 1024 x y.
Definition f64_mul (x y : spec_float) : spec_float := SFmul 53 1024 x y.
Definition floor_uint16 (x : spec_float) : Z :=
  match x with
  | S754_finite s m e =>
      let m := if s then Z.neg m else Z.pos m in
      let v := if decide (0 <= e) then m * 2 ^ e else m / 2 ^ (- e) in
      if decide (- 2 ^ 63 <= v < 2 ^ 63) then u16 v else 0
  | _ => 0
  end.

Definition srv_weight (w : gmap Z Z) (s : Service) : Z :=
  let w1 := f64_div (f64 100) (f64 (default 0 (w !! Priority s))) in
  let w1 := f64_mul w1 (f64 (weight_of s)) in
  let weight := floor_uint16 w1 in
  if decide (weight = 0) then 1 else weight.

(** [item] and [isDuplicate]: the flag, and the set with the item. *)
Definition item : Type := string * Z * string.

Definition isDuplicate (m : list item) (name addr : string) (port : Z) : bool * list item :=
  let it := if decide (addr = EmptyString) then (name, port, EmptyString) else (name, 0, addr) in
  if decide (it ∈ m) then (true, m) else (false, it :: m).

Definition newAddress (s : Service) (name : string) (ip : list Z) (what : Z) : RR :=
  mkRR (mkHdr name what ClassINET (TTL s)) (if decide (what = TypeA) then RA ip else RAAAA ip).

(** The answer of a lookup whose error is dropped. *)
Definition no_error (x : result LE (option Msg)) : result LE (list RR) :=
  match x with
  | Ok (Some m) => Ok (Answer m)
  | Err (Fault f) => Err (Fault f)
  | _ => Ok []
  end.

(** The address records of a name: from elsewhere, or from the zone. *)
Definition target_extra (zone : string) (r : Msg) (target : string) : result LE (list RR) :=
  if negb (IsSubDomain zone target) then
    a ← no_error (b_Lookup r target TypeA);
    aaaa ← no_error (b_Lookup r target TypeAAAA);
    (* the CNAME records are taken to be there already *)
    Ok (a ++ List.filter (fun x => match Data x with RCNAME _ => false | _ => true end) aaaa)
  else
    r1 ← lift Fault (NewWithQuestion r target TypeA);
    match A zone r1 [] with
    | Ok (addr, _) => Ok addr
    | Err (Fault f) => Err (Fault f)
    | Err _ => Ok []
    end.

(** The state of the loops of [SRV] and [MX]. *)
Record gathered := mkGathered { g_records : list RR; g_extra : list RR; g_dup : list item; g_lookup : list string }.

(** A service whose host is a name. *)
Definition add_named (zone : string) (r : Msg) (target : string) (rr : RR) (g : gathered) : result LE gathered :=
  if decide (target ∈ g_lookup g) then Ok (mkGathered (g_records g ++ [rr]) (g_extra g) (g_dup g) (g_lookup g))
  else
    extra ← target_extra zone r target;
    Ok (mkGathered (g_records g ++ [rr]) (g_extra g ++ extra) (g_dup g) (target :: g_lookup g)).

(** A service whose host is an address: the record [rr] and the address of
    [owner], unless they are there. *)
Definition add_addressed (rr : RR) (target : string) (port : Z) (owner addr : string) (address : RR) (g : gathered) : gathered :=
  let '(d1, dup) := isDuplicate (g_dup g) target EmptyString port in
  let '(d2, dup) := isDuplicate dup owner addr 0 in
  mkGathered (g_records g ++ (if d1 : bool then [] else [rr])) (g_extra g ++ (if d2 : bool then [] else [address])) dup (g_lookup g).

Definition srv_step (zone : string) (r : Msg) (w : gmap Z Z) (serv : Service) (g : gathered) : result LE gathered :=
  if decide (Port serv = -1) then Ok g
  else
    let weight := srv_weight w serv in
    let '(what, ip) := HostType serv in
    if decide (what = TypeCNAME) then add_named zone r (stripped_host serv) (NewSRV serv (QName_ r) weight) g
    else if decide (what = TypeA \/ what = TypeAAAA) then
      host ← lift Fault (Domain (Key serv));
      let serv' := set_Host serv host in
      Ok (add_addressed (NewSRV serv' (QName_ r) weight) (stripped_host serv') (u16 (Port serv))
            (stripped_host serv') (Host serv) (newAddress serv' (stripped_host serv') ip what) g)
    else Ok g.

Fixpoint gather (step : Service -> gathered -> result LE gathered) (services : list Service) (g : gathered) : result LE gathered :=
  match services with
  | [] => Ok g
  | s :: services' => g ← step s g; gather step services' g
  end.

Definition SRV (zone : string) (r : Msg) : result LE (list RR * list RR) :=
  services ← lift BackendErr (b_Services r false);
  g ← gather (srv_step zone r (weights services)) services (mkGathered [] [] [] []);
  Ok (g_records g, g_extra g).

(** *** MX *)

Definition mx_step (zone : string) (r : Msg) (serv : Service) (g : gathered) : result LE gathered :=
  if negb (Mail serv) then Ok g
  else
    let '(what, ip) := HostType serv in
    if decide (what = TypeCNAME) then add_named zone r (stripped_host serv) (NewMX serv (QName_ r)) g
    else if decide (what = TypeA \/ what = TypeAAAA) then
      host ← lift Fault (Domain (Key serv));
      let serv' := set_Host serv host in
      Ok (add_addressed (NewMX serv' (QName_ r)) (stripped_host serv') (u16 (Priority serv))
            host (Host serv) (newAddress serv' host ip what) g)
    else Ok g.

Definition MX (zone : string) (r : Msg) : result LE (list RR * list RR) :=
  services ← lift BackendErr (b_Services r false);
  g ← gather (mx_step zone r) services (mkGathered [] [] [] []);
  Ok (g_records g, g_extra g).

(** *** CNAME, PTR, NS and SOA *)

Definition CNAME (r : Msg) : result LE (list RR) :=
  services ← lift BackendErr (b_Services r true);
  match services with
  | serv :: _ => Ok (if decide (ParseIP (Host serv) = None) then [NewCNAME serv (QName_ r) (Host serv)] else [])
  | [] => Ok []
  end.

Fixpoint ptr_loop (r : Msg) (services : list Service) (dup : list string) : list RR :=
  match services with
  | [] => []
  | serv :: services' =>
      if decide (ParseIP (Host serv) = None /\ Host serv ∉ dup)
      then NewPTR serv (QName_ r) (Host serv) :: ptr_loop r services' (Host serv :: dup)
      else ptr_loop r services' dup
  end.

Definition PTR (r : Msg) : result LE (list RR) :=
  services ← lift BackendErr (b_Reverse r true);
  Ok (ptr_loop r services []).

Fixpoint ns_loop (r : Msg) (services : list Service) (seen : list string) (records extra : list RR)
  : result LE (list RR * list RR) :=
  match services with
  | [] => Ok (records, extra)
  | serv :: services' =>
      let '(what, ip) := HostType serv in
      if decide (what = TypeCNAME) then Err NotAnAddress
      else if decide (what = TypeA \/ what = TypeAAAA) then
        host ← lift Fault (Domain (Key serv));
        let serv' := set_Host serv host in
        let ns := stripped_host serv' in
        let extra := extra ++ [newAddress serv' ns ip what] in
        if decide (ns ∈ seen) then ns_loop r services' seen records extra
        else ns_loop r services' (ns :: seen) (records ++ [NewNS serv' (QName_ r)]) extra
      else ns_loop r services' seen records extra
  end.

Definition NS (zone : string) (r : Msg) : result LE (list RR * list RR) :=
  '(s, r) ← under_name ["ns.dns."; zone] r (fun r => b_Services r false);
  services ← lift BackendErr s;
  ns_loop r services [] [] [].

Definition SOA (zone : string) (r : Msg) : result LE (list RR) :=
  let minTTL := b_MinTTL r in
  mbox ← lift Fault (Join ["hostmaster"; zone]);
  ns ← lift Fault (Join ["ns.dns"; zone]);
  Ok [mkRR (mkHdr zone TypeSOA ClassINET (Z.min minTTL 300)) (RSOA ns mbox (b_Serial r) 7200 1800 86400 minTTL)].

(** [BackendError]: the message written; the code returned is success. *)
Definition BackendError (zone : string) (rc : Z) (r : Msg) : result LE Msg :=
  soa ← SOA zone r;
  let m := SetRcode r rc in
  Ok (mkMsg (Id m) (Response m) (Opcode m) true (Truncated m) (RecursionDesired m) (RecursionAvailable m)
        (AuthenticatedData m) (CheckingDisabled m) (Rcode m) (Question m) (Answer m) soa (Extra m)).

(** *** What the handlers do with a lookup *)

(** The records, the additional records and the truncation of an answer. *)
Definition found_ : Type := list RR * list RR * bool.

Definition is_name_error (x : LE) : bool :=
  match x with BackendErr e => b_IsNameError e | _ => false end.

Definition reply_found (r : Msg) (f : found_) : Msg :=
  let '(records, extra, truncated) := f in
  let m := SetReply r in
  mkMsg (Id m) (Response m) (Opcode m) true truncated (RecursionDesired m) (RecursionAvailable m)
    (AuthenticatedData m) (CheckingDisabled m) (Rcode m) (Question m) records (Ns_ m) extra.

(** [BackendError] writes and returns success. *)
Definition backend_error (zone : string) (rc : Z) (r : Msg) : option Msg * result go_fault Z :=
  match BackendError zone rc r with
  | Ok m => (Some m, Ok RcodeSuccess)
  | Err (Fault f) => (None, Err f)
  | Err _ => (None, Err NilDeref)
  end.

End lookups.
