(* ===== verification/BackendFacts.v ===== *)
(** * Properties of service back ends

    For every back end: following CNAME records ends ([lookup_terminates]),
    the records of an answer hang together ([answers_connected]), SRV and MX
    answers have what a client needs to reach each service ([SRV_complete],
    [MX_complete]), and A answers have every address ([A_found]). *)

From Stdlib Require Import Ascii ZArith Lia.
From stdpp Require Import base numbers gmap strings list.
From S2P Require Import Prelude DnsTypes DnsLib Ip GoStrings Http Serve Xfer FileZone Server ServerFacts Filters Backend.

Local Open Scope Z_scope.

Section facts.
Context {L : DnsLib} {N : DnsNames} {B : ServiceBackend}.

Implicit Types (zone q : string) (r : Msg) (prev records l : list RR) (k : kind) (s : Service) (ss : list Service).

Definition kinds : list kind := [kind_A; kind_AAAA; kind_TXT].

(** ** Following names ends *)

Lemma follow_ext again again' k zone r prev s :
  ((length prev <= maxCnameChainLength)%nat -> forall r1 x, again r1 (prev ++ [x]) = again' r1 (prev ++ [x])) ->
  follow again k zone r prev s = follow again' k zone r prev s.
Proof.
  intros H. unfold follow. destruct (name_Matches _ _); [done|]. case_decide; [done|].
  destruct (DuplicateCNAME _ _); [done|]. destruct (IsSubDomain _ _); [|done].
  destruct (NewWithQuestion _ _ _); [|done]. simpl. rewrite H; [done|lia].
Qed.

Lemma services_loop_ext again again' k zone r prev ss dup records tc :
  ((length prev <= maxCnameChainLength)%nat -> forall r1 x, again r1 (prev ++ [x]) = again' r1 (prev ++ [x])) ->
  services_loop again k zone r prev ss dup records tc = services_loop again' k zone r prev ss dup records tc.
Proof.
  intros H. revert dup records tc. induction ss as [|s ss IH]; intros dup records tc; [done|]. cbn [services_loop].
  rewrite (follow_ext again again') by done. case_decide.
  - destruct (follow _ _ _ _ _ _) as [[more tc']|]; [|done]. simpl. apply IH.
  - destruct (k_record _ _ _) as [[key rr]|]; [|apply IH]. case_decide; apply IH.
Qed.

(** More fuel than a chain can use changes nothing. *)
Lemma chase_enough f f' k zone r prev :
  (1 <= f)%nat -> (chain_fuel <= f + length prev)%nat -> (1 <= f')%nat -> (chain_fuel <= f' + length prev)%nat ->
  chase f k zone r prev = chase f' k zone r prev.
Proof.
  revert f' r prev. induction f as [|f IH]; intros [|f'] r prev H1 H2 H3 H4; [lia..|]. cbn [chase].
  destruct (k_services _ _ _) as [[ss r']|]; [|done]. simpl. apply services_loop_ext. intros Hp r1 x.
  unfold chain_fuel, maxCnameChainLength in *. apply IH; rewrite ?length_app; simpl; lia.
Qed.

(** The faults a lookup may have, the panics of a request without a question
    among them. *)
Section faults.
Context (F : go_fault -> Prop).

Definition within {A} (x : result (lookup_error berror) A) : Prop := forall f, x = Err (Fault f) -> F f.
Definition asks r : Prop := Question r <> [] \/ F IndexOutOfRange.

Lemma within_lift {A} (x : result go_fault A) : (forall f, x = Err f -> F f) -> within (lift Fault x).
Proof. unfold within. destruct x; simpl; naive_solver. Qed.

Lemma within_bind {A A'} (x : result (lookup_error berror) A) (f : A -> result (lookup_error berror) A') :
  within x -> (forall a, x = Ok a -> within (f a)) -> within (x ≫= f).
Proof. unfold within. destruct x; simpl; naive_solver. Qed.

Lemma within_services {A} (x : result berror A) : within (lift BackendErr x).
Proof. unfold within. by destruct x. Qed.

Lemma within_set_name r n : asks r -> within (lift Fault (set_first_name r n)).
Proof. intros [|]; apply within_lift; unfold set_first_name; destruct (Question r); naive_solver. Qed.

Lemma within_Join labels : labels <> [] -> within (lift Fault (Join labels)).
Proof.
  intros Hl. apply within_lift. intros f. unfold Join. destruct (last labels) eqn:E; [by case_decide|].
  by apply last_None in E.
Qed.

Lemma set_name_asks r n r' : lift Fault (set_first_name r n) = Ok r' :> result (lookup_error berror) Msg -> asks r'.
Proof. unfold set_first_name. destruct (Question r); [done|]. intros [= <-]. by left. Qed.

Lemma question_asks r n t : asks r -> within (lift Fault (NewWithQuestion r n t)).
Proof. intros [|]; apply within_lift; unfold NewWithQuestion; destruct (Question r); naive_solver. Qed.

Lemma question_asked r n t r1 : lift Fault (NewWithQuestion r n t) = Ok r1 :> result (lookup_error berror) Msg -> asks r1.
Proof. unfold NewWithQuestion. destruct (Question r); [done|]. intros [= <-]. by left. Qed.

Lemma checkForApex_within zone r :
  asks r -> within (checkForApex zone r) /\ forall ss r', checkForApex zone r = Ok (ss, r') -> asks r'.
Proof.
  intros Hr. unfold checkForApex, under_name. case_decide.
  { split; [apply within_bind; [apply within_services|done]|]. by intros ss r' (? & _ & [= <- <-])%bind_ok_inv. }
  split.
  - apply within_bind; [|intros [[ss|] r'] _; [done|apply within_bind; [apply within_services|done]]].
    apply within_bind; [by apply within_Join|]. intros n _.
    apply within_bind; [by apply within_set_name|]. intros r1 _. apply within_bind; [by apply within_set_name|done].
  - intros ss r' ([x r2] & Hu & H2)%bind_ok_inv.
    apply bind_ok_inv in Hu as (n & _ & Hu). apply bind_ok_inv in Hu as (r1 & _ & Hu).
    apply bind_ok_inv in Hu as (r3 & H3%set_name_asks & Hu). injection Hu as <- <-.
    destruct (b_Services r1 false); [by injection H2 as <- <-|]. by apply bind_ok_inv in H2 as (? & _ & [= <- <-]).
Qed.

Lemma kinds_within k zone r :
  k ∈ kinds -> asks r -> within (k_services k zone r) /\ forall ss r', k_services k zone r = Ok (ss, r') -> asks r'.
Proof.
  intros Hk Hr. repeat apply elem_of_cons in Hk as [->|Hk]; [by apply checkForApex_within..| |by apply elem_of_nil in Hk].
  split; [apply within_bind; [apply within_services|done]|]. by intros ss r' (? & _ & [= <- <-])%bind_ok_inv.
Qed.

Context (Hlookup : forall r n t, asks r -> within (b_Lookup r n t)).

Lemma follow_within again k zone r prev s :
  asks r -> ((length prev <= maxCnameChainLength)%nat -> forall r1 x, asks r1 -> within (again r1 (prev ++ [x]))) ->
  within (follow again k zone r prev s).
Proof.
  intros Hr H. unfold follow. destruct (name_Matches _ _); [done|]. case_decide as Hlen; [done|].
  destruct (DuplicateCNAME _ _); [done|]. destruct (IsSubDomain _ _).
  - apply within_bind; [by apply question_asks|]. intros r1 H1%question_asked.
    pose proof (H ltac:(lia) r1 (NewCNAME s (QName_ r) (Host s)) H1) as Ha.
    destruct (again _ _) as [[[|] ?]|[| |]]; done.
  - pose proof (Hlookup r (Fqdn (Host s)) (QType_ r) Hr) as Hl. destruct (b_Lookup _ _ _) as [[|]|[| |f]]; try done.
    intros f' [= <-]. by apply Hl.
Qed.

Lemma services_loop_within again k zone r prev ss dup records tc :
  asks r -> ((length prev <= maxCnameChainLength)%nat -> forall r1 x, asks r1 -> within (again r1 (prev ++ [x]))) ->
  within (services_loop again k zone r prev ss dup records tc).
Proof.
  intros Hr H. revert dup records tc. induction ss as [|s ss IH]; intros dup records tc; [done|]. cbn [services_loop].
  case_decide; [apply within_bind; [by apply follow_within|intros [more tc'] _; apply IH]|].
  destruct (k_record _ _ _) as [[key rr]|]; [case_decide; apply IH|apply IH].
Qed.

Lemma chase_within f k zone r prev :
  k ∈ kinds -> asks r -> (1 <= f)%nat -> (chain_fuel <= f + length prev)%nat -> within (chase f k zone r prev).
Proof.
  intros Hk. revert r prev. induction f as [|f IH]; intros r prev Hr H1 H2; [lia|]. cbn [chase].
  destruct (kinds_within k zone r Hk Hr) as [Hw Ha].
  apply within_bind; [done|]. intros [ss r'] Hs. apply services_loop_within; [by eapply Ha|]. intros Hp r1 x Hr1.
  unfold chain_fuel, maxCnameChainLength in *. apply IH; rewrite ?length_app; simpl; [done|lia..].
Qed.

End faults.

(** Following CNAME records ends.  For every back end whose lookups
    elsewhere return, the A, AAAA and TXT lookups return for every zone,
    request and stored set of services, with cycles of names or without: the
    recursion is never deeper than the longest chain allowed, and a larger
    bound on it changes no result. *)
Theorem lookup_terminates k zone r prev :
  (forall r n t, b_Lookup r n t <> Err (Fault OutOfFuel)) -> k ∈ kinds ->
  chase chain_fuel k zone r prev <> Err (Fault OutOfFuel) /\
  forall fuel, (chain_fuel <= fuel)%nat -> chase fuel k zone r prev = chase chain_fuel k zone r prev.
Proof.
  intros Hl Hk. assert (1 <= chain_fuel)%nat by (unfold chain_fuel; lia). split.
  { intros HX. apply (chase_within (fun f => f <> OutOfFuel)) in HX; [done|..|lia|lia]; [|done|by right].
    intros r0 n t _ f Hf ->. by eapply Hl. }
  intros fuel Hf. apply chase_enough; lia.
Qed.

(** ** The records of an answer hang together *)

(** The names [l] leads to from [q] by CNAME records. *)
Inductive reached l q : string -> Prop :=
| reached_here : reached l q q
| reached_cname rr t : rr ∈ l -> Data rr = RCNAME t -> reached l q (rr_name rr) -> reached l q t.

Definition connected q l : Prop := Forall (fun rr => reached l q (rr_name rr)) l.

Lemma reached_mono l l' q n : l ⊆ l' -> reached l q n -> reached l' q n.
Proof. intros Hs. induction 1 as [|rr t Hin Hd H IH]; [constructor|]. eapply reached_cname; [by apply Hs|done|done]. Qed.

Lemma reached_trans l q q' n : reached l q q' -> reached l q' n -> reached l q n.
Proof. intros H. induction 1 as [|rr t Hin Hd H' IH]; [done|]. by eapply reached_cname. Qed.

Lemma connected_app q l l' : connected q l -> connected q l' -> connected q (l ++ l').
Proof.
  unfold connected. rewrite !Forall_forall. intros H H' rr [Hin|Hin]%elem_of_app.
  - eapply reached_mono; [|by apply H]. set_solver.
  - eapply reached_mono; [|by apply H']. set_solver.
Qed.

(** A CNAME record in front of an answer for its target. *)
Lemma connected_cname q rr t l : rr_name rr = q -> Data rr = RCNAME t -> connected t l -> connected q (rr :: l).
Proof.
  unfold connected. rewrite !Forall_forall. intros Hn Hd H x [->|Hin]%elem_of_cons; [rewrite Hn; constructor|].
  apply reached_trans with t; [|eapply reached_mono; [|by apply H]; set_solver].
  eapply reached_cname; [by left|done|]. rewrite Hn. constructor.
Qed.

Definition printed r : Prop := match Question r with q :: _ => NameString (QName q) = QName q | [] => True end.

Lemma set_first_name_printed r r' : printed r -> set_first_name r (QName_ r) = Ok r' -> r' = r.
Proof.
  unfold printed, set_first_name, QName_. destruct r as [? ? ? ? ? ? ? ? ? ? qs ? ? ?]; simpl. destruct qs as [|[? ? ?] qs]; [done|].
  simpl. by intros -> [= <-].
Qed.

Lemma kinds_services k zone r ss r' :
  k ∈ kinds -> printed r -> k_services k zone r = Ok (ss, r') -> r' = r /\ exists r0 exact, b_Services r0 exact = Ok ss.
Proof.
  intros Hk Hp.
  assert (forall exact, (s ← lift BackendErr (b_Services r exact); Ok (s, r) : result (lookup_error berror) _) = Ok (ss, r') ->
    r' = r /\ exists r0 exact, b_Services r0 exact = Ok ss) as Hplain.
  { intros exact. destruct (b_Services r exact) as [x|] eqn:E; [|done]. simpl. intros [= <- <-]. eauto. }
  assert (checkForApex zone r = Ok (ss, r') -> r' = r /\ exists r0 exact, b_Services r0 exact = Ok ss) as Hapex.
  { unfold checkForApex, under_name. case_decide; [apply Hplain|].
    intros ([x r2] & Hu & H2)%bind_ok_inv. apply bind_ok_inv in Hu as (n & _ & Hu). apply bind_ok_inv in Hu as (r1 & _ & Hu).
    apply bind_ok_inv in Hu as (r3 & H3 & Hu). injection Hu as <- <-.
    destruct (set_first_name r (QName_ r)) as [r4|] eqn:E4; [|done]. simpl in H3. injection H3 as <-.
    apply set_first_name_printed in E4 as ->; [|done].
    destruct (b_Services r1 false) as [y|] eqn:E; [injection H2 as <- <-; eauto|by eapply Hplain]. }
  repeat apply elem_of_cons in Hk as [->|Hk]; [done..|by apply Hplain|by apply elem_of_nil in Hk].
Qed.

Section answers.

(** The hosts of services print as they are, and an answer from elsewhere
    hangs together. *)
Context (Hhosts : forall r exact ss s, b_Services r exact = Ok ss -> s ∈ ss -> NameString (Fqdn (Host s)) = Fqdn (Host s)).
Context (Hlookup : forall r n t m, b_Lookup r n t = Ok (Some m) -> connected n (Answer m)).

Lemma question_printed r n t r1 :
  NameString (Fqdn n) = Fqdn n -> NewWithQuestion r n t = Ok r1 -> printed r1 /\ QName_ r1 = Fqdn n.
Proof.
  unfold NewWithQuestion, printed, QName_. destruct (Question r); [done|]. intros Hn [= <-]. by rewrite <-Hn at 3.
Qed.

Lemma follow_connected again k zone r prev s more tc :
  NameString (Fqdn (Host s)) = Fqdn (Host s) ->
  (forall r1 p x, printed r1 -> again r1 p = Ok x -> connected (QName_ r1) x.1) ->
  follow again k zone r prev s = Ok (more, tc) -> connected (QName_ r) more.
Proof.
  intros Hs Ha. unfold follow. assert (connected (QName_ r) []) as Hnil by constructor.
  destruct (name_Matches _ _); [by intros [= <- <-]|]. case_decide; [by intros [= <- <-]|].
  destruct (DuplicateCNAME _ _); [by intros [= <- <-]|]. destruct (IsSubDomain _ _).
  - destruct (NewWithQuestion _ _ _) as [r1|] eqn:E; [|done]. simpl.
    destruct (question_printed _ _ _ _ Hs E) as [Hp Hq].
    destruct (again _ _) as [[[|rr next] tc']|[| |]] eqn:E'; intros [= <- <-]; try done.
    eapply connected_cname; [done|done|]. rewrite <-Hq. by apply (Ha _ _ _ Hp E').
  - destruct (b_Lookup _ _ _) as [[m|]|[| |]] eqn:E; intros [= <- <-]; try done.
    eapply connected_cname; [done|done|]. by eapply Hlookup.
Qed.

Lemma services_loop_connected again k zone r prev ss dup records tc out tc' :
  (forall s key rr, k_record k s (QName_ r) = Some (key, rr) -> rr_name rr = QName_ r) ->
  (forall s, s ∈ ss -> NameString (Fqdn (Host s)) = Fqdn (Host s)) ->
  (forall r1 p x, printed r1 -> again r1 p = Ok x -> connected (QName_ r1) x.1) ->
  connected (QName_ r) records ->
  services_loop again k zone r prev ss dup records tc = Ok (out, tc') -> connected (QName_ r) out.
Proof.
  intros Hk Hs Ha. revert dup records tc. induction ss as [|s ss IH]; intros dup records tc Hc; cbn [services_loop].
  { by intros [= <- <-]. }
  assert (forall s, s ∈ ss -> NameString (Fqdn (Host s)) = Fqdn (Host s)) as Hs' by (intros; apply Hs; by right).
  case_decide.
  - intros ([more tc1] & Hf & H2)%bind_ok_inv. eapply (IH Hs'); [|done].
    apply connected_app; [done|]. eapply follow_connected; [apply Hs; by left|done|done].
  - destruct (k_record _ _ _) as [[key rr]|] eqn:E; [|by apply (IH Hs')]. case_decide; [by apply (IH Hs')|].
    apply (IH Hs'). apply connected_app; [done|]. apply Forall_singleton. rewrite (Hk _ _ _ E). constructor.
Qed.

Lemma kinds_owner k s q key rr : k ∈ kinds -> k_record k s q = Some (key, rr) -> rr_name rr = q.
Proof.
  intros Hk. repeat apply elem_of_cons in Hk as [->|Hk]; [..|by apply elem_of_nil in Hk]; simpl.
  1, 2: destruct (HostType s) as [what ip]. all: case_decide; naive_solver.
Qed.

Lemma chase_connected f k zone r prev out tc :
  k ∈ kinds -> printed r -> chase f k zone r prev = Ok (out, tc) -> connected (QName_ r) out.
Proof.
  intros Hk. revert r prev out tc. induction f as [|f IH]; intros r prev out tc Hp; [done|]. cbn [chase].
  intros ([ss r'] & Hs & H)%bind_ok_inv. apply kinds_services in Hs as (-> & r0 & exact & Hs); [|done..].
  eapply services_loop_connected in H; [done|..].
  - intros s key rr. by apply kinds_owner.
  - intros s. by eapply Hhosts.
  - intros r1 p [x tc1] Hp1 H1. by eapply IH.
  - constructor.
Qed.

(** C15. The records of an answer hang together.  Every record the A, AAAA and
    TXT lookups return is owned by the name asked for or by a name that CNAME
    records of the same answer lead to from it, through names of the zone and
    through answers from elsewhere that hang together themselves.  The name
    asked for and the host names of the services are written as the library
    prints them. *)
Theorem answers_connected k zone r records tc :
  k ∈ kinds -> printed r -> chase chain_fuel k zone r [] = Ok (records, tc) ->
  forall rr, rr ∈ records -> reached records (QName_ r) (rr_name rr).
Proof. intros Hk Hp H. by apply Forall_forall, (chase_connected chain_fuel k zone r [] records tc). Qed.

End answers.

(** ** SRV and MX answers *)

(** What the set of duplicates stands for: a record of the answer for each
    target and number, an address record for each owner and address. *)
Section gathering.
Context (P : string -> Z -> RR -> Prop) (Q : string -> string -> RR -> Prop).

Definition kept (g : gathered) : Prop :=
  (forall t p, (t, p, EmptyString) ∈ g_dup g -> exists rr, rr ∈ g_records g /\ P t p rr) /\
  (forall t a, a <> EmptyString -> (t, 0, a) ∈ g_dup g -> exists rr, rr ∈ g_extra g /\ Q t a rr).

Definition grows (g g' : gathered) : Prop := g_records g ⊆ g_records g' /\ g_extra g ⊆ g_extra g'.

Lemma add_addressed_spec rr target port owner addr address g :
  addr <> EmptyString -> P target port rr -> Q owner addr address -> kept g ->
  let g' := add_addressed rr target port owner addr address g in
  kept g' /\ grows g g' /\ (exists x, x ∈ g_records g' /\ P target port x) /\ (exists x, x ∈ g_extra g' /\ Q owner addr x).
Proof.
  intros Ha HP HQ [K1 K2]. unfold add_addressed, isDuplicate. rewrite (decide_True (P := EmptyString = EmptyString)) by done.
  rewrite (decide_False (P := addr = EmptyString)) by done.
  destruct (decide ((target, port, EmptyString) ∈ g_dup g)) as [H1|H1], (decide ((owner, 0, addr) ∈ _)) as [H2|H2];
    unfold kept, grows; cbn [g_records g_extra g_dup g_lookup] in *; rewrite ?app_nil_r;
    repeat split; try (intros ? ?; set_unfold; naive_solver); try (intros ? ? ?; set_unfold; naive_solver);
    try (set_unfold; naive_solver).
Qed.

Lemma add_named_spec zone r target rr g g' :
  kept g -> add_named zone r target rr g = Ok g' -> kept g' /\ grows g g'.
Proof.
  intros [K1 K2]. unfold add_named. case_decide.
  - intros [= <-]. unfold kept, grows. cbn [g_records g_extra g_dup]. split_and!; set_solver.
  - intros (ex & _ & [= <-])%bind_ok_inv. unfold kept, grows. cbn [g_records g_extra g_dup]. split_and!; set_solver.
Qed.

(** A loop whose steps keep the set and do what they have to. *)
Lemma gather_spec step (served : Service -> gathered -> Prop) ss g g' :
  (forall s g g', grows g g' -> served s g -> served s g') ->
  (forall s g g', step s g = Ok g' -> kept g -> kept g' /\ grows g g' /\ served s g') ->
  kept g -> gather step ss g = Ok g' -> grows g g' /\ forall s, s ∈ ss -> served s g'.
Proof.
  intros Hmono Hstep. revert g. induction ss as [|s ss IH]; intros g Hk; cbn [gather].
  { intros [= <-]. split; [by split|]. by intros s ?%elem_of_nil. }
  intros (g1 & H1 & H2)%bind_ok_inv. destruct (Hstep _ _ _ H1 Hk) as (Hk1 & Hg1 & Hs1).
  destruct (IH _ Hk1 H2) as [Hg2 Hall]. split; [split; (etrans; [apply Hg1|apply Hg2])|].
  intros s' [->|Hin]%elem_of_cons; [|by apply Hall]. by eapply Hmono.
Qed.

End gathering.

Definition addr_data (a : string) : option rdata :=
  ip ← ParseIP a; Some (match To4 ip with Some v4 => RA v4 | None => RAAAA ip end).

Definition is_address s : Prop := (HostType s).1 = TypeA \/ (HostType s).1 = TypeAAAA.

Lemma is_address_data s s' n :
  is_address s ->
  Host s <> EmptyString /\ addr_data (Host s) = Some (Data (newAddress s' n (HostType s).2 (HostType s).1)).
Proof.
  unfold is_address, HostType, addr_data, newAddress. destruct (ParseIP (Host s)) as [ip|] eqn:E.
  - intros _. split; [intros H; by rewrite H in E|]. simpl. by destruct (To4 ip).
  - case_decide; by intros [|].
Qed.

Lemma srv_weight_bounds w s : 1 <= srv_weight w s < 65536.
Proof.
  unfold srv_weight. cbv zeta. set (x := f64_mul _ _). clearbody x.
  assert (0 <= floor_uint16 x < 65536) as H.
  { unfold floor_uint16. destruct x as [| | |sg m e]; try lia.
    case_decide; [|lia]. unfold u16. apply Z.mod_pos_bound. lia. }
  case_decide; lia.
Qed.

(** The record of a service in an SRV answer, and the record of its address. *)
Definition srv_for q (t : string) (p : Z) (rr : RR) : Prop :=
  rr_name rr = q /\ exists pr w, Data rr = RSRV pr w p t /\ 1 <= w < 65536.
Definition mx_for q (t : string) (p : Z) (rr : RR) : Prop := rr_name rr = q /\ Data rr = RMX p t.
Definition addr_for (t a : string) (rr : RR) : Prop := rr_name rr = t /\ addr_data a = Some (Data rr).

Definition srv_served q s (g : gathered) : Prop :=
  forall host, Port s <> -1 -> is_address s -> Domain (Key s) = Ok host ->
  let target := stripped_host (set_Host s host) in
  (exists rr, rr ∈ g_records g /\ srv_for q target (u16 (Port s)) rr) /\
  (exists a, a ∈ g_extra g /\ addr_for target (Host s) a).

Lemma srv_step_spec zone r w s g g' :
  srv_step zone r w s g = Ok g' -> kept (srv_for (QName_ r)) addr_for g ->
  kept (srv_for (QName_ r)) addr_for g' /\ grows g g' /\ srv_served (QName_ r) s g'.
Proof.
  unfold srv_step, srv_served. intros H Hk. case_decide as Hport.
  { injection H as <-. split_and!; [done|by split|]. by intros. }
  destruct (HostType s) as [what ip] eqn:E. case_decide as Hc.
  { eapply add_named_spec in H as [K G]; [|done]. split_and!; [done..|].
    intros host _ Ha. unfold is_address in Ha. rewrite E in Ha. simpl in Ha. subst what. by destruct Ha. }
  case_decide as Ha.
  2: { injection H as <-. split_and!; [done|by split|]. intros host _ Ha'. unfold is_address in Ha'. by rewrite E in Ha'. }
  apply bind_ok_inv in H as (host & Hd & H). destruct (Domain (Key s)) as [d|]; [|done]. injection Hd as ->. injection H as <-.
  assert (is_address s) as Hs by (unfold is_address; by rewrite E).
  destruct (is_address_data s (set_Host s host) (stripped_host (set_Host s host)) Hs) as [Hne Hdata]. rewrite E in Hdata.
  destruct (add_addressed_spec (srv_for (QName_ r)) addr_for (NewSRV (set_Host s host) (QName_ r) (srv_weight w s))
    (stripped_host (set_Host s host)) (u16 (Port s)) (stripped_host (set_Host s host)) (Host s)
    (newAddress (set_Host s host) (stripped_host (set_Host s host)) ip what) g) as (K & G & S1 & S2); [done|..|done|].
  - split; [done|]. exists (u16 (Priority s)), (srv_weight w s). split; [done|]. apply srv_weight_bounds.
  - by split.
  - split_and!; [done..|]. intros host' _ _ [= ->]. by split.
Qed.

(** An SRV answer is complete.  Each service with a port, whose host is an
    address, is in the answer: an SRV record at the name asked for, with the
    port of the service, a weight from 1 to 65535 and as its target the name of
    the service's key, and in the additional section an A or AAAA record that
    gives this target the address of the service.  Duplicates left out are
    represented by a record that says the same. *)
Theorem SRV_complete zone r ss records extra s host :
  b_Services r false = Ok ss -> SRV zone r = Ok (records, extra) ->
  s ∈ ss -> Port s <> -1 -> is_address s -> Domain (Key s) = Ok host ->
  let target := stripped_host (set_Host s host) in
  (exists rr, rr ∈ records /\ srv_for (QName_ r) target (u16 (Port s)) rr) /\
  (exists a, a ∈ extra /\ addr_for target (Host s) a).
Proof.
  unfold SRV. intros -> H Hs Hp Ha Hd. apply bind_ok_inv in H as (ss' & Hss & H). injection Hss as <-.
  apply bind_ok_inv in H as (g & H & Hg). injection Hg as <- <-.
  apply (gather_spec (srv_for (QName_ r)) addr_for) with (served := srv_served (QName_ r)) in H as [_ H].
  - by apply H.
  - intros s' g1 g2 [G1 G2] Hs' h P1 P2 P3. destruct (Hs' h P1 P2 P3) as [(? & ? & ?) (? & ? & ?)]. split; eauto.
  - intros s' g1 g2. apply srv_step_spec.
  - split; by intros ? ? ?%elem_of_nil || intros ? ? ? ?%elem_of_nil.
Qed.

Definition mx_served q s (g : gathered) : Prop :=
  forall host, Mail s = true -> is_address s -> Domain (Key s) = Ok host ->
  (exists rr, rr ∈ g_records g /\ mx_for q (stripped_host (set_Host s host)) (u16 (Priority s)) rr) /\
  (exists a, a ∈ g_extra g /\ addr_for host (Host s) a).

Lemma mx_step_spec zone r s g g' :
  mx_step zone r s g = Ok g' -> kept (mx_for (QName_ r)) addr_for g ->
  kept (mx_for (QName_ r)) addr_for g' /\ grows g g' /\ mx_served (QName_ r) s g'.
Proof.
  unfold mx_step, mx_served. intros H Hk. destruct (Mail s); [|injection H as <-; split_and!; [done|by split|done]].
  cbn [negb] in H. destruct (HostType s) as [what ip] eqn:E. case_decide as Hc.
  { eapply add_named_spec in H as [K G]; [|done]. split_and!; [done..|].
    intros host _ Ha. unfold is_address in Ha. rewrite E in Ha. simpl in Ha. subst what. by destruct Ha. }
  case_decide as Ha.
  2: { injection H as <-. split_and!; [done|by split|]. intros host _ Ha'. unfold is_address in Ha'. by rewrite E in Ha'. }
  apply bind_ok_inv in H as (host & Hd & H). destruct (Domain (Key s)) as [d|]; [|done]. injection Hd as ->. injection H as <-.
  assert (is_address s) as Hs by (unfold is_address; by rewrite E).
  destruct (is_address_data s (set_Host s host) host Hs) as [Hne Hdata]. rewrite E in Hdata.
  destruct (add_addressed_spec (mx_for (QName_ r)) addr_for (NewMX (set_Host s host) (QName_ r))
    (stripped_host (set_Host s host)) (u16 (Priority s)) host (Host s)
    (newAddress (set_Host s host) host ip what) g) as (K & G & S1 & S2); [done|by split|by split|done|].
  split_and!; [done..|]. intros host' _ _ [= ->]. by split.
Qed.

(** Each mail service whose host is an address is in an MX answer, and so is
    its address, owned by the name of its key. *)
Lemma MX_complete zone r ss records extra s host :
  b_Services r false = Ok ss -> MX zone r = Ok (records, extra) ->
  s ∈ ss -> Mail s = true -> is_address s -> Domain (Key s) = Ok host ->
  (exists rr, rr ∈ records /\ mx_for (QName_ r) (stripped_host (set_Host s host)) (u16 (Priority s)) rr) /\
  (exists a, a ∈ extra /\ addr_for host (Host s) a).
Proof.
  unfold MX. intros -> H Hs Hp Ha Hd. apply bind_ok_inv in H as (ss' & Hss & H). injection Hss as <-.
  apply bind_ok_inv in H as (g & H & Hg). injection Hg as <- <-.
  apply (gather_spec (mx_for (QName_ r)) addr_for) with (served := mx_served (QName_ r)) in H as [_ H].
  - by apply H.
  - intros s' g1 g2 [G1 G2] Hs' h P1 P2 P3. destruct (Hs' h P1 P2 P3) as [(? & ? & ?) (? & ? & ?)]. split; eauto.
  - intros s' g1 g2. apply mx_step_spec.
  - split; by intros ? ? ?%elem_of_nil || intros ? ? ? ?%elem_of_nil.
Qed.

(** ** Address records of a name *)

(** A service that is not a name has a record, its own or that of another
    service with the same text. *)
Lemma services_loop_leaf again k zone r prev ss dup records tc out tc' :
  services_loop again k zone r prev ss dup records tc = Ok (out, tc') ->
  records ⊆ out /\
  forall s key rr, s ∈ ss -> (HostType s).1 <> TypeCNAME -> k_record k s (QName_ r) = Some (key, rr) -> key ∉ dup ->
  exists s' rr', s' ∈ ss /\ k_record k s' (QName_ r) = Some (key, rr') /\ rr' ∈ out.
Proof.
  revert dup records tc. induction ss as [|s ss IH]; intros dup records tc; cbn [services_loop].
  { intros [= <- <-]. split; [done|]. by intros ? ? ? ?%elem_of_nil. }
  case_decide as Hc.
  - intros ([more tc1] & _ & H)%bind_ok_inv. apply IH in H as [Hsub H]. split; [set_solver|].
    intros s0 key rr [->|Hin]%elem_of_cons Hn Hr Hd; [done|].
    destruct (H s0 key rr) as (s' & rr' & ? & ? & ?); [done..|]. exists s', rr'. split; [by right|done].
  - destruct (k_record k s (QName_ r)) as [[key0 rr0]|] eqn:E; [case_decide as Hd0|]; intros H; apply IH in H as [Hsub H].
    + split; [done|]. intros s0 key rr [->|Hin]%elem_of_cons Hn Hr Hd; [rewrite E in Hr; by injection Hr as -> ->|].
      destruct (H s0 key rr) as (s' & rr' & ? & ? & ?); [done..|]. exists s', rr'. split; [by right|done].
    + split; [set_solver|]. intros s0 key rr Hin Hn Hr Hd. destruct (decide (key = key0)) as [->|Hne].
      { exists s, rr0. split_and!; [by left|done|]. apply Hsub. set_solver. }
      apply elem_of_cons in Hin as [->|Hin]; [rewrite E in Hr; by injection Hr as -> ->|].
      destruct (H s0 key rr) as (s' & rr' & ? & ? & ?); [done..|set_solver|]. exists s', rr'. split; [by right|done].
    + split; [done|]. intros s0 key rr [->|Hin]%elem_of_cons Hn Hr Hd; [by rewrite E in Hr|].
      destruct (H s0 key rr) as (s' & rr' & ? & ? & ?); [done..|]. exists s', rr'. split; [by right|done].
Qed.

(** The loop fails only with a fault. *)
Lemma services_loop_fails again k zone r prev ss dup records tc err :
  services_loop again k zone r prev ss dup records tc = Err err -> exists f, err = Fault f.
Proof.
  revert dup records tc. induction ss as [|s ss IH]; intros dup records tc; [done|]. cbn [services_loop]. case_decide.
  - destruct (follow _ _ _ _ _ _) as [[more tc']|x] eqn:E; [apply IH|]. intros [= <-]. revert E. unfold follow.
    destruct (name_Matches _ _); [done|]. case_decide; [done|]. destruct (DuplicateCNAME _ _); [done|].
    destruct (IsSubDomain _ _).
    + destruct (NewWithQuestion _ _ _); simpl; [|intros [= <-]; eauto].
      destruct (again _ _) as [[[|] ?]|[| |]]; intros [= <-]; eauto.
    + destruct (b_Lookup _ _ _) as [[|]|[| |]]; intros [= <-]; eauto.
  - destruct (k_record _ _ _) as [[key rr]|]; [case_decide|]; apply IH.
Qed.

(** An A lookup below the apex, when lookups elsewhere do not panic: it
    returns, with a record for each IPv4 service. *)
Lemma A_found zone r ss :
  Question r <> [] -> (forall r n t f, b_Lookup r n t = Err (Fault f) -> Question r = []) ->
  Name_ r <> zone -> b_Services r false = Ok ss ->
  exists records tc, A zone r [] = Ok (records, tc) /\
    forall s ip, s ∈ ss -> HostType s = (TypeA, ip) ->
    exists rr, rr ∈ records /\ rr_name rr = QName_ r /\ rr_type rr = TypeA /\ Data rr = RA ip.
Proof.
  intros Hq Hl Hn Hs. unfold A. set (F := fun _ : go_fault => False).
  assert (forall r0 n t, asks F r0 -> within F (b_Lookup r0 n t)) as HL by (intros r0 n t [H0|[]] f Hf; by apply Hl in Hf).
  pose proof (chase_within F HL chain_fuel kind_A zone r []) as Hw.
  assert (chase chain_fuel kind_A zone r [] = services_loop (chase (S maxCnameChainLength) kind_A zone) kind_A zone r [] ss [] [] false) as E.
  { cbn [chase chain_fuel k_services kind_A]. unfold checkForApex. rewrite decide_True by done. by rewrite Hs. }
  rewrite E in *. destruct (services_loop _ _ _ _ _ _ _ _ _) as [[records tc]|err] eqn:Eloop.
  - exists records, tc. split; [done|]. intros s ip Hin Ht. apply services_loop_leaf in Eloop as [_ H].
    destruct (H s (Host s) (NewA s (QName_ r) ip)) as (s' & rr & Hin' & Hr & Ho).
    + done.
    + by rewrite Ht.
    + simpl. by rewrite Ht.
    + apply not_elem_of_nil.
    + exists rr. split; [done|]. simpl in Hr. destruct (HostType s') as [what ip'] eqn:E'. case_decide; [|done]. injection Hr as Hh <-.
      split_and!; [done..|]. simpl. f_equal. subst what. revert E' Ht. unfold HostType. rewrite Hh.
      destruct (ParseIP (Host s)) as [x|]; [destruct (To4 x); naive_solver|by case_decide].
  - apply services_loop_fails in Eloop as [f ->]. assert (1 <= chain_fuel)%nat by (unfold chain_fuel; lia).
    destruct (Hw ltac:(by left) ltac:(by left) ltac:(lia) ltac:(lia) f). done.
Qed.

End facts.
