(* ===== verification/Etcd.v ===== *)
(** * The etcd plugin (plugin/etcd)

    Services kept as JSON values under the keys of an etcd cluster: how the
    keys of a name are fetched and decoded ([Records]), the back end they make
    ([etcd_backend], an instance of [ServiceBackend]), and the handler.  The
    client of the cluster and JSON decoding are parameters.  A name outside
    the zone is looked up by asking the server again ([Upstream_Lookup],
    plugin/pkg/upstream with plugin/pkg/nonwriter). *)

From Stdlib Require Import Ascii ZArith Lia.
From stdpp Require Import base numbers gmap strings list.
From S2P Require Import Prelude DnsTypes DnsLib Ip GoStrings Serve Xfer FileZone Server Filters Backend.

Local Open Scope Z_scope.

Definition defaultPriority : Z := 10.
Definition defaultTTL : Z := 300.
Definition defaultLeaseMinTTL : Z := 30.
Definition defaultLeaseMaxTTL : Z := 86400.

(** A key of the store; a lease of 0 is none. *)
Record KeyValue := mkKV { kv_Key : string; kv_Value : string; kv_Lease : Z }.
Record GetResponse := mkGet { Kvs : list KeyValue; Count : Z }.

Inductive etcd_error : Type :=
| errKeyNotFound
| ClientError (e : string)
| DecodeError (key e : string)
| NoServer.

#[export] Instance etcd_error_eq_dec : EqDecision etcd_error.
Proof. solve_decision. Defined.

(** The cluster: [Get] of a key, or of a prefix; the seconds a lease has left;
    and [json.Unmarshal] into a service. *)
Class EtcdClient := {
  Get : string -> bool -> result string GetResponse;
  TimeToLive : Z -> result string Z;
  Unmarshal_Service : string -> result string Service }.

(** ** Asking the server again (plugin/pkg/upstream) *)

(** [resolve] is the server with the message it would write last, [None] when
    no server is running. *)
Definition Upstream_Lookup {E : Type} (no_server : E) (resolve : option (Msg -> result go_fault (option Msg)))
    {L : DnsLib} (r : Msg) (name : string) (typ : Z) : result (lookup_error E) (option Msg) :=
  match resolve with
  | None => Err (BackendErr no_server)
  | Some serve =>
      req ← lift Fault (NewWithQuestion r name typ);
      lift Fault (serve req)
  end.

(** What a [nonwriter.Writer] holds after the server has handled a request. *)
Definition resolve_with (handle : Msg -> Handled) (r : Msg) : result go_fault (option Msg) :=
  let h := handle r in
  if died h then Err NilDeref else Ok (fst <$> last (messages h)).

Section etcd.
Context {L : DnsLib} {N : DnsNames} {C : EtcdClient}.

Record Etcd := mkEtcd {
  e_Fall : list string;
  e_Zones : list string;
  PathPrefix : string;
  Upstream : option (Msg -> result go_fault (option Msg));
  MinLeaseTTL : Z;
  MaxLeaseTTL : Z }.

Definition get_key (path : string) : result etcd_error GetResponse :=
  r ← lift ClientError (Get path false);
  if decide (Count r = 0) then Err errKeyNotFound else Ok r.

Definition get (path : string) (recursive : bool) : result etcd_error GetResponse :=
  if recursive then
    let path := if HasSuffix path "/" then path else path +:+ "/" in
    r ← lift ClientError (Get path true);
    if decide (Count r = 0) then get_key (TrimSuffix path "/") else Ok r
  else get_key path.

(** The name of a query with wildcards against the segments of a key. *)
Fixpoint parts_match (nameParts keyParts : list string) : bool :=
  match nameParts, keyParts with
  | [], _ => true
  | _ :: _, [] => false
  | n :: ns, k :: ks => if decide (n = "*" \/ n = "any" \/ k = n) then parts_match ns ks else false
  end.

(** [Etcd.TTL] *)
Definition lease_ttl (e : Etcd) (kv : KeyValue) : Z :=
  if decide (kv_Lease kv = 0) then 0
  else match TimeToLive (kv_Lease kv) with
       | Err _ => 0
       | Ok leaseTTL =>
           if decide (leaseTTL <= 0) then 0
           else
             let minTTL := if decide (MinLeaseTTL e = 0) then defaultLeaseMinTTL else MinLeaseTTL e in
             let maxTTL := if decide (MaxLeaseTTL e = 0) then defaultLeaseMaxTTL else MaxLeaseTTL e in
             u32 (if decide (leaseTTL < minTTL) then minTTL else if decide (maxTTL < leaseTTL) then maxTTL else leaseTTL)
       end.

Definition etcd_TTL (e : Etcd) (kv : KeyValue) (serv : Service) : Z :=
  let etcdTTL := lease_ttl e kv in
  if decide (etcdTTL = 0 /\ TTL serv = 0) then defaultTTL
  else if decide (etcdTTL = 0) then TTL serv
  else if decide (TTL serv = 0) then etcdTTL
  else if decide (etcdTTL < TTL serv) then etcdTTL else TTL serv.

Definition shouldInclude (serv : Service) (qType : Z) : bool :=
  (bool_decide (qType = TypeTXT) && bool_decide (Text serv <> EmptyString)) || bool_decide (Host serv <> EmptyString).

Definition set_Key (s : Service) (k : string) : Service :=
  mkService (Host s) (Port s) (Priority s) (Weight s) (Text s) (Mail s) (TTL s) (TargetStrip s) (Group_ s) k.

(** The service with its TTL and its priority filled in. *)
Definition completed (e : Etcd) (kv : KeyValue) (s : Service) : Service :=
  mkService (Host s) (Port s) (if decide (Priority s = 0) then defaultPriority else Priority s) (Weight s) (Text s)
    (Mail s) (etcd_TTL e kv s) (TargetStrip s) (Group_ s) (Key s).

Fixpoint loopNodes (e : Etcd) (kvs : list KeyValue) (nameParts : list string) (star : bool) (qType : Z) (bx : list Service)
  : result etcd_error (list Service) :=
  match kvs with
  | [] => Ok []
  | n :: kvs' =>
      if star && negb (parts_match nameParts (Split (kv_Key n) "/"%char)) then loopNodes e kvs' nameParts star qType bx
      else
        serv ← lift (DecodeError (kv_Key n)) (Unmarshal_Service (kv_Value n));
        let serv := set_Key serv (kv_Key n) in
        if decide (serv ∈ bx) then loopNodes e kvs' nameParts star qType bx
        else
          sx ← loopNodes e kvs' nameParts star qType (serv :: bx);
          let s := completed e n serv in
          Ok (if shouldInclude s qType then s :: sx else sx)
  end.

Definition Records (e : Etcd) (state : Msg) (exact : bool) : result etcd_error (list Service) :=
  let name := Name_ state in
  let '(path, star) := PathWithWildcard name (PathPrefix e) in
  r ← get path (negb exact);
  let segments := Split (Path name (PathPrefix e)) "/"%char in
  loopNodes e (Kvs r) segments star (QType_ state) [].

Definition Services (e : Etcd) (state : Msg) (exact : bool) : result etcd_error (list Service) :=
  services ← Records e state exact;
  Ok (Group services).

Definition IsNameError (err : etcd_error) : bool := bool_decide (err = errKeyNotFound).

Definition MinTTL : Z := 30.

(** [now] is the time in seconds. *)
Definition Serial_now (now : Z) : Z := u32 now.

Definition etcd_backend (e : Etcd) (now : Z) : ServiceBackend := {|
  berror := etcd_error;
  b_Services := Services e;
  b_Reverse := Services e;
  b_Lookup := Upstream_Lookup NoServer (Upstream e);
  b_IsNameError := IsNameError;
  b_Serial := fun _ => Serial_now now;
  b_MinTTL := fun _ => MinTTL |}.

(** ** The handler *)

(** The request after the lookups: those that ask under another name put the
    name back as it prints. *)
Definition looked_up (zone : string) (r : Msg) : Msg :=
  if decide (Name_ r = zone /\ QType_ r ∉ [TypeTXT; TypeCNAME; TypePTR; TypeMX; TypeSRV; TypeSOA])
  then match set_first_name r (QName_ r) with Ok r' => r' | Err _ => r end
  else r.

Section handler.
Context (e : Etcd) (now : Z).
#[local] Instance the_backend : ServiceBackend := etcd_backend e now.

Definition lookup_type (zone : string) (r : Msg) : result (lookup_error berror) found_ :=
  let plain x := '(records, tc) ← x; Ok (records, [], tc) in
  let only x := records ← x; Ok (records, [], false) in
  let both x := '(records, extra) ← x; Ok (records, extra, false) in
  let t := QType_ r in
  if decide (t = TypeA) then plain (A zone r [])
  else if decide (t = TypeAAAA) then plain (AAAA zone r [])
  else if decide (t = TypeTXT) then plain (TXT zone r [])
  else if decide (t = TypeCNAME) then only (CNAME r)
  else if decide (t = TypePTR) then only (PTR r)
  else if decide (t = TypeMX) then both (MX zone r)
  else if decide (t = TypeSRV) then both (SRV zone r)
  else if decide (t = TypeSOA) then only (SOA zone r)
  else if decide (t = TypeNS /\ Name_ r = zone) then both (NS zone r)
  else (* an A lookup tells a name without data from no name *)
    _ ← A zone r []; Ok ([], [], false).

Definition etcd_ServeDNS (next : option Chain) : Chain := fun r =>
  let zone := Matches (e_Zones e) (Name_ r) in
  if decide (zone = EmptyString) then next_or_failure next r
  else
    let r' := looked_up zone r in
    match lookup_type zone r with
    | Err (Fault f) => (None, Err f)
    | Err err =>
        if is_name_error err then
          if Through (e_Fall e) (Name_ r) then next_or_failure next r'
          else backend_error zone RcodeNameError r'
        else backend_error zone RcodeServerFailure r'
    | Ok ([], _, _) => backend_error zone RcodeSuccess r'
    | Ok f => (Some (reply_found r' f), Ok RcodeSuccess)
    end.

End handler.

End etcd.
