(* ===== verification/EtcdFacts.v ===== *)
(** * Properties of the etcd plugin

    What is stored is served ([etcd_serves]) and what is not is denied
    ([etcd_denies]); the handler keeps the protocol of plugins; the lifetime a
    lease gives is bounded; the name of a key is the name it is stored for
    ([Domain_Path]); and two zones that point at each other are followed
    without end ([zones_chase_each_other]). *)

From Stdlib Require Import Ascii ZArith Lia.
From stdpp Require Import base numbers gmap strings list.
From S2P Require Import Prelude DnsTypes DnsLib Ip GoStrings Http Serve Xfer FileZone Server ServerFacts Filters FilterFacts Backend BackendFacts Etcd.

Local Open Scope Z_scope.

Section facts.
Context {L : DnsLib} {N : DnsNames} {C : EtcdClient}.

Implicit Types (e : Etcd) (r : Msg) (kv : KeyValue) (s : Service) (sx : list Service).

(** ** Lifetimes *)

Definition min_lease e : Z := if decide (MinLeaseTTL e = 0) then defaultLeaseMinTTL else MinLeaseTTL e.
Definition max_lease e : Z := if decide (MaxLeaseTTL e = 0) then defaultLeaseMaxTTL else MaxLeaseTTL e.

(** A lease that has time left gives a lifetime within the configured bounds,
    and no service outlives it. *)
Lemma lease_bounds e kv s t :
  0 <= MinLeaseTTL e < 2 ^ 32 -> 0 <= MaxLeaseTTL e < 2 ^ 32 -> min_lease e <= max_lease e -> 0 <= TTL s ->
  kv_Lease kv <> 0 -> TimeToLive (kv_Lease kv) = Ok t -> 0 < t ->
  min_lease e <= lease_ttl e kv <= max_lease e /\ 0 < etcd_TTL e kv s <= lease_ttl e kv.
Proof.
  intros Hmin Hmax Hle Hs Hl Ht Hpos.
  assert (0 < min_lease e /\ max_lease e < 2 ^ 32) as [Hm HM].
  { unfold min_lease, max_lease, defaultLeaseMinTTL, defaultLeaseMaxTTL. do 2 case_decide; lia. }
  assert (min_lease e <= lease_ttl e kv <= max_lease e) as Hb.
  { unfold lease_ttl. rewrite decide_False, Ht, decide_False by (done || lia). cbv zeta. fold (min_lease e). fold (max_lease e).
    assert (forall x, min_lease e <= x <= max_lease e -> min_lease e <= u32 x <= max_lease e) as Hu.
    { intros x Hx. unfold u32. rewrite Z.mod_small; lia. }
    apply Hu. repeat case_decide; lia. }
  split; [done|]. unfold etcd_TTL. cbv zeta. repeat case_decide; lia.
Qed.

(** ** The handler keeps the protocol *)

Lemma backend_error_protocol {B : ServiceBackend} zone rc r m res :
  backend_error zone rc r = (m, res) -> match res with Ok c => is_Some m <-> ClientWrite c = true | Err _ => m = None end.
Proof. unfold backend_error. destruct (BackendError _ _ _) as [?|[| |]]; intros [= <- <-]; naive_solver. Qed.

Lemma etcd_plugin_ok name e now : plugin_ok (mkPlugin name (etcd_ServeDNS e now)).
Proof.
  intros next Hn r. apply next_or_failure_protocol in Hn. simpl. unfold etcd_ServeDNS. case_decide; [apply Hn|]. cbv zeta.
  destruct (lookup_type _ _ _ _) as [[[[|rr records] extra] tc]|err].
  - destruct (backend_error _ _ _) as [m res] eqn:E. by apply backend_error_protocol in E.
  - split; [done|]. by eexists.
  - assert (forall rc, match @backend_error _ (etcd_backend e now) (Matches (e_Zones e) (Name_ r)) rc (looked_up (Matches (e_Zones e) (Name_ r)) r) with
      | (m, Ok c) => is_Some m <-> ClientWrite c = true | (m, Err _) => m = None end) as Hb.
    { intros rc. destruct (backend_error _ _ _) as [m res] eqn:E. by apply backend_error_protocol in E. }
    destruct err as [err| |]; [|apply Hb|done]. destruct (is_name_error _); [destruct (Through _ _)|]; [apply Hn|apply Hb..].
Qed.

(** ** What is stored is served *)

Lemma before_wildcard_none l : (before_wildcard l).2 = false -> before_wildcard l = (l, false).
Proof.
  induction l as [|k l IH]; simpl; [done|]. case_decide; [done|]. destruct (before_wildcard l) as [p b]. simpl in *.
  intros ->. by injection (IH eq_refl) as ->.
Qed.

(** The prefix a recursive [get] asks for. *)
Definition below (path : string) : string := if HasSuffix path "/" then path else path +:+ "/".

Lemma group_loop_none sx n ls : Forall (fun s => Group_ s = EmptyString) sx -> (group_loop sx n EmptyString ls).1.1 = EmptyString.
Proof.
  intros H. revert n ls. induction H as [|s sx Hs H IH]; intros n ls; simpl; [done|]. case_decide; [|apply IH]. by rewrite decide_True.
Qed.

Lemma Group_none sx : Forall (fun s => Group_ s = EmptyString) sx -> Group sx = sx.
Proof.
  intros H. unfold Group. destruct sx as [|s0 sx]; [done|]. assert (Group_ s0 = EmptyString) as E by by inv H. rewrite E.
  pose proof (group_loop_none (s0 :: sx) (slashes_of s0) [] H) as Hg. destruct (group_loop _ _ _ _) as [[g n] ls]. simpl in Hg. subst g.
  by rewrite decide_True.
Qed.

(** Every value is a service without a group. *)
Definition decodes kv : Prop := exists s, Unmarshal_Service (kv_Value kv) = Ok s /\ Group_ s = EmptyString.

Lemma loopNodes_keeps e kvs parts t bx :
  Forall decodes kvs ->
  exists sx, loopNodes e kvs parts false t bx = Ok sx /\ Forall (fun s => Group_ s = EmptyString) sx /\
    forall kv s, kv ∈ kvs -> Unmarshal_Service (kv_Value kv) = Ok s -> Host s <> EmptyString -> set_Key s (kv_Key kv) ∉ bx ->
    exists kv', kv' ∈ kvs /\ completed e kv' (set_Key s (kv_Key kv)) ∈ sx.
Proof.
  intros H. revert bx. induction H as [|kv kvs (s & Hs & Hg) H IH]; intros bx; cbn [loopNodes].
  { exists []. split_and!; [done..|]. by intros ? ? ?%elem_of_nil. }
  rewrite Hs. simpl. case_decide as Hb.
  - destruct (IH bx) as (sx & -> & Hsx & Hin). exists sx. split_and!; [done..|].
    intros kv' s' [->|Hk]%elem_of_cons Hs' Hne Hn; [rewrite Hs in Hs'; injection Hs' as <-; done|].
    destruct (Hin kv' s') as (kv2 & ? & ?); [done..|]. exists kv2. split; [by right|done].
  - destruct (IH (set_Key s (kv_Key kv) :: bx)) as (sx & -> & Hsx & Hin). simpl. eexists. split; [done|]. split.
    { destruct (shouldInclude _ _); [constructor; [done|done]|done]. }
    intros kv' s' Hk Hs' Hne Hn. destruct (decide (set_Key s' (kv_Key kv') = set_Key s (kv_Key kv))) as [E|E].
    + exists kv. split; [by left|]. rewrite E. unfold shouldInclude.
      rewrite (bool_decide_true (Host (completed _ _ _) <> EmptyString)), orb_true_r; [by left|]. simpl.
      by replace (Host s) with (Host s') by (by injection E).
    + apply elem_of_cons in Hk as [->|Hk]; [rewrite Hs in Hs'; by injection Hs' as <-|].
      destruct (Hin kv' s') as (kv2 & ? & ?); [done..|set_solver|]. exists kv2. split; [by right|].
      destruct (shouldInclude _ _); [by right|done].
Qed.

Section store.

(** The keys of the cluster; [Get] gives those with a prefix, or the one with
    a name. *)
Context (keys : list KeyValue).
Context (Get_prefix : forall p, Get p true =
  Ok (mkGet (filter (fun kv => HasPrefix (kv_Key kv) p = true) keys)
        (Z.of_nat (length (filter (fun kv => HasPrefix (kv_Key kv) p = true) keys))))).
Context (Get_name : forall p, Get p false =
  Ok (mkGet (filter (fun kv => kv_Key kv = p) keys) (Z.of_nat (length (filter (fun kv => kv_Key kv = p) keys))))).

Lemma Services_stored e r kv s :
  let p := below (Path (Name_ r) (PathPrefix e)) in
  (before_wildcard (reverse (SplitDomainName (Name_ r)))).2 = false ->
  (forall kv, kv ∈ keys -> HasPrefix (kv_Key kv) p = true -> decodes kv) ->
  kv ∈ keys -> HasPrefix (kv_Key kv) p = true -> Unmarshal_Service (kv_Value kv) = Ok s -> Host s <> EmptyString ->
  exists sx s', Services e r false = Ok sx /\ s' ∈ sx /\ Host s' = Host s /\ Text s' = Text s.
Proof.
  intros p Hw Hdec Hkv Hp Hs Hh. unfold Services, Records, PathWithWildcard.
  apply before_wildcard_none in Hw. rewrite Hw. cbn [negb]. fold (Path (Name_ r) (PathPrefix e)).
  unfold get. fold (below (Path (Name_ r) (PathPrefix e))). fold p. rewrite Get_prefix. cbn [lift mbind result_bind Count Kvs].
  assert (kv ∈ filter (fun kv => HasPrefix (kv_Key kv) p = true) keys) as Hf by by apply list_elem_of_filter.
  set (kvs := filter _ keys) in *. rewrite decide_False; [|destruct kvs; [by apply elem_of_nil in Hf|simpl; lia]].
  cbn [mbind result_bind Kvs].
  destruct (loopNodes_keeps e kvs (Split (Path (Name_ r) (PathPrefix e)) "/"%char) (QType_ r) []) as (sx & -> & Hg & Hin).
  { apply Forall_forall. intros kv' [? ?]%list_elem_of_filter. by apply Hdec. }
  destruct (Hin kv s) as (kv' & _ & Hin'); [done..|apply not_elem_of_nil|].
  exists sx. eexists. split; [simpl; by rewrite Group_none|]. by split_and!.
Qed.

(** Lookups elsewhere do not panic. *)
Definition upstream_ok e : Prop := forall u r f, Upstream e = Some u -> u r <> Err f.

Lemma Upstream_Lookup_ok e r n t f : upstream_ok e -> Upstream_Lookup NoServer (Upstream e) r n t = Err (Fault f) -> Question r = [].
Proof.
  intros Hu. unfold Upstream_Lookup. destruct (Upstream e) as [u|] eqn:E; [|done]. unfold NewWithQuestion.
  destruct (Question r); [done|]. simpl. destruct (u _) as [|f'] eqn:E'; [done|]. by apply Hu in E'.
Qed.

(** C17. What is stored is served.  If a key below the path of a name holds a
    service with an IPv4 address, and the values below that path are services
    without groups, then an A query for this name, in a zone of the plugin and
    below its apex, is answered with success and authority, with an A record
    of that address owned by the name as asked.  The name has no
    wildcard label (a star or any), and lookups elsewhere do not panic. *)
Theorem etcd_serves e now next r kv s ip :
  let zone := Matches (e_Zones e) (Name_ r) in
  let p := below (Path (Name_ r) (PathPrefix e)) in
  upstream_ok e -> Question r <> [] -> QType_ r = TypeA -> zone <> EmptyString -> Name_ r <> zone ->
  (before_wildcard (reverse (SplitDomainName (Name_ r)))).2 = false ->
  (forall kv, kv ∈ keys -> HasPrefix (kv_Key kv) p = true -> decodes kv) ->
  kv ∈ keys -> HasPrefix (kv_Key kv) p = true -> Unmarshal_Service (kv_Value kv) = Ok s -> HostType s = (TypeA, ip) ->
  exists m rr, etcd_ServeDNS e now next r = (Some m, Ok RcodeSuccess) /\
    Rcode m = Rcode (SetReply r) /\ Question m = Question (SetReply r) /\ Authoritative m = true /\
    rr ∈ Answer m /\ rr_name rr = QName_ r /\ rr_type rr = TypeA /\ Data rr = RA ip.
Proof.
  intros zone p Hu Hq Ht Hz Hn Hw Hdec Hkv Hp Hs Hip.
  assert (Host s <> EmptyString) as Hh.
  { intros E. revert Hip. unfold HostType. rewrite E. simpl. by case_decide. }
  destruct (Services_stored e r kv s Hw Hdec Hkv Hp Hs Hh) as (sx & s' & HS & Hin & EH & ET).
  assert (HostType s' = (TypeA, ip)) as Hip' by (revert Hip; unfold HostType; by rewrite EH, ET).
  destruct (@A_found L N (etcd_backend e now) zone r sx) as (records & tc & HA & Hall); [done| |done|done|].
  { intros r0 n t f. by apply Upstream_Lookup_ok. }
  destruct (Hall s' ip Hin Hip') as (rr & Hrr & Ho & Hty & Hd).
  exists (reply_found r (records, [], tc)), rr. split; [|by split_and!].
  unfold etcd_ServeDNS. fold zone. rewrite decide_False by done. unfold lookup_type, the_backend. rewrite Ht, decide_True by done.
  rewrite HA. cbn. unfold looked_up. rewrite decide_False by naive_solver. by destruct records; [apply elem_of_nil in Hrr|].
Qed.

Lemma Join_ok labels : labels <> [] -> exists n, Join labels = Ok n.
Proof.
  intros H. unfold Join. destruct (last labels) eqn:E; [case_decide; eauto|]. by apply last_None in E.
Qed.

(** No key is at the path of the name or below it. *)
Definition no_keys e r : Prop :=
  forall kv, kv ∈ keys ->
  let path := Path (Name_ r) (PathPrefix e) in
  HasPrefix (kv_Key kv) (below path) = false /\ kv_Key kv <> path /\ kv_Key kv <> TrimSuffix (below path) "/".

Lemma get_key_none path : (forall kv, kv ∈ keys -> kv_Key kv <> path) -> get_key path = Err errKeyNotFound.
Proof.
  intros H. unfold get_key. rewrite Get_name. replace (filter (fun kv => kv_Key kv = path) keys) with (@nil KeyValue); [done|].
  symmetry. apply filter_none. by intros kv ?%H.
Qed.

Lemma Services_none e r exact :
  (before_wildcard (reverse (SplitDomainName (Name_ r)))).2 = false -> no_keys e r ->
  Services e r exact = Err errKeyNotFound.
Proof.
  intros Hw Hno. unfold Services, Records, PathWithWildcard. apply before_wildcard_none in Hw. rewrite Hw.
  fold (Path (Name_ r) (PathPrefix e)). unfold get. destruct exact; cbn [negb].
  - rewrite get_key_none; [done|]. intros kv Hk. apply (Hno kv Hk).
  - fold (below (Path (Name_ r) (PathPrefix e))). rewrite Get_prefix.
    replace (filter (fun kv => HasPrefix (kv_Key kv) (below (Path (Name_ r) (PathPrefix e))) = true) keys) with (@nil KeyValue).
    + simpl. rewrite get_key_none; [done|]. intros kv Hk. apply (Hno kv Hk).
    + symmetry. apply filter_none. intros kv Hk. destruct (Hno kv Hk) as [-> _]. done.
Qed.

(** A name below the apex without keys does not exist: the query, of any type
    but SOA, is answered with NXDOMAIN, authority and the SOA record of the
    zone. *)
Lemma etcd_denies e now next r :
  let zone := Matches (e_Zones e) (Name_ r) in
  zone <> EmptyString -> Name_ r <> zone -> QType_ r <> TypeSOA -> Through (e_Fall e) (Name_ r) = false ->
  (before_wildcard (reverse (SplitDomainName (Name_ r)))).2 = false -> no_keys e r ->
  exists m soa, etcd_ServeDNS e now next r = (Some m, Ok RcodeSuccess) /\
    Rcode m = RcodeNameError /\ Authoritative m = true /\ Ns_ m = [soa] /\ rr_name soa = zone /\ rr_type soa = TypeSOA.
Proof.
  intros zone Hz Hn Ht Hf Hw Hno. unfold etcd_ServeDNS. fold zone. rewrite decide_False by done. cbv zeta.
  assert (lookup_type e now zone r = Err (BackendErr errKeyNotFound)) as ->.
  { assert (@checkForApex L (etcd_backend e now) zone r = Err (BackendErr errKeyNotFound)) as Hc.
    { unfold checkForApex. rewrite decide_True by done. simpl. by rewrite Services_none. }
    unfold lookup_type, A, AAAA, TXT, CNAME, PTR, MX, SRV, the_backend. cbn [chain_fuel chase k_services kind_A kind_AAAA kind_TXT].
    rewrite Hc. cbn [b_Services b_Reverse etcd_backend]. rewrite !Services_none by done.
    repeat (case_decide; [try done|]); try done. naive_solver. }
  cbn [is_name_error b_IsNameError etcd_backend the_backend]. unfold IsNameError. rewrite bool_decide_true, Hf by done.
  unfold looked_up. rewrite decide_False by naive_solver. unfold backend_error, BackendError, SOA.
  destruct (Join_ok ["hostmaster"; zone]) as [mbox ->]; [done|]. destruct (Join_ok ["ns.dns"; zone]) as [ns ->]; [done|].
  eexists _, _. by split_and!.
Qed.

End store.

(** ** The name of a key *)

Definition segment (s : string) : Prop := s <> EmptyString /\ s <> dot /\ s <> ".." /\ Split s "/"%char = [s].

Lemma Split_JoinStr (l : list string) :
  l <> [] -> Forall (fun x => Split x "/"%char = [x]) l -> Split (JoinStr l "/") "/"%char = l.
Proof.
  intros Hne H. induction H as [|x l Hs H IH]; [done|]. destruct l as [|y l]; [done|].
  change (JoinStr (x :: y :: l) "/") with (x +:+ String "/"%char (JoinStr (y :: l) "/")).
  by rewrite Split_app_sep, Hs, IH.
Qed.

Lemma foldl_clean acc l : Forall segment l -> foldl clean_step acc l = acc ++ l.
Proof.
  intros H. revert acc. induction H as [|x l (H1 & H2 & H3 & _) H IH]; intros acc; simpl; [by rewrite app_nil_r|].
  unfold clean_step at 2. rewrite decide_False, decide_False by naive_solver. by rewrite IH, <-app_assoc.
Qed.

Lemma clean_empty acc : clean_step acc EmptyString = acc.
Proof. unfold clean_step. by rewrite decide_True by auto. Qed.

Lemma segments_split l : Forall segment l -> Forall (fun x => Split x "/"%char = [x]) l.
Proof. intros H. eapply Forall_impl; [done|by intros x (_ & _ & _ & ?)]. Qed.

(** The key of a name: its labels from the right. *)
Lemma Path_segments (s prefix : string) :
  segment prefix -> Forall segment (SplitDomainName s) -> SplitDomainName s <> [] ->
  Path s prefix = "/" +:+ JoinStr (prefix :: reverse (SplitDomainName s)) "/".
Proof.
  intros Hp Hl Hne. set (ls := reverse (SplitDomainName s)).
  assert (Forall segment ls) as Hls by by apply Forall_reverse. pose proof (segments_split ls Hls) as Hsp.
  assert (ls <> []) as Hne' by (intros E%(f_equal reverse); unfold ls in E; by rewrite reverse_involutive in E).
  unfold Path, path_Join, Clean. fold ls. rewrite filter_cons_True by done.
  assert (filter (fun s : string => s <> EmptyString) ls = ls) as ->.
  { clear -Hls. induction Hls as [|x l (Hx & _) H IH]; [done|]. rewrite filter_cons_True by done. by rewrite IH. }
  destruct ls as [|x ls']; [done|].
  change (JoinStr (("/" +:+ prefix +:+ "/") :: x :: ls') "/") with
    (("/" +:+ prefix +:+ "/") +:+ String "/"%char (JoinStr (x :: ls') "/")).
  rewrite Split_app_sep, Split_JoinStr by done.
  change ("/" +:+ prefix +:+ "/") with (EmptyString +:+ String "/"%char (prefix +:+ String "/"%char EmptyString)).
  rewrite !Split_app_sep. pose proof Hp as (_ & _ & _ & ->). rewrite !foldl_app.
  rewrite (foldl_clean _ (x :: ls')) by done. rewrite (foldl_clean _ [prefix]) by by apply Forall_singleton.
  cbn [foldl Split]. by rewrite !clean_empty.
Qed.

(** The name of a key. *)
Lemma Domain_segments (prefix : string) ls :
  segment prefix -> Forall segment ls -> ls <> [] -> Domain ("/" +:+ JoinStr (prefix :: ls) "/") = Join (reverse ls).
Proof.
  intros Hp Hls Hne. pose proof (segments_split ls Hls) as Hsp.
  change ("/" +:+ JoinStr (prefix :: ls) "/") with (EmptyString +:+ String "/"%char (JoinStr (prefix :: ls) "/")).
  unfold Domain. rewrite Split_app_sep, Split_JoinStr by (done || (constructor; [apply Hp|done])). cbv zeta.
  rewrite decide_False; [done|].
  destruct (exists_last Hne) as (l & y & E). rewrite E in Hls. apply Forall_app in Hls as [_ (Hy & _)%Forall_singleton].
  rewrite E. change (_ ++ prefix :: l ++ [y]) with ((EmptyString :: prefix :: l) ++ [y]). rewrite last_snoc. naive_solver.
Qed.

(** The key of a name under a prefix of one segment gives the name back. *)
Lemma Domain_Path (s prefix : string) :
  segment prefix -> Forall segment (SplitDomainName s) -> SplitDomainName s <> [] ->
  Domain (Path s prefix) = Join (SplitDomainName s).
Proof.
  intros Hp Hl Hne. rewrite Path_segments, Domain_segments by (done || (by apply Forall_reverse) ||
    (intros E%(f_equal reverse); by rewrite reverse_involutive in E)). by rewrite reverse_involutive.
Qed.

End facts.

(** ** A small cluster *)

Module EtcdSample.

#[local] Existing Instance PlainLib.lib.
#[local] Existing Instance Plain.names.

(** The values of this cluster are hosts. *)
Definition service (host : string) : Service := mkService host 8080 0 0 EmptyString false 0 0 EmptyString EmptyString.

Definition keys : list KeyValue :=
  [mkKV "/skydns/org/example/alias" "www.example.org" 0;
   mkKV "/skydns/org/example/c1" "c2.example.org" 0;
   mkKV "/skydns/org/example/c2" "c1.example.org" 0;
   mkKV "/skydns/org/example/www/x1" "10.0.0.1" 7;
   mkKV "/skydns/org/example/www/x2" "10.0.0.2" 0;
   mkKV "/skydns/org/one/x" "y.two.org" 0;
   mkKV "/skydns/org/two/y" "x.one.org" 0].

#[local] Instance client : EtcdClient := {|
  Get := fun p prefix =>
    let kvs := if prefix : bool then filter (fun kv => HasPrefix (kv_Key kv) p = true) keys else filter (fun kv => kv_Key kv = p) keys in
    Ok (mkGet kvs (Z.of_nat (length kvs)));
  TimeToLive := fun _ => Ok 12;
  Unmarshal_Service := fun v => Ok (service v) |}.

Definition plugin (up : option (Msg -> result go_fault (option Msg))) : Etcd :=
  mkEtcd [] ["example.org."; "one.org."; "two.org."] "skydns" up 0 0.

#[local] Instance backend : ServiceBackend := etcd_backend (plugin None) 1700000000.

Definition query (name : string) (t : Z) : Msg :=
  mkMsg 7 false OpcodeQuery false false true false false false RcodeSuccess [mkQ name t ClassINET] [] [] [].

Lemma lookup_terminates_witness :
  A "example.org." (query "c1.example.org." TypeA) [] <> Err (Fault OutOfFuel) /\
  forall fuel, (chain_fuel <= fuel)%nat ->
  chase fuel kind_A "example.org." (query "c1.example.org." TypeA) [] = A "example.org." (query "c1.example.org." TypeA) [].
Proof. apply (lookup_terminates kind_A); [done|by left]. Defined.

Definition alias_answer : list RR := Eval vm_compute in
  match A "example.org." (query "alias.example.org." TypeA) [] with Ok (l, _) => l | Err _ => [] end.

Lemma answers_connected_witness :
  length alias_answer = 3%nat /\
  forall rr, rr ∈ alias_answer -> reached alias_answer "alias.example.org." (rr_name rr).
Proof.
  split; [reflexivity|].
  apply (@answers_connected PlainLib.lib Plain.names backend) with (k := kind_A) (zone := "example.org.")
    (r := query "alias.example.org." TypeA) (tc := false); [done|done|by left|done|vm_compute; reflexivity].
Defined.

Definition www_services : list Service := Eval vm_compute in
  match Services (plugin None) (query "www.example.org." TypeSRV) false with Ok l => l | Err _ => [] end.
Definition www_SRV : list RR * list RR := Eval vm_compute in
  match SRV "example.org." (query "www.example.org." TypeSRV) with Ok x => x | Err _ => ([], []) end.
Definition x1 : Service := Eval vm_compute in default (service EmptyString) (head www_services).

Lemma SRV_complete_witness :
  let target := stripped_host (set_Host x1 "x1.www.example.org.") in
  target = "x1.www.example.org." /\
  (exists rr, rr ∈ www_SRV.1 /\ srv_for (QName_ (query "www.example.org." TypeSRV)) target (u16 (Port x1)) rr) /\
  (exists a, a ∈ www_SRV.2 /\ addr_for target (Host x1) a).
Proof.
  split; [reflexivity|].
  apply (SRV_complete "example.org." (query "www.example.org." TypeSRV) www_services www_SRV.1 www_SRV.2 x1 "x1.www.example.org.").
  - vm_compute. reflexivity.
  - vm_compute. reflexivity.
  - by left.
  - done.
  - left. vm_compute. reflexivity.
  - vm_compute. reflexivity.
Defined.

Definition www : Msg := query "www.example.org." TypeA.

Lemma etcd_serves_witness :
  exists m rr, etcd_ServeDNS (plugin None) 0 None www = (Some m, Ok RcodeSuccess) /\
    Rcode m = Rcode (SetReply www) /\ Question m = Question (SetReply www) /\ Authoritative m = true /\
    rr ∈ Answer m /\ rr_name rr = QName_ www /\ rr_type rr = TypeA /\ Data rr = RA [10; 0; 0; 2].
Proof.
  apply (@etcd_serves PlainLib.lib Plain.names client keys (fun _ => eq_refl) (plugin None) 0 None www
    (mkKV "/skydns/org/example/www/x2" "10.0.0.2" 0) (service "10.0.0.2") [10; 0; 0; 2]).
  - intros u r f H. discriminate H.
  - discriminate.
  - reflexivity.
  - vm_compute. discriminate.
  - vm_compute. discriminate.
  - vm_compute. reflexivity.
  - intros kv _ _. exists (service (kv_Value kv)). by split.
  - apply (list_elem_of_lookup_2 keys 4). reflexivity.
  - vm_compute. reflexivity.
  - reflexivity.
  - vm_compute. reflexivity.
Defined.

(** *** Two zones that point at each other *)

(** The server with this plugin alone, lookups elsewhere asking it again, to a
    depth. *)
Fixpoint ask (depth : nat) (r : Msg) : result go_fault (option Msg) :=
  match depth with
  | O => Err OutOfFuel
  | S depth' => let '(m, res) := etcd_ServeDNS (plugin (Some (ask depth'))) 0 None r in _ ← res; Ok m
  end.

Definition ask_one : Msg := query "x.one.org." TypeA.
Definition ask_two : Msg := query "y.two.org." TypeA.

Lemma ask_one_fails u f : u ask_two = Err f -> etcd_ServeDNS (plugin (Some u)) 0 None ask_one = (None, Err f).
Proof. intros H. vm_compute in H. vm_compute. by rewrite H. Qed.

Lemma ask_two_fails u f : u ask_one = Err f -> etcd_ServeDNS (plugin (Some u)) 0 None ask_two = (None, Err f).
Proof. intros H. vm_compute in H. vm_compute. by rewrite H. Qed.

(** Two zones that point at each other are followed without end.  With a
    name of each of two zones of the plugin stored as an alias of the other,
    an A query for one of them exhausts every bound on how often the server
    asks itself: a lookup elsewhere starts a chain of its own, so that the
    bound on the length of a chain does not apply, and nothing counts the
    lookups. *)
Theorem zones_chase_each_other depth : ask depth ask_one = Err OutOfFuel /\ ask depth ask_two = Err OutOfFuel.
Proof.
  induction depth as [|depth [IH1 IH2]]; [done|]. cbn [ask]. by rewrite (ask_one_fails _ OutOfFuel IH2), (ask_two_fails _ OutOfFuel IH1).
Qed.

End EtcdSample.
