(* ===== verification/Proxy.v ===== *)
(** * Upstream proxies (plugin/pkg/proxy, plugin/pkg/up)

    The connections a proxy keeps to its upstream ([Transport]: dialling,
    giving back, cleaning up), one exchange over such a connection
    ([Connect]), the counter of failed health checks and the probe that runs
    them.  Clocks, dialling and what is read from a connection are inputs: an
    [attempt] holds those of one exchange.  Times are nanoseconds. *)

From Stdlib Require Import Ascii ZArith Lia.
From stdpp Require Import base numbers gmap strings list.
From S2P Require Import Prelude DnsTypes DnsLib Serve Xfer Server.

Local Open Scope Z_scope.

Definition second : Z := 1000000000.
Definition maxTimeout : Z := 2 * second.
Definition minDialTimeout : Z := second.
Definition maxDialTimeout : Z := 30 * second.
Definition defaultExpire : Z := 10 * second.
Definition cumulativeAvgWeight : Z := 4.

(** ** Transports (type.go, persistent.go, connect.go) *)

Inductive transportType : Type := typeUDP | typeTCP | typeTLS.

#[export] Instance transportType_eq_dec : EqDecision transportType.
Proof. solve_decision. Defined.

Definition stringToTransportType (s : string) : transportType :=
  if decide (s = "tcp") then typeTCP else if decide (s = "tcp-tls") then typeTLS else typeUDP.

(** A connection: its handle, whether it is a [net.UDPConn], and its times. *)
Record persistConn := mkConn { handle : Z; is_udp : bool; created : Z; used : Z }.

Record Transport := mkTransport {
  avgDialTime : Z;
  conns : transportType -> list persistConn;
  expire : Z;
  maxAge : Z;
  maxIdleConns : Z;
  has_tls : bool;
  stopped : bool;
  (* the handles closed so far *)
  closed : list Z }.

Definition newTransport : Transport := mkTransport (maxDialTimeout ÷ 2) (fun _ => []) defaultExpire 0 0 false false [].

Definition set_conns (t : Transport) (tt : transportType) (l : list persistConn) (gone : list persistConn) : Transport :=
  mkTransport (avgDialTime t) (fun tt' => if decide (tt' = tt) then l else conns t tt') (expire t) (maxAge t) (maxIdleConns t)
    (has_tls t) (stopped t) (closed t ++ (handle <$> gone)).

Definition close_conn (t : Transport) (pc : persistConn) : Transport :=
  mkTransport (avgDialTime t) (conns t) (expire t) (maxAge t) (maxIdleConns t) (has_tls t) (stopped t) (closed t ++ [handle pc]).

Definition transportTypeFromConn (t : Transport) (pc : persistConn) : transportType :=
  if is_udp pc then typeUDP else if has_tls t then typeTLS else typeTCP.

(** *** Cleaning up *)

(** [sort.Search]: bisection for the least index with [f]. *)
Fixpoint bisect (fuel : nat) (f : nat -> bool) (i j : nat) : nat :=
  match fuel with
  | O => i
  | S fuel' =>
      if decide (i < j)%nat then
        let h := ((i + j) / 2)%nat in
        if f h then bisect fuel' f i h else bisect fuel' f (S h) j
      else i
  end.

Definition sort_Search (n : nat) (f : nat -> bool) : nat := bisect (S n) f 0 n.

Definition fresh (stale : Z) (pc : persistConn) : bool := bool_decide (stale < used pc).

(** The connections of one kind that stay, and those to close. *)
Definition cleanup_stack (t : Transport) (all : bool) (now : Z) (stack : list persistConn) : list persistConn * list persistConn :=
  let staleTime := now - expire t in
  match stack with
  | [] => ([], [])
  | pc0 :: _ =>
      if all then ([], stack)
      else if decide (0 < maxAge t) then
        let over pc := negb (fresh staleTime pc) || bool_decide (created pc < now - maxAge t) in
        (filter (fun pc => over pc = false) stack, filter (fun pc => over pc = true) stack)
      else if fresh staleTime pc0 then (stack, [])
      else
        let good := sort_Search (length stack) (fun i => match stack !! i with Some pc => fresh staleTime pc | None => true end) in
        (drop good stack, take good stack)
  end.

Definition cleanup (t : Transport) (all : bool) (now : Z) : Transport :=
  let clean t tt := let '(keep, gone) := cleanup_stack t all now (conns t tt) in set_conns t tt keep gone in
  clean (clean (clean t typeUDP) typeTCP) typeTLS.

(** *** Giving a connection back *)

Definition Yield (t : Transport) (pc : persistConn) (now : Z) : Transport :=
  if stopped t then close_conn t pc
  else
    let pc := mkConn (handle pc) (is_udp pc) (created pc) now in
    let tt := transportTypeFromConn t pc in
    if decide (0 < maxIdleConns t /\ maxIdleConns t <= Z.of_nat (length (conns t tt))) then close_conn t pc
    else set_conns t tt (conns t tt ++ [pc]) [].

(** *** Dialling *)

Definition limitTimeout (currentAvg minValue maxValue : Z) : Z :=
  if decide (currentAvg < minValue) then minValue
  else if decide (currentAvg < maxValue ÷ 2) then 2 * currentAvg
  else maxValue.

Definition averageTimeout (currentAvg observedDuration weight : Z) : Z :=
  currentAvg + (observedDuration - currentAvg) ÷ weight.

Definition dialTimeout (t : Transport) : Z := limitTimeout (avgDialTime t) minDialTimeout maxDialTimeout.

Definition updateDialTimeout (t : Transport) (newDialTime : Z) : Transport :=
  mkTransport (averageTimeout (avgDialTime t) newDialTime cumulativeAvgWeight) (conns t) (expire t) (maxAge t) (maxIdleConns t)
    (has_tls t) (stopped t) (closed t).

(** The connections at the front that are too old, and the rest. *)
Definition too_old (t : Transport) (now : Z) (pc : persistConn) : bool :=
  bool_decide (expire t < now - used pc) || (bool_decide (0 < maxAge t) && bool_decide (created pc < now - maxAge t)).

Fixpoint skip_old (t : Transport) (now : Z) (stack : list persistConn) : list persistConn * list persistConn :=
  match stack with
  | [] => ([], [])
  | pc :: stack' =>
      if too_old t now pc then let '(gone, rest) := skip_old t now stack' in (pc :: gone, rest) else ([], stack)
  end.

(** A name for each way an exchange fails. *)
Inductive net_error : Type := EOF | ErrBuf | NetError (s : string).
Inductive connect_error : Type :=
| ErrCachedClosed
| ErrTransportStopped
| ErrDial (s : string)
| ErrNet (e : net_error).

#[export] Instance net_error_eq_dec : EqDecision net_error.
Proof. solve_decision. Defined.
#[export] Instance connect_error_eq_dec : EqDecision connect_error.
Proof. solve_decision. Defined.

(** What is read from a connection: a message, or an error with perhaps the
    header of one. *)
Inductive read_result : Type := Got (m : Msg) | Failed (m : option Msg) (e : net_error).

(** The inputs of one exchange: the time, the connection dialling gives and
    how long it takes, the id drawn, the error of writing, what is read before
    the read deadline, and the time the connection is given back. *)
Record attempt := mkAttempt {
  at_now : Z;
  at_dial : result string (Z * bool);
  at_took : Z;
  at_id : Z;
  at_write : option net_error;
  at_reads : list read_result;
  at_yield : Z }.

(** The connection, whether it was kept, or the error; and the transport. *)
Definition Dial (t : Transport) (proto : string) (a : attempt) : result connect_error (persistConn * bool) * Transport :=
  let proto := if has_tls t then "tcp-tls" else proto in
  if stopped t then (Err ErrTransportStopped, t)
  else
    let tt := stringToTransportType proto in
    let '(gone, rest) := skip_old t (at_now a) (conns t tt) in
    match rest with
    | pc :: rest' => (Ok (pc, true), set_conns t tt rest' gone)
    | [] =>
        let t := updateDialTimeout (set_conns t tt [] gone) (at_took a) in
        match at_dial a with
        | Ok (h, udp) => (Ok (mkConn h udp (at_now a + at_took a) 0, false), t)
        | Err e => (Err (ErrDial e), t)
        end
    end.

(** ** An exchange (connect.go) *)

Record Options := mkOptions { ForceTCP : bool; PreferUDP : bool; HCRecursionDesired : bool; HCDomain : string }.

Definition shouldTruncateResponse (e : net_error) : bool :=
  match e with ErrBuf => true | EOF => false | NetError s => Contains s "overflow" end.

Definition truncateResponse (m : Msg) : Msg :=
  mkMsg (Id m) (Response m) (Opcode m) (Authoritative m) true (RecursionDesired m) (RecursionAvailable m)
    (AuthenticatedData m) (CheckingDisabled m) (Rcode m) (Question m) [] [] [].

Definition set_Id (m : Msg) (id : Z) : Msg :=
  mkMsg id (Response m) (Opcode m) (Authoritative m) (Truncated m) (RecursionDesired m) (RecursionAvailable m)
    (AuthenticatedData m) (CheckingDisabled m) (Rcode m) (Question m) (Answer m) (Ns_ m) (Extra m).

(** The loop over what is read: the reply, or the error with the message that
    came with it.  Replies with another id are dropped. *)
Fixpoint read_loop (id : Z) (udp : bool) (reads : list read_result) : Msg + option Msg * net_error :=
  match reads with
  | [] => inr (None, NetError "i/o timeout")
  | Got m :: reads' => if decide (Id m = id) then inl m else read_loop id udp reads'
  | Failed (Some m) e :: _ =>
      if decide (Id m = id /\ udp = true /\ shouldTruncateResponse e = true) then inl (truncateResponse m) else inr (Some m, e)
  | Failed None e :: _ => inr (None, e)
  end.

(** The protocol of an exchange. *)
Definition connect_proto (w : Client) (opts : Options) : string :=
  if ForceTCP opts then "tcp" else if PreferUDP opts then "udp" else Proto w.

Section connect.
Context {L : DnsLib}.

(** The query sent, with the buffer size of the connection. *)
Definition sent_query (w : Client) (r : Msg) (a : attempt) : Msg * Z :=
  (set_Id r (at_id a), Z.max (u16 (Size_ (Proto w) r)) 512).

(** [Proxy.Connect]: the message and the error, of which both may be there,
    and the transport. *)
Definition Connect (t : Transport) (w : Client) (r : Msg) (opts : Options) (a : attempt)
  : option Msg * option connect_error * Transport :=
  let originId := Id r in
  match Dial t (connect_proto w opts) a with
  | (Err e, t) => (None, Some e, t)
  | (Ok (pc, cached), t) =>
      let failed e := if bool_decide (e = EOF) && cached then ErrCachedClosed else ErrNet e in
      match at_write a with
      | Some e => (None, Some (failed e), close_conn t pc)
      | None =>
          match read_loop (at_id a) (bool_decide (transportTypeFromConn t pc = typeUDP)) (at_reads a) with
          | inl ret => (Some (set_Id ret originId), None, Yield t pc (at_yield a))
          | inr (ret, e) =>
              if bool_decide (e = EOF) && cached then (None, Some ErrCachedClosed, close_conn t pc)
              else ((fun m => set_Id m originId) <$> ret, Some (ErrNet e), close_conn t pc)
          end
      end
  end.

End connect.

(** ** Health (proxy.go, health.go) *)

(** [incrementFails]: the counter of 32 bits stays at its greatest value. *)
Definition incrementFails (fails : Z) : Z := if decide (u32 (fails + 1) < fails) then fails else u32 (fails + 1).

(** [dnsHc.send]: an error with a message that is a response or a query is
    none. *)
Definition hc_send (exchange : option Msg * option net_error) : option net_error :=
  match exchange with
  | (Some m, Some e) => if Response m || bool_decide (Opcode m = OpcodeQuery) then None else Some e
  | (_, e) => e
  end.

(** [dnsHc.Check], with what the exchange gave: the counter after it, and
    whether the check failed. *)
Definition Check_ (fails : Z) (exchange : option Msg * option net_error) : Z * bool :=
  match hc_send exchange with
  | Some _ => (incrementFails fails, true)
  | None => (0, false)
  end.

(** [Proxy.Down] *)
Definition Down (maxfails fails : Z) : bool :=
  if decide (maxfails = 0) then false else bool_decide (maxfails < fails).

(** ** The probe (plugin/pkg/up) *)

Inductive progress : Type := idle | active | stop.

(** The probe and the goroutines it started: each is running its function, or
    has ended it with success, or sleeps after a failure. *)
Inductive prober : Type := Running | Succeeded | Sleeping.
Record Probe := mkProbe { inprogress : progress; probers : list prober }.

#[export] Instance prober_eq_dec : EqDecision prober.
Proof. solve_decision. Defined.

Definition new_probe : Probe := mkProbe idle [].

(** What happens to a probe: a call of [Do], a call of [Stop], and a step of
    one of its goroutines. *)
Inductive probe_step : Probe -> Probe -> Prop :=
| step_do p : inprogress p = idle -> probe_step p (mkProbe active (probers p ++ [Running]))
| step_do_busy p : inprogress p <> idle -> probe_step p p
| step_stop p : probe_step p (mkProbe stop (probers p))
| step_ok x l1 l2 : probe_step (mkProbe x (l1 ++ Running :: l2)) (mkProbe x (l1 ++ Succeeded :: l2))
| step_fail x l1 l2 : probe_step (mkProbe x (l1 ++ Running :: l2)) (mkProbe x (l1 ++ Sleeping :: l2))
| step_end x l1 l2 : probe_step (mkProbe x (l1 ++ Succeeded :: l2)) (mkProbe idle (l1 ++ l2))
| step_leave l1 l2 : probe_step (mkProbe stop (l1 ++ Sleeping :: l2)) (mkProbe stop (l1 ++ l2))
| step_again x l1 l2 : x <> stop -> probe_step (mkProbe x (l1 ++ Sleeping :: l2)) (mkProbe x (l1 ++ Running :: l2)).
