(* ===== verification/ProxyFacts.v ===== *)
(** * Properties of upstream proxies

    Cleaning up by bisection keeps exactly the connections that are not stale
    ([cleanup_exact]); no connection is lost or used twice ([Dial_partition]);
    the reply of an exchange answers the id drawn for it ([Connect_reply]);
    the counter of failed checks counts those since the last good one
    ([fails_count]); and a probe has at most one check in flight
    ([probe_single]). *)

From Stdlib Require Import Ascii ZArith Lia.
From stdpp Require Import base numbers gmap strings list.
From S2P Require Import Prelude DnsTypes DnsLib Serve Xfer Server Proxy.

Local Open Scope Z_scope.

(** ** Bisection *)

Lemma bisect_spec fuel f i j n :
  (i <= j <= n)%nat -> (j - i < fuel)%nat ->
  (forall a b, (a <= b < n)%nat -> f a = true -> f b = true) ->
  (forall a, (a < i)%nat -> f a = false) -> (forall a, (j <= a < n)%nat -> f a = true) ->
  let k := bisect fuel f i j in
  (i <= k <= j)%nat /\ (forall a, (a < k)%nat -> f a = false) /\ (forall a, (k <= a < n)%nat -> f a = true).
Proof.
  revert i j. induction fuel as [|fuel IH]; intros i j Hij Hfuel Hm Hlo Hhi; [lia|]. cbn [bisect]. case_decide as Hlt.
  - set (h := ((i + j) / 2)%nat). assert (i <= h < j)%nat as Hh.
    { unfold h. split; [apply Nat.div_le_lower_bound; lia|apply Nat.Div0.div_lt_upper_bound; lia]. }
    destruct (f h) eqn:E.
    + destruct (IH i h) as (H1 & H2 & H3); [lia..|done|done| |].
      { intros a Ha. destruct (decide (j <= a)%nat); [apply Hhi; lia|]. apply (Hm h a); [lia|done]. }
      split; [simpl in *; lia|done].
    + destruct (IH (S h) j) as (H1 & H2 & H3); [lia..|done| |done|].
      { intros a Ha. destruct (f a) eqn:Ea; [|done]. rewrite (Hm a h) in E; [done|lia|done]. }
      split; [simpl in *; lia|done].
  - replace j with i in * by lia. split; [simpl; lia|done].
Qed.

Lemma sort_Search_spec n f :
  (forall a b, (a <= b < n)%nat -> f a = true -> f b = true) ->
  (sort_Search n f <= n)%nat /\ (forall a, (a < sort_Search n f)%nat -> f a = false) /\
  (forall a, (sort_Search n f <= a < n)%nat -> f a = true).
Proof.
  intros Hm. destruct (bisect_spec (S n) f 0 n n) as (H1 & H2 & H3); [lia..|done| | |]; [intros; lia..|].
  unfold sort_Search. split; [lia|done].
Qed.

(** ** Cleaning up *)

Implicit Types (t : Transport) (pc : persistConn) (stack : list persistConn) (tt : transportType).

(** Connections in the order they were last used. *)
Definition by_use stack : Prop := forall i j a b, (i <= j)%nat -> stack !! i = Some a -> stack !! j = Some b -> used a <= used b.

Definition expired t (now : Z) pc : bool :=
  negb (fresh (now - expire t) pc) || (bool_decide (0 < maxAge t) && bool_decide (created pc < now - maxAge t)).

Lemma filter_take_drop {A} (P : A -> bool) (l : list A) k :
  (forall i x, (i < k)%nat -> l !! i = Some x -> P x = true) -> (forall i x, (k <= i)%nat -> l !! i = Some x -> P x = false) ->
  filter (fun x => P x = true) l = take k l /\ filter (fun x => P x = false) l = drop k l.
Proof.
  revert k. induction l as [|x l IH]; intros k Hlo Hhi; [by rewrite take_nil, drop_nil|]. destruct k as [|k].
  - assert (P x = false) as E by (apply (Hhi 0%nat); [lia|done]). destruct (IH 0%nat) as [H1 H2].
    { intros; lia. } { intros i y _ Hl. apply (Hhi (S i)); [lia|done]. }
    rewrite filter_cons_False by congruence. rewrite filter_cons_True by done. simpl. rewrite drop_0 in H2. by rewrite H1, H2.
  - assert (P x = true) as E by (apply (Hlo 0%nat); [lia|done]). destruct (IH k) as [H1 H2].
    { intros i y Hi Hl. apply (Hlo (S i)); [lia|done]. } { intros i y Hi Hl. apply (Hhi (S i)); [lia|done]. }
    rewrite filter_cons_True by done. rewrite filter_cons_False by congruence. simpl. by rewrite H1, H2.
Qed.

(** Cleaning up is exact.  On connections in the order they were last used
    the bisection of [cleanup] keeps exactly those that are neither idle for
    too long nor too old, in their order, and gives up exactly the others, as
    the linear scan for a maximum age does. *)
Theorem cleanup_exact t now stack :
  by_use stack ->
  cleanup_stack t false now stack =
    (filter (fun pc => expired t now pc = false) stack, filter (fun pc => expired t now pc = true) stack).
Proof.
  intros Hs. unfold cleanup_stack, expired. destruct stack as [|pc0 stack'] eqn:E; [done|]. rewrite <-E in *. case_decide as Ha.
  { rewrite bool_decide_true by done. done. }
  rewrite bool_decide_false by done. cbn [andb].
  set (st := now - expire t). set (P := fun pc => negb (fresh st pc) || false).
  assert (forall pc, P pc = negb (fresh st pc)) as HP by (intros; unfold P; by rewrite orb_false_r).
  assert (forall i j a b, (i <= j)%nat -> stack !! i = Some a -> stack !! j = Some b -> fresh st a = true -> fresh st b = true) as Hmono.
  { intros i j a b Hij Hi Hj. unfold fresh. rewrite !bool_decide_eq_true. pose proof (Hs i j a b Hij Hi Hj). lia. }
  destruct (fresh st pc0) eqn:E0.
  { destruct (filter_take_drop P stack 0) as [E1 E2]; [intros; lia| |unfold P in E1, E2; by rewrite E1, E2, drop_0, take_0].
    intros i x _ Hi. rewrite HP, (Hmono 0%nat i pc0 x); [done|lia|by rewrite E|done|done]. }
  set (g := fun i : nat => match stack !! i with Some pc => fresh st pc | None => true end).
  destruct (sort_Search_spec (length stack) g) as (H1 & H2 & H3).
  { intros a b Hab. unfold g. destruct (stack !! a) as [x|] eqn:Ea; [|apply lookup_ge_None in Ea; lia].
    destruct (stack !! b) as [y|] eqn:Eb; [|done]. apply (Hmono a b); [lia|done..]. }
  destruct (filter_take_drop P stack (sort_Search (length stack) g)) as [E1 E2]; [| |unfold P in E1, E2; by rewrite E1, E2].
  - intros i x Hi Hl. specialize (H2 i Hi). unfold g in H2. rewrite Hl in H2. by rewrite HP, H2.
  - intros i x Hi Hl. assert (i < length stack)%nat as Hlen by by apply lookup_lt_Some in Hl.
    specialize (H3 i (conj Hi Hlen)). unfold g in H3. rewrite Hl in H3. by rewrite HP, H3.
Qed.

(** Giving a connection back keeps the order of use, as long as clocks do. *)
Lemma by_use_snoc stack pc : by_use stack -> Forall (fun x => used x <= used pc) stack -> by_use (stack ++ [pc]).
Proof.
  intros Hs Hu i j a b Hij Hi Hj. rewrite Forall_lookup in Hu.
  apply lookup_snoc_Some in Hj as [[Hj Hb]|[-> <-]].
  - apply lookup_snoc_Some in Hi as [[_ Ha]|[-> _]]; [by apply (Hs i j)|lia].
  - apply lookup_snoc_Some in Hi as [[_ Ha]|[_ <-]]; [by apply (Hu i)|done].
Qed.

(** ** Connections are neither lost nor shared *)

Lemma skip_old_spec t now stack :
  let '(gone, rest) := skip_old t now stack in
  stack = gone ++ rest /\ Forall (fun pc => too_old t now pc = true) gone /\ from_option (too_old t now) false (head rest) = false.
Proof.
  induction stack as [|pc stack IH]; simpl; [done|]. destruct (too_old t now pc) eqn:E; [|done].
  destruct (skip_old t now stack) as [gone rest]. destruct IH as (-> & H & Hh). split_and!; [done|by constructor|done].
Qed.

(** The connections of [Dial]: those kept before are, in order, those closed
    now, the one handed out if it was kept, and those kept after; the one
    handed out is neither idle for too long nor too old. *)
Lemma Dial_partition t proto a pc t' :
  Dial t proto a = (Ok (pc, true), t') ->
  let tt := stringToTransportType (if has_tls t then "tcp-tls" else proto) in
  exists gone, conns t tt = gone ++ pc :: conns t' tt /\ closed t' = closed t ++ (handle <$> gone) /\
    too_old t (at_now a) pc = false /\ (forall tt', tt' <> tt -> conns t' tt' = conns t tt').
Proof.
  unfold Dial. cbv zeta. set (tt := stringToTransportType _). destruct (stopped t); [done|].
  pose proof (skip_old_spec t (at_now a) (conns t tt)) as Hs. destruct (skip_old _ _ _) as [gone [|pc' rest]].
  { destruct (at_dial a) as [[h udp]|]; done. }
  intros [= -> <-]. destruct Hs as (E & _ & Ho). exists gone. simpl. rewrite decide_True by done. split_and!; [done..|].
  intros tt' Hne. by rewrite decide_False.
Qed.

(** Giving back: the connection is kept or closed, never both, and the number
    kept stays within the limit. *)
Lemma Yield_bound t pc now tt :
  0 < maxIdleConns t -> Z.of_nat (length (conns t tt)) <= maxIdleConns t ->
  Z.of_nat (length (conns (Yield t pc now) tt)) <= maxIdleConns t.
Proof.
  intros H0 Hl. unfold Yield. destruct (stopped t); [done|]. case_decide as Hc; [done|]. simpl. case_decide as E; [|done].
  subst tt. rewrite length_app. simpl. unfold transportTypeFromConn in *. simpl in *. lia.
Qed.

(** ** Timeouts of dialling *)

Lemma dialTimeout_bounds t : minDialTimeout <= dialTimeout t <= maxDialTimeout.
Proof.
  unfold dialTimeout, limitTimeout, minDialTimeout, maxDialTimeout, second.
  change (30 * 1000000000 ÷ 2) with 15000000000. repeat case_decide; lia.
Qed.

(** ** Exchanges *)

(** A message read in an exchange, as it is handed on. *)
Definition read_in (r : Msg) (a : attempt) (m : Msg) : Prop :=
  exists m0, Id m0 = at_id a /\
    ((Got m0 ∈ at_reads a /\ m = set_Id m0 (Id r)) \/
     (exists e, Failed (Some m0) e ∈ at_reads a /\ m = set_Id (truncateResponse m0) (Id r))).

Lemma read_loop_inl id udp reads m :
  read_loop id udp reads = inl m ->
  exists m0, Id m0 = id /\ ((Got m0 ∈ reads /\ m = m0) \/ exists e, Failed (Some m0) e ∈ reads /\ m = truncateResponse m0).
Proof.
  induction reads as [|[m1|[m1|] e] reads IH]; cbn [read_loop]; [done|..]; [case_decide| |done].
  - intros [= ->]. exists m. split; [done|]. left. split; [by left|done].
  - intros (m0 & H0 & HX)%IH. exists m0. split; [done|]. destruct HX as [[? ?]|(e & ? & ?)]; [left; split; [by right|done]|].
    right. exists e. split; [by right|done].
  - case_decide as Hc; [|done]. intros [= <-]. exists m1. split; [apply Hc|]. right. exists e. split; [by left|done].
Qed.

(** An exchange that succeeds hands on a message read from the connection that
    has the id drawn for the exchange, with the id of the client put back. *)
Lemma Connect_reply {L : DnsLib} t w r o a m t' : Connect t w r o a = (Some m, None, t') -> read_in r a m /\ Id m = Id r.
Proof.
  unfold Connect. destruct (Dial _ _ _) as [[[pc cached]|] t1]; [|done]. destruct (at_write a); [done|].
  destruct (read_loop _ _ _) as [ret|[ret e]] eqn:E; [|by destruct (bool_decide (e = EOF) && cached)].
  intros [= <- _]. split; [|done]. apply read_loop_inl in E as (m0 & H0 & H). exists m0. split; [done|].
  destruct H as [[? ->]|(e & ? & ->)]; [by left|]. right. by exists e.
Qed.

(** An exchange without an error has a message. *)
Lemma Connect_some {L : DnsLib} t w r o a ret t' : Connect t w r o a = (ret, None, t') -> is_Some ret.
Proof.
  unfold Connect. destruct (Dial _ _ _) as [[[pc cached]|] t1]; [|done]. destruct (at_write a); [done|].
  destruct (read_loop _ _ _) as [x|[x e]]; [|by destruct (bool_decide (e = EOF) && cached)]. intros [= <- _]. by eexists.
Qed.

(** ** Failed checks *)

Definition max_fails32 : Z := 2 ^ 32 - 1.

Lemma incrementFails_spec n : 0 <= n <= max_fails32 -> incrementFails n = Z.min (n + 1) max_fails32.
Proof.
  unfold max_fails32, incrementFails, u32. intros Hn. destruct (decide (n = 2 ^ 32 - 1)) as [->|Hne].
  - change ((2 ^ 32 - 1 + 1) mod 2 ^ 32) with 0. rewrite decide_True by lia. lia.
  - rewrite Z.mod_small by lia. rewrite decide_False by lia. lia.
Qed.

Definition check_failed (x : option Msg * option net_error) : Prop := is_Some (hc_send x).

Definition checked (fails : Z) (checks : list (option Msg * option net_error)) : Z := foldl (fun n x => (Check_ n x).1) fails checks.

Lemma checked_fails n checks :
  0 <= n <= max_fails32 -> Forall check_failed checks -> checked n checks = Z.min (n + Z.of_nat (length checks)) max_fails32.
Proof.
  intros Hn H. revert n Hn. induction H as [|x checks Hx H IH]; intros n Hn; [simpl; lia|].
  change (checked n (x :: checks)) with (checked (Check_ n x).1 checks). unfold Check_. destruct Hx as [e ->]. cbn [fst length].
  rewrite IH; rewrite incrementFails_spec by done; lia.
Qed.

(** The counter of a proxy holds the number of checks that failed since the
    last one that did not, up to the greatest value of 32 bits, whatever came
    before. *)
Lemma fails_count n0 pre good suf :
  hc_send good = None -> Forall check_failed suf ->
  checked n0 (pre ++ good :: suf) = Z.min (Z.of_nat (length suf)) max_fails32.
Proof.
  intros Hg Hs. unfold checked. rewrite foldl_app. set (n := foldl _ n0 pre).
  change (checked (Check_ n good).1 suf = Z.min (Z.of_nat (length suf)) max_fails32). unfold Check_. rewrite Hg. cbn [fst].
  change (checked 0 suf = Z.min (Z.of_nat (length suf)) max_fails32). rewrite checked_fails; [done|unfold max_fails32; lia|done].
Qed.

(** A proxy is down exactly when more checks than the limit failed in a row. *)
Lemma Down_count n0 pre good suf maxfails :
  hc_send good = None -> Forall check_failed suf -> 0 < maxfails < max_fails32 ->
  Down maxfails (checked n0 (pre ++ good :: suf)) = true <-> maxfails < Z.of_nat (length suf).
Proof.
  intros Hg Hs Hm. rewrite fails_count by done. unfold Down. rewrite decide_False by lia. rewrite bool_decide_eq_true. lia.
Qed.

(** ** Probes *)

Definition busy (p : Probe) : nat := length (probers p).

(** At most one goroutine, and none when the probe is idle. *)
Definition single (p : Probe) : Prop := (busy p <= 1)%nat /\ (inprogress p = idle -> busy p = 0%nat).

Lemma probe_step_single p p' : probe_step p p' -> single p -> single p'.
Proof.
  unfold single, busy. intros H. induction H as [p Hi|p Hi|p|x l1 l2|x l1 l2|x l1 l2|l1 l2|x l1 l2 Hx]; simpl; intros [H1 H2];
    rewrite ?length_app in *; simpl in *; split; intros; try done; try specialize (H2 ltac:(done)); try lia.
Qed.

Lemma probe_run_single p p' : rtc probe_step p p' -> single p -> single p'.
Proof. induction 1; eauto using probe_step_single. Qed.

(** A probe has at most one check in flight.  In every state reached from
    a new probe by any interleaving of calls of [Do] and [Stop] with the steps
    of the goroutines started, there is at most one goroutine, and none while
    the probe is idle. *)
Theorem probe_single p : rtc probe_step new_probe p -> (length (probers p) <= 1)%nat /\ (inprogress p = idle -> probers p = []).
Proof.
  intros H. destruct (probe_run_single _ _ H) as [H1 H2]; [split; [unfold busy; simpl; lia|done]|].
  split; [done|]. intros Hi. by apply nil_length_inv, H2.
Qed.

(** Stopping does not last: a check that is in flight and ends well makes the
    probe ready again. *)
Lemma stop_undone : exists p q, rtc probe_step new_probe p /\ inprogress p = stop /\ rtc probe_step p q /\ probers q = [Running].
Proof.
  exists (mkProbe stop [Running]), (mkProbe active [Running]). split_and!; [|done| |done].
  - eapply rtc_l; [by apply step_do|]. simpl. apply rtc_once. apply (step_stop (mkProbe active [Running])).
  - eapply rtc_l; [apply (step_ok stop [] [])|]. eapply rtc_l; [apply (step_end stop [] [])|].
    apply rtc_once. by apply (step_do (mkProbe idle [])).
Qed.
