(* ===== verification/Forward.v ===== *)
(** * The forward plugin (plugin/forward)

    A request is sent to one of a list of upstreams, the next one on failure,
    until a deadline.  What the outside does in one turn of the loop is an
    input, a [turn]: what becomes of the proxies meanwhile (health checks,
    other requests), the random draw, the inputs of the exchanges (Proxy.v),
    and what other requests do to the shared pool of connections between
    them.  The deadline, or the end of the request's context, is the end of
    the turns; the loop over the exchanges of one turn has no deadline. *)

From Stdlib Require Import Ascii ZArith Lia.
From stdpp Require Import base numbers gmap strings list.
From S2P Require Import Prelude DnsTypes DnsLib Serve Xfer Server Filters Backend Proxy.

Local Open Scope Z_scope.

(** ** Policies (policy.go)

    A policy orders the proxies, given as indices. *)

(** A draw of the random number generator: an integer, and a permutation. *)
Record draw := mkDraw { d_Int : Z; d_Perm : nat -> list nat }.

Definition random_List (d : draw) (n : nat) : list nat :=
  match n with
  | 1%nat => [0%nat]
  | 2%nat => if decide (Z.rem (d_Int d) 2 = 0) then [1%nat; 0%nat] else [0%nat; 1%nat]
  | _ => d_Perm d n
  end.

(** [roundRobin.List] with the counter after it; no proxies divide by zero. *)
Definition roundRobin_List (robin : Z) (n : nat) : result go_fault (list nat * Z) :=
  if decide (n = 0%nat) then Err IndexOutOfRange
  else
    let robin := u32 (robin + 1) in
    let i := Z.to_nat (robin mod Z.of_nat n) in
    Ok (i :: seq 0 i ++ seq (S i) (n - S i), robin).

Inductive Policy : Type := random | roundRobin (robin : Z) | sequential.

Definition List_ (p : Policy) (d : draw) (n : nat) : result go_fault (list nat * Policy) :=
  match p with
  | random => Ok (random_List d n, random)
  | roundRobin robin => '(l, robin) ← roundRobin_List robin n; Ok (l, roundRobin robin)
  | sequential => Ok (seq 0 n, sequential)
  end.

(** ** Proxies and configuration (forward.go, pkg/proxy/proxy.go) *)

Record Proxy_ := mkProxy { p_addr : string; p_fails : Z; p_transport : Transport }.

Definition set_transport (p : Proxy_) (t : Transport) : Proxy_ := mkProxy (p_addr p) (p_fails p) t.

Record Forward := mkForward {
  from : string;
  ignored : list string;
  nextAlternateRcodes : list Z;
  nextOnNodata : bool;
  maxfails : Z;
  maxConcurrent : Z;
  failfastUnhealthyUpstreams : bool;
  failoverRcodes : list Z;
  maxConnectAttempts : Z;
  opts : Options }.

(** [t_share k] is what others do to the pool of the proxy before the [k]-th
    exchange of the turn (requests that take connections and give theirs back,
    the clean-up); [t_given] counts the connections they add, by exchange. *)
Record turn := mkTurn {
  t_meanwhile : list Proxy_ -> list Proxy_;
  t_draw : draw;
  t_tries : nat -> attempt;
  t_share : nat -> Transport -> Transport;
  t_given : list nat }.

(** What the loop does to the outside: an exchange with a proxy, and a health
    check kicked off. *)
Inductive event : Type := Contacted (p : nat) (down : bool) (failed : bool) | Kicked (p : nat).

(** The reply, the code, the proxies and the events. *)
Record forwarded := mkForwarded {
  f_msg : option Msg;
  f_code : result go_fault Z;
  f_proxies : list Proxy_;
  f_events : list event }.

Section forward.
Context {L : DnsLib} {N : DnsNames}.

Definition isAllowedDomain (f : Forward) (name : string) : bool :=
  if decide (name = from f) then true else negb (existsb (fun ignore => name_Matches ignore name) (ignored f)).

Definition match_ (f : Forward) (r : Msg) : bool := name_Matches (from f) (Name_ r) && isAllowedDomain f (Name_ r).

(** The records of an answer are never nil here. *)
Definition isEmpty (m : Msg) : bool := bool_decide (Answer m = []).

(** *** One upstream *)

Definition pool_size (t : Transport) : nat :=
  length (conns t typeUDP) + length (conns t typeTCP) + length (conns t typeTLS).

Definition force_tcp (o : Options) : Options := mkOptions true (PreferUDP o) (HCRecursionDesired o) (HCDomain o).

(** Exchanges with one proxy: again when a kept connection was closed by the
    other side, and over TCP when a reply over UDP is truncated.  [None] is a
    loop that has not ended after [fuel] exchanges. *)
Fixpoint exchange (fuel : nat) (t : Transport) (w : Client) (r : Msg) (o : Options)
    (share : nat -> Transport -> Transport) (tries : nat -> attempt) (k : nat)
  : option (option Msg * option connect_error * Transport) :=
  match fuel with
  | O => None
  | S fuel' =>
      let '(ret, err, t') := Connect (share k t) w r o (tries k) in
      if decide (err = Some ErrCachedClosed) then exchange fuel' t' w r o share tries (S k)
      else match ret with
           | Some m =>
               if Truncated m && negb (ForceTCP o) && PreferUDP o then exchange fuel' t' w r (force_tcp o) share tries (S k)
               else Some (ret, err, t')
           | None => Some (ret, err, t')
           end
  end.

(** A connection each that is kept or given back meanwhile, one new one over
    each protocol. *)
Definition exchange_fuel (t : Transport) (given : list nat) : nat := (pool_size t + sum_list given + 3)%nat.

(** *** The loop *)

Context (f : Forward) (w : Client) (r : Msg).

(** The plugin after this one, and whether it is a forward plugin. *)
Context (next : option (bool * Chain)).

Definition to_next : option Msg * result go_fault Z := next_or_failure (snd <$> next) r.
Definition next_forwards : bool := match next with Some (b, _) => b | None => false end.

(** A reply that came: what is done with it, [None] to try the next one. *)
Definition judge (n fails : nat) (ret : Msg) : option (option Msg * result go_fault Z) :=
  if negb (Match_ r ret) then Some (Some (SetRcode r RcodeFormatError), Ok 0)
  else if existsb (Z.eqb (Rcode ret)) (failoverRcodes f) && bool_decide (fails < n)%nat then None
  else if existsb (Z.eqb (Rcode ret)) (nextAlternateRcodes f) && next_forwards then Some to_next
  else if nextOnNodata f && bool_decide (Rcode ret = RcodeSuccess) && isEmpty ret && next_forwards then Some to_next
  else Some (Some ret, Ok 0).

Definition out_of_turns (ps : list Proxy_) (ev : list event) : forwarded := mkForwarded None (Ok RcodeServerFailure) ps ev.

(** The proxy of a turn. *)
Inductive chosen : Type :=
| Pick (p : nat) (down : bool) (fails : nat)
| Skip (fails : nat)
| GiveUp
| Crash.

Definition choose (t : turn) (order : list nat) (i fails : nat) (ps : list Proxy_) : chosen :=
  match order !! i with
  | None => Crash
  | Some p =>
      match ps !! p with
      | None => Crash
      | Some px =>
          if Down (maxfails f) (p_fails px) then
            let fails := S fails in
            if decide (fails < length ps)%nat then Skip fails
            else if failfastUnhealthyUpstreams f then GiveUp
            else (* health checking is taken to be broken *)
              match random_List (t_draw t) (length ps) !! 0%nat with Some p => Pick p true fails | None => Crash end
          else Pick p false fails
      end
  end.

(** What a turn comes to: another one, or the end. *)
Inductive stepped : Type :=
| Again (fails : nat) (attempts : Z) (ps : list Proxy_) (ev : list event)
| Finished (x : forwarded).

Definition contact (t : turn) (p : nat) (down : bool) (fails : nat) (attempts : Z) (ps : list Proxy_) (ev : list event) : stepped :=
  match ps !! p with
  | None => Finished (mkForwarded None (Err IndexOutOfRange) ps ev)
  | Some px =>
      match exchange (exchange_fuel (p_transport px) (t_given t)) (p_transport px) w r (opts f) (t_share t) (t_tries t) 0 with
      | None => Finished (mkForwarded None (Err OutOfFuel) ps ev)
      | Some (ret, err, tr) =>
          let ps := <[p := set_transport px tr]> ps in
          match err, ret with
          | Some _, _ =>
              let ev := ev ++ Contacted p down true :: (if decide (maxfails f <> 0) then [Kicked p] else []) in
              let attempts := if decide (0 < maxConnectAttempts f) then attempts + 1 else attempts in
              if decide (0 < maxConnectAttempts f /\ maxConnectAttempts f <= attempts) then Finished (out_of_turns ps ev)
              else if decide (fails < length ps)%nat then Again fails attempts ps ev
              else Finished (out_of_turns ps ev)
          | None, None => Finished (mkForwarded None (Err NilDeref) ps ev)
          | None, Some ret =>
              let ev := ev ++ [Contacted p down false] in
              match judge (length ps) fails ret with
              | Some (m, c) => Finished (mkForwarded m c ps ev)
              | None => Again (S fails) attempts ps ev
              end
          end
      end
  end.

Fixpoint forward_loop (order : list nat) (turns : list turn) (i fails : nat) (attempts : Z) (ps : list Proxy_) (ev : list event)
  : forwarded :=
  match turns with
  | [] => out_of_turns ps ev
  | t :: turns' =>
      if decide (maxConnectAttempts f <> 0 /\ maxConnectAttempts f <= attempts) then out_of_turns ps ev
      else
        let ps := t_meanwhile t ps in
        let '(i, fails) := if decide (length order <= i)%nat then (0%nat, 0%nat) else (i, fails) in
        match choose t order i fails ps with
        | Crash => mkForwarded None (Err IndexOutOfRange) ps ev
        | GiveUp => out_of_turns ps ev
        | Skip fails => forward_loop order turns' (S i) fails attempts ps ev
        | Pick p down fails =>
            match contact t p down fails attempts ps ev with
            | Again fails attempts ps ev => forward_loop order turns' (S i) fails attempts ps ev
            | Finished x => x
            end
        end
  end.

(** *** The handler *)

(** [concurrent] is the counter of queries before this one. *)
Definition limited (concurrent : Z) : bool := bool_decide (0 < maxConcurrent f /\ maxConcurrent f < concurrent + 1).

Definition forward_ServeDNS (pol : Policy) (d : draw) (concurrent : Z) (turns : list turn) (ps : list Proxy_) : forwarded * Policy :=
  if negb (match_ f r) then let '(m, c) := to_next in (mkForwarded m c ps [], pol)
  else if limited concurrent then (mkForwarded None (Ok RcodeRefused) ps [], pol)
  else
    match List_ pol d (length ps) with
    | Err e => (mkForwarded None (Err e) ps [], pol)
    | Ok (order, pol) => (forward_loop order turns 0 0 0 ps [], pol)
    end.

End forward.

(** ** Queries in flight

    The counter of queries under concurrency: a query adds one to it as it
    arrives and takes one away as it leaves, whether it was refused or not. *)
Record load := mkLoad { counter : Z; forwarding : nat; refusing : nat }.

Inductive load_step (f : Forward) : load -> load -> Prop :=
| load_refused c n k : limited f c = true -> load_step f (mkLoad c n k) (mkLoad (c + 1) n (S k))
| load_taken c n k : limited f c = false -> load_step f (mkLoad c n k) (mkLoad (c + 1) (S n) k)
| load_done c n k : load_step f (mkLoad c (S n) k) (mkLoad (c - 1) n k)
| load_gone c n k : load_step f (mkLoad c n (S k)) (mkLoad (c - 1) n k).
