(* ===== verification/ForwardFacts.v ===== *)
(** * Properties of the forward plugin

    Exchanges with a proxy end when others give back finitely many connections
    ([exchange_total], and not otherwise: [exchange_starves]); what the plugin writes is
    the answer of an upstream to this request, or a format error
    ([forward_replies]), and it keeps the protocol of plugins; an upstream that
    is down is left alone while another one is up ([forward_healthy]); the
    policies use every proxy; the limit on queries in flight holds
    ([limit_respected]); and a failover code that all upstreams answer is never
    given up on ([failover_never_settles]). *)

From Stdlib Require Import Ascii ZArith Lia.
From stdpp Require Import base numbers gmap strings list.
From S2P Require Import Prelude DnsTypes DnsLib Serve Xfer Server ServerFacts Filters FilterFacts Backend Proxy ProxyFacts Forward.

Local Open Scope Z_scope.

Implicit Types (t : Transport) (ps : list Proxy_) (order : list nat) (ev : list event).

(** ** Exchanges end *)

Lemma pool_set t tt l gone : (pool_size (set_conns t tt l gone) + length (conns t tt) = pool_size t + length l)%nat.
Proof. unfold pool_size. destruct tt; simpl; lia. Qed.

Lemma pool_close t pc : pool_size (close_conn t pc) = pool_size t.
Proof. done. Qed.

Lemma pool_Yield t pc now : (pool_size (Yield t pc now) <= pool_size t + 1)%nat.
Proof.
  unfold Yield. destruct (stopped t); [rewrite pool_close; lia|]. cbv zeta.
  set (tt := transportTypeFromConn t _). case_decide; [rewrite pool_close; lia|].
  pose proof (pool_set t tt (conns t tt ++ [mkConn (handle pc) (is_udp pc) (created pc) now]) []) as H1.
  rewrite length_app in H1. simpl in H1. lia.
Qed.

Lemma pool_Dial t proto a x t' :
  Dial t proto a = (x, t') ->
  (pool_size t' <= pool_size t)%nat /\ (forall pc, x = Ok (pc, true) -> (pool_size t' < pool_size t)%nat).
Proof.
  unfold Dial. cbv zeta. set (tt := stringToTransportType _). destruct (stopped t); [by intros [= <- <-]|].
  pose proof (skip_old_spec t (at_now a) (conns t tt)) as Hs. destruct (skip_old _ _ _) as [gone rest]. destruct Hs as (E & _ & _).
  assert (forall l, (length l <= length rest)%nat -> pool_size (set_conns t tt l gone) + length rest - length l <= pool_size t)%nat as Hp.
  { intros l Hl. pose proof (pool_set t tt l gone) as H1. rewrite E, length_app in H1. lia. }
  destruct rest as [|pc rest].
  - specialize (Hp []). simpl in Hp. intros H.
    assert (x ≠ Ok (default (mkConn 0 false 0 0) None, true) /\ pool_size t' = pool_size (set_conns t tt [] gone)) as [_ ->].
    { destruct (at_dial a) as [[h udp]|]; injection H as <- <-; done. }
    split; [lia|]. intros pc ->. by destruct (at_dial a) as [[h udp]|].
  - intros [= <- <-]. specialize (Hp rest). simpl in Hp. split; [lia|]. intros; lia.
Qed.

Section facts.
Context {L : DnsLib} {N : DnsNames}.

Lemma pool_Connect t w r o a ret err t' :
  Connect t w r o a = (ret, err, t') ->
  (pool_size t' <= pool_size t + 1)%nat /\ (err = Some ErrCachedClosed -> (pool_size t' < pool_size t)%nat).
Proof.
  unfold Connect. destruct (Dial t (connect_proto w o) a) as [x t1] eqn:ED. pose proof (pool_Dial _ _ _ _ _ ED) as [H1 H2].
  destruct x as [[pc cached]|e].
  2: { intros [= <- <- <-]. split; [lia|]. intros [= ->]. exfalso. revert ED. unfold Dial.
       destruct (stopped t); [done|]. destruct (skip_old _ _ _) as [? [|]]; [|done]. by destruct (at_dial a) as [[]|]. }
  assert (cached = true -> (pool_size t1 < pool_size t)%nat) as H3 by (intros ->; by eapply H2).
  destruct (at_write a) as [e|].
  { intros [= <- <- <-]. rewrite pool_close. split; [lia|]. destruct (bool_decide (e = EOF)), cached; naive_solver. }
  destruct (read_loop _ _ _) as [m|[m e]].
  { intros [= <- <- <-]. pose proof (pool_Yield t1 pc (at_yield a)). split; [lia|done]. }
  destruct (bool_decide (e = EOF)), cached; intros [= <- <- <-]; rewrite pool_close; split; try lia; try done.
Qed.

(** Others add at most [given k] connections before the [k]-th exchange. *)
Definition shares_within (share : nat -> Transport -> Transport) (given : list nat) : Prop :=
  forall k t, (pool_size (share k t) <= pool_size t + default 0 (given !! k))%nat.

Lemma sum_list_drop (l : list nat) k : sum_list (drop k l) = (default 0 (l !! k) + sum_list (drop (S k) l))%nat.
Proof.
  destruct (l !! k) as [x|] eqn:E; [by rewrite (drop_S _ _ _ E)|].
  apply lookup_ge_None_1 in E. rewrite !drop_ge by lia. done.
Qed.

(** Each exchange over a closed connection uses one up, and TCP is tried once:
    the loop ends when others give back finitely many. *)
Lemma exchange_total fuel t w r o share given tries k :
  shares_within share given ->
  (pool_size t + sum_list (drop k given) + (if negb (ForceTCP o) && PreferUDP o then 3 else 1) <= fuel)%nat ->
  is_Some (exchange fuel t w r o share tries k).
Proof.
  intros Hs. revert t o k. induction fuel as [|fuel IH]; intros t o k Hf; [destruct (negb _ && _); lia|]. cbn [exchange].
  pose proof (Hs k t) as H0. rewrite sum_list_drop in Hf.
  destruct (Connect (share k t) w r o (tries k)) as [[ret err] t'] eqn:E. apply pool_Connect in E as [H1 H2]. case_decide as Hc.
  { apply IH. specialize (H2 Hc). destruct (negb _ && _); lia. }
  destruct ret as [m|]; [|by eexists].
  destruct (Truncated m && negb (ForceTCP o) && PreferUDP o) eqn:Et; [|by eexists].
  apply andb_prop in Et as [Et Hp]. apply andb_prop in Et as [_ Hn]. rewrite Hp, Hn in Hf. simpl in Hf.
  apply IH. simpl. lia.
Qed.

Lemma exchange_ends t w r o share given tries :
  shares_within share given -> is_Some (exchange (exchange_fuel t given) t w r o share tries 0).
Proof. intros Hs. apply (exchange_total _ _ _ _ _ _ given); [done|]. unfold exchange_fuel. rewrite drop_0. destruct (negb _ && _); lia. Qed.

(** What an exchange without an error hands on was read in one of the tries. *)
Lemma exchange_read fuel t w r o share tries k ret t' :
  exchange fuel t w r o share tries k = Some (ret, None, t') ->
  exists m k', ret = Some m /\ read_in r (tries k') m /\ Id m = Id r.
Proof.
  revert t o k. induction fuel as [|fuel IH]; intros t o k; [done|]. cbn [exchange].
  destruct (Connect (share k t) w r o (tries k)) as [[ret' err] t1] eqn:E. case_decide as Hc; [apply IH|].
  assert (Some (ret', err, t1) = Some (ret, None, t') -> exists m k', ret = Some m /\ read_in r (tries k') m /\ Id m = Id r) as Hd.
  { intros [= -> -> ->]. destruct (Connect_some _ _ _ _ _ _ _ E) as [m ->]. apply Connect_reply in E. exists m, k. by split. }
  destruct ret' as [m|]; [|done]. destruct (Truncated m && _ && _); [apply IH|done].
Qed.

(** The bound is on what others do: while before each exchange another
    request gives back a connection that the upstream has closed, the loop
    goes on, since nothing in it looks at the deadline. *)
Theorem exchange_starves fuel t w r o share tries k :
  (forall j u, (Connect (share j u) w r o (tries j)).1.2 = Some ErrCachedClosed) ->
  exchange fuel t w r o share tries k = None.
Proof.
  intros Hs. revert t k. induction fuel as [|fuel IH]; intros t k; [done|]. cbn [exchange]. specialize (Hs k t) as E.
  destruct (Connect (share k t) w r o (tries k)) as [[ret err] t']. simpl in E. rewrite E, decide_True by done. apply IH.
Qed.

(** ** Policies *)

Definition draw_ok (d : draw) : Prop := forall n, d_Perm d n ≡ₚ seq 0 n.

Lemma random_List_perm d n : draw_ok d -> random_List d n ≡ₚ seq 0 n.
Proof.
  intros Hd. unfold random_List. destruct n as [|[|[|n]]]; [apply Hd|done| |apply Hd]. case_decide; [apply perm_swap|done].
Qed.

Lemma roundRobin_perm i n : (i < n)%nat -> i :: seq 0 i ++ seq (S i) (n - S i) ≡ₚ seq 0 n.
Proof.
  intros Hi. replace n with (i + S (n - S i))%nat at 2 by lia. rewrite seq_app. simpl. by rewrite Permutation_middle.
Qed.

(** Every policy gives each proxy once. *)
Lemma List_perm p d n : draw_ok d -> (0 < n)%nat -> exists order p', List_ p d n = Ok (order, p') /\ order ≡ₚ seq 0 n.
Proof.
  intros Hd Hn. destruct p as [|robin|]; simpl.
  - eexists _, _. split; [done|]. by apply random_List_perm.
  - unfold roundRobin_List. rewrite decide_False by lia. simpl. eexists _, _. split; [done|].
    apply roundRobin_perm. pose proof (Z.mod_pos_bound (u32 (robin + 1)) (Z.of_nat n)). lia.
  - by eexists _, _.
Qed.

(** The first proxy of consecutive requests moves on by one. *)
Lemma roundRobin_advances robin n l l' robin' robin'' :
  (0 < n)%nat -> 0 <= robin < 2 ^ 32 - 2 ->
  roundRobin_List robin n = Ok (l, robin') -> roundRobin_List robin' n = Ok (l', robin'') ->
  exists i, head l = Some i /\ head l' = Some (S i mod n)%nat.
Proof.
  intros Hn Hr. unfold roundRobin_List. rewrite decide_False by lia. unfold u32. intros [= <- <-].
  rewrite (Z.mod_small (robin + 1)) by lia. rewrite (Z.mod_small (robin + 1 + 1)) by lia. rewrite decide_False by lia. intros [= <- <-].
  eexists. split; [done|]. simpl. f_equal. apply Nat2Z.inj. rewrite Nat2Z.inj_mod, Nat2Z.inj_succ.
  pose proof (Z.mod_pos_bound (robin + 1) (Z.of_nat n)). pose proof (Z.mod_pos_bound (robin + 1 + 1) (Z.of_nat n)).
  rewrite !Z2Nat.id by lia. unfold Z.succ. by rewrite Zplus_mod_idemp_l.
Qed.

(** ** What is written *)

Section loop.
Context (f : Forward) (w : Client) (r : Msg) (next : option (bool * Chain)).

(** A message an upstream sent in answer to this request, with the id of the
    exchange, handed on with the id of the request. *)
Definition from_upstream (turns : list turn) (m : Msg) : Prop :=
  Match_ r m = true /\ Id m = Id r /\ exists (t : turn) k, t ∈ turns /\ read_in r (t_tries t k) m.

Definition settled (turns : list turn) (x : forwarded) : Prop :=
  (f_msg x, f_code x) = to_next r next \/
  (f_msg x = None /\ f_code x = Ok RcodeServerFailure) \/
  (f_msg x = Some (SetRcode r RcodeFormatError) /\ f_code x = Ok 0) \/
  (exists m, f_msg x = Some m /\ f_code x = Ok 0 /\ from_upstream turns m).

Lemma settled_mono turns turns' x : turns ⊆ turns' -> settled turns x -> settled turns' x.
Proof.
  intros Hs [?|[?|[?|(m & ? & ? & ? & ? & t & k & ? & ?)]]]; unfold settled; auto.
  right; right; right. exists m. split_and!; [done..|]. split_and!; [done..|]. exists t, k. split; [by apply Hs|done].
Qed.

(** The turns of a request: what happens meanwhile replaces no proxy, and
    others add no more connections to the pool than are counted. *)
Definition turn_ok (t : turn) : Prop :=
  (forall ps, length (t_meanwhile t ps) = length ps) /\ draw_ok (t_draw t) /\ shares_within (t_share t) (t_given t).

Lemma judge_settled (t : turn) n fails ret x :
  judge f r next n fails ret = Some x -> Id ret = Id r -> (exists k, read_in r (t_tries t k) ret) ->
  forall ps ev, settled [t] (mkForwarded x.1 x.2 ps ev).
Proof.
  unfold judge, settled. intros H Hid [k Hk] ps ev. destruct (Match_ r ret) eqn:EM; [|injection H as <-; naive_solver].
  cbn [negb] in H. destruct (existsb _ (failoverRcodes f) && _); [done|].
  destruct (existsb _ _ && _); [injection H as <-; left; by destruct (to_next r next)|].
  destruct (nextOnNodata f && _ && _ && _); injection H as <-; [left; by destruct (to_next r next)|].
  right; right; right. exists ret. split_and!; [done..|]. split_and!; [done..|]. exists t, k. split; [by left|done].
Qed.

Lemma contact_settled (t : turn) p down fails attempts ps ev :
  turn_ok t -> (p < length ps)%nat ->
  match contact f w r next t p down fails attempts ps ev with
  | Again fails' attempts' ps' ev' => length ps' = length ps
  | Finished x => settled [t] x
  end.
Proof.
  intros (_ & _ & Hs) Hp. unfold contact. destruct (lookup_lt_is_Some_2 ps p Hp) as [px ->].
  destruct (exchange_ends (p_transport px) w r (opts f) _ _ (t_tries t) Hs) as [[[ret err] tr] E]. rewrite E. cbv zeta.
  destruct err as [e|].
  { assert (forall ps ev, settled [t] (out_of_turns ps ev)) as Ho by (intros; right; by left).
    repeat case_decide; try apply Ho; by rewrite length_insert. }
  apply exchange_read in E as (m & k & -> & Hr & Hid).
  destruct (judge _ _ _ _ _ _) as [[x c]|] eqn:Ej; [|by rewrite length_insert].
  eapply (judge_settled t) in Ej; [apply Ej|done|by exists k].
Qed.

Lemma choose_ok (t : turn) order i fails ps :
  turn_ok t -> order ≡ₚ seq 0 (length ps) -> (i < length order)%nat ->
  match choose f t order i fails ps with Crash => False | Pick p _ _ => (p < length ps)%nat | _ => True end.
Proof.
  intros (_ & Hd & _) Ho Hi. unfold choose. destruct (lookup_lt_is_Some_2 order i Hi) as [p Ep]. rewrite Ep.
  assert (p < length ps)%nat as Hp.
  { apply list_elem_of_lookup_2 in Ep. rewrite Ho in Ep. apply elem_of_seq in Ep. lia. }
  destruct (lookup_lt_is_Some_2 ps p Hp) as [px ->]. destruct (Down _ _); [|done]. cbv zeta.
  case_decide; [done|]. destruct (failfastUnhealthyUpstreams f); [done|].
  pose proof (random_List_perm (t_draw t) (length ps) Hd) as Hr.
  destruct (random_List _ _) as [|q l] eqn:El; [apply Permutation_length in Hr; rewrite length_seq in Hr; simpl in Hr; lia|].
  simpl. assert (q ∈ seq 0 (length ps)) as Hq by (rewrite <-Hr; by left). apply elem_of_seq in Hq. lia.
Qed.

Lemma forward_loop_settled order turns i fails attempts ps ev :
  Forall turn_ok turns -> (0 < length ps)%nat -> order ≡ₚ seq 0 (length ps) ->
  settled turns (forward_loop f w r next order turns i fails attempts ps ev).
Proof.
  intros HF. revert i fails attempts ps ev. induction HF as [|t turns Ht HF IH]; intros i fails attempts ps ev Hn Ho; [right; by left|].
  cbn [forward_loop]. case_decide; [right; by left|]. cbv zeta.
  assert (length order = length ps) as Hlen by (apply Permutation_length in Ho; by rewrite length_seq in Ho).
  destruct (if decide (length order <= i)%nat then (0%nat, 0%nat) else (i, fails)) as [i' fails'] eqn:Ei.
  assert (i' < length order)%nat as Hi' by (case_decide; injection Ei as <- <-; lia).
  set (ps1 := t_meanwhile t ps). assert (length ps1 = length ps) as Hps by apply Ht. rewrite <-Hps in Hn, Ho.
  pose proof (choose_ok t order i' fails' ps1 Ht Ho Hi') as Hc.
  destruct (choose _ _ _ _ _ _) as [p down fails1|fails1| |] eqn:Ec; [|..].
  - pose proof (contact_settled t p down fails1 attempts ps1 ev Ht Hc) as Hx.
    destruct (contact _ _ _ _ _ _ _ _ _ _ _) as [fails2 attempts2 ps2 ev2|x].
    + eapply settled_mono; [|apply IH; by rewrite Hx]. set_solver.
    + eapply settled_mono; [|done]. set_solver.
  - eapply settled_mono; [|by apply IH]. set_solver.
  - right; by left.
  - done.
Qed.

Lemma forward_settled pol d concurrent turns ps :
  draw_ok d -> Forall turn_ok turns -> (0 < length ps)%nat ->
  let x := (forward_ServeDNS f w r next pol d concurrent turns ps).1 in
  settled turns x \/ (f_msg x = None /\ f_code x = Ok RcodeRefused).
Proof.
  intros Hd Ht Hn. unfold forward_ServeDNS. destruct (match_ f r); cbn [negb].
  2: { left; left. by destruct (to_next r next). }
  destruct (limited f concurrent); [by right|]. destruct (List_perm pol d (length ps) Hd Hn) as (order & pol' & -> & Ho).
  left. by apply forward_loop_settled.
Qed.

(** C14. What the forward plugin writes.  With upstreams that answer, fail or
    are slow in any way, and with other requests that take and give back
    connections of the shared pools at any time between the exchanges, the
    plugin hands the request on or refuses it or fails with SERVFAIL, writing
    nothing itself, or writes a FORMERR reply to the request, or writes a
    message that an upstream sent in this request: one with the id drawn for
    that exchange, handed on with the id of the request, that answers its
    question.  It does not panic.  Its loop over the exchanges of a turn ends
    within the connections kept, those that others give back during the turn
    and three more; that others give back finitely many in a turn is assumed,
    as the loop has no deadline of its own.  There is at least one proxy,
    their number does not change, and the random draws are permutations. *)
Theorem forward_replies pol d concurrent turns ps :
  draw_ok d -> Forall turn_ok turns -> (0 < length ps)%nat ->
  let x := (forward_ServeDNS f w r next pol d concurrent turns ps).1 in
  settled turns x \/ (f_msg x = None /\ f_code x = Ok RcodeRefused).
Proof. apply forward_settled. Qed.

(** ** Upstreams that are down *)

Definition down_at (fl : list Z) (p : nat) : Prop := Down (maxfails f) (default 0 (fl !! p)) = true.

#[local] Instance down_at_dec fl p : Decision (down_at fl p).
Proof. unfold down_at. apply _. Defined.

Definition contacts_up (fl : list Z) ev : Prop :=
  forall p down failed, Contacted p down failed ∈ ev -> down = false /\ ~ down_at fl p.

(** The counters of failed checks do not change meanwhile. *)
Definition steady (t : turn) : Prop := forall ps, p_fails <$> t_meanwhile t ps = p_fails <$> ps.

Lemma contact_up (t : turn) p fails attempts ps ev fl :
  failoverRcodes f = [] -> p_fails <$> ps = fl -> ~ down_at fl p -> contacts_up fl ev ->
  match contact f w r next t p false fails attempts ps ev with
  | Again fails' _ ps' ev' => fails' = fails /\ p_fails <$> ps' = fl /\ contacts_up fl ev'
  | Finished x => contacts_up fl (f_events x)
  end.
Proof.
  intros Hno Hfl Hp Hev. unfold contact. destruct (ps !! p) as [px|] eqn:Epx; [|done].
  destruct (exchange _ _ _ _ _ _ _ _) as [[[ret err] tr]|]; [|done]. cbv zeta.
  assert (p_fails <$> <[p:=set_transport px tr]> ps = fl) as Hfl'.
  { rewrite list_fmap_insert, Hfl. apply list_insert_id. by rewrite <-Hfl, list_lookup_fmap, Epx. }
  assert (forall failed l, (forall e, e ∈ l -> exists q, e = Kicked q) -> contacts_up fl (ev ++ Contacted p false failed :: l)) as Hadd.
  { intros failed l Hl q dn fd [?|[[= -> -> ->]|Hin]%elem_of_cons]%elem_of_app; [by eapply Hev|done|].
    destruct (Hl _ Hin) as [? [=]]. }
  destruct err as [e|].
  { assert (contacts_up fl (ev ++ Contacted p false true :: (if decide (maxfails f <> 0) then [Kicked p] else []))) as He.
    { apply Hadd. intros e' Hin. case_decide; [apply list_elem_of_singleton in Hin as ->; by exists p|by apply elem_of_nil in Hin]. }
    repeat case_decide; done. }
  assert (contacts_up fl (ev ++ [Contacted p false false])) as He by (apply Hadd; by intros e ?%elem_of_nil).
  destruct ret as [m|]; [|done]. destruct (judge _ _ _ _ _ _) as [[x c]|] eqn:Ej; [done|]. exfalso. revert Ej.
  unfold judge. rewrite Hno. destruct (negb _); [done|]. simpl. destruct (existsb _ _ && _); [done|].
  by destruct (nextOnNodata f && _ && _ && _).
Qed.

Lemma forward_loop_healthy order turns i fails attempts ps ev fl q :
  failoverRcodes f = [] -> Forall steady turns -> p_fails <$> ps = fl -> order ≡ₚ seq 0 (length ps) -> (q < length ps)%nat ->
  ~ down_at fl q -> (fails <= length (filter (down_at fl) (take i order)))%nat -> contacts_up fl ev ->
  contacts_up fl (f_events (forward_loop f w r next order turns i fails attempts ps ev)).
Proof.
  intros Hno HF. revert i fails attempts ps ev. induction HF as [|t turns Ht HF IH]; intros i fails attempts ps ev Hfl Ho Hq Hup Hf Hev; [done|].
  cbn [forward_loop]. case_decide; [done|]. cbv zeta.
  destruct (if decide (length order <= i)%nat then (0%nat, 0%nat) else (i, fails)) as [i' fails'] eqn:Ei.
  assert (fails' <= length (filter (down_at fl) (take i' order)))%nat as Hf'.
  { case_decide; injection Ei as <- <-; [lia|done]. }
  set (ps1 := t_meanwhile t ps). assert (p_fails <$> ps1 = fl) as Hfl1 by (unfold ps1; by rewrite Ht).
  assert (length ps1 = length ps) as Hlen by (rewrite <-(length_fmap p_fails ps1), Hfl1, <-Hfl; apply length_fmap).
  rewrite <-Hlen in Ho, Hq. clearbody ps1. clear Hfl Hlen.
  unfold choose. destruct (order !! i') as [p|] eqn:Ep; [|done]. destruct (ps1 !! p) as [px|] eqn:Epx; [|done].
  assert (default 0 (fl !! p) = p_fails px) as Epf by (by rewrite <-Hfl1, list_lookup_fmap, Epx).
  assert (length (filter (down_at fl) order) < length ps1)%nat as Hcount.
  { replace (length ps1) with (length order) by (rewrite Ho; apply length_seq). apply (length_filter_lt _ _ q); [|done]. rewrite Ho. apply elem_of_seq. lia. }
  destruct (Down (maxfails f) (p_fails px)) eqn:Edown.
  - assert (S fails' <= length (filter (down_at fl) (take (S i') order)))%nat as Hs.
    { rewrite (take_S_r _ _ p Ep), filter_app, length_app, filter_cons_True by (unfold down_at; by rewrite Epf). simpl. lia. }
    assert (length (filter (down_at fl) (take (S i') order)) <= length (filter (down_at fl) order))%nat as Hle.
    { rewrite <-(take_drop (S i') order) at 2. rewrite filter_app, length_app. lia. }
    rewrite decide_True by lia. by apply IH.
  - assert (~ down_at fl p) as Hpu by (unfold down_at; by rewrite Epf, Edown).
    pose proof (contact_up t p fails' attempts ps1 ev fl Hno Hfl1 Hpu Hev) as Hc.
    destruct (contact _ _ _ _ _ _ _ _ _ _ _) as [fails2 attempts2 ps2 ev2|x]; [|done]. destruct Hc as (-> & Hfl2 & Hev2).
    assert (length ps2 = length ps1) as Hl2 by (rewrite <-(length_fmap p_fails ps2), Hfl2, <-Hfl1; apply length_fmap).
    apply IH; [done|by rewrite Hl2|by rewrite Hl2|done| |done].
    rewrite (take_S_r _ _ p Ep), filter_app, length_app. lia.
Qed.

(** An upstream that is down is left alone while another one is up.  With
    failed checks that do not change during the request and no failover codes,
    if one proxy is not down then every exchange is with a proxy that is not
    down, chosen by the policy, in every turn. *)
Theorem forward_healthy pol d concurrent turns ps q :
  draw_ok d -> Forall steady turns -> failoverRcodes f = [] -> (q < length ps)%nat -> ~ down_at (p_fails <$> ps) q ->
  contacts_up (p_fails <$> ps) (f_events (forward_ServeDNS f w r next pol d concurrent turns ps).1).
Proof.
  intros Hd Ht Hno Hq Hup. assert (forall fl, contacts_up fl []) as Hnil by by intros fl p dn fd ?%elem_of_nil.
  unfold forward_ServeDNS. destruct (negb _); [by destruct (to_next r next)|]. destruct (limited f concurrent); [done|].
  destruct (List_perm pol d (length ps) Hd) as (order & pol' & -> & Ho); [lia|].
  eapply forward_loop_healthy; [done|done|done|done|done|done|simpl; lia|done].
Qed.

(** ** Failover *)

(** Every exchange of the turn gives an answer to the question with a failover
    code. *)
Definition all_fail_over (t : turn) : Prop :=
  forall tr, stopped tr = false ->
  exists m tr', exchange (exchange_fuel tr (t_given t)) tr w r (opts f) (t_share t) (t_tries t) 0 = Some (Some m, None, tr') /\ stopped tr' = false /\
    Match_ r m = true /\ Rcode m ∈ failoverRcodes f.

Definition running ps : Prop := Forall (fun px => stopped (p_transport px) = false) ps.

(** What happens meanwhile stops no transport. *)
Definition keeps_running (t : turn) : Prop := forall ps, running ps -> running (t_meanwhile t ps).

Lemma forward_loop_failover order turns i attempts ps ev :
  maxfails f = 0 -> maxConnectAttempts f = 0 -> Forall turn_ok turns -> Forall keeps_running turns -> Forall all_fail_over turns ->
  running ps -> (0 < length ps)%nat -> order ≡ₚ seq 0 (length ps) -> (i <= length order)%nat ->
  let x := forward_loop f w r next order turns i i attempts ps ev in
  f_msg x = None /\ f_code x = Ok RcodeServerFailure /\ length (f_events x) = (length ev + length turns)%nat.
Proof.
  intros Hm Hc HF. revert i attempts ps ev. induction HF as [|t turns Ht HF IH]; intros i attempts ps ev Hk Ha Hrun Hn Ho Hi; [simpl; auto|].
  apply Forall_cons in Ha as [Ht' Ha]. apply Forall_cons in Hk as [Hkt Hk]. cbn [forward_loop]. rewrite decide_False by naive_solver. cbv zeta.
  assert (length order = length ps) as Hlen by (apply Permutation_length in Ho; by rewrite length_seq in Ho).
  set (ps1 := t_meanwhile t ps). assert (length ps1 = length ps) as Hps by apply Ht. rewrite <-Hps in Hn, Ho, Hlen.
  assert (exists i', (i' < length order)%nat /\ (if decide (length order <= i)%nat then (0%nat, 0%nat) else (i, i)) = (i', i')) as (i' & Hi' & ->).
  { case_decide; [exists 0%nat|exists i]; split; lia || done. }
  unfold choose. destruct (lookup_lt_is_Some_2 order i' Hi') as [p Ep]. rewrite Ep.
  assert (p < length ps1)%nat as Hp by (apply list_elem_of_lookup_2 in Ep; rewrite Ho in Ep; apply elem_of_seq in Ep; lia).
  destruct (lookup_lt_is_Some_2 ps1 p Hp) as [px Epx]. rewrite Epx. unfold Down. rewrite (decide_True (P := maxfails f = 0)) by done.
  pose proof (Hkt ps Hrun) as Hrun1. fold ps1 in Hrun1.
  assert (stopped (p_transport px) = false) as Hst by (by apply (Forall_lookup_1 _ _ _ _ Hrun1 Epx)).
  unfold contact. rewrite Epx. destruct (Ht' (p_transport px) Hst) as (m & tr & -> & Hst' & HM & HR). cbv zeta. unfold judge. rewrite HM. cbn [negb].
  rewrite length_insert, bool_decide_true by lia. rewrite andb_true_r.
  assert (existsb (Z.eqb (Rcode m)) (failoverRcodes f) = true) as ->.
  { apply existsb_exists. exists (Rcode m). split; [by apply list_elem_of_In|apply Z.eqb_refl]. }
  destruct (IH (S i') attempts (<[p:=set_transport px tr]> ps1) (ev ++ [Contacted p false false])) as (H1 & H2 & H3);
    [done|done|by apply Forall_insert|by rewrite length_insert|by rewrite length_insert|lia|].
  split_and!; [done..|]. rewrite H3, length_app. simpl. lia.
Qed.

(** Failover does not end with the last upstream.  If every upstream
    answers with a code to fail over on, the plugin goes round the upstreams
    until the deadline: one exchange in each turn, however many there are, no
    reply of an upstream is ever written, and the request fails. *)
Theorem failover_never_settles pol d concurrent turns ps :
  draw_ok d -> Forall turn_ok turns -> Forall keeps_running turns -> Forall all_fail_over turns -> running ps -> (0 < length ps)%nat ->
  maxfails f = 0 -> maxConnectAttempts f = 0 -> match_ f r = true -> limited f concurrent = false ->
  let x := (forward_ServeDNS f w r next pol d concurrent turns ps).1 in
  f_msg x = None /\ f_code x = Ok RcodeServerFailure /\ length (f_events x) = length turns.
Proof.
  intros Hd Ht Hk Ha Hrun Hn Hm Hc Hmatch Hl. unfold forward_ServeDNS. rewrite Hmatch, Hl. cbn [negb].
  destruct (List_perm pol d (length ps) Hd Hn) as (order & pol' & -> & Ho).
  by apply forward_loop_failover; [..|lia].
Qed.

End loop.

(** ** Queries in flight *)

Definition load_ok (f : Forward) (l : load) : Prop :=
  counter l = Z.of_nat (forwarding l) + Z.of_nat (refusing l) /\
  (0 < maxConcurrent f -> Z.of_nat (forwarding l) <= maxConcurrent f).

Lemma load_step_ok f l l' : load_step f l l' -> load_ok f l -> load_ok f l'.
Proof.
  intros H. unfold load_ok. destruct H as [c n k Hl|c n k Hl|c n k|c n k]; simpl; intros [H1 H2]; split; try lia.
  unfold limited in Hl. apply bool_decide_eq_false in Hl. lia.
Qed.

(** The limit on queries in flight holds under every interleaving: no more
    than the maximum are being forwarded. *)
Lemma limit_respected f l :
  rtc (load_step f) (mkLoad 0 0 0) l -> 0 < maxConcurrent f -> Z.of_nat (forwarding l) <= maxConcurrent f.
Proof.
  intros H. assert (forall a b, rtc (load_step f) a b -> load_ok f a -> load_ok f b) as Hr.
  { induction 1; eauto using load_step_ok. }
  apply (Hr _ _ H). split; simpl; lia.
Qed.

(** ** The plugin in a chain *)

Definition forward_plugin (f : Forward) (w : Client) (is_forward : bool) (pol : Policy) (d : draw) (concurrent : Z)
    (turns : list turn) (ps : list Proxy_) : Plugin :=
  mkPlugin "forward" (fun next r =>
    let x := (forward_ServeDNS f w r (pair is_forward <$> next) pol d concurrent turns ps).1 in (f_msg x, f_code x)).

Lemma forward_plugin_ok f w is_forward pol d concurrent turns ps :
  draw_ok d -> Forall turn_ok turns -> (0 < length ps)%nat -> plugin_ok (forward_plugin f w is_forward pol d concurrent turns ps).
Proof.
  intros Hd Ht Hn next Hnext r. simpl. set (nx := pair is_forward <$> next).
  assert (settled r nx turns (forward_ServeDNS f w r nx pol d concurrent turns ps).1 \/
    (f_msg (forward_ServeDNS f w r nx pol d concurrent turns ps).1 = None /\
     f_code (forward_ServeDNS f w r nx pol d concurrent turns ps).1 = Ok RcodeRefused)) as H by by apply forward_settled.
  destruct H as [[H|[[-> ->]|[[-> ->]|(m & -> & -> & _)]]]|[-> ->]]; try (split; [by intros [? [=]]|done]); try (split; [done|by eexists]).
  pose proof (next_or_failure_protocol next Hnext r) as Hp. unfold to_next, nx in H.
  replace (snd <$> (pair is_forward <$> next)) with next in H by (by destruct next). fold nx in H.
  destruct (next_or_failure next r) as [m c]. by injection H as -> ->.
Qed.

End facts.

(** ** Two upstreams *)

Module ForwardSample.

#[local] Existing Instance PlainLib.lib.
#[local] Existing Instance Plain.names.

Definition request : Msg :=
  mkMsg 4711 false OpcodeQuery false false true false false false RcodeSuccess [mkQ "www.example.org." TypeA ClassINET] [] [] [].

(** An upstream that answers, with a code, over a connection of its own. *)
Definition reply (id rc : Z) : Msg :=
  mkMsg id true OpcodeQuery false false true true false false rc [mkQ "www.example.org." TypeA ClassINET] [] [] [].

Definition try_ (rc : Z) (k : nat) : attempt :=
  mkAttempt 0 (Ok (Z.of_nat k, true)) 0 99 None [Got (reply 5 RcodeSuccess); Got (reply 99 rc)] 0.

Definition some_draw : draw := mkDraw 0 (seq 0).
Definition turn_ (rc : Z) : turn := mkTurn (fun ps => ps) some_draw (try_ rc) (fun _ tr => tr) [].

(** A turn in which another request gives a connection back that the upstream
    has closed: the first exchange fails on it, the second one is answered. *)
Definition busy_try (k : nat) : attempt :=
  match k with
  | O => mkAttempt 0 (Err EmptyString) 0 98 (Some EOF) [] 0
  | S _ => try_ RcodeSuccess k
  end.
Definition busy_turn : turn :=
  mkTurn (fun ps => ps) some_draw busy_try
    (fun k tr => match k with O => Yield tr (mkConn 77 true 0 0) 0 | S _ => tr end) [1%nat].

Definition config (failover : list Z) (maxfails : Z) : Forward :=
  mkForward dot [] [] false maxfails 0 false failover 0 (mkOptions false false true dot).

Definition client : Client := mkClient "192.0.2.1:5353" false.

(** The first upstream has failed three checks. *)
Definition upstreams : list Proxy_ := [mkProxy "192.0.2.53:53" 3 newTransport; mkProxy "192.0.2.54:53" 0 newTransport].

Lemma some_draw_ok : draw_ok some_draw.
Proof. by intros n. Qed.

Lemma turn_ok_ rc : turn_ok (turn_ rc).
Proof. split_and!; [done|apply some_draw_ok|]. intros k tr. simpl. lia. Qed.

Lemma busy_turn_ok : turn_ok busy_turn.
Proof.
  split_and!; [done|apply some_draw_ok|]. intros [|k] tr; simpl; [apply pool_Yield|lia].
Qed.

Lemma forward_replies_witness :
  let x := (forward_ServeDNS (config [] 2) client request None sequential some_draw 0 [busy_turn; busy_turn] upstreams).1 in
  f_msg x = Some (reply 4711 RcodeSuccess) /\
  (settled request None [busy_turn; busy_turn] x \/ (f_msg x = None /\ f_code x = Ok RcodeRefused)).
Proof.
  split; [vm_compute; reflexivity|]. apply forward_replies; [apply some_draw_ok| |simpl; lia].
  repeat constructor; apply busy_turn_ok.
Defined.

(** A closed connection in the pool before each exchange. *)
Lemma exchange_starves_witness :
  forall fuel, exchange fuel newTransport client request (mkOptions false false true dot)
    (fun _ _ => Yield newTransport (mkConn 77 true 0 0) 0) (fun _ => busy_try 0) 0 = None.
Proof. intros fuel. apply exchange_starves. intros j u. vm_compute. reflexivity. Defined.

Lemma forward_healthy_witness :
  let x := (forward_ServeDNS (config [] 2) client request None sequential some_draw 0 [turn_ RcodeSuccess; turn_ RcodeSuccess] upstreams).1 in
  f_events x = [Contacted 1 false false] /\ contacts_up (config [] 2) (p_fails <$> upstreams) (f_events x).
Proof.
  split; [vm_compute; reflexivity|]. apply (forward_healthy (config [] 2) client request None) with (q := 1%nat).
  - apply some_draw_ok.
  - repeat constructor.
  - reflexivity.
  - simpl. lia.
  - vm_compute. discriminate.
Defined.

(** Whatever connections are kept, an exchange gives the reply with its id. *)
Lemma try_answers o rc k tr :
  stopped tr = false -> exists tr', Connect tr client request o (try_ rc k) = (Some (reply 4711 rc), None, tr') /\ stopped tr' = false.
Proof.
  intros Hst. unfold Connect, Dial. rewrite Hst. set (tt := stringToTransportType _).
  assert (forall pc t1, stopped t1 = false -> stopped (Yield t1 pc 0) = false) as HY.
  { intros pc t1 H1. unfold Yield. rewrite H1. case_decide; done. }
  destruct (skip_old _ _ _) as [gone [|pc rest]]; cbn; eexists; (split; [done|]); by apply HY.
Qed.

Lemma failover_never_settles_witness :
  let turns := replicate 20 (turn_ RcodeServerFailure) in
  let x := (forward_ServeDNS (config [RcodeServerFailure] 0) client request None sequential some_draw 0 turns upstreams).1 in
  f_msg x = None /\ f_code x = Ok RcodeServerFailure /\ length (f_events x) = length turns.
Proof.
  apply failover_never_settles; [apply some_draw_ok| | | |by repeat constructor|simpl; lia|reflexivity..].
  - apply Forall_replicate, turn_ok_.
  - apply Forall_replicate. by intros ps.
  - apply Forall_replicate. intros tr Hst. exists (reply 4711 RcodeServerFailure).
    destruct (try_answers (mkOptions false false true dot) RcodeServerFailure 0 tr Hst) as (tr' & E & Hst'). exists tr'.
    split_and!; [|done|vm_compute; reflexivity|by left].
    unfold exchange_fuel. rewrite Nat.add_comm. cbn [exchange plus]. unfold config, opts, turn_, t_tries, t_share. rewrite E. done.
Defined.

End ForwardSample.
