(* ===== verification/GoNet.v ===== *)
(** * Package net of Go: addresses as text

    How an address prints ([IP_String], as [netip.Addr.String] does it), and
    addresses with ports ([JoinHostPort]), with the functions of package
    strings they are taken apart with. *)

From Stdlib Require Import Ascii ZArith Lia.
From stdpp Require Import base numbers strings list.
From S2P Require Import Prelude Ip Http Xfer GoStrings.

Local Open Scope Z_scope.

(** ** Strings *)

(** [strings.Cut] *)
Fixpoint Cut (s sep : string) : option (string * string) :=
  match CutPrefix s sep with
  | Some rest => Some (EmptyString, rest)
  | None =>
      match s with
      | EmptyString => None
      | String c s' => '(before, after) ← Cut s' sep; Some (String c before, after)
      end
  end.

(** [strings.Trim] with a set of bytes. *)
Fixpoint TrimLeft (s : string) (cutset : list ascii) : string :=
  match s with
  | String c s' => if decide (c ∈ cutset) then TrimLeft s' cutset else s
  | EmptyString => EmptyString
  end.

Fixpoint TrimRight (s : string) (cutset : list ascii) : string :=
  match s with
  | EmptyString => EmptyString
  | String c s' =>
      match TrimRight s' cutset with
      | EmptyString => if decide (c ∈ cutset) then EmptyString else String c EmptyString
      | t => String c t
      end
  end.

Definition Trim (s : string) (cutset : list ascii) : string := TrimRight (TrimLeft s cutset) cutset.

(** ** Addresses *)

Definition hex_digit (d : Z) : ascii :=
  ascii_of_N (Z.to_N (if decide (d < 10) then 48 + d else 87 + d)).

(** The hexadecimal digits of 16 bits, without leading zero_run. *)
Definition hex16 (x : Z) : string :=
  let d k := hex_digit (Z.land (Z.shiftr x k) 15) in
  let tail := String (d 0) EmptyString in
  if decide (x < 16) then tail
  else if decide (x < 256) then String (d 4) tail
  else if decide (x < 4096) then String (d 8) (String (d 4) tail)
  else String (d 12) (String (d 8) (String (d 4) tail)).

Fixpoint words (ip : list Z) : list Z :=
  match ip with
  | a :: b :: ip' => (a * 256 + b) :: words ip'
  | _ => []
  end.

Fixpoint zero_run (l : list Z) : nat :=
  match l with
  | 0 :: l' => S (zero_run l')
  | _ => O
  end.

(** The first of the longest runs of at least two zero_run, as its bounds. *)
Fixpoint longest_zeros (l : list Z) (i : nat) (best : option (nat * nat)) : option (nat * nat) :=
  match l with
  | [] => best
  | _ :: l' =>
      let n := zero_run l in
      let len := match best with Some (a, b) => (b - a)%nat | None => O end in
      longest_zeros l' (S i) (if decide (2 <= n /\ len < n)%nat then Some (i, (i + n)%nat) else best)
  end.

Fixpoint join_hex (l : list Z) : string :=
  match l with
  | [] => EmptyString
  | [x] => hex16 x
  | x :: l' => hex16 x +:+ ":" +:+ join_hex l'
  end.

Definition ip6_String (ip : list Z) : string :=
  let ws := words ip in
  match longest_zeros ws 0 None with
  | Some (a, b) => join_hex (take a ws) +:+ "::" +:+ join_hex (drop b ws)
  | None => join_hex ws
  end.

Definition ip4_String (ip : list Z) : string :=
  match ip with
  | [a; b; c; d] => Itoa a +:+ "." +:+ Itoa b +:+ "." +:+ Itoa c +:+ "." +:+ Itoa d
  | _ => EmptyString
  end.

(** [net.IP.String] *)
Definition IP_String (ip : list Z) : string :=
  match ip with
  | [] => "<nil>"
  | _ =>
      match To4 ip with
      | Some v4 => ip4_String v4
      | None => ip6_String ip
      end
  end.

(** [net.JoinHostPort] *)
Definition JoinHostPort (host port : string) : string :=
  if Contains host ":" then "[" +:+ host +:+ "]:" +:+ port else host +:+ ":" +:+ port.

Example IP_String_examples :
  IP_String [192; 0; 2; 1] = "192.0.2.1" /\
  (IP_String <$> ParseIP "2001:db8:0:0:1:0:0:1") = Some "2001:db8::1:0:0:1" /\
  (IP_String <$> ParseIP "fe80:0:0:0:0:0:0:0") = Some "fe80::" /\
  (IP_String <$> ParseIP "::ffff:10.0.0.1") = Some "10.0.0.1" /\
  (IP_String <$> ParseIP "1:2:3:4:5:6:7:0") = Some "1:2:3:4:5:6:7:0".
Proof. vm_compute. done. Qed.

(** ** Facts *)

Definition byte (x : Z) : Prop := 0 <= x < 256.

(** *** Bytes of a string *)

Definition lacks (s : string) (c : ascii) : Prop := LastIndexByte s c = None.

Lemma lacks_app a b c : lacks (a +:+ b) c <-> lacks a c /\ lacks b c.
Proof.
  unfold lacks. induction a as [|d a IH]; simpl; [naive_solver|].
  destruct (LastIndexByte (a +:+ b) c), (LastIndexByte a c); destruct (decide (d = c)); naive_solver.
Qed.

Lemma LastIndexByte_app a b c : lacks b c -> LastIndexByte (a +:+ String c b) c = Some (String.length a).
Proof.
  intros H. induction a as [|d a IH]; simpl; [by rewrite H, decide_True|]. by rewrite IH.
Qed.

(** *** Bytes of parsed addresses *)

Lemma v4_fields_bytes s val dig acc ip :
  byte val -> Forall byte acc -> v4_fields s val dig acc = Some ip -> Forall byte ip.
Proof.
  revert val dig acc. induction s as [|c s IH]; intros val dig acc Hv Ha; simpl.
  - repeat case_decide; try done. intros [= <-]. apply Forall_app. by split; [|apply Forall_singleton].
  - unfold digit_of. destruct (decide (48 <= byte_of c <= 57)).
    + repeat case_decide; try done. apply IH; [|done]. unfold byte in *. lia.
    + repeat case_decide; try done. apply IH; [unfold byte; lia|]. apply Forall_app. by split; [|apply Forall_singleton].
Qed.

Lemma hex_group_bound s off acc n v rest :
  (off <= 4)%nat -> 0 <= acc < 16 ^ Z.of_nat off -> hex_group s off acc = Some (n, v, rest) -> 0 <= v < 65536.
Proof.
  revert off acc. induction s as [|c s IH]; intros off acc Ho Ha; simpl.
  - intros [= <- <- <-]. assert (16 ^ Z.of_nat off <= 16 ^ 4) by (apply Z.pow_le_mono_r; lia). lia.
  - destruct (hex_of c) as [d|] eqn:E.
    + case_decide; [done|]. apply IH; [lia|]. assert (0 <= d < 16) as Hd by (unfold hex_of in E; repeat case_decide; simplify_eq; lia).
      rewrite Nat2Z.inj_succ, Z.pow_succ_r by lia. lia.
    + intros [= <- <- <-]. assert (16 ^ Z.of_nat off <= 16 ^ 4) by (apply Z.pow_le_mono_r; lia). lia.
Qed.

Lemma zeros_bytes n : Forall byte (Ip.zeros n).
Proof. induction n; simpl; constructor; [unfold byte; lia|done]. Qed.

Lemma v6_finish_bytes s ip ell r : Forall byte ip -> v6_finish s ip ell = Some r -> Forall byte r.
Proof.
  intros H. unfold v6_finish. repeat case_decide; try done; destruct ell; try done; intros [= <-]; [|done].
  apply Forall_app. split; [by apply Forall_take|]. apply Forall_app. split; [apply zeros_bytes|by apply Forall_drop].
Qed.

Lemma v6_loop_bytes fuel s ip ell r : Forall byte ip -> v6_loop fuel s ip ell = Some r -> Forall byte r.
Proof.
  revert s ip ell. induction fuel as [|fuel IH]; intros s ip ell H; cbn [v6_loop]; [by apply v6_finish_bytes|].
  case_decide; [|by apply v6_finish_bytes]. destruct (hex_group s 0 0) as [[[off acc] rest]|] eqn:E; [|done].
  apply hex_group_bound in E; [|lia|simpl; lia]. case_decide; [done|].
  assert (Forall byte (ip ++ [acc / 256; acc mod 256])) as H'.
  { apply Forall_app. split; [done|]. pose proof (Z.mod_pos_bound acc 256). repeat constructor; unfold byte;
      [apply Z.div_pos; lia|apply Z.div_lt_upper_bound; lia|lia|lia]. }
  destruct (HasPrefix rest ".").
  - repeat case_decide; try done. destruct (parseIPv4 s) as [v4|] eqn:E4; [|done]. apply v6_finish_bytes. apply Forall_app.
    split; [done|]. eapply v4_fields_bytes; [|constructor|done]. unfold byte. lia.
  - cbv zeta. case_decide; [by apply v6_finish_bytes|]. destruct (negb _ || _); [done|]. destruct (HasPrefix rest "::"); [|by apply IH].
    destruct ell; [done|]. case_decide; [by apply v6_finish_bytes|by apply IH].
Qed.

Lemma ParseIP_bytes s ip : ParseIP s = Some ip -> Forall byte ip.
Proof.
  unfold ParseIP. destruct (classify_ip s) as [[|]|]; [| |done].
  - intros (v4 & H & ->)%fmap_Some_1. apply Forall_app. split; [repeat constructor; unfold byte; lia|].
    eapply v4_fields_bytes; [|constructor|done]. unfold byte. lia.
  - destruct (Contains s "%"); [done|]. unfold parseIPv6. case_decide; [intros [= <-]; apply (zeros_bytes 16)|].
    destruct (HasPrefix s "::"); apply v6_loop_bytes; constructor.
Qed.

(** *** Dotted addresses *)

Definition dig (x : Z) : ascii := ascii_of_nat (Z.to_nat (48 + x)).

Lemma dig_spec x : 0 <= x < 10 ->
  digit_of (dig x) = Some x /\ dig x <> "."%char /\ dig x <> ":"%char /\ dig x <> "%"%char.
Proof.
  intros Hx. assert (Forall (fun x => digit_of (dig x) = Some x /\ dig x <> "."%char /\ dig x <> ":"%char /\ dig x <> "%"%char)
    (Z.of_nat <$> seq 0 10)) as H by (repeat constructor; vm_compute; discriminate).
  rewrite Forall_forall in H. apply H, list_elem_of_fmap. exists (Z.to_nat x). split; [lia|]. apply elem_of_seq. lia.
Qed.

(** The digits of an octet. *)
Lemma Itoa_octet a : byte a ->
  (a < 10 /\ Itoa a = String (dig a) EmptyString) \/
  (exists q m, 0 < q < 10 /\ 0 <= m < 10 /\ a = q * 10 + m /\ Itoa a = String (dig q) (String (dig m) EmptyString)) \/
  (exists c q m, 0 < c < 10 /\ 0 <= q < 10 /\ 0 <= m < 10 /\ a = (c * 10 + q) * 10 + m /\
    Itoa a = String (dig c) (String (dig q) (String (dig m) EmptyString))).
Proof.
  unfold byte. intros Ha. unfold Itoa. rewrite decide_False by lia. change 20%nat with (S (S (S 17))). cbn [itoa_pos].
  destruct (decide (a < 10)); [left; split; [done|]; by rewrite Z.mod_small by lia|right].
  pose proof (Z.div_mod a 10 ltac:(lia)) as E1. pose proof (Z.mod_pos_bound a 10 ltac:(lia)) as B1.
  destruct (decide (a / 10 < 10)) as [H|H].
  - left. exists (a / 10), (a mod 10). rewrite (Z.mod_small (a / 10)) by lia. split_and!; [lia..|done].
  - right. pose proof (Z.div_mod (a / 10) 10 ltac:(lia)) as E2. pose proof (Z.mod_pos_bound (a / 10) 10 ltac:(lia)) as B2.
    rewrite decide_True by lia. exists (a / 10 / 10), ((a / 10) mod 10), (a mod 10).
    rewrite (Z.mod_small (a / 10 / 10)) by lia. split_and!; [lia..|done].
Qed.

(** How an octet is read back, is told from other text, and is split. *)
Record octet_prints (a : Z) : Prop := {
  op_fields : exists n, forall rest acc, v4_fields (Itoa a +:+ rest) 0 0 acc = v4_fields rest a (S n) acc;
  op_classify : forall rest, classify_ip (Itoa a +:+ rest) = classify_ip rest;
  op_split : Split (Itoa a) "."%char = [Itoa a];
  op_colon : LastIndexByte (Itoa a) ":" = None;
  op_percent : LastIndexByte (Itoa a) "%" = None }.

Lemma octet_print a : byte a -> octet_prints a.
Proof.
  intros Ha. destruct (Itoa_octet a Ha) as [[Hlt E]|[(q & m & Hq & Hm & Ea & E)|(c & q & m & Hc & Hq & Hm & Ea & E)]];
    unfold byte in Ha.
  - destruct (dig_spec a) as (D & D1 & D2 & D3); [lia|]. split; rewrite E; simpl.
    + exists 0%nat. intros. rewrite D, !decide_False by lia. done.
    + intros. by rewrite !decide_False.
    + by rewrite decide_False.
    + by rewrite decide_False.
    + by rewrite decide_False.
  - destruct (dig_spec q) as (D & D1 & D2 & D3); [lia|]. destruct (dig_spec m) as (F & F1 & F2 & F3); [lia|]. split; rewrite E; simpl.
    + exists 1%nat. intros. rewrite D, !decide_False by lia. rewrite F, !decide_False by lia. f_equal; lia.
    + intros. by rewrite !decide_False.
    + by rewrite !decide_False.
    + by rewrite !decide_False.
    + by rewrite !decide_False.
  - destruct (dig_spec c) as (D & D1 & D2 & D3); [lia|]. destruct (dig_spec q) as (F & F1 & F2 & F3); [lia|].
    destruct (dig_spec m) as (G & G1 & G2 & G3); [lia|]. split; rewrite E; simpl.
    + exists 2%nat. intros. rewrite D, !decide_False by lia. rewrite F, !decide_False by lia. rewrite G, !decide_False by lia. f_equal; lia.
    + intros. by rewrite !decide_False.
    + by rewrite !decide_False.
    + by rewrite !decide_False.
    + by rewrite !decide_False.
Qed.

Lemma v4_fields_dot rest val n acc :
  length acc <> 3%nat -> v4_fields ("." +:+ rest) val (S n) acc = v4_fields rest 0 0 (acc ++ [val]).
Proof.
  intros H. change ("." +:+ rest) with (String "." rest). cbn [v4_fields]. change (digit_of ".") with (@None Z). cbv iota.
  by rewrite decide_True, !decide_False by done.
Qed.

(** A dotted address is read back. *)
Lemma ParseIP_ip4_String a b c d :
  byte a -> byte b -> byte c -> byte d -> ParseIP (ip4_String [a; b; c; d]) = Some (v4_prefix ++ [a; b; c; d]).
Proof.
  intros [[na A1] A2 _ _ _]%octet_print [[nb B1] B2 _ _ _]%octet_print [[nc C1] C2 _ _ _]%octet_print [[nd D1] _ _ _ _]%octet_print.
  unfold ParseIP, ip4_String. rewrite A2. change (classify_ip ("." +:+ _)) with (Some true). cbv iota.
  unfold parseIPv4. rewrite A1, v4_fields_dot, B1, v4_fields_dot, C1, v4_fields_dot by done.
  rewrite <-(str_app_nil_r (Itoa d)), D1. cbn [v4_fields]. by rewrite decide_False, decide_True by done.
Qed.

(** *** Printed addresses *)

Lemma ip4_String_lacks a b c d : byte a -> byte b -> byte c -> byte d -> lacks (ip4_String [a; b; c; d]) ":".
Proof.
  intros [_ _ _ A _]%octet_print [_ _ _ B _]%octet_print [_ _ _ C _]%octet_print [_ _ _ D _]%octet_print.
  unfold ip4_String. rewrite !lacks_app. by split_and!.
Qed.

Lemma ip6_String_colon ip : length ip = 16%nat -> ~ lacks (ip6_String ip) ":".
Proof.
  intros Hl. unfold ip6_String. cbv zeta. destruct (longest_zeros _ _ _) as [[x y]|]; rewrite ?lacks_app; [by intros (_ & ? & _)|].
  destruct ip as [|a [|b [|c [|d ip]]]]; try done. cbn [words join_hex]. destruct (words ip); rewrite !lacks_app; by intros (_ & ? & _).
Qed.

Lemma list4 {A} (l : list A) : length l = 4%nat -> exists a b c d, l = [a; b; c; d].
Proof. destruct l as [|a [|b [|c [|d [|]]]]]; try done. intros _. by exists a, b, c, d. Qed.

Lemma To4_prefix v4 : length v4 = 4%nat -> To4 (v4_prefix ++ v4) = Some v4.
Proof.
  intros H. unfold To4. rewrite length_app, H. rewrite decide_False by done. rewrite decide_True; [done|]. split; [done|].
  by rewrite take_app_length' by done.
Qed.

(** Only the IPv4 address itself prints as a dotted address. *)
Lemma IP_String_v4 ip a b c d :
  length ip = 16%nat -> Forall byte ip -> byte a -> byte b -> byte c -> byte d ->
  IP_String ip = ip4_String [a; b; c; d] <-> ip = v4_prefix ++ [a; b; c; d].
Proof.
  intros Hl Hb Ha Hb' Hc Hd. split; [|intros ->; unfold IP_String; by rewrite To4_prefix].
  unfold IP_String. destruct ip as [|x ip'] eqn:Eip; [done|]. rewrite <-Eip in *. destruct (To4 ip) as [v4|] eqn:E4.
  - unfold To4 in E4. rewrite decide_False in E4 by lia. case_decide as Hp; [|done]. injection E4 as <-. intros E.
    destruct (list4 (drop 12 ip)) as (a' & b' & c' & d' & Ed); [rewrite length_drop; lia|]. rewrite Ed in E.
    assert (Forall byte [a'; b'; c'; d']) as HF by (rewrite <-Ed; by apply Forall_drop).
    rewrite !Forall_cons in HF. destruct HF as (F1 & F2 & F3 & F4 & _).
    pose proof (ParseIP_ip4_String a' b' c' d' F1 F2 F3 F4) as HP. rewrite E, ParseIP_ip4_String in HP by done.
    rewrite <-(take_drop 12 ip), Ed. destruct Hp as [_ ->]. by injection HP as -> -> -> ->.
  - intros E. destruct (ip6_String_colon ip Hl). rewrite E. by apply ip4_String_lacks.
Qed.
