(* ===== verification/ForwardSetup.v ===== *)
(** * Where requests are forwarded to (plugin/forward/resolve.go, setup.go)

    The destinations of a forward stanza: addresses, files of name servers
    and host names, which are resolved once ([classifyToAddrs],
    [expandAndDedup]); and the proxies made of them ([make_proxies], the end of
    [parseStanza]).  Addresses are parsed by plugin/pkg/parse.  Reading a file
    of name servers, the resolver of the system and exchanges with name servers
    are parameters. *)

From Stdlib Require Import Ascii ZArith Lia.
From stdpp Require Import base numbers gmap strings list.
From S2P Require Import Prelude DnsTypes DnsLib Ip GoStrings Http Serve Xfer GoNet.

Local Open Scope Z_scope.

(** ** plugin/pkg/transport, plugin/pkg/parse *)

Definition trans_DNS : string := "dns".
Definition trans_TLS : string := "tls".
Definition trans_UNIX : string := "unix".
Definition transports : list string := ["tls"; "dns"; "quic"; "grpc"; "https3"; "https"; "unix"].

Fixpoint transport_loop (ts : list string) (s : string) : string * string :=
  match ts with
  | [] => (trans_DNS, s)
  | t :: ts' => match CutPrefix s (t +:+ "://") with Some rest => (t, rest) | None => transport_loop ts' s end
  end.

(** [parse.Transport] *)
Definition Transport_ (s : string) : string * string := transport_loop transports s.

(** The default port of a transport; [None] for those without one. *)
Definition default_port (trans : string) : option string :=
  if decide (trans = "dns") then Some "53"
  else if decide (trans = "tls" \/ trans = "quic") then Some "853"
  else if decide (trans = "grpc" \/ trans = "https") then Some "443"
  else None.

Definition stripZone (host : string) : string :=
  match LastIndexByte host "%" with Some i => take_str i host | None => host end.

Inductive setup_error : Type :=
| InvalidAddress (h : string)
| NotIPOrFile (h : string)
| NoNameservers
| NotDomain (h : string)
| Unresolved (h e : string)
| NoUpstreams
| BadProtocol (trans host : string)
| TwoServerNames (a b host : string).

Definition brackets : list ascii := ["["; "]"]%char.

(** What the outside gives: [dns.ClientConfigFromFile] (the servers and the
    port), [net.LookupHost], an exchange with a name server for a name and a
    type, and [dns.IsDomainName]. *)
Class Resolvers := {
  ClientConfigFromFile : string -> option (list string * string);
  LookupHost : string -> result string (list string);
  Exchange : string -> string -> Z -> result string (option Msg);
  IsDomainName_ : string -> bool }.

Section setup.
Context {L : DnsLib} {R : Resolvers}.

Definition tryFile (s : string) : option (list string) :=
  match ClientConfigFromFile s with
  | Some (servers, port) => Some ((fun s => JoinHostPort (stripZone s) port) <$> servers)
  | None => None
  end.

(** One address of [parse.HostPortOrFile]. *)
Definition host_port_or_file (h : string) : result setup_error (list string) :=
  let '(trans, host) := Transport_ h in
  let file name := match tryFile name with Some ss => Ok ss | None => Err (NotIPOrFile name) end in
  if decide (host = EmptyString) then Err (InvalidAddress h)
  else if decide (trans = trans_UNIX) then Ok [trans +:+ "://" +:+ host]
  else
    match net_SplitHostPort host with
    | None =>
        let host := Trim host brackets in
        match ParseIP (stripZone host) with
        | None => file host
        | Some _ =>
            Ok [match default_port trans with
                | Some port => if decide (trans = trans_DNS) then JoinHostPort host port else trans +:+ "://" +:+ JoinHostPort host port
                | None => EmptyString
                end]
        end
    | Some (addr, _) => match ParseIP (stripZone addr) with None => file host | Some _ => Ok [h] end
    end.

Fixpoint host_ports (l : list string) : result setup_error (list string) :=
  match l with
  | [] => Ok []
  | h :: l' => a ← host_port_or_file h; b ← host_ports l'; Ok (a ++ b)
  end.

Definition HostPortOrFile (l : list string) : result setup_error (list string) :=
  servers ← host_ports l; if decide (servers = []) then Err NoNameservers else Ok servers.

(** [parse.HostPort] *)
Definition HostPort (s defaultPort : string) : option string :=
  match net_SplitHostPort s with
  | None => ParseIP s ≫= fun _ => Some (JoinHostPort s defaultPort)
  | Some (addr, port) =>
      ParseIP addr ≫= fun _ => Some (JoinHostPort addr (if decide (port = EmptyString) then defaultPort else port))
  end.

(** ** Zones of addresses (setup.go) *)

(** The address before the last percent sign with the port after it, and what
    is between. *)
Definition split_percent (host : string) : string * string :=
  match LastIndexByte host "%" with
  | None => (host, EmptyString)
  | Some i =>
      let newHost := take_str i host in
      let newHost := if HasPrefix newHost "[" then newHost +:+ "]" else newHost in
      let zone := drop_str (S i) host in
      match LastIndexByte zone ":" with
      | None => (newHost, zone)
      | Some j => (newHost +:+ drop_str j zone, TrimSuffix (take_str j zone) "]")
      end
  end.

(** [splitZone]: the address without its zone, and the zone. *)
Definition splitZone (host : string) : string * string :=
  let '(trans, host) := match Cut host "://" with Some (t, h) => (t, h) | None => (EmptyString, host) end in
  let '(newHost, zone) := split_percent host in
  (if decide (trans = EmptyString) then newHost else trans +:+ "://" +:+ newHost, zone).

(** ** Destinations (resolve.go) *)

Record hostEntry := mkHost { hostname : string; port : string; transport : string; zone : string }.

Inductive toEntry : Type := Static (addrs : list string) | Dynamic (entry : hostEntry).

Definition parseAsHostEntry (h : string) : option hostEntry :=
  let '(cleanH, zone) := splitZone h in
  let '(trans, host) := Transport_ cleanH in
  if decide (trans <> trans_DNS /\ trans <> trans_TLS) then None
  else
    let port := if decide (trans = trans_TLS) then "853" else "53" in
    let '(name, port) := match net_SplitHostPort host with Some (h2, p) => (h2, p) | None => (host, port) end in
    let name := Trim name brackets in
    if negb (IsDomainName_ name) || bool_decide (name = EmptyString) then None
    else match ParseIP name with
         | Some _ => None
         | None => Some (mkHost name port trans zone)
         end.

Fixpoint classifyToAddrs (l : list string) : result setup_error (list toEntry) :=
  match l with
  | [] => Ok []
  | h :: l' =>
      e ← match HostPortOrFile [h] with
          | Ok hosts => Ok (Static hosts)
          | Err (NotIPOrFile _) => match parseAsHostEntry h with Some e => Ok (Dynamic e) | None => Err (NotDomain h) end
          | Err e => Err e
          end;
      es ← classifyToAddrs l';
      Ok (e :: es)
  end.

Definition formatResolvedAddr (ip port trans zone : string) : string :=
  if decide (trans = trans_TLS) then
    if decide (zone = EmptyString) then "tls://" +:+ JoinHostPort ip port
    else if Contains ip ":" then "tls://[" +:+ ip +:+ "%" +:+ zone +:+ "]:" +:+ port
    else "tls://" +:+ ip +:+ "%" +:+ zone +:+ ":" +:+ port
  else JoinHostPort ip port.

(** [normalizeAddr]: the address without transport and zone. *)
Definition normalizeAddr (addr : string) : string := (Transport_ (splitZone addr).1).2.

Definition systemLookup (name : string) : result string (list string) :=
  ips ← LookupHost name; if decide (ips = []) then Err "no addresses found" else Ok ips.

(** The addresses of a type in a reply. *)
Definition reply_ips (typ : Z) (m : option Msg) : list string :=
  match m with
  | None => []
  | Some m => omap (fun rr => match Data rr with
                              | RA ip => if decide (typ = TypeA) then Some (IP_String ip) else None
                              | RAAAA ip => if decide (typ = TypeAAAA) then Some (IP_String ip) else None
                              | _ => None
                              end) (Answer m)
  end.

Fixpoint dnsLookup (name : string) (resolvers : list string) (lastErr : option string) : result string (list string) :=
  match resolvers with
  | [] => Err (default "no addresses found" lastErr)
  | resolver :: resolvers' =>
      let addr := match net_SplitHostPort resolver with Some _ => resolver | None => JoinHostPort resolver "53" end in
      match Exchange addr (Fqdn name) TypeA with
      | Err e => dnsLookup name resolvers' (Some e)
      | Ok r =>
          let ips := reply_ips TypeA r in
          match Exchange addr (Fqdn name) TypeAAAA with
          | Err e => if decide (ips = []) then dnsLookup name resolvers' (Some e) else Ok ips
          | Ok r =>
              let ips := ips ++ reply_ips TypeAAAA r in
              if decide (ips = []) then dnsLookup name resolvers' lastErr else Ok ips
          end
      end
  end.

Definition lookupHost (name : string) (resolvers : list string) : result string (list string) :=
  if decide (resolvers = []) then systemLookup name else dnsLookup name resolvers None.

Definition resolveHostEntry (e : hostEntry) (resolvers : list string) : result setup_error (list string) :=
  match lookupHost (hostname e) resolvers with
  | Err err => Err (Unresolved (hostname e) err)
  | Ok ips => Ok ((fun ip => formatResolvedAddr ip (port e) (transport e) (zone e)) <$> ips)
  end.

(** The addresses not seen before, and what has been seen. *)
Fixpoint dedup (addrs : list string) (seen : gset string) : list string * gset string :=
  match addrs with
  | [] => ([], seen)
  | addr :: addrs' =>
      let key := normalizeAddr addr in
      if decide (key ∈ seen) then dedup addrs' seen
      else let '(l, seen) := dedup addrs' ({[key]} ∪ seen) in (addr :: l, seen)
  end.

Definition entry_addrs (e : toEntry) (resolvers : list string) : result setup_error (list string) :=
  match e with Static addrs => Ok addrs | Dynamic entry => resolveHostEntry entry resolvers end.

Fixpoint expand_loop (entries : list toEntry) (resolvers : list string) (seen : gset string) : result setup_error (list string) :=
  match entries with
  | [] => Ok []
  | e :: entries' =>
      addrs ← entry_addrs e resolvers;
      let '(l, seen) := dedup addrs seen in
      rest ← expand_loop entries' resolvers seen;
      Ok (l ++ rest)
  end.

Definition expandAndDedup (entries : list toEntry) (resolvers : list string) : result setup_error (list string) :=
  expand_loop entries resolvers ∅.

(** ** Proxies (setup.go) *)

(** A proxy to make: its address, transport and TLS server name. *)
Record proxySpec := mkSpec { sp_addr : string; sp_trans : string; sp_server : string }.

Definition make_proxy (tlsServerName : string) (hostWithZone : string) : result setup_error proxySpec :=
  let '(host, serverName) := splitZone hostWithZone in
  let '(trans, h) := Transport_ host in
  if decide (trans <> "dns" /\ trans <> "tls") then Err (BadProtocol trans host)
  else if decide (trans = trans_TLS /\ serverName <> EmptyString) then
    if decide (tlsServerName <> EmptyString) then Err (TwoServerNames tlsServerName serverName host)
    else Ok (mkSpec h trans serverName)
  else Ok (mkSpec h trans (if decide (trans = trans_TLS) then tlsServerName else EmptyString)).

Fixpoint make_all (tlsServerName : string) (hosts : list string) : result setup_error (list proxySpec) :=
  match hosts with
  | [] => Ok []
  | h :: hosts' => p ← make_proxy tlsServerName h; ps ← make_all tlsServerName hosts'; Ok (p :: ps)
  end.

(** The destinations of a stanza, with the server name and the resolvers of
    its block. *)
Definition make_proxies (tlsServerName : string) (resolvers : list string) (to : list string) : result setup_error (list proxySpec) :=
  entries ← classifyToAddrs to;
  toHosts ← expandAndDedup entries resolvers;
  if decide (toHosts = []) then Err NoUpstreams else make_all tlsServerName toHosts.

End setup.

(** ** Properties *)

Lemma TrimSuffix_bracket a : TrimSuffix (a +:+ "]") "]" = a.
Proof.
  unfold TrimSuffix. rewrite HasSuffix_app, str_length_app. simpl. rewrite Nat.add_sub. apply take_str_app.
Qed.

(** An address, a port and a zone that can be told apart. *)
Record separable (ip port zone : string) : Prop := {
  sep_ip : lacks ip "%" /\ HasPrefix ip "[" = false;
  sep_port : lacks port "%" /\ lacks port ":";
  sep_zone : lacks zone "%" /\ HasSuffix zone "]" = false /\ zone <> EmptyString }.

Lemma drop_after a c b : drop_str (S (String.length a)) (a +:+ String c b) = b.
Proof. induction a as [|d a IH]; [done|]. apply IH. Qed.

(** Before the zone [a], between the zone and the port [mid]. *)
Lemma split_percent_port a zone mid port :
  lacks zone "%" -> lacks mid "%" -> lacks port "%" -> lacks port ":" ->
  split_percent (a +:+ "%" +:+ zone +:+ mid +:+ ":" +:+ port) =
    ((if HasPrefix a "[" then a +:+ "]" else a) +:+ ":" +:+ port, TrimSuffix (zone +:+ mid) "]").
Proof.
  intros Hz Hm P1 P2. unfold split_percent. change ("%" +:+ zone +:+ mid +:+ ":" +:+ port) with (String "%" (zone +:+ mid +:+ ":" +:+ port)).
  rewrite LastIndexByte_app by (rewrite !lacks_app; done). rewrite take_str_app, drop_after.
  rewrite str_app_assoc. change (":" +:+ port) with (String ":" port). rewrite LastIndexByte_app by done.
  by rewrite take_str_app, drop_str_app.
Qed.

Lemma splitZone_tls host : splitZone ("tls://" +:+ host) = ("tls://" +:+ (split_percent host).1, (split_percent host).2).
Proof. unfold splitZone. change (Cut ("tls://" +:+ host) "://") with (Some ("tls", host)).
  cbv beta iota zeta. destruct (split_percent host).
  by rewrite decide_False.
Qed.

(** A zone written into the address of a resolved host is read back from it,
    and leaves the address and the port, of either family. *)
Lemma splitZone_format ip port zone :
  separable ip port zone ->
  splitZone (formatResolvedAddr ip port trans_TLS zone) = ("tls://" +:+ JoinHostPort ip port, zone).
Proof.
  intros [[I1 I2] [P1 P2] (Z1 & Z2 & Z3)]. unfold formatResolvedAddr, JoinHostPort. rewrite decide_True, decide_False by done.
  destruct (Contains ip ":").
  - change ("tls://[" +:+ ip +:+ "%" +:+ zone +:+ "]:" +:+ port) with ("tls://" +:+ (("[" +:+ ip) +:+ "%" +:+ zone +:+ "]" +:+ ":" +:+ port)).
    rewrite splitZone_tls, split_percent_port by done. simpl. rewrite TrimSuffix_bracket. by rewrite <-str_app_assoc.
  - rewrite splitZone_tls. change (zone +:+ ":" +:+ port) with (zone +:+ EmptyString +:+ ":" +:+ port).
    rewrite split_percent_port by done. rewrite I2. simpl. f_equal. rewrite str_app_nil_r. unfold TrimSuffix. by rewrite Z2.
Qed.

Section properties.
Context {L : DnsLib} {R : Resolvers}.

(** A resolved host is reached over its transport at the address found, with
    the port of the configuration, and over TLS under the name of its zone. *)
Lemma make_proxy_resolved ip port zone :
  separable ip port zone -> make_proxy EmptyString (formatResolvedAddr ip port trans_TLS zone) =
    Ok (mkSpec (JoinHostPort ip port) trans_TLS zone).
Proof.
  intros H. unfold make_proxy. rewrite (splitZone_format _ _ _ H).
  change (Transport_ ("tls://" +:+ JoinHostPort ip port)) with (trans_TLS, JoinHostPort ip port). cbv beta iota.
  rewrite (decide_False (P := trans_TLS <> "dns" /\ trans_TLS <> "tls")) by naive_solver.
  rewrite decide_True by (split; [done|apply H]). by rewrite decide_False by naive_solver.
Qed.

Lemma dedup_spec addrs seen l seen' :
  dedup addrs seen = (l, seen') ->
  l ⊆ addrs /\ NoDup (normalizeAddr <$> l) /\ (forall a, a ∈ l -> normalizeAddr a ∉ seen) /\
  (forall k, k ∈ seen' <-> k ∈ seen \/ k ∈ normalizeAddr <$> l) /\ (forall a, a ∈ addrs -> normalizeAddr a ∈ seen').
Proof.
  revert seen l seen'. induction addrs as [|a addrs IH]; intros seen l seen'; simpl.
  { intros [= <- <-]. split_and!; set_solver by constructor. }
  case_decide as Hs.
  - intros (H1 & H2 & H3 & H4 & H5)%IH. split_and!; [set_solver|done|done|done|].
    intros b [->|Hb]%elem_of_cons; [|by apply H5]. apply H4. by left.
  - destruct (dedup addrs _) as [l1 seen1] eqn:E. intros [= <- <-]. apply IH in E as (H1 & H2 & H3 & H4 & H5).
    split_and!.
    + set_solver.
    + simpl. constructor; [|done]. intros (b & Hb & Hin)%list_elem_of_fmap. apply H3 in Hin. set_solver.
    + set_solver.
    + intros k. rewrite H4. simpl. set_solver.
    + intros b [->|Hb]%elem_of_cons; [apply H4; left; set_solver|by apply H5].
Qed.

(** The destinations used: no two with the same address and port, and one for
    every address of every entry. *)
Lemma expand_spec entries resolvers seen l :
  expand_loop entries resolvers seen = Ok l ->
  NoDup (normalizeAddr <$> l) /\ (forall a, a ∈ l -> normalizeAddr a ∉ seen) /\
  (forall e addrs a, e ∈ entries -> entry_addrs e resolvers = Ok addrs -> a ∈ addrs ->
    normalizeAddr a ∈ seen \/ normalizeAddr a ∈ normalizeAddr <$> l).
Proof.
  revert seen l. induction entries as [|e entries IH]; intros seen l; cbn [expand_loop].
  { intros [= <-]. split_and!; [constructor|by intros ? ?%elem_of_nil|by intros ? ? ? ?%elem_of_nil]. }
  intros (addrs & Ha & H)%bind_ok_inv. destruct (dedup addrs seen) as [l1 seen1] eqn:E.
  apply bind_ok_inv in H as (rest & Hr & [= <-]). apply dedup_spec in E as (D1 & D2 & D3 & D4 & D5).
  apply IH in Hr as (R1 & R2 & R3). split_and!.
  - rewrite fmap_app. apply NoDup_app. split_and!; [done| |done].
    intros k Hk (b & -> & Hin)%list_elem_of_fmap. apply (R2 b Hin). apply D4. by right.
  - intros a [Ha'|Ha']%elem_of_app; [by apply D3|]. apply R2 in Ha'. rewrite D4 in Ha'. naive_solver.
  - intros e' addrs' a [->|He]%elem_of_cons Ha' Hin; rewrite fmap_app, elem_of_app.
    + rewrite Ha in Ha'. injection Ha' as ->. apply D5, D4 in Hin. naive_solver.
    + destruct (R3 e' addrs' a He Ha' Hin) as [Hs|Hs]; [apply D4 in Hs; naive_solver|auto].
Qed.

Lemma expandAndDedup_spec entries resolvers l :
  expandAndDedup entries resolvers = Ok l ->
  NoDup (normalizeAddr <$> l) /\
  (forall e addrs a, e ∈ entries -> entry_addrs e resolvers = Ok addrs -> a ∈ addrs -> normalizeAddr a ∈ normalizeAddr <$> l).
Proof.
  intros H. apply expand_spec in H as (H1 & _ & H3). split; [done|]. intros e addrs a He Ha Hin.
  destruct (H3 e addrs a He Ha Hin); [set_solver|done].
Qed.

End properties.
