(* ===== verification/Hosts.v ===== *)
(** * The hosts plugin (plugin/hosts)

    A file in the format of /etc/hosts, and lines of that format in the
    configuration, as maps from names to addresses and from addresses to names
    ([hosts_parse]); reloading the file ([readHosts]); lookups and the handler;
    and the names of reverse zones (plugin/pkg/dnsutil/reverse.go).  The file is
    an input: its text with its time of modification and size. *)

From Stdlib Require Import Ascii ZArith Lia.
From stdpp Require Import base numbers gmap strings list.
From S2P Require Import Prelude DnsTypes DnsLib Ip Serve Xfer FileZone Server Filters GoStrings GoNet.

Local Open Scope Z_scope.

(** ** Reverse zones *)

Definition IP4arpa : string := ".in-addr.arpa.".
Definition IP6arpa : string := ".ip6.arpa.".

Definition IsReverse (name : string) : Z :=
  if HasSuffix name IP4arpa then 1 else if HasSuffix name IP6arpa then 2 else 0.

(** [dnsutil.reverse] and [dnsutil.reverse6]: the address of the labels, the
    empty string for none. *)
Definition reverse_v4 (slice : list string) : string :=
  match ParseIP (JoinStr (reverse slice) ".") ≫= To4 with
  | Some ip => IP_String ip
  | None => EmptyString
  end.

Fixpoint groups_of4 (l : list string) : list string :=
  match l with
  | a :: b :: c :: d :: l' => (a +:+ b +:+ c +:+ d) :: groups_of4 l'
  | _ => []
  end.

Definition reverse_v6 (slice : list string) : string :=
  match ParseIP (JoinStr (groups_of4 (reverse slice)) ":") with
  | Some ip => IP_String ip
  | None => EmptyString
  end.

Definition ExtractAddressFromReverse (reverseName : string) : string :=
  if HasSuffix reverseName IP4arpa then reverse_v4 (Split (TrimSuffix reverseName IP4arpa) "."%char)
  else if HasSuffix reverseName IP6arpa then reverse_v6 (Split (TrimSuffix reverseName IP6arpa) "."%char)
  else EmptyString.

(** ** Files of hosts (hostsfile.go) *)

(** [parseIP]: without the zone of an address. *)
Definition parseIP (addr : string) : option (list Z) :=
  ParseIP (match IndexByte addr "%" with Some i => take_str i addr | None => addr end).

Record Map := mkMap {
  name4 : gmap string (list (list Z));
  name6 : gmap string (list (list Z));
  addr : gmap string (list string) }.

Definition newMap : Map := mkMap ∅ ∅ ∅.

Record options := mkOptions_ { autoReverse : bool; ttl : Z }.

Definition append_to {A} (k : string) (x : A) (m : gmap string (list A)) : gmap string (list A) :=
  <[k := default [] (m !! k) ++ [x]]> m.

(** The lines of [bufio.Scanner]: without the line end, a carriage return
    before it included; a line that fills the buffer ends the scan. *)
Definition MaxScanTokenSize : Z := 65536.
Definition newline : ascii := ascii_of_nat 10.
Definition drop_CR (s : string) : string := TrimSuffix s (String (ascii_of_nat 13) EmptyString).

Fixpoint scan_lines (l : list string) : list string :=
  match l with
  | [] => []
  | [s] => if decide (s = EmptyString \/ MaxScanTokenSize <= Z.of_nat (String.length s)) then [] else [drop_CR s]
  | s :: l' => if decide (MaxScanTokenSize <= Z.of_nat (String.length s)) then [] else drop_CR s :: scan_lines l'
  end.

Section hosts.
Context {L : DnsLib} {N : DnsNames}.

Definition add_name (origins : list string) (o : options) (ip : list Z) (m : Map) (field : string) : Map :=
  let name := Normalize field in
  if decide (Matches origins name = EmptyString) then m
  else
    let m := match To4 ip with
             | Some _ => mkMap (append_to name ip (name4 m)) (name6 m) (addr m)
             | None => mkMap (name4 m) (append_to name ip (name6 m)) (addr m)
             end in
    if autoReverse o then mkMap (name4 m) (name6 m) (append_to (IP_String ip) name (addr m)) else m.

Definition add_line (origins : list string) (o : options) (m : Map) (line : string) : Map :=
  let line := match IndexByte line "#" with Some i => take_str i line | None => line end in
  match Fields line with
  | f0 :: (_ :: _) as names =>
      match parseIP f0 with
      | Some ip => foldl (add_name origins o ip) m names
      | None => m
      end
  | _ => m
  end.

(** [Hostsfile.parse] *)
Definition hosts_parse (origins : list string) (o : options) (text : string) : Map :=
  foldl (add_line origins o) newMap (scan_lines (Split text newline)).

Record Hostsfile := mkHosts {
  Origins : list string;
  hmap : Map;
  inline : Map;
  mtime : Z;
  size : Z;
  h_options : options }.

(** The file as it is opened, or [None]. *)
Record file := mkFile { ModTime : Z; FileSize : Z; text : string }.

Definition readHosts (h : Hostsfile) (f : option file) : Hostsfile :=
  match f with
  | None => h
  | Some f =>
      if decide (mtime h = ModTime f /\ size h = FileSize f) then h
      else mkHosts (Origins h) (hosts_parse (Origins h) (h_options h) (text f)) (inline h) (ModTime f) (FileSize f) (h_options h)
  end.

Definition initInline (h : Hostsfile) (lines : list string) : Hostsfile :=
  match lines with
  | [] => h
  | _ => mkHosts (Origins h) (hmap h) (hosts_parse (Origins h) (h_options h) (JoinStr lines (String newline EmptyString)))
           (mtime h) (size h) (h_options h)
  end.

Definition lookupStaticHost (m : gmap string (list (list Z))) (host : string) : list (list Z) := default [] (m !! host).

Definition LookupStaticHostV4 (h : Hostsfile) (host : string) : list (list Z) :=
  let host := ToLower host in lookupStaticHost (name4 (hmap h)) host ++ lookupStaticHost (name4 (inline h)) host.

Definition LookupStaticHostV6 (h : Hostsfile) (host : string) : list (list Z) :=
  let host := ToLower host in lookupStaticHost (name6 (hmap h)) host ++ lookupStaticHost (name6 (inline h)) host.

(** The text of no address is not empty. *)
Definition LookupStaticAddr (h : Hostsfile) (a : string) : list string :=
  let a := match parseIP a with Some ip => IP_String ip | None => "<nil>" end in
  default [] (addr (hmap h) !! a) ++ default [] (addr (inline h) !! a).

(** ** The handler (hosts.go) *)

Definition otherRecordsExist (h : Hostsfile) (qname : string) : bool :=
  bool_decide (LookupStaticHostV4 h qname <> []) || bool_decide (LookupStaticHostV6 h qname <> []).

Definition a_records (zone : string) (t : Z) (ips : list (list Z)) : list RR :=
  (fun ip => mkRR (mkHdr zone TypeA ClassINET t) (RA ip)) <$> ips.
Definition aaaa_records (zone : string) (t : Z) (ips : list (list Z)) : list RR :=
  (fun ip => mkRR (mkHdr zone TypeAAAA ClassINET t) (RAAAA ip)) <$> ips.
Definition ptr_records (zone : string) (t : Z) (names : list string) : list RR :=
  (fun n => mkRR (mkHdr zone TypePTR ClassINET t) (RPTR (Fqdn n))) <$> names.

Definition hosts_reply (r : Msg) (answers : list RR) : Msg :=
  let m := SetReply r in
  mkMsg (Id m) (Response m) (Opcode m) true (Truncated m) (RecursionDesired m) (RecursionAvailable m)
    (AuthenticatedData m) (CheckingDisabled m) (Rcode m) (Question m) answers (Ns_ m) (Extra m).

Definition hosts_ServeDNS (h : Hostsfile) (fall : list string) (next : option Chain) : Chain := fun r =>
  let qname := Name_ r in
  let t := ttl (h_options h) in
  let finish answers :=
    if bool_decide (answers = []) && negb (otherRecordsExist h qname) then
      if Through fall qname then next_or_failure next r else (None, Ok RcodeServerFailure)
    else (Some (hosts_reply r answers), Ok RcodeSuccess) in
  if decide (Matches (Origins h) qname = EmptyString /\ QType_ r <> TypePTR) then next_or_failure next r
  else if decide (QType_ r = TypePTR) then
    let names := LookupStaticAddr h (ExtractAddressFromReverse qname) in
    if decide (names = []) then next_or_failure next r else finish (ptr_records qname t names)
  else if decide (QType_ r = TypeA) then finish (a_records qname t (LookupStaticHostV4 h qname))
  else if decide (QType_ r = TypeAAAA) then finish (aaaa_records qname t (LookupStaticHostV6 h qname))
  else finish [].

End hosts.
