(* ===== verification/HostsFacts.v ===== *)
(** * Properties of the hosts plugin

    The maps of a file are those of its entries ([hosts_parse_reference]); a
    reverse name gives the address it is made of ([reverse_name_v4]); and
    lookups by name and by address agree ([hosts_reverse_agrees]). *)

From Stdlib Require Import Ascii ZArith Lia.
From stdpp Require Import base numbers gmap strings list.
From S2P Require Import Prelude DnsTypes DnsLib Ip Http Serve Xfer FileZone Server ServerFacts Filters FilterFacts GoStrings GoNet Hosts.

Local Open Scope Z_scope.

(** ** Reverse names *)

(** The name of an IPv4 address in the reverse zone (RFC 1035, 3.5). *)
Definition reverse_name4 (a b c d : Z) : string :=
  (Itoa d +:+ "." +:+ Itoa c +:+ "." +:+ Itoa b +:+ "." +:+ Itoa a) +:+ IP4arpa.

Lemma Split_dot (x y : string) : Split x "."%char = [x] -> Split (x +:+ "." +:+ y) "."%char = x :: Split y "."%char.
Proof.
  intros H. change ("." +:+ y) with (String "." y). rewrite <-(app_nil_l (Split y _)), app_comm_cons, <-H. clear H.
  induction x as [|c x IH]; simpl; [done|]. destruct (decide (c = "."%char)); [by rewrite IH|]. rewrite IH.
  destruct (Split x ".") as [|w ws] eqn:E; [|done]. destruct x; simpl in E; [done|]. case_decide; [done|]. by destruct (Split x ".").
Qed.

Lemma TrimSuffix_app_gen (a suf : string) : TrimSuffix (a +:+ suf) suf = a.
Proof. unfold TrimSuffix. rewrite HasSuffix_app, str_length_app, Nat.add_sub. apply take_str_app. Qed.

(** The address of a reverse name. *)
Lemma reverse_name_v4 a b c d :
  byte a -> byte b -> byte c -> byte d -> ExtractAddressFromReverse (reverse_name4 a b c d) = ip4_String [a; b; c; d].
Proof.
  intros Ha Hb Hc Hd. unfold ExtractAddressFromReverse, reverse_name4. rewrite HasSuffix_app, TrimSuffix_app_gen.
  destruct (octet_print a Ha) as [_ _ SA _ _], (octet_print b Hb) as [_ _ SB _ _], (octet_print c Hc) as [_ _ SC _ _], (octet_print d Hd) as [_ _ SD _ _].
  rewrite !Split_dot, SA by done. unfold reverse_v4.
  change (JoinStr (reverse [Itoa d; Itoa c; Itoa b; Itoa a]) ".") with (ip4_String [a; b; c; d]).
  rewrite ParseIP_ip4_String by done. done.
Qed.

(** ** The entries of a file *)

Section facts.
Context {L : DnsLib} {N : DnsNames}.

Implicit Types (origins : list string) (o : options) (m : Map) (es : list (list Z * string)) (n a : string).

(** An address and a name of the zones served, as a line has them. *)
Definition name_entry origins (ip : list Z) (field : string) : list (list Z * string) :=
  if decide (Matches origins (Normalize field) = EmptyString) then [] else [(ip, Normalize field)].

Definition line_entries origins (line : string) : list (list Z * string) :=
  match Fields (match IndexByte line "#" with Some i => take_str i line | None => line end) with
  | f0 :: (_ :: _) as names => match parseIP f0 with Some ip => names ≫= name_entry origins ip | None => [] end
  | _ => []
  end.

Definition hosts_entries origins (text : string) : list (list Z * string) :=
  scan_lines (Split text newline) ≫= line_entries origins.

Definition addresses (v4 : bool) n es : list (list Z) :=
  fst <$> filter (fun e => e.2 = n /\ bool_decide (is_Some (To4 e.1)) = v4) es.
Definition names_of a es : list string := snd <$> filter (fun e => IP_String e.1 = a) es.

(** A map holds exactly these entries, in this order. *)
Definition models o m es : Prop :=
  (forall n, default [] (name4 m !! n) = addresses true n es) /\
  (forall n, default [] (name6 m !! n) = addresses false n es) /\
  (forall a, default [] (addr m !! a) = if autoReverse o then names_of a es else []).

Lemma append_to_lookup {A} k (x : A) mp k' :
  default [] (append_to k x mp !! k') = default [] (mp !! k') ++ (if decide (k = k') then [x] else []).
Proof.
  unfold append_to. destruct (decide (k = k')) as [->|Hne]; [by rewrite lookup_insert_eq|]. by rewrite lookup_insert_ne, app_nil_r.
Qed.

Lemma addresses_app v4 n es es' : addresses v4 n (es ++ es') = addresses v4 n es ++ addresses v4 n es'.
Proof. unfold addresses. by rewrite filter_app, fmap_app. Qed.

Lemma names_of_app a es es' : names_of a (es ++ es') = names_of a es ++ names_of a es'.
Proof. unfold names_of. by rewrite filter_app, fmap_app. Qed.

Lemma add_name_models origins o ip m es field :
  models o m es -> models o (add_name origins o ip m field) (es ++ name_entry origins ip field).
Proof.
  intros (H4 & H6 & Ha). unfold add_name, name_entry. case_decide; [by rewrite app_nil_r|].
  set (n := Normalize field).
  assert (forall v4 n', addresses v4 n' [(ip, n)] = if decide (n = n') then (if decide (bool_decide (is_Some (To4 ip)) = v4) then [ip] else []) else []) as E1.
  { intros v4 n'. unfold addresses. rewrite filter_cons. simpl. destruct (decide (n = n')), (decide (bool_decide (is_Some (To4 ip)) = v4));
      case_decide; naive_solver. }
  assert (forall a, names_of a [(ip, n)] = if decide (IP_String ip = a) then [n] else []) as E2.
  { intros a. unfold names_of. rewrite filter_cons. simpl. by case_decide. }
  assert (forall mp, (forall a, default [] (addr mp !! a) = if autoReverse o then names_of a es else []) ->
    forall a, default [] (addr (if autoReverse o then mkMap (name4 mp) (name6 mp) (append_to (IP_String ip) n (addr mp)) else mp) !! a) =
      if autoReverse o then names_of a (es ++ [(ip, n)]) else []) as E3.
  { intros mp Hm a. specialize (Hm a). destruct (autoReverse o) eqn:Er; [|done]. simpl. by rewrite append_to_lookup, Hm, names_of_app, E2. }
  destruct (To4 ip) as [v4|] eqn:Et.
  - split_and!; [| |by apply E3].
    + intros n'. replace (name4 (if autoReverse o then _ else _)) with (append_to n ip (name4 m)) by (by destruct (autoReverse o)).
      rewrite append_to_lookup, H4, addresses_app, E1. by rewrite bool_decide_true, (decide_True (P := true = true)) by eauto.
    + intros n'. replace (name6 (if autoReverse o then _ else _)) with (name6 m) by (by destruct (autoReverse o)).
      rewrite H6, addresses_app, E1. rewrite bool_decide_true, (decide_False (P := true = false)) by eauto. by destruct (decide (n = n')); rewrite app_nil_r.
  - assert (~ is_Some (@None (list Z))) as Hn by by intros [? [=]]. split_and!; [| |by apply E3].
    + intros n'. replace (name4 (if autoReverse o then _ else _)) with (name4 m) by (by destruct (autoReverse o)).
      rewrite H4, addresses_app, E1. rewrite bool_decide_false, (decide_False (P := false = true)) by done. by destruct (decide (n = n')); rewrite app_nil_r.
    + intros n'. replace (name6 (if autoReverse o then _ else _)) with (append_to n ip (name6 m)) by (by destruct (autoReverse o)).
      rewrite append_to_lookup, H6, addresses_app, E1. by rewrite bool_decide_false, (decide_True (P := false = false)) by done.
Qed.

Lemma add_line_models origins o m es line : models o m es -> models o (add_line origins o m line) (es ++ line_entries origins line).
Proof.
  intros H. unfold add_line, line_entries. cbv zeta. destruct (Fields _) as [|f0 [|f1 fs]]; rewrite ?app_nil_r; [done..|].
  destruct (parseIP f0) as [ip|]; rewrite ?app_nil_r; [|done]. generalize (f1 :: fs) as names. clear f0 f1 fs. intros names.
  revert m es H. induction names as [|f names IH]; intros m es H; simpl; [by rewrite app_nil_r|].
  rewrite app_assoc. apply IH. by apply add_name_models.
Qed.

Lemma hosts_parse_models origins o text : models o (hosts_parse origins o text) (hosts_entries origins text).
Proof.
  unfold hosts_parse, hosts_entries. generalize (scan_lines (Split text newline)) as lines. intros lines.
  assert (models o newMap []) as H by (split_and!; intros; simpl; rewrite lookup_empty; [done..|by destruct (autoReverse o)]).
  rewrite <-(app_nil_l (lines ≫= _)). revert H. generalize newMap as m. generalize (@nil (list Z * string)) as es.
  induction lines as [|line lines IH]; intros es m H; simpl; [by rewrite app_nil_r|]. rewrite app_assoc. apply IH. by apply add_line_models.
Qed.

(** ** Lookups *)

(** The maps of a plugin are those of the text of a file and of the lines of
    its configuration. *)
Definition loaded (h : Hostsfile) (ft it : string) : Prop :=
  hmap h = hosts_parse (Origins h) (h_options h) ft /\ inline h = hosts_parse (Origins h) (h_options h) it.

Definition entries (h : Hostsfile) (ft it : string) : list (list Z * string) :=
  hosts_entries (Origins h) ft ++ hosts_entries (Origins h) it.

Lemma Lookup_entries h ft it :
  loaded h ft it ->
  (forall n, LookupStaticHostV4 h n = addresses true (ToLower n) (entries h ft it)) /\
  (forall n, LookupStaticHostV6 h n = addresses false (ToLower n) (entries h ft it)).
Proof.
  intros [Hf Hi]. destruct (hosts_parse_models (Origins h) (h_options h) ft) as (F4 & F6 & _).
  destruct (hosts_parse_models (Origins h) (h_options h) it) as (I4 & I6 & _).
  unfold LookupStaticHostV4, LookupStaticHostV6, lookupStaticHost, entries. rewrite Hf, Hi.
  split; intros n; rewrite addresses_app; f_equal; auto.
Qed.

Lemma LookupAddr_entries h ft it ip s :
  loaded h ft it -> autoReverse (h_options h) = true -> parseIP s = Some ip ->
  LookupStaticAddr h s = names_of (IP_String ip) (entries h ft it).
Proof.
  intros [Hf Hi] Hr Hp. destruct (hosts_parse_models (Origins h) (h_options h) ft) as (_ & _ & Fa).
  destruct (hosts_parse_models (Origins h) (h_options h) it) as (_ & _ & Ia). rewrite Hr in Fa, Ia.
  unfold LookupStaticAddr, entries. rewrite Hf, Hi, Hp, names_of_app, Fa, Ia. done.
Qed.

Lemma entries_wf origins text ip n : (ip, n) ∈ hosts_entries origins text -> length ip = 16%nat /\ Forall byte ip.
Proof.
  intros (line & Hl & _)%list_elem_of_bind. unfold line_entries in Hl. destruct (Fields _) as [|f0 [|f1 fs]]; [by apply elem_of_nil in Hl..|].
  destruct (parseIP f0) as [ip'|] eqn:E; [|by apply elem_of_nil in Hl]. apply list_elem_of_bind in Hl as (f & Hl & _).
  unfold name_entry in Hl. case_decide; [by apply elem_of_nil in Hl|]. apply list_elem_of_singleton in Hl as [= -> ->].
  unfold parseIP in E. split; [by eapply ParseIP_length|by eapply ParseIP_bytes].
Qed.

Lemma IndexByte_lacks s c : IndexByte s c = None <-> lacks s c.
Proof.
  unfold lacks. induction s as [|d s IH]; simpl; [done|]. destruct (decide (d = c)); destruct (IndexByte s c), (LastIndexByte s c); naive_solver.
Qed.

(** A dotted address has no zone. *)
Lemma parseIP_dotted (a b c d : Z) : byte a -> byte b -> byte c -> byte d -> parseIP (ip4_String [a; b; c; d]) = Some (v4_prefix ++ [a; b; c; d]).
Proof.
  intros Ha Hb Hc Hd. unfold parseIP. assert (IndexByte (ip4_String [a; b; c; d]) "%" = None) as ->; [|by apply ParseIP_ip4_String].
  apply IndexByte_lacks. unfold ip4_String. rewrite !lacks_app. split_and!; try done; by apply octet_print.
Qed.

(** Lookups by name and by address agree.  With reverse entries switched
    on, whatever the file and the configuration hold, a PTR lookup for the
    reverse name of an IPv4 address finds exactly the names for which an A
    lookup finds this address. *)
Theorem hosts_reverse_agrees h ft it (a b c d : Z) n :
  loaded h ft it -> autoReverse (h_options h) = true -> byte a -> byte b -> byte c -> byte d -> ToLower n = n ->
  n ∈ LookupStaticAddr h (ExtractAddressFromReverse (reverse_name4 a b c d)) <->
  v4_prefix ++ [a; b; c; d] ∈ LookupStaticHostV4 h n.
Proof.
  intros Hl Hr Ha Hb Hc Hd Hn. rewrite reverse_name_v4 by done.
  rewrite (LookupAddr_entries h ft it (v4_prefix ++ [a; b; c; d])) by (done || by apply parseIP_dotted).
  destruct (Lookup_entries h ft it Hl) as [-> _]. rewrite Hn. unfold names_of, addresses.
  rewrite !list_elem_of_fmap. split.
  - intros ([ip n'] & -> & [Hs Hin]%list_elem_of_filter). cbn [fst snd] in *. exists (ip, n'). cbn [fst snd].
    assert (length ip = 16%nat /\ Forall byte ip) as [Hlen Hby] by (apply elem_of_app in Hin as [Hin|Hin]; by eapply entries_wf).
    assert (IP_String (v4_prefix ++ [a; b; c; d]) = ip4_String [a; b; c; d]) as E by (unfold IP_String; by rewrite To4_prefix).
    rewrite E in Hs. apply IP_String_v4 in Hs as ->; [|done..]. split; [done|]. apply list_elem_of_filter. split; [|done].
    split; [done|]. cbn [fst snd]. rewrite To4_prefix by done. by apply bool_decide_true.
  - intros ([ip n'] & E & [[Hs _] Hin]%list_elem_of_filter). cbn [fst snd] in *. subst ip n'. eexists (_, n). split; [done|].
    apply list_elem_of_filter. by split.
Qed.

(** ** Reloading *)

(** If a time of modification and a size belong to one text only, then after a
    reload the map is that of the file as it is. *)
Lemma readHosts_current h f0 f :
  hmap h = hosts_parse (Origins h) (h_options h) (text f0) -> mtime h = ModTime f0 -> size h = FileSize f0 ->
  (ModTime f0 = ModTime f -> FileSize f0 = FileSize f -> text f0 = text f) ->
  hmap (readHosts h (Some f)) = hosts_parse (Origins h) (h_options h) (text f).
Proof.
  intros Hm Ht Hs Hid. unfold readHosts. case_decide as Hd; [|done]. rewrite Hm. f_equal. destruct Hd. apply Hid; congruence.
Qed.

(** ** The handler *)

Lemma hosts_plugin_ok name h fall : plugin_ok (mkPlugin name (hosts_ServeDNS h fall)).
Proof.
  intros next Hn r. simpl. apply next_or_failure_protocol in Hn. unfold hosts_ServeDNS. cbv zeta.
  assert (forall answers, match (if bool_decide (answers = []) && negb (otherRecordsExist h (Name_ r))
      then if Through fall (Name_ r) then next_or_failure next r else (None, Ok RcodeServerFailure)
      else (Some (hosts_reply r answers), Ok RcodeSuccess)) with
    | (m, Ok rc) => is_Some m <-> ClientWrite rc = true | (m, Err _) => m = None end) as Hf.
  { intros answers. destruct (_ && _); [destruct (Through _ _)|]; [apply Hn|split; [by intros [? [=]]|done]|split; [done|by eexists]]. }
  repeat case_decide; try apply Hn; apply Hf.
Qed.

(** An A query for a name of the file is answered with all its addresses. *)
Lemma hosts_answers h ft it fall next r :
  loaded h ft it -> QType_ r = TypeA -> Matches (Origins h) (Name_ r) <> EmptyString ->
  addresses true (ToLower (Name_ r)) (entries h ft it) <> [] ->
  exists (m : Msg), hosts_ServeDNS h fall next r = (Some m, Ok RcodeSuccess) /\ Authoritative m = true /\
    Answer m = a_records (Name_ r) (ttl (h_options h)) (addresses true (ToLower (Name_ r)) (entries h ft it)).
Proof.
  intros Hl Ht Hz Hne. unfold hosts_ServeDNS. cbv zeta. rewrite decide_False by naive_solver. rewrite Ht.
  rewrite decide_False, decide_True by done. destruct (Lookup_entries h ft it Hl) as [-> _].
  rewrite bool_decide_false; [simpl; by eexists|]. unfold a_records. by intros ?%fmap_nil_inv.
Qed.

End facts.

(** ** A small file *)

Module HostsSample.

#[local] Existing Instance PlainLib.lib.
#[local] Existing Instance Plain.names.

Definition nl : string := String newline EmptyString.
Definition hosts_text : string :=
  "192.0.2.1 www.Example.org example.org # the site" +:+ nl +:+
  "2001:db8::1 www.example.org" +:+ nl +:+
  "192.0.2.1 alias.example.org other.net".

Definition opts_ : options := mkOptions_ true 3600.
Definition start : Hostsfile := mkHosts ["example.org."] newMap newMap 0 0 opts_.
Definition h0 : Hostsfile := initInline (readHosts start (Some (mkFile 1 100 hosts_text))) ["192.0.2.9 inline.example.org"].

Example lookups :
  LookupStaticHostV4 h0 "www.example.org." = [v4_prefix ++ [192; 0; 2; 1]] /\
  LookupStaticAddr h0 (ExtractAddressFromReverse "1.2.0.192.in-addr.arpa.") = ["www.example.org."; "example.org."; "alias.example.org."] /\
  LookupStaticAddr h0 (ExtractAddressFromReverse "1.0.0.0.0.0.0.0.0.0.0.0.0.0.0.0.0.0.0.0.0.0.0.0.8.b.d.0.1.0.0.2.ip6.arpa.") = ["www.example.org."].
Proof. vm_compute. done. Qed.

Lemma hosts_reverse_agrees_witness :
  reverse_name4 192 0 2 1 = "1.2.0.192.in-addr.arpa." /\
  ("alias.example.org." ∈ LookupStaticAddr h0 (ExtractAddressFromReverse (reverse_name4 192 0 2 1)) <->
   v4_prefix ++ [192; 0; 2; 1] ∈ LookupStaticHostV4 h0 "alias.example.org.").
Proof.
  split; [vm_compute; reflexivity|].
  apply (hosts_reverse_agrees h0 hosts_text "192.0.2.9 inline.example.org"); try (unfold byte; lia); try reflexivity. by split.
Defined.

End HostsSample.
