(* ===== verification/KubeObjects.v ===== *)
(** * The objects of a Kubernetes cluster and their cache (plugin/kubernetes)

    The objects of the API as far as the plugin reads them, the smaller ones
    they are converted to (plugin/kubernetes/object), the processing of the
    changes a watch delivers ([DefaultProcessor]), and the controller that
    keeps one store for each kind of object and the times of the last changes
    (controller.go).  The stores and the queues of changes are those of
    k8s.io/client-go, a parameter ([Indexer]) with the laws it documents
    ([IndexerSpec]).  [dnsController] is the interface the plugin uses, and
    [control] makes it from a controller. *)

From Stdlib Require Import Ascii ZArith Lia.
From stdpp Require Import base numbers gmap strings list.
From S2P Require Import Prelude.

Local Open Scope Z_scope.

(** ** Objects of the API

    The fields the plugin reads.  A pointer that may be nil is an option. *)

Record ServicePort := mkServicePort { sp_Name : string; sp_Port : Z; sp_Protocol : string }.
Record LoadBalancerIngress := mkIngress { in_IP : string; in_Hostname : string }.

Definition ServiceTypeClusterIP : string := "ClusterIP".
Definition ServiceTypeNodePort : string := "NodePort".
Definition ServiceTypeLoadBalancer : string := "LoadBalancer".
Definition ServiceTypeExternalName : string := "ExternalName".
Definition ClusterIPNone : string := "None".
Definition mcs_Headless : string := "Headless".
Definition LabelServiceName : string := "kubernetes.io/service-name".
Definition mcs_LabelServiceName : string := "multicluster.kubernetes.io/service-name".
Definition mcs_LabelSourceCluster : string := "multicluster.kubernetes.io/source-cluster".

Record api_Service := mkApiService {
  as_Version : string; as_Name : string; as_Namespace : string;
  as_Type : string; as_ExternalName : string;
  as_ClusterIP : string; as_ClusterIPs : list string; as_ExternalIPs : list string;
  as_Ports : list ServicePort; as_Ingress : list LoadBalancerIngress }.

Record slice_Port := mkSlicePort { lp_Port : option Z; lp_Name : option string; lp_Protocol : option string }.
Record slice_Endpoint := mkSliceEndpoint {
  le_Addresses : list string; le_Ready : option bool; le_Hostname : option string;
  le_TargetRef : option string; le_NodeName : option string }.

Record api_EndpointSlice := mkEndpointSlice {
  sl_Version : string; sl_Name : string; sl_Namespace : string; sl_Labels : gmap string string;
  sl_Ports : list slice_Port; sl_Endpoints : list slice_Endpoint }.

(** [ap_Terminating]: the time of deletion is set. *)
Record api_Pod := mkApiPod {
  ap_Version : string; ap_Name : string; ap_Namespace : string; ap_PodIP : string;
  ap_Labels : gmap string string; ap_Terminating : bool }.

Record api_ServiceImport := mkApiImport {
  ai_Version : string; ai_Name : string; ai_Namespace : string; ai_Type : string;
  ai_IPs : list string; ai_Ports : list ServicePort }.

Record api_Namespace := mkApiNamespace { an_Version : string; an_Name : string }.

(** ** The objects kept *)

Record object_Service := mkSvc {
  svc_Version : string; svc_Name : string; svc_Namespace : string; svc_Index : string;
  svc_ClusterIPs : list string; svc_Type : string; svc_ExternalName : string;
  svc_Ports : list ServicePort; svc_ExternalIPs : list string }.

Record EndpointAddress := mkAddress { ea_IP : string; ea_Hostname : string; ea_NodeName : string; ea_TargetRefName : string }.
Record EndpointPort := mkEPort { epp_Port : Z; epp_Name : string; epp_Protocol : string }.
Record EndpointSubset := mkSubset { Addresses : list EndpointAddress; ss_Ports : list EndpointPort }.

Record object_Endpoints := mkEp {
  ep_Version : string; ep_Name : string; ep_Namespace : string; ep_Index : string;
  ep_IndexIP : list string; Subsets : list EndpointSubset }.

Record object_MultiClusterEndpoints := mkMcEp { mc_Endpoints : object_Endpoints; ClusterId : string }.

Record object_Pod := mkPod {
  pod_Version : string; PodIP : string; pod_Name : string; pod_Namespace : string; pod_Labels : gmap string string }.

Record object_ServiceImport := mkImport {
  imp_Version : string; imp_Name : string; imp_Namespace : string; imp_Index : string;
  imp_ClusterIPs : list string; imp_Type : string; imp_Ports : list ServicePort }.

Record object_Namespace := mkNs { ns_Version : string; ns_Name : string }.

(** [meta.Object]: an object of the API or one that is kept. *)
Inductive meta_Object : Type :=
| ApiService (s : api_Service)
| ApiEndpointSlice (e : api_EndpointSlice)
| ApiPod (p : api_Pod)
| ApiServiceImport (s : api_ServiceImport)
| ApiNamespace (n : api_Namespace)
| OService (s : object_Service)
| OEndpoints (e : object_Endpoints)
| OMcEndpoints (e : object_MultiClusterEndpoints)
| OPod (p : object_Pod)
| OServiceImport (s : object_ServiceImport)
| ONamespace (n : object_Namespace).

Definition GetResourceVersion (o : meta_Object) : string :=
  match o with
  | ApiService s => as_Version s | ApiEndpointSlice e => sl_Version e | ApiPod p => ap_Version p
  | ApiServiceImport s => ai_Version s | ApiNamespace n => an_Version n
  | OService s => svc_Version s | OEndpoints e => ep_Version e | OMcEndpoints e => ep_Version (mc_Endpoints e)
  | OPod p => pod_Version p | OServiceImport s => imp_Version s | ONamespace n => ns_Version n
  end.

Definition GetNamespace (o : meta_Object) : string :=
  match o with
  | ApiService s => as_Namespace s | ApiEndpointSlice e => sl_Namespace e | ApiPod p => ap_Namespace p
  | ApiServiceImport s => ai_Namespace s | ApiNamespace _ => EmptyString
  | OService s => svc_Namespace s | OEndpoints e => ep_Namespace e | OMcEndpoints e => ep_Namespace (mc_Endpoints e)
  | OPod p => pod_Namespace p | OServiceImport s => imp_Namespace s | ONamespace _ => EmptyString
  end.

Definition GetName (o : meta_Object) : string :=
  match o with
  | ApiService s => as_Name s | ApiEndpointSlice e => sl_Name e | ApiPod p => ap_Name p
  | ApiServiceImport s => ai_Name s | ApiNamespace n => an_Name n
  | OService s => svc_Name s | OEndpoints e => ep_Name e | OMcEndpoints e => ep_Name (mc_Endpoints e)
  | OPod p => pod_Name p | OServiceImport s => imp_Name s | ONamespace n => ns_Name n
  end.

(** ** Conversion (object/*.go) *)

Inductive convert_error : Type := UnexpectedObject | errPodTerminating.

#[export] Instance convert_error_eq_dec : EqDecision convert_error.
Proof. solve_decision. Defined.

(** The object converted to, which comes with an error for a pod that
    terminates.  What is converted is emptied afterwards and not read again. *)
Definition ToFunc : Type := meta_Object -> option meta_Object * option convert_error.

Definition key_of (name namespace : string) : string := name +:+ "." +:+ namespace.
Definition ServiceKey := key_of.
Definition EndpointsKey := key_of.
Definition ServiceImportKey := key_of.
Definition MultiClusterEndpointsKey := key_of.

Definition to_Service (s : api_Service) : object_Service :=
  mkSvc (as_Version s) (as_Name s) (as_Namespace s) (ServiceKey (as_Name s) (as_Namespace s))
    (match as_ClusterIPs s with [] => [as_ClusterIP s] | ips => ips end)
    (as_Type s) (as_ExternalName s)
    (match as_Ports s with [] => [mkServicePort EmptyString (-1) EmptyString] | ports => ports end)
    (as_ExternalIPs s ++ map (fun lb => if decide (in_IP lb = EmptyString) then in_Hostname lb else in_IP lb) (as_Ingress s)).

Definition ToService : ToFunc := fun o =>
  match o with ApiService s => (Some (OService (to_Service s)), None) | _ => (None, Some UnexpectedObject) end.

(** [svc.ClusterIPs[0]]: a service that is kept has one ([to_Service]). *)
Definition Headless (s : object_Service) : bool := bool_decide (head (svc_ClusterIPs s) = Some ClusterIPNone).

Definition endpointsliceReady (ready : option bool) : bool := default true ready.

Definition to_EndpointPort (p : slice_Port) : EndpointPort :=
  mkEPort (default (-1) (lp_Port p)) (default EmptyString (lp_Name p)) (default EmptyString (lp_Protocol p)).

Definition to_Address (e : slice_Endpoint) (a : string) : EndpointAddress :=
  mkAddress a (default EmptyString (le_Hostname e)) (default EmptyString (le_NodeName e))
    (match le_TargetRef e with
     | Some n => if decide (String.length n < 64)%nat then n else EmptyString
     | None => EmptyString
     end).

Definition slice_Addresses (e : slice_Endpoint) : list EndpointAddress :=
  if endpointsliceReady (le_Ready e) then map (to_Address e) (le_Addresses e) else [].

Definition to_Endpoints (e : api_EndpointSlice) : object_Endpoints :=
  let addresses := flat_map slice_Addresses (sl_Endpoints e) in
  mkEp (sl_Version e) (sl_Name e) (sl_Namespace e)
    (EndpointsKey (default EmptyString (sl_Labels e !! LabelServiceName)) (sl_Namespace e))
    (map ea_IP addresses)
    [mkSubset addresses (match sl_Ports e with [] => [mkEPort (-1) EmptyString EmptyString] | ports => map to_EndpointPort ports end)].

Definition EndpointSliceToEndpoints : ToFunc := fun o =>
  match o with ApiEndpointSlice e => (Some (OEndpoints (to_Endpoints e)), None) | _ => (None, Some UnexpectedObject) end.

Definition set_ep_Index (e : object_Endpoints) (i : string) : object_Endpoints :=
  mkEp (ep_Version e) (ep_Name e) (ep_Namespace e) i (ep_IndexIP e) (Subsets e).

Definition EndpointSliceToMultiClusterEndpoints : ToFunc := fun o =>
  match o with
  | ApiEndpointSlice e =>
      (Some (OMcEndpoints (mkMcEp
         (set_ep_Index (to_Endpoints e) (MultiClusterEndpointsKey (default EmptyString (sl_Labels e !! mcs_LabelServiceName)) (sl_Namespace e)))
         (default EmptyString (sl_Labels e !! mcs_LabelSourceCluster)))), None)
  | _ => (None, Some UnexpectedObject)
  end.

Definition ToPod : ToFunc := fun o =>
  match o with
  | ApiPod p =>
      (Some (OPod (mkPod (ap_Version p) (ap_PodIP p) (ap_Name p) (ap_Namespace p) (ap_Labels p))),
       if ap_Terminating p then Some errPodTerminating else None)
  | _ => (None, Some UnexpectedObject)
  end.

Definition ToServiceImport : ToFunc := fun o =>
  match o with
  | ApiServiceImport s =>
      (Some (OServiceImport (mkImport (ai_Version s) (ai_Name s) (ai_Namespace s) (ServiceImportKey (ai_Name s) (ai_Namespace s))
               (ai_IPs s) (ai_Type s) (ai_Ports s))), None)
  | _ => (None, Some UnexpectedObject)
  end.

Definition import_Headless (s : object_ServiceImport) : bool := bool_decide (imp_Type s = mcs_Headless).

Definition ToNamespace : ToFunc := fun o =>
  match o with ApiNamespace n => (Some (ONamespace (mkNs (an_Version n) (an_Name n))), None) | _ => (None, Some UnexpectedObject) end.

(** ** Stores (k8s.io/client-go/tools/cache)

    Objects by key, with indices: [ix_ByIndex] gives the objects for which an
    index function has a value.  [ix_key] is [MetaNamespaceKeyFunc]. *)
Definition IndexFunc : Type := meta_Object -> option (list string).

Class Indexer := {
  store : Type;
  ix_empty : store;
  ix_key : meta_Object -> string;
  ix_GetByKey : store -> string -> option meta_Object;
  ix_Put : store -> string -> meta_Object -> store;
  ix_Delete : store -> string -> store;
  ix_List : store -> list meta_Object;
  ix_ByIndex : store -> IndexFunc -> string -> list meta_Object }.

(** What the package documents: a store is a map; a list of it has every
    object; an index has those with the value; the key of an object is its
    namespace and name, or the name alone. *)
Class IndexerSpec (X : Indexer) : Prop := {
  key_meta o : ix_key o = if decide (GetNamespace o = EmptyString) then GetName o else GetNamespace o +:+ "/" +:+ GetName o;
  Get_empty k : ix_GetByKey ix_empty k = None;
  Get_Put s k o : ix_GetByKey (ix_Put s k o) k = Some o;
  Get_Put_other s k k' o : k <> k' -> ix_GetByKey (ix_Put s k o) k' = ix_GetByKey s k';
  Get_Delete s k : ix_GetByKey (ix_Delete s k) k = None;
  Get_Delete_other s k k' : k <> k' -> ix_GetByKey (ix_Delete s k) k' = ix_GetByKey s k';
  List_elem s o : o ∈ ix_List s <-> exists k, ix_GetByKey s k = Some o;
  ByIndex_elem s f i o : o ∈ ix_ByIndex s f i <-> (exists k, ix_GetByKey s k = Some o) /\ exists l, f o = Some l /\ i ∈ l }.

(** ** Processing changes (object/informer.go) *)

Inductive DeltaType : Type := Sync | Added | Updated | Replaced | Deleted.

(** What a change carries: an object, or the key of one whose last state was
    missed ([DeletedFinalStateUnknown]). *)
Inductive delta_Object : Type := Live (o : meta_Object) | DeletedFinalStateUnknown (key : string).

Record Delta := mkDelta { d_Type : DeltaType; d_Object : delta_Object }.

(** The calls of the handler of events. *)
Inductive event : Type :=
| OnAdd (o : meta_Object)
| OnUpdate (old new : meta_Object)
| OnDelete.

Inductive process_error : Type := ConvertError (e : convert_error) | ProcessPanic (f : go_fault).

Section processing.
Context {X : Indexer} (convert : ToFunc).

(** One change: the store, the event, and an error that ends the loop. *)
Definition process_add (s : store) (o : meta_Object) : store * list event * option process_error :=
  match convert o with
  | (_, Some errPodTerminating) => (s, [], None)
  | (_, Some e) => (s, [], Some (ConvertError e))
  | (None, None) => (s, [], Some (ProcessPanic NilDeref))
  | (Some obj, None) =>
      let k := ix_key obj in
      match ix_GetByKey s k with
      | Some old => (ix_Put s k obj, [OnUpdate old obj], None)
      | None => (ix_Put s k obj, [OnAdd obj], None)
      end
  end.

Definition process_delete (s : store) (d : delta_Object) : store * list event * option process_error :=
  match d with
  | DeletedFinalStateUnknown k => (ix_Delete s k, [OnDelete], None)
  | Live o =>
      match convert o with
      | (Some obj, None) | (Some obj, Some errPodTerminating) => (ix_Delete s (ix_key obj), [OnDelete], None)
      | (_, Some e) => (s, [], Some (ConvertError e))
      | (None, None) => (s, [], Some (ProcessPanic NilDeref))
      end
  end.

Definition process_delta (s : store) (d : Delta) : store * list event * option process_error :=
  match d_Type d with
  | Sync | Added | Updated =>
      match d_Object d with
      | Live o => process_add s o
      | DeletedFinalStateUnknown _ => (s, [], Some (ProcessPanic BadAssertion))
      end
  | Deleted => process_delete s (d_Object d)
  | Replaced => (s, [], None)
  end.

Fixpoint DefaultProcessor (s : store) (deltas : list Delta) : store * list event * option process_error :=
  match deltas with
  | [] => (s, [], None)
  | d :: deltas' =>
      let '(s, evs, err) := process_delta s d in
      match err with
      | Some e => (s, evs, Some e)
      | None => let '(s, evs', err) := DefaultProcessor s deltas' in (s, evs ++ evs', err)
      end
  end.

End processing.

(** ** Changes that matter (controller.go) *)

(** [for i := range a { if a[i] differs from b[i] ... }] of lists of the same
    length. *)
Fixpoint all_same {A} (same : A -> A -> bool) (a b : list A) : bool :=
  match a, b with
  | x :: a', y :: b' => same x y && all_same same a' b'
  | _, _ => true
  end.

Definition same_address (a b : EndpointAddress) : bool :=
  bool_decide (ea_IP a = ea_IP b) && bool_decide (ea_Hostname a = ea_Hostname b).
Definition same_port (a b : EndpointPort) : bool :=
  bool_decide (epp_Name a = epp_Name b) && bool_decide (epp_Port a = epp_Port b) && bool_decide (epp_Protocol a = epp_Protocol b).

Definition subsetsEquivalent (sa sb : EndpointSubset) : bool :=
  if negb (length (Addresses sa) =? length (Addresses sb))%nat then false
  else if negb (length (ss_Ports sa) =? length (ss_Ports sb))%nat then false
  else all_same same_address (Addresses sa) (Addresses sb) && all_same same_port (ss_Ports sa) (ss_Ports sb).

Definition endpointsEquivalent (a b : object_Endpoints) : bool :=
  if negb (length (Subsets a) =? length (Subsets b))%nat then false else all_same subsetsEquivalent (Subsets a) (Subsets b).

Definition multiclusterEndpointsEquivalent (a b : object_MultiClusterEndpoints) : bool :=
  if negb (endpointsEquivalent (mc_Endpoints a) (mc_Endpoints b)) then false else bool_decide (ClusterId a = ClusterId b).

Definition same_service_port (a b : ServicePort) : bool :=
  bool_decide (sp_Name a = sp_Name b) && bool_decide (sp_Port a = sp_Port b) && bool_decide (sp_Protocol a = sp_Protocol b).
Definition same_service_ports (a b : list ServicePort) : bool :=
  (length a =? length b)%nat && all_same same_service_port a b.

(** Whether records inside the cluster and records outside it change. *)
Definition services_modified (oldSvc newSvc : object_Service) : bool * bool :=
  let extSvc := negb ((length (svc_ExternalIPs oldSvc) =? length (svc_ExternalIPs newSvc))%nat
                      && all_same (fun a b => bool_decide (a = b)) (svc_ExternalIPs oldSvc) (svc_ExternalIPs newSvc)) in
  let intSvc := bool_decide (svc_ExternalName oldSvc <> svc_ExternalName newSvc) in
  if intSvc && extSvc then (intSvc, extSvc)
  else if negb (same_service_ports (svc_Ports oldSvc) (svc_Ports newSvc)) then (true, true)
  else (intSvc, extSvc).

(** An absent object is nil; a type assertion on nil, or on an object of
    another kind, panics. *)
Definition serviceModified (oldObj newObj : option meta_Object) : result go_fault (bool * bool) :=
  match oldObj, newObj with
  | Some (OService o), None => Ok (true, bool_decide (0 < length (svc_ExternalIPs o))%nat)
  | None, Some (OService n) => Ok (true, bool_decide (0 < length (svc_ExternalIPs n))%nat)
  | Some (OService o), Some (OService n) => Ok (services_modified o n)
  | _, _ => Err BadAssertion
  end.

Definition imports_equivalent (oldSvc newSvc : object_ServiceImport) : bool :=
  if bool_decide (imp_Type oldSvc <> imp_Type newSvc) then false else same_service_ports (imp_Ports oldSvc) (imp_Ports newSvc).

Definition serviceImportEquivalent (oldObj newObj : option meta_Object) : result go_fault bool :=
  match oldObj, newObj with
  | Some _, None | None, Some _ => Ok false
  | Some (OServiceImport o), Some (OServiceImport n) => Ok (imports_equivalent o n)
  | _, _ => Err BadAssertion
  end.

(** The times of the last changes: inside, outside, in the cluster set. *)
Record times := mkTimes { modified : Z; extModified : Z; multiClusterModified : Z }.

Definition updateModified (now : Z) (t : times) : times := mkTimes now (extModified t) (multiClusterModified t).
Definition updateExtModified (now : Z) (t : times) : times := mkTimes (modified t) now (multiClusterModified t).
Definition updateMultiClusterModified (now : Z) (t : times) : times := mkTimes (modified t) (extModified t) now.

Inductive ModifiedMode : Type := ModifiedInternal | ModifiedExternal | ModifiedMultiCluster.

Definition Modified (t : times) (mode : ModifiedMode) : Z :=
  match mode with
  | ModifiedInternal => modified t
  | ModifiedExternal => extModified t
  | ModifiedMultiCluster => multiClusterModified t
  end.

Definition detectChanges (now : Z) (oldObj newObj : option meta_Object) (t : times) : result go_fault times :=
  let same := match oldObj, newObj with
              | Some o, Some n => bool_decide (GetResourceVersion o = GetResourceVersion n)
              | _, _ => false
              end in
  if same then Ok t
  else
    match (match newObj with Some n => Some n | None => oldObj end) with
    | Some (OService _) =>
        '(imod, emod) ← serviceModified oldObj newObj;
        let t := if imod : bool then updateModified now t else t in
        Ok (if emod : bool then updateExtModified now t else t)
    | Some (OServiceImport _) =>
        eqv ← serviceImportEquivalent oldObj newObj;
        Ok (if eqv : bool then t else updateMultiClusterModified now t)
    | Some (OPod _) => Ok (updateModified now t)
    | Some (OEndpoints _) =>
        match oldObj, newObj with
        | Some (OEndpoints o), Some (OEndpoints n) => Ok (if endpointsEquivalent o n then t else updateModified now t)
        | _, _ => Err BadAssertion
        end
    | Some (OMcEndpoints _) =>
        match oldObj, newObj with
        | Some (OMcEndpoints o), Some (OMcEndpoints n) =>
            Ok (if multiclusterEndpointsEquivalent o n then t else updateMultiClusterModified now t)
        | _, _ => Err BadAssertion
        end
    | _ => Ok t
    end.

(** ** The controller *)

Inductive kind_ : Type := KService | KPod | KEndpoints | KNamespace | KServiceImport | KMcEndpoints.

#[export] Instance kind_eq_dec : EqDecision kind_.
Proof. solve_decision. Defined.

Definition converter (k : kind_) : ToFunc :=
  match k with
  | KService => ToService
  | KPod => ToPod
  | KEndpoints => EndpointSliceToEndpoints
  | KNamespace => ToNamespace
  | KServiceImport => ToServiceImport
  | KMcEndpoints => EndpointSliceToMultiClusterEndpoints
  end.

(** The index functions; another kind of object is an error. *)
Definition podIPIndexFunc : IndexFunc := fun o => match o with OPod p => Some [PodIP p] | _ => None end.
Definition svcIPIndexFunc : IndexFunc := fun o => match o with OService s => Some (svc_ClusterIPs s) | _ => None end.
Definition svcExtIPIndexFunc : IndexFunc := fun o => match o with OService s => Some (svc_ExternalIPs s) | _ => None end.
Definition svcNameNamespaceIndexFunc : IndexFunc := fun o => match o with OService s => Some [svc_Index s] | _ => None end.
Definition epNameNamespaceIndexFunc : IndexFunc := fun o => match o with OEndpoints e => Some [ep_Index e] | _ => None end.
Definition epIPIndexFunc : IndexFunc := fun o => match o with OEndpoints e => Some (ep_IndexIP e) | _ => None end.
Definition svcImportNameNamespaceIndexFunc : IndexFunc := fun o => match o with OServiceImport s => Some [imp_Index s] | _ => None end.
Definition mcEpNameNamespaceIndexFunc : IndexFunc := fun o => match o with OMcEndpoints e => Some [ep_Index (mc_Endpoints e)] | _ => None end.

Section controller.
Context {X : Indexer}.

(** [controllers]: the kinds that are watched.  [synced]: the informers that
    have had the first list. *)
Record dnsControl := mkControl {
  lister : kind_ -> store;
  controllers : kind_ -> bool;
  synced : kind_ -> bool;
  c_times : times;
  shutdown : bool }.

Definition newdnsController (initPodCache initEndpointsCache multicluster : bool) : dnsControl :=
  mkControl (fun _ => ix_empty)
    (fun k => match k with
              | KService | KNamespace => true
              | KPod => initPodCache
              | KEndpoints => initEndpointsCache
              | KServiceImport | KMcEndpoints => multicluster
              end)
    (fun _ => false) (mkTimes 0 0 0) false.

(** The handler of events of a kind; that of namespaces does nothing. *)
Definition handle_event (k : kind_) (now : Z) (ev : event) (t : times) : result go_fault times :=
  if decide (k = KNamespace) then Ok t
  else match ev with
       | OnAdd _ | OnDelete => Ok (updateModified now t)
       | OnUpdate old new => detectChanges now (Some old) (Some new) t
       end.

Fixpoint handle_events (k : kind_) (now : Z) (evs : list event) (t : times) : result go_fault times :=
  match evs with
  | [] => Ok t
  | ev :: evs' => t ← handle_event k now ev t; handle_events k now evs' t
  end.

Definition set_lister (c : dnsControl) (k : kind_) (s : store) (t : times) : dnsControl :=
  mkControl (fun k' => if decide (k = k') then s else lister c k') (controllers c) (synced c) t (shutdown c).

(** A watch delivers changes of one kind of object. *)
Definition deliver (k : kind_) (now : Z) (deltas : list Delta) (c : dnsControl) : result go_fault dnsControl :=
  if negb (controllers c k) || shutdown c then Ok c
  else
    let '(s, evs, err) := DefaultProcessor (converter k) (lister c k) deltas in
    t ← handle_events k now evs (c_times c);
    match err with
    | Some (ProcessPanic f) => Err f
    | _ => Ok (set_lister c k s t)
    end.

(** The flag: shutdown was already in progress. *)
Definition Stop (c : dnsControl) : dnsControl * bool :=
  if shutdown c then (c, true) else (mkControl (lister c) (controllers c) (synced c) (c_times c) true, false).

Definition has_synced (c : dnsControl) : bool :=
  forallb (fun k => negb (controllers c k) || synced c k)
    [KService; KEndpoints; KPod; KNamespace; KServiceImport; KMcEndpoints].

(** The objects of one kind among those of a store. *)
Definition services_in : list meta_Object -> list object_Service := omap (fun o => match o with OService s => Some s | _ => None end).
Definition endpoints_in : list meta_Object -> list object_Endpoints := omap (fun o => match o with OEndpoints e => Some e | _ => None end).
Definition pods_in : list meta_Object -> list object_Pod := omap (fun o => match o with OPod p => Some p | _ => None end).
Definition imports_in : list meta_Object -> list object_ServiceImport := omap (fun o => match o with OServiceImport s => Some s | _ => None end).
Definition mc_endpoints_in : list meta_Object -> list object_MultiClusterEndpoints := omap (fun o => match o with OMcEndpoints e => Some e | _ => None end).

End controller.

(** ** What the plugin asks of a controller *)

Class dnsController := {
  ServiceList : list object_Service;
  EndpointsList : list object_Endpoints;
  ServiceImportList : list object_ServiceImport;
  SvcIndex : string -> list object_Service;
  SvcIndexReverse : string -> list object_Service;
  SvcExtIndexReverse : string -> list object_Service;
  SvcImportIndex : string -> list object_ServiceImport;
  PodIndex : string -> list object_Pod;
  EpIndex : string -> list object_Endpoints;
  EpIndexReverse : string -> list object_Endpoints;
  McEpIndex : string -> list object_MultiClusterEndpoints;
  GetNamespaceByName : string -> option object_Namespace;
  HasSynced : bool;
  Modified_ : ModifiedMode -> Z }.

Definition control {X : Indexer} (c : dnsControl) : dnsController := {|
  ServiceList := services_in (ix_List (lister c KService));
  EndpointsList := endpoints_in (ix_List (lister c KEndpoints));
  ServiceImportList := imports_in (ix_List (lister c KServiceImport));
  SvcIndex := fun i => services_in (ix_ByIndex (lister c KService) svcNameNamespaceIndexFunc i);
  SvcIndexReverse := fun ip => services_in (ix_ByIndex (lister c KService) svcIPIndexFunc ip);
  SvcExtIndexReverse := fun ip => services_in (ix_ByIndex (lister c KService) svcExtIPIndexFunc ip);
  SvcImportIndex := fun i => imports_in (ix_ByIndex (lister c KServiceImport) svcImportNameNamespaceIndexFunc i);
  PodIndex := fun ip => pods_in (ix_ByIndex (lister c KPod) podIPIndexFunc ip);
  EpIndex := fun i => endpoints_in (ix_ByIndex (lister c KEndpoints) epNameNamespaceIndexFunc i);
  EpIndexReverse := fun ip => endpoints_in (ix_ByIndex (lister c KEndpoints) epIPIndexFunc ip);
  McEpIndex := fun i => mc_endpoints_in (ix_ByIndex (lister c KMcEndpoints) mcEpNameNamespaceIndexFunc i);
  GetNamespaceByName := fun n => match ix_GetByKey (lister c KNamespace) n with Some (ONamespace ns) => Some ns | _ => None end;
  HasSynced := has_synced c;
  Modified_ := Modified (c_times c) |}.

(** What it promises: an index has the objects of the list with the value,
    and the objects are as conversion makes them. *)
Class dnsControllerSpec (api : dnsController) : Prop := {
  SvcIndex_law i s : s ∈ SvcIndex i <-> s ∈ ServiceList /\ svc_Index s = i;
  SvcIndexReverse_law ip s : s ∈ SvcIndexReverse ip <-> s ∈ ServiceList /\ ip ∈ svc_ClusterIPs s;
  SvcExtIndexReverse_law ip s : s ∈ SvcExtIndexReverse ip <-> s ∈ ServiceList /\ ip ∈ svc_ExternalIPs s;
  EpIndex_law i e : e ∈ EpIndex i <-> e ∈ EndpointsList /\ ep_Index e = i;
  EpIndexReverse_law ip e : e ∈ EpIndexReverse ip <-> e ∈ EndpointsList /\ ip ∈ ep_IndexIP e;
  PodIndex_law ip p : p ∈ PodIndex ip -> PodIP p = ip;
  service_converted s : s ∈ ServiceList -> exists a, s = to_Service a;
  endpoints_converted e : e ∈ EndpointsList -> exists a, e = to_Endpoints a }.
