(* ===== verification/KubeControlFacts.v ===== *)
(** * Properties of the controller of Kubernetes objects

    A controller keeps what [dnsControllerSpec] promises ([control_spec]); the
    changes of a cluster, delivered in order, leave it with the converted
    objects of that cluster ([controller_mirrors]); no change makes a handler
    panic ([deliver_total]); an address that is not ready is never kept
    ([kept_ready]); and objects that appear or go advance the time the serial
    inside the cluster is made of, but neither of the other two
    ([appearing_unnoticed]). *)

From Stdlib Require Import Ascii ZArith Lia.
From stdpp Require Import base numbers gmap strings list.
From S2P Require Import Prelude KubeObjects.

Local Open Scope Z_scope.

(** ** A store as a finite map *)

Module MapStore.

Definition key (o : meta_Object) : string :=
  if decide (GetNamespace o = EmptyString) then GetName o else GetNamespace o +:+ "/" +:+ GetName o.

#[export] Instance indexer : Indexer := {|
  store := gmap string meta_Object;
  ix_empty := ∅;
  ix_key := key;
  ix_GetByKey := fun s k => s !! k;
  ix_Put := fun s k o => <[k := o]> s;
  ix_Delete := fun s k => delete k s;
  ix_List := fun s => (map_to_list s).*2;
  ix_ByIndex := fun s f i =>
    filter (fun o => i ∈ default [] (f o)) (map_to_list s).*2 |}.

Lemma list_elem (s : gmap string meta_Object) o : o ∈ (map_to_list s).*2 <-> exists k, s !! k = Some o.
Proof.
  rewrite list_elem_of_fmap. split.
  - intros ([k o'] & -> & H%elem_of_map_to_list). by exists k.
  - intros [k H]. exists (k, o). split; [done|]. by apply elem_of_map_to_list.
Qed.

#[export] Instance indexer_spec : IndexerSpec indexer.
Proof.
  split; simpl.
  - done.
  - done.
  - intros. by rewrite lookup_insert_eq.
  - intros. by rewrite lookup_insert_ne.
  - intros. by rewrite lookup_delete_eq.
  - intros. by rewrite lookup_delete_ne.
  - apply list_elem.
  - intros s f i o. rewrite list_elem_of_filter, list_elem. split.
    + intros [Hi Ho]. split; [done|]. destruct (f o) as [l|]; [by exists l|]. by apply elem_of_nil in Hi.
    + intros [Ho (l & -> & Hl)]. done.
Qed.

End MapStore.

Section facts.
Context {X : Indexer} {XS : IndexerSpec X}.

Implicit Types (c : dnsControl) (k : kind_) (s : store) (d : Delta) (o : meta_Object).

(** ** What is kept is converted *)

(** An object of a kind: one its conversion makes without an error. *)
Definition kept k o : Prop := exists a, converter k a = (Some o, None).

Definition store_ok k s : Prop := forall key o, ix_GetByKey s key = Some o -> kept k o.

Lemma put_ok k s key o : store_ok k s -> kept k o -> store_ok k (ix_Put s key o).
Proof.
  intros Hs Ho key' o'. destruct (decide (key = key')) as [<-|Hne].
  - rewrite Get_Put. by intros [= <-].
  - rewrite Get_Put_other by done. apply Hs.
Qed.

Lemma delete_ok k s key : store_ok k s -> store_ok k (ix_Delete s key).
Proof.
  intros Hs key' o'. destruct (decide (key = key')) as [<-|Hne]; [by rewrite Get_Delete|]. rewrite Get_Delete_other by done. apply Hs.
Qed.

(** The events of a change name objects of its kind. *)
Definition event_ok k (ev : event) : Prop :=
  match ev with OnUpdate old new => kept k old /\ kept k new | OnAdd o => kept k o | OnDelete => True end.

Lemma process_delta_ok k s d s' evs err :
  store_ok k s -> process_delta (converter k) s d = (s', evs, err) -> store_ok k s' /\ Forall (event_ok k) evs.
Proof.
  intros Hs. unfold process_delta. destruct (d_Type d).
  4: by intros [= <- <- <-].
  4: { unfold process_delete. destruct (d_Object d) as [o|key]; [|intros [= <- <- <-]; split; [by apply delete_ok|by repeat constructor]].
       destruct (converter k o) as [[obj|] [[|]|]]; intros [= <- <- <-]; (split; [by try apply delete_ok|by repeat constructor]). }
  all: destruct (d_Object d) as [o|key]; [|by intros [= <- <- <-]]; unfold process_add; destruct (converter k o) as [[obj|] [[|]|]] eqn:E; try (by intros [= <- <- <-]);
    assert (kept k obj) as Ho by (by exists o); destruct (ix_GetByKey s (ix_key obj)) as [old|] eqn:Eo; intros [= <- <- <-];
    (split; [by apply put_ok|]); constructor; simpl; try done; split; [by eapply Hs|done].
Qed.

Lemma DefaultProcessor_ok k s ds s' evs err :
  store_ok k s -> DefaultProcessor (converter k) s ds = (s', evs, err) -> store_ok k s' /\ Forall (event_ok k) evs.
Proof.
  revert s s' evs err. induction ds as [|d ds IH]; intros s s' evs err Hs; simpl; [by intros [= <- <- <-]|].
  destruct (process_delta _ s d) as [[s1 evs1] [e|]] eqn:E; (apply process_delta_ok in E as [H1 H2]; [|done]).
  - intros [= <- <- <-]. done.
  - destruct (DefaultProcessor _ s1 ds) as [[s2 evs2] err2] eqn:E2. intros [= <- <- <-].
    apply IH in E2 as [H3 H4]; [|done]. split; [done|]. by apply Forall_app.
Qed.

(** The controllers that can be. *)
Inductive reachable : dnsControl -> Prop :=
| reach_new pods eps mc : reachable (newdnsController pods eps mc)
| reach_deliver c k now ds c' : reachable c -> deliver k now ds c = Ok c' -> reachable c'
| reach_stop c : reachable c -> reachable (Stop c).1.

Lemma reachable_ok c k : reachable c -> store_ok k (lister c k).
Proof.
  induction 1 as [pods eps mc|c k' now ds c' Hr IH Hd|c Hr IH].
  - intros key o. simpl. by rewrite Get_empty.
  - unfold deliver in Hd. destruct (_ || _); [by injection Hd as <-|].
    destruct (DefaultProcessor _ _ _) as [[s evs] err] eqn:E. destruct (handle_events _ _ _ _) as [t|f]; [|done]. simpl in Hd.
    assert (c' = set_lister c k' s t) as ->. { destruct err as [[?|?]|]; simplify_eq; done. }
    simpl. case_decide as Hk; [|done]. subst k'. by apply DefaultProcessor_ok in E as [? _].
  - unfold Stop. by destruct (shutdown c).
Qed.

(** ** What the controller promises *)

Lemma elem_of_kind {A} (f : meta_Object -> option A) (l : list meta_Object) a : a ∈ omap f l <-> exists o, o ∈ l /\ f o = Some a.
Proof. by rewrite list_elem_of_omap. Qed.

Lemma kept_service o (s : object_Service) : kept KService o -> o = OService s -> exists a, s = to_Service a.
Proof. intros [[] [=]] ->. simplify_eq. by eexists. Qed.

Lemma kept_endpoints o (e : object_Endpoints) : kept KEndpoints o -> o = OEndpoints e -> exists a, e = to_Endpoints a.
Proof. intros [[] [=]] ->. simplify_eq. by eexists. Qed.

(** An index of a store and the list of it, seen through one kind. *)
Lemma index_elem {A} (f : meta_Object -> option A) (g : IndexFunc) (vals : A -> list string) s i a :
  (forall o a, f o = Some a -> g o = Some (vals a)) ->
  a ∈ omap f (ix_ByIndex s g i) <-> a ∈ omap f (ix_List s) /\ i ∈ vals a.
Proof.
  intros Hg. rewrite !elem_of_kind. setoid_rewrite ByIndex_elem. setoid_rewrite List_elem. split.
  - intros (o & (Hk & l & Hl & Hi) & Ho). rewrite (Hg _ _ Ho) in Hl. simplify_eq. split; [by exists o|done].
  - intros ((o & Hk & Ho) & Hi). exists o. split; [|done]. split; [done|]. exists (vals a). split; [by apply Hg|done].
Qed.

#[local] Ltac by_index vals :=
  intros; simpl; unfold services_in, endpoints_in, pods_in; rewrite (index_elem _ _ vals); [try rewrite list_elem_of_singleton; naive_solver|intros []; naive_solver].

(** A controller that can be is as the plugin expects it: its indices agree
    with its lists, and its services and endpoints are as conversion makes
    them. *)
Lemma control_spec c : reachable c -> dnsControllerSpec (control c).
Proof.
  intros Hr. split.
  - by_index (fun s : object_Service => [svc_Index s]).
  - by_index svc_ClusterIPs.
  - by_index svc_ExternalIPs.
  - by_index (fun e : object_Endpoints => [ep_Index e]).
  - by_index ep_IndexIP.
  - intros ip p. simpl. unfold pods_in. rewrite (index_elem _ _ (fun p => [PodIP p])); [|intros []; naive_solver].
    rewrite list_elem_of_singleton. naive_solver.
  - intros s. simpl. unfold services_in. rewrite elem_of_kind. setoid_rewrite List_elem. intros (o & [key Hk] & Ho).
    apply (reachable_ok c KService Hr) in Hk. destruct o; simplify_eq. by eapply kept_service.
  - intros e. simpl. unfold endpoints_in. rewrite elem_of_kind. setoid_rewrite List_elem. intros (o & [key Hk] & Ho).
    apply (reachable_ok c KEndpoints Hr) in Hk. destruct o; simplify_eq. by eapply kept_endpoints.
Qed.

(** ** No change makes a handler panic *)

Lemma detectChanges_total k now old new t :
  k <> KNamespace -> kept k old -> kept k new -> exists t', detectChanges now (Some old) (Some new) t = Ok t'.
Proof.
  intros Hk [a Ha] [b Hb]. unfold detectChanges. case_bool_decide; [by eexists|].
  destruct k, a, b; simpl in Ha, Hb; simplify_eq; simpl; try (by eexists).
  destruct (services_modified _ _). by eexists.
Qed.

Lemma handle_events_total k now evs t : Forall (event_ok k) evs -> exists t', handle_events k now evs t = Ok t'.
Proof.
  intros H. revert t. induction H as [|ev evs He H IH]; intros t; simpl; [by eexists|].
  assert (exists t1, handle_event k now ev t = Ok t1) as [t1 ->]; [|apply IH].
  unfold handle_event. case_decide; [by eexists|]. destruct ev; [by eexists| |by eexists]. destruct He. by apply (detectChanges_total k).
Qed.

(** A change as the API delivers it: only a deletion can come without the
    object. *)
Definition delivered d : Prop := d_Type d = Deleted \/ exists o, d_Object d = Live o.

Lemma converter_some k o : (converter k o).1 = None -> (converter k o).2 = Some UnexpectedObject.
Proof. by destruct k, o. Qed.

Lemma process_delta_fault k s d s' evs f : delivered d -> process_delta (converter k) s d <> (s', evs, Some (ProcessPanic f)).
Proof.
  intros Hd. unfold process_delta, process_add, process_delete.
  destruct (d_Type d) eqn:Et, (d_Object d) as [o|key] eqn:Eo; simpl; try done; try (destruct Hd as [?|[? ?]]; congruence);
    pose proof (converter_some k o) as Hc; destruct (converter k o) as [[obj|] [[|]|]]; simpl in Hc; try done;
    (by specialize (Hc eq_refl)) || by destruct (ix_GetByKey _ _).
Qed.

Lemma DefaultProcessor_fault k s ds s' evs f :
  Forall delivered ds -> DefaultProcessor (converter k) s ds <> (s', evs, Some (ProcessPanic f)).
Proof.
  intros H. revert s s' evs. induction H as [|d ds Hd H IH]; intros s s' evs; simpl; [done|].
  destruct (process_delta _ s d) as [[s1 evs1] [e|]] eqn:E.
  - intros [= <- <- ->]. by apply process_delta_fault in E.
  - destruct (DefaultProcessor _ s1 ds) as [[s2 evs2] err2] eqn:E2. intros [= <- <- ->]. by apply IH in E2.
Qed.

(** Changes are taken without a panic, whatever objects they carry. *)
Lemma deliver_total c k now ds : reachable c -> Forall delivered ds -> exists c', deliver k now ds c = Ok c'.
Proof.
  intros Hr Hd. unfold deliver. destruct (_ || _); [by eexists|].
  destruct (DefaultProcessor _ _ _) as [[s evs] err] eqn:E.
  pose proof (DefaultProcessor_ok _ _ _ _ _ _ (reachable_ok c k Hr) E) as [_ Hev].
  destruct (handle_events_total k now evs (c_times c) Hev) as [t ->]. simpl.
  destruct err as [[?|f]|]; [by eexists| |by eexists]. by apply DefaultProcessor_fault in E.
Qed.

(** ** The controller mirrors the cluster *)

(** What happens in the cluster to one kind of object. *)
Inductive change : Type := Create (o : meta_Object) | Modify (o : meta_Object) | Remove (o : meta_Object) | Missed (key : string).

Definition delta_of (x : change) : Delta :=
  match x with
  | Create o => mkDelta Added (Live o)
  | Modify o => mkDelta Updated (Live o)
  | Remove o => mkDelta Deleted (Live o)
  | Missed key => mkDelta Deleted (DeletedFinalStateUnknown key)
  end.

(** The objects of the kind there are, by key. *)
Definition apply_change (m : gmap string meta_Object) (x : change) : gmap string meta_Object :=
  match x with
  | Create o | Modify o => <[ix_key o := o]> m
  | Remove o => delete (ix_key o) m
  | Missed key => delete key m
  end.

Definition of_kind k (x : change) : Prop :=
  match x with Create o | Modify o | Remove o => (converter k o).2 <> Some UnexpectedObject | Missed _ => True end.

(** An object is kept as it converts; of one that terminates, an earlier form
    may still be kept. *)
Definition mirrors k s (m : gmap string meta_Object) : Prop :=
  forall key, match m !! key with
    | Some o => (converter k o).2 = None -> ix_GetByKey s key = (converter k o).1
    | None => ix_GetByKey s key = None
    end.

Lemma converter_key k o obj : (converter k o).1 = Some obj -> ix_key obj = ix_key o.
Proof. rewrite !key_meta. destruct k, o; simpl; intros [= <-]; done. Qed.

Lemma mirrors_put k s m o obj : mirrors k s m -> (converter k o).1 = Some obj -> mirrors k (ix_Put s (ix_key o) obj) (<[ix_key o := o]> m).
Proof.
  intros Hm Hc key. destruct (decide (ix_key o = key)) as [<-|Hne].
  - rewrite lookup_insert_eq, Get_Put. done.
  - rewrite lookup_insert_ne, Get_Put_other by done. apply Hm.
Qed.

Lemma mirrors_delete k s m key : mirrors k s m -> mirrors k (ix_Delete s key) (delete key m).
Proof.
  intros Hm key'. destruct (decide (key = key')) as [<-|Hne].
  - by rewrite lookup_delete_eq, Get_Delete.
  - rewrite lookup_delete_ne, Get_Delete_other by done. apply Hm.
Qed.

Lemma mirrors_terminating k s m o : mirrors k s m -> (converter k o).2 <> None -> mirrors k s (<[ix_key o := o]> m).
Proof.
  intros Hm Hc key. destruct (decide (ix_key o = key)) as [<-|Hne]; [by rewrite lookup_insert_eq|].
  rewrite lookup_insert_ne by done. apply Hm.
Qed.

Lemma process_add_mirrors k s m o :
  mirrors k s m -> (converter k o).2 <> Some UnexpectedObject ->
  exists s' evs, process_add (converter k) s o = (s', evs, None) /\ mirrors k s' (<[ix_key o := o]> m).
Proof.
  intros Hm Hx. unfold process_add. pose proof (converter_some k o) as Hs. pose proof (converter_key k o) as Hk.
  pose proof (mirrors_put k s m o) as Hp. pose proof (mirrors_terminating k s m o Hm) as Ht.
  destruct (converter k o) as [[obj|] [[|]|]]; simpl in *; try done; try (by specialize (Hs eq_refl)).
  - do 2 eexists. split; [done|]. by apply Ht.
  - rewrite (Hk _ eq_refl). destruct (ix_GetByKey s (ix_key o)); do 2 eexists; (split; [done|by apply Hp]).
Qed.

Lemma process_mirrors k s m x :
  mirrors k s m -> of_kind k x ->
  exists s' evs, process_delta (converter k) s (delta_of x) = (s', evs, None) /\ mirrors k s' (apply_change m x).
Proof.
  intros Hm Hx. destruct x as [o|o|o|key]; simpl; [by apply process_add_mirrors..| |].
  - simpl in Hx. unfold process_delta, process_delete. simpl. pose proof (converter_some k o) as Hs. pose proof (converter_key k o) as Hk.
    destruct (converter k o) as [[obj|] [[|]|]]; simpl in *; try done; try (by specialize (Hs eq_refl));
      rewrite (Hk _ eq_refl); do 2 eexists; (split; [done|by apply mirrors_delete]).
  - do 2 eexists. split; [done|by apply mirrors_delete].
Qed.

Lemma DefaultProcessor_mirrors k s m xs :
  mirrors k s m -> Forall (of_kind k) xs ->
  exists s' evs, DefaultProcessor (converter k) s (delta_of <$> xs) = (s', evs, None) /\ mirrors k s' (foldl apply_change m xs).
Proof.
  intros Hm H. revert s m Hm. induction H as [|x xs Hx H IH]; intros s m Hm; [by do 2 eexists|]. rewrite fmap_cons. cbn [DefaultProcessor foldl].
  destruct (process_mirrors k s m x Hm Hx) as (s1 & evs1 & -> & H1).
  destruct (IH s1 _ H1) as (s2 & evs2 & -> & H2). by do 2 eexists.
Qed.

(** What happens over time, and the cluster it leaves. *)
Definition history : Type := list (kind_ * Z * list change).

Definition cluster_after (h : history) k : gmap string meta_Object :=
  foldl apply_change ∅ (flat_map (fun x => if decide (x.1.1 = k) then x.2 else []) h).

Fixpoint deliver_all (h : history) c : result go_fault dnsControl :=
  match h with
  | [] => Ok c
  | (k, now, xs) :: h' => c ← deliver k now (delta_of <$> xs) c; deliver_all h' c
  end.

Definition history_ok (h : history) : Prop := Forall (fun x => Forall (of_kind x.1.1) x.2) h.

Lemma delta_delivered xs : Forall delivered (delta_of <$> xs).
Proof. induction xs as [|[] xs IH]; simpl; constructor; try done; [right|right|by left..]; by eexists. Qed.

Lemma deliver_mirrors c c' k now xs (m : kind_ -> gmap string meta_Object) :
  Forall (of_kind k) xs -> shutdown c = false -> (forall k', controllers c k' = true -> mirrors k' (lister c k') (m k')) ->
  deliver k now (delta_of <$> xs) c = Ok c' ->
  shutdown c' = false /\ controllers c' = controllers c /\
  forall k', controllers c k' = true -> mirrors k' (lister c' k') (if decide (k = k') then foldl apply_change (m k') xs else m k').
Proof.
  intros Hx Hsd Hm. unfold deliver. rewrite Hsd, orb_false_r. destruct (controllers c k) eqn:Ek; simpl.
  - destruct (DefaultProcessor_mirrors k (lister c k) (m k) xs (Hm _ Ek) Hx) as (s & evs & -> & Hs).
    destruct (handle_events _ _ _ _) as [t|]; [|done]. intros [= <-]. split_and!; [done..|]. intros k' Hk'. simpl.
    case_decide; [by subst|by apply Hm].
  - intros [= <-]. split_and!; [done..|]. intros k' Hk'. rewrite decide_False by congruence. by apply Hm.
Qed.

Lemma deliver_all_mirrors h c (m : kind_ -> list change) :
  history_ok h -> reachable c -> shutdown c = false ->
  (forall k, controllers c k = true -> mirrors k (lister c k) (foldl apply_change ∅ (m k))) ->
  exists c', deliver_all h c = Ok c' /\ reachable c' /\ controllers c' = controllers c /\
    forall k, controllers c k = true ->
      mirrors k (lister c' k) (foldl apply_change ∅ (m k ++ flat_map (fun x => if decide (x.1.1 = k) then x.2 else []) h)).
Proof.
  intros Hh. revert c m. induction Hh as [|[[k now] xs] h Hx Hh IH]; intros c m Hr Hsd Hm; simpl.
  { exists c. split_and!; [done..|]. intros k Hk. rewrite app_nil_r. by apply Hm. }
  destruct (deliver_total c k now (delta_of <$> xs) Hr (delta_delivered xs)) as [c1 Hd]. rewrite Hd. simpl.
  destruct (deliver_mirrors c c1 k now xs _ Hx Hsd Hm Hd) as (Hsd1 & Hc1 & Hm1).
  destruct (IH c1 (fun k' => m k' ++ if decide (k = k') then xs else [])) as (c' & ? & ? & Hc' & Hm'); [by eapply reach_deliver|done| |].
  { intros k' Hk'. rewrite Hc1 in Hk'. specialize (Hm1 k' Hk'). rewrite foldl_app. by destruct (decide (k = k')). }
  exists c'. split_and!; [done..|congruence|]. intros k' Hk'. rewrite <-Hc1 in Hk'. specialize (Hm' k' Hk'). by rewrite <-app_assoc in Hm'.
Qed.

(** C20. Whatever happens in the cluster, once it is delivered the controller keeps
    exactly the converted objects of every kind it watches, apart from pods
    that are terminating. *)
Theorem controller_mirrors pods eps mc h :
  history_ok h ->
  exists c, deliver_all h (newdnsController pods eps mc) = Ok c /\ reachable c /\
    forall k, controllers c k = true -> mirrors k (lister c k) (cluster_after h k).
Proof.
  intros Hh. destruct (deliver_all_mirrors h (newdnsController pods eps mc) (fun _ => []) Hh) as (c & ? & ? & Hc & Hm);
    [constructor|done|intros k _ key; simpl; by rewrite lookup_empty, Get_empty|].
  exists c. split_and!; [done..|]. intros k Hk. rewrite Hc in Hk. by apply Hm.
Qed.

(** The controller after a history. *)
Definition after (pods eps mc : bool) (h : history) : dnsControl :=
  match deliver_all h (newdnsController pods eps mc) with Ok c => c | Err _ => newdnsController pods eps mc end.

Lemma deliver_all_reachable h c c' : reachable c -> deliver_all h c = Ok c' -> reachable c'.
Proof.
  revert c. induction h as [|[[k now] xs] h IH]; intros c Hr; simpl; [by intros [= <-]|].
  intros (c1 & Hd & Ha)%bind_ok_inv. eapply IH; [|done]. by eapply reach_deliver.
Qed.

Lemma after_reachable pods eps mc h : reachable (after pods eps mc h).
Proof.
  unfold after. destruct (deliver_all _ _) eqn:E; [|constructor]. eapply deliver_all_reachable; [|done]. constructor.
Qed.

(** ** Times of changes *)

(** An object that appears, or goes. *)
Definition appears_or_goes c k (x : change) : Prop :=
  match x with
  | Create o => (converter k o).2 = None /\ ix_GetByKey (lister c k) (ix_key o) = None
  | Modify _ => False
  | Remove o => (converter k o).2 <> Some UnexpectedObject
  | Missed _ => True
  end.

(** Services that appear or go change the time of the cluster.  The times of
    external records and of the cluster set stay, even when a service with
    external addresses or an imported service appears or goes. *)
Theorem appearing_unnoticed c c' k now x :
  k <> KNamespace -> controllers c k = true -> shutdown c = false -> appears_or_goes c k x ->
  deliver k now [delta_of x] c = Ok c' ->
  c_times c' = mkTimes now (extModified (c_times c)) (multiClusterModified (c_times c)).
Proof.
  intros Hk Hc Hs Hx. unfold deliver. rewrite Hc, Hs. simpl.
  assert (exists s' ev, process_delta (converter k) (lister c k) (delta_of x) = (s', [ev], None) /\
    match ev with OnUpdate _ _ => False | _ => True end) as (s' & ev & -> & He).
  { destruct x as [o|o|o|key]; simpl in Hx; [|done| |do 2 eexists; by split]; unfold process_delta; simpl.
    - destruct Hx as [Hc2 Hn]. unfold process_add. pose proof (converter_some k o) as Hcs. pose proof (converter_key k o) as Hck.
      destruct (converter k o) as [[obj|] e]; simpl in *; subst e; [|by specialize (Hcs eq_refl)].
      rewrite (Hck _ eq_refl), Hn. do 2 eexists. by split.
    - unfold process_delete. pose proof (converter_some k o) as Hcs. destruct (converter k o) as [[obj|] [[|]|]]; simpl in *; try done;
        try (by specialize (Hcs eq_refl)); do 2 eexists; by split. }
  simpl. unfold handle_event. rewrite decide_False by done. destruct ev; [|done|]; simpl; by intros [= <-].
Qed.

(** ** Readiness *)

(** An address that is kept is one of an endpoint of the slice that is not
    known to be unready. *)
Lemma kept_ready (e : api_EndpointSlice) a :
  a ∈ flat_map Addresses (Subsets (to_Endpoints e)) ->
  exists ep, ep ∈ sl_Endpoints e /\ le_Ready ep <> Some false /\ ea_IP a ∈ le_Addresses ep.
Proof.
  simpl. rewrite app_nil_r. intros (ep & Hep & Ha)%list_elem_of_In%in_flat_map. apply list_elem_of_In in Hep, Ha. exists ep. split; [done|].
  unfold slice_Addresses, endpointsliceReady in Ha. destruct (le_Ready ep) as [[|]|]; simpl in Ha; try (by apply elem_of_nil in Ha);
    apply list_elem_of_fmap in Ha as (ip & -> & Hip); by split.
Qed.

(** The addresses of endpoints are the values of their index. *)
Lemma to_Endpoints_index (e : api_EndpointSlice) : ep_IndexIP (to_Endpoints e) = map ea_IP (flat_map Addresses (Subsets (to_Endpoints e))).
Proof. simpl. by rewrite app_nil_r. Qed.

End facts.
