(* ===== verification/Kubernetes.v ===== *)
(** * The kubernetes plugin (plugin/kubernetes)

    Names of services, endpoints and pods answered from the objects of a
    cluster: what a name asks for ([parseRequest]), the services found for it
    ([findServices], [findPods], [findMultiClusterServices]), reverse lookups,
    the name servers of the zone ([nsAddrs]), the back end they make
    ([kube_backend], an instance of [ServiceBackend]) and the handler; the
    search path for autopath; and zone transfers (xfr.go).  The objects are
    those of a [dnsController].

    A request carries the zone it is for.  Where the lookups make a new request
    they set that zone again, except for the target of an SRV or MX record that
    is a name, which the services of this plugin never have: the zone is an
    argument of the back end. *)

From Stdlib Require Import Ascii ZArith Lia.
From stdpp Require Import base numbers gmap strings list sorting.
From S2P Require Import Prelude DnsTypes DnsLib Ip GoStrings Http Serve Xfer FileZone Server Filters Backend Etcd GoNet Hosts KubeObjects.

Local Open Scope Z_scope.

Inductive kube_error : Type := errNoItems | errNsNotExposed | errInvalidRequest | NoUpstream.

#[export] Instance kube_error_eq_dec : EqDecision kube_error.
Proof. solve_decision. Defined.

Inductive pod_mode : Type := podModeDisabled | podModeVerified | podModeInsecure.

#[export] Instance pod_mode_eq_dec : EqDecision pod_mode.
Proof. solve_decision. Defined.

Definition DNSSchemaVersion : string := "1.1.0".
Definition Svc : string := "svc".
Definition Pod : string := "pod".
Definition coredns : string := "c".
Definition defaultNSName : string := "ns.dns.".

Record Kubernetes := mkKubernetes {
  k_Zones : list string;
  k_Upstream : option (Msg -> result go_fault (option Msg));
  Namespaces : gset string;
  podMode : pod_mode;
  endpointNameMode : bool;
  k_Fall : list string;
  k_ttl : Z;
  initPodCache : bool;
  ignoreEmptyService : bool;
  multiclusterZones : list string;
  primaryZoneIndex : nat;
  localIPs : list (list Z);
  autoPathSearch : list string }.

(** ** Names (parse.go, plugin/pkg/dnsutil/zone.go) *)

Record recordRequest := mkRequest {
  r_port : string; r_protocol : string; r_endpoint : string; r_cluster : string;
  r_service : string; r_namespace : string; r_podOrSvc : string }.

Definition empty_request : recordRequest := mkRequest EmptyString EmptyString EmptyString EmptyString EmptyString EmptyString EmptyString.

Definition stripUnderscore (s : string) : string :=
  match s with String "_" s' => s' | _ => s end.

Section kubernetes.
Context {L : DnsLib} {N : DnsNames} {api : dnsController}.

Definition TrimZone (q z : string) : result unit string :=
  let '(i, overshot) := PrevLabel q (CountLabel z) in
  if overshot || bool_decide (i < 1)%nat then Err tt else Ok (take_str (i - 1) q).

Definition trimmed (q z : string) : string := match TrimZone q z with Ok s => s | Err _ => EmptyString end.

(** The labels left of service and namespace, from the right. *)
Definition parse_rest (multicluster : bool) (rest : list string) (service namespace podOrSvc : string) : result kube_error recordRequest :=
  match rest with
  | [] => Ok (mkRequest EmptyString EmptyString EmptyString EmptyString service namespace podOrSvc)
  | [endpoint] => Ok (mkRequest EmptyString EmptyString endpoint EmptyString service namespace podOrSvc)
  | [l1; l0] =>
      if negb multicluster || HasPrefix l1 "_" || HasPrefix l0 "_" then
        Ok (mkRequest (stripUnderscore l0) (stripUnderscore l1) EmptyString EmptyString service namespace podOrSvc)
      else Ok (mkRequest EmptyString EmptyString l0 l1 service namespace podOrSvc)
  | _ => Err errInvalidRequest
  end.

Definition parseRequest (name zone : string) (multicluster : bool) : result kube_error recordRequest :=
  let base := trimmed name zone in
  if decide (base = EmptyString \/ base = Svc \/ base = Pod) then Ok empty_request
  else
    match reverse (SplitDomainName base) with
    | [] => Ok empty_request
    | podOrSvc :: rest =>
        if decide (podOrSvc <> Pod /\ podOrSvc <> Svc) then Err errInvalidRequest
        else match rest with
             | [] => Ok (mkRequest EmptyString EmptyString EmptyString EmptyString EmptyString EmptyString podOrSvc)
             | [namespace] => Ok (mkRequest EmptyString EmptyString EmptyString EmptyString EmptyString namespace podOrSvc)
             | namespace :: service :: rest => parse_rest multicluster rest service namespace podOrSvc
             end
    end.

(** ** Namespaces (namespace.go) *)

Definition filteredNamespaceExists (namespace : string) : bool := bool_decide (is_Some (GetNamespaceByName namespace)).

Definition configuredNamespace (k : Kubernetes) (namespace : string) : bool :=
  negb (bool_decide (Namespaces k <> ∅) && bool_decide (namespace ∉ Namespaces k)).

Definition namespaceExposed (k : Kubernetes) (namespace : string) : bool :=
  configuredNamespace k namespace && filteredNamespaceExists namespace.

Definition isMultiClusterZone (k : Kubernetes) (zone : string) : bool :=
  bool_decide (Matches (multiclusterZones k) zone <> EmptyString).

(** ** Services (kubernetes.go) *)

Definition match_ (a b : string) : bool := EqualFold a b.

Definition matchPortAndProtocol (aPort bPort aProtocol bProtocol : string) : bool :=
  (match_ aPort bPort || bool_decide (aPort = EmptyString)) && (match_ aProtocol bProtocol || bool_decide (aProtocol = EmptyString)).

Definition endpointHostname (addr : EndpointAddress) (endpointNameMode : bool) : string :=
  if decide (ea_Hostname addr <> EmptyString) then ea_Hostname addr
  else if endpointNameMode && bool_decide (ea_TargetRefName addr <> EmptyString) then ea_TargetRefName addr
  else if Contains (ea_IP addr) "." then ReplaceAll (ea_IP addr) "." "-"
  else if Contains (ea_IP addr) ":" then
    let ipv6Hostname := ReplaceAll (ea_IP addr) ":" "-" in
    if HasSuffix ipv6Hostname "-" then ipv6Hostname +:+ "0" else ipv6Hostname
  else EmptyString.

(** A service of a host, with the fields the plugin leaves empty. *)
Definition found (host : string) (port ttl : Z) (key : list string) : Service :=
  mkService host port 0 0 EmptyString false ttl 0 EmptyString (JoinStr key "/").

(** A list of services; none is the error that there are no items. *)
Definition some_items (sx : list Service) : result kube_error (list Service) :=
  match sx with [] => Err errNoItems | _ => Ok sx end.

Definition pod_ip (podname : string) : string :=
  if decide (count_byte "-"%char podname = 3%nat /\ Contains podname "--" = false) then ReplaceAll podname "-" "."
  else ReplaceAll podname "-" ":".

Definition findPods (k : Kubernetes) (r : recordRequest) (zone : string) : result kube_error (list Service) :=
  if decide (podMode k = podModeDisabled) then Err errNoItems
  else
    let namespace := r_namespace r in
    if negb (namespaceExposed k namespace) then Err errNoItems
    else
      let podname := r_service r in
      if decide (podname = EmptyString) then Ok []
      else
        let ip := pod_ip podname in
        let s := found ip 0 (k_ttl k) [Path zone coredns; Pod; namespace; podname] in
        if decide (podMode k = podModeInsecure) then
          if decide (ParseIP ip = None) then Err errNoItems else Ok [s]
        else
          some_items (map (fun _ => s) (filter (fun p => ip = PodIP p /\ match_ namespace (pod_Namespace p) = true) (PodIndex ip))).

(** The number of addresses of endpoints. *)
Definition podsCount (eps : list object_Endpoints) : nat :=
  length (flat_map Addresses (flat_map Subsets eps)).

(** The services of one subset of endpoints: an address that is asked for,
    with each port that is. *)
Definition subset_services (k : Kubernetes) (r : recordRequest) (key : list string) (eps : EndpointSubset) : list Service :=
  flat_map (fun addr =>
    if bool_decide (r_endpoint r <> EmptyString) && negb (match_ (r_endpoint r) (endpointHostname addr (endpointNameMode k))) then []
    else
      map (fun p => found (ea_IP addr) (epp_Port p) (k_ttl k) (key ++ [endpointHostname addr (endpointNameMode k)]))
        (filter (fun p => matchPortAndProtocol (r_port r) (epp_Name p) (r_protocol r) (epp_Protocol p) = true) (ss_Ports eps)))
    (Addresses eps).

Definition endpoint_services (k : Kubernetes) (r : recordRequest) (svc : object_Service) (key : list string) (eps : list object_Endpoints)
  : list Service :=
  flat_map (fun ep =>
    if decide (EndpointsKey (svc_Name svc) (svc_Namespace svc) <> ep_Index ep) then []
    else flat_map (subset_services k r key) (Subsets ep)) eps.

(** The services of the addresses of a cluster, for each port asked for; the
    flag: there is such a port. *)
Definition cluster_services (k : Kubernetes) (r : recordRequest) (ports : list ServicePort) (ips : list string) (key : list string)
  : list Service * bool :=
  let ports := filter (fun p => matchPortAndProtocol (r_port r) (sp_Name p) (r_protocol r) (sp_Protocol p) = true) ports in
  (flat_map (fun p => map (fun ip => found ip (sp_Port p) (k_ttl k) key) ips) ports, bool_decide (ports <> [])).

(** What one service adds, and whether it clears the error. *)
Definition service_items (k : Kubernetes) (r : recordRequest) (zone idx : string) (svc : object_Service) : list Service * bool :=
  let key := [Path zone coredns; Svc; svc_Namespace svc; svc_Name svc] in
  if negb (match_ (r_namespace r) (svc_Namespace svc)) || negb (match_ (r_service r) (svc_Name svc)) then ([], false)
  else if ignoreEmptyService k && bool_decide (svc_Type svc <> ServiceTypeExternalName) && negb (Headless svc)
          && (podsCount (EpIndex idx) =? 0)%nat then ([], false)
  else if decide (svc_Type svc = ServiceTypeExternalName) then
    if decide (r_endpoint r <> EmptyString \/ r_port r <> EmptyString \/ r_protocol r <> EmptyString) then ([], false)
    else
      let s := found (svc_ExternalName svc) 0 (k_ttl k) key in
      if decide ((HostType s).1 = TypeCNAME) then ([s], true) else ([], false)
  else if Headless svc || bool_decide (r_endpoint r <> EmptyString) then
    let sx := endpoint_services k r svc key (EpIndex idx) in (sx, bool_decide (sx <> []))
  else cluster_services k r (svc_Ports svc) (svc_ClusterIPs svc) key.

(** The loop over the services of an index. *)
Definition gather_items {S} (items : S -> list Service * bool) (l : list S) : result kube_error (list Service) :=
  if existsb (fun s => (items s).2) l then Ok (flat_map (fun s => (items s).1) l) else Err errNoItems.

Definition findServices (k : Kubernetes) (r : recordRequest) (zone : string) : result kube_error (list Service) :=
  if negb (namespaceExposed k (r_namespace r)) then Err errNoItems
  else if decide (r_service r = EmptyString) then Ok []
  else
    let idx := ServiceKey (r_service r) (r_namespace r) in
    gather_items (service_items k r zone idx) (SvcIndex idx).

(** *** Services of a cluster set *)

Definition mc_subset_services (k : Kubernetes) (r : recordRequest) (key : list string) (cluster : string) (eps : EndpointSubset) : list Service :=
  flat_map (fun addr =>
    if bool_decide (r_endpoint r <> EmptyString)
       && (negb (match_ (r_cluster r) cluster) || negb (match_ (r_endpoint r) (endpointHostname addr (endpointNameMode k)))) then []
    else
      map (fun p => found (ea_IP addr) (epp_Port p) (k_ttl k) (key ++ [cluster; endpointHostname addr (endpointNameMode k)]))
        (filter (fun p => matchPortAndProtocol (r_port r) (epp_Name p) (r_protocol r) (epp_Protocol p) = true) (ss_Ports eps)))
    (Addresses eps).

Definition mc_endpoint_services (k : Kubernetes) (r : recordRequest) (svc : object_ServiceImport) (key : list string)
    (eps : list object_MultiClusterEndpoints) : list Service :=
  flat_map (fun ep =>
    if decide (MultiClusterEndpointsKey (imp_Name svc) (imp_Namespace svc) <> ep_Index (mc_Endpoints ep)) then []
    else flat_map (mc_subset_services k r key (ClusterId ep)) (Subsets (mc_Endpoints ep))) eps.

Definition import_items (k : Kubernetes) (r : recordRequest) (zone idx : string) (svc : object_ServiceImport) : list Service * bool :=
  let key := [Path zone coredns; Svc; imp_Namespace svc; imp_Name svc] in
  if negb (match_ (r_namespace r) (imp_Namespace svc)) || negb (match_ (r_service r) (imp_Name svc)) then ([], false)
  else if ignoreEmptyService k && negb (import_Headless svc) && (podsCount (map mc_Endpoints (McEpIndex idx)) =? 0)%nat then ([], false)
  else if import_Headless svc || bool_decide (r_endpoint r <> EmptyString) then
    let sx := mc_endpoint_services k r svc key (McEpIndex idx) in (sx, bool_decide (sx <> []))
  else cluster_services k r (imp_Ports svc) (imp_ClusterIPs svc) key.

Definition findMultiClusterServices (k : Kubernetes) (r : recordRequest) (zone : string) : result kube_error (list Service) :=
  if negb (namespaceExposed k (r_namespace r)) then Err errNoItems
  else if decide (r_service r = EmptyString) then Ok []
  else
    let idx := ServiceImportKey (r_service r) (r_namespace r) in
    gather_items (import_items k r zone idx) (SvcImportIndex idx).

Definition kube_Records (k : Kubernetes) (zone : string) (state : Msg) : result kube_error (list Service) :=
  let multicluster := isMultiClusterZone k zone in
  r ← parseRequest (Name_ state) zone multicluster;
  if decide (r_podOrSvc r = EmptyString) then Ok []
  else if decide (0 < IsReverse (Name_ state)) then Err errNoItems
  else if negb (namespaceExposed k (r_namespace r)) then Err errNsNotExposed
  else if decide (r_podOrSvc r = Pod) then findPods k r zone
  else if multicluster then findMultiClusterServices k r zone
  else findServices k r zone.

(** ** Name servers of the zone (ns.go) *)

Definition Index (s sub : string) : option nat := (fun p => String.length p.1) <$> Cut s sub.

Definition isDefaultNS (name zone : string) : bool :=
  bool_decide (Index name defaultNSName = Some 0%nat) && bool_decide (Index name zone = Some (String.length defaultNSName)).

(** [net.ParseIP], nil as no bytes. *)
Definition ip_of (s : string) : list Z := default [] (ParseIP s).

(** The names and addresses a service gives for one of its endpoints. *)
Definition ns_service (k : Kubernetes) (external headless : bool) (zone : string) (endpoint : object_Endpoints) (svc : object_Service)
  : list (string * list Z) :=
  let svcName := JoinStr (if external then [svc_Name svc; svc_Namespace svc; zone] else [svc_Name svc; svc_Namespace svc; Svc; zone]) "." in
  let endpoints := map (fun a => (endpointHostname a (endpointNameMode k) +:+ "." +:+ svcName, ip_of (ea_IP a)))
                     (flat_map Addresses (Subsets endpoint)) in
  if external then if headless && Headless svc then endpoints else map (fun ip => (svcName, ip_of ip)) (svc_ExternalIPs svc)
  else if Headless svc then endpoints else map (fun ip => (svcName, ip_of ip)) (svc_ClusterIPs svc).

Definition ns_rr (n : string * list Z) : RR :=
  match To4 n.2 with
  | None => mkRR (mkHdr n.1 TypeAAAA ClassINET 0) (RAAAA n.2)
  | Some _ => mkRR (mkHdr n.1 TypeA ClassINET 0) (RA n.2)
  end.

Definition nsAddrs (k : Kubernetes) (external headless : bool) (zone : string) : list RR :=
  let endpoints := flat_map (fun ip => EpIndexReverse (IP_String ip)) (localIPs k) in
  map ns_rr
    match endpoints with
    | [] => map (fun ip => (defaultNSName +:+ zone, ip)) (localIPs k)
    | _ => flat_map (fun ep => flat_map (ns_service k external headless zone ep) (SvcIndex (ep_Index ep))) endpoints
    end.

(** The services of name server addresses of some types, under a key. *)
Definition ns_services (k : Kubernetes) (types : list Z) (key : RR -> string) (rrs : list RR) : list Service :=
  omap (fun rr =>
    if decide (rr_type rr ∈ types) then
      match Data rr with
      | RA ip | RAAAA ip => Some (mkService (IP_String ip) 0 0 0 EmptyString false (k_ttl k) 0 EmptyString (key rr))
      | _ => None
      end
    else None) rrs.

(** ** The back end *)

Definition kube_Services (k : Kubernetes) (zone : string) (state : Msg) : result kube_error (list Service) :=
  let t := QType_ state in
  if decide (t = TypeTXT) then
    if decide (SplitDomainName (trimmed (Name_ state) zone) = ["dns-version"]) then
      Ok [mkService EmptyString 0 0 0 DNSSchemaVersion false 28800 0 EmptyString (Path (QName_ state) coredns)]
    else match kube_Records k zone state with Ok (_ :: _) => Ok [] | _ => Err errNoItems end
  else if decide (t = TypeNS) then
    Ok (ns_services k [TypeA; TypeAAAA] (fun rr => Path (Name (Hdr rr)) coredns) (nsAddrs k false false zone))
  else if isDefaultNS (Name_ state) zone then
    Ok (ns_services k (filter (fun x => x = t) [TypeA; TypeAAAA]) (fun _ => Path (QName_ state) coredns) (nsAddrs k false false zone))
  else
    s ← kube_Records k zone state;
    Ok (if decide (t = TypeSRV) then filter (fun svc => (HostType svc).1 <> TypeCNAME) s else s).

Definition primaryZone (k : Kubernetes) : string := default EmptyString (k_Zones k !! primaryZoneIndex k).

(** A host with the lifetime of answers. *)
Definition named (k : Kubernetes) (labels : list string) : Service :=
  mkService (JoinStr labels ".") 0 0 0 EmptyString false (k_ttl k) 0 EmptyString EmptyString.

(** An object whose namespace is hidden by the configuration. *)
Definition skipped (k : Kubernetes) (namespace : string) : bool :=
  bool_decide (Namespaces k <> ∅) && negb (namespaceExposed k namespace).

Definition serviceRecordForIP (k : Kubernetes) (ip : string) : list Service :=
  match List.filter (fun svc => negb (skipped k (svc_Namespace svc))) (SvcIndexReverse ip) with
  | service :: _ => [named k [svc_Name service; svc_Namespace service; Svc; primaryZone k]]
  | [] =>
      flat_map (fun ep =>
        if skipped k (ep_Namespace ep) then []
        else map (fun addr => named k [endpointHostname addr (endpointNameMode k); ep_Index ep; Svc; primaryZone k])
               (filter (fun addr => ea_IP addr = ip) (flat_map Addresses (Subsets ep)))) (EpIndexReverse ip)
  end.

Definition kube_Reverse (k : Kubernetes) (zone : string) (state : Msg) : result kube_error (list Service) :=
  let ip := ExtractAddressFromReverse (Name_ state) in
  if decide (ip = EmptyString) then _ ← kube_Records k zone state; Ok []
  else some_items (serviceRecordForIP k ip).

Definition kube_Serial (k : Kubernetes) (zone : string) : Z :=
  u32 (Modified_ (if isMultiClusterZone k zone then ModifiedMultiCluster else ModifiedInternal)).

Definition kube_IsNameError (err : kube_error) : bool := bool_decide (err <> NoUpstream).

Definition kube_backend (k : Kubernetes) (zone : string) : ServiceBackend := {|
  berror := kube_error;
  b_Services := fun state _ => kube_Services k zone state;
  b_Reverse := fun state _ => kube_Reverse k zone state;
  b_Lookup := Upstream_Lookup NoUpstream (k_Upstream k);
  b_IsNameError := kube_IsNameError;
  b_Serial := fun _ => kube_Serial k zone;
  b_MinTTL := fun _ => k_ttl k |}.

(** ** The handler (handler.go) *)

Section handler.
Context (k : Kubernetes) (zone : string).
#[local] Instance zone_backend : ServiceBackend := kube_backend k zone.

Definition kube_lookup (r : Msg) : result (lookup_error berror) found_ :=
  let plain x := '(records, tc) ← x; Ok (records, [], tc) in
  let only x := records ← x; Ok (records, [], false) in
  let both x := '(records, extra) ← x; Ok (records, extra, false) in
  let t := QType_ r in
  if decide (t = TypeA) then plain (A zone r [])
  else if decide (t = TypeAAAA) then plain (AAAA zone r [])
  else if decide (t = TypeTXT) then plain (TXT zone r [])
  else if decide (t = TypeCNAME) then only (CNAME r)
  else if decide (t = TypePTR) then only (PTR r)
  else if decide (t = TypeMX) then both (MX zone r)
  else if decide (t = TypeSRV) then both (SRV zone r)
  else if decide (t = TypeSOA) then (if decide (QName_ r = zone) then only (SOA zone r) else Ok ([], [], false))
  else if decide (t = TypeNS /\ Name_ r = zone) then both (NS zone r)
  else (* an A lookup tells a name without data from no name *)
    fake ← lift Fault (NewWithQuestion r (QName_ r) TypeA);
    _ ← A zone fake []; Ok ([], [], false).

(** The request after the lookups: a lookup under another name puts the name
    back as it prints. *)
Definition kube_looked_up (r : Msg) : Msg :=
  if decide (Name_ r = zone /\ QType_ r ∈ [TypeA; TypeAAAA; TypeNS])
  then match set_first_name r (QName_ r) with Ok r' => r' | Err _ => r end
  else r.

Definition kube_answer (next : option Chain) : Chain := fun r =>
  let r' := kube_looked_up r in
  match kube_lookup r with
  | Err (Fault f) => (None, Err f)
  | Err err =>
      if is_name_error err then
        if Through (k_Fall k) (Name_ r) then next_or_failure next r'
        else backend_error zone (if HasSynced then RcodeNameError else RcodeServerFailure) r'
      else (None, Ok RcodeServerFailure)
  | Ok ([], _, _) => backend_error zone RcodeSuccess r'
  | Ok f => (Some (reply_found r' f), Ok RcodeSuccess)
  end.

End handler.

(** The zone as the query writes it: the end of its name. *)
Definition query_zone (qname zone : string) : result go_fault string :=
  if decide (String.length qname < String.length zone)%nat then Err IndexOutOfRange
  else Ok (drop_str (String.length qname - String.length zone) qname).

Definition kube_ServeDNS (k : Kubernetes) (next : option Chain) : Chain := fun r =>
  let zone := Matches (k_Zones k) (QName_ r) in
  if decide (zone = EmptyString) then next_or_failure next r
  else match query_zone (QName_ r) zone with
       | Err f => (None, Err f)
       | Ok zone =>
           if decide (QType_ r = TypeAXFR \/ QType_ r = TypeIXFR) then (None, Ok RcodeRefused)
           else kube_answer k zone next r
       end.

(** ** Search paths (autopath.go) *)

Definition podWithIP (k : Kubernetes) (ip : string) : option object_Pod :=
  if decide (podMode k = podModeVerified) then head (PodIndex ip) else None.

(** [ip] is the address of the client; no path at all is [None]. *)
Definition AutoPath (k : Kubernetes) (ip : string) (state : Msg) : option (list string) :=
  let zone := Matches (k_Zones k) (Name_ state) in
  if decide (zone = EmptyString) then None
  else if negb (initPodCache k) then None
  else
    pod ← podWithIP k ip;
    let own := if decide (zone = dot) then [pod_Namespace pod +:+ ".svc."; "svc."; "."]
               else [pod_Namespace pod +:+ ".svc." +:+ zone; "svc." +:+ zone; zone] in
    Some (own ++ autoPathSearch k ++ [EmptyString]).

(** ** Zone transfers (xfr.go) *)

(** How the goroutine that sends leaves the channel. *)
Inductive chan_end : Type :=
| ChanClosed
| ChanOpen        (* it returns without closing the channel *)
| SendOnClosed    (* it panics *)
| SendFault (f : go_fault).

Definition stream : Type := list (list RR) * chan_end.

(** What is sent by one part and then by the rest. *)
Definition then_send (part : result go_fault (list (list RR))) (rest : list (list RR) -> stream) : stream :=
  match part with Ok l => rest l | Err f => ([], SendFault f) end.

(** The record, and the name it is of; nothing for a name. *)
Definition emitAddressRecord (s : Service) : result go_fault (list (list RR) * string) :=
  let t := (HostType s).1 in
  if decide (t = TypeA) then name ← Domain (Key s); Ok ([[NewA s name (ip_of (Host s))]], name)
  else if decide (t = TypeAAAA) then name ← Domain (Key s); Ok ([[NewAAAA s name (ip_of (Host s))]], name)
  else Ok ([], EmptyString).

Definition empty_service : Service := mkService EmptyString 0 0 0 EmptyString false 0 0 EmptyString EmptyString.

Definition calcSRVWeight (numservices : nat) : Z := srv_weight (weights (replicate numservices empty_service)) empty_service.

(** The address records of a service of the cluster, and the name of the last. *)
Fixpoint emit_cluster_ips (k : Kubernetes) (key : list string) (ips : list string) (host : string) : result go_fault (list (list RR) * string) :=
  match ips with
  | [] => Ok ([], host)
  | ip :: ips' =>
      '(l, host) ← emitAddressRecord (found ip 0 (k_ttl k) key);
      '(l', host) ← emit_cluster_ips k key ips' host;
      Ok (l ++ l', host)
  end.

Definition srv_key (key : list string) (protocol name : string) : list string := key ++ [ToLower ("_" +:+ protocol); ToLower ("_" +:+ name)].

Definition emit_srv (s : Service) (weight : Z) : result go_fault (list (list RR)) :=
  name ← Domain (Key s); Ok [[NewSRV s name weight]].

Fixpoint emit_cluster_ports (k : Kubernetes) (key : list string) (host : string) (ports : list ServicePort) : result go_fault (list (list RR)) :=
  match ports with
  | [] => Ok []
  | p :: ports' =>
      bare ← emit_srv (found host (sp_Port p) (k_ttl k) key) 100;
      full ← (if decide (sp_Name p = EmptyString) then Ok []
              else emit_srv (found host (sp_Port p) (k_ttl k) (srv_key key (sp_Protocol p) (sp_Name p))) 100);
      rest ← emit_cluster_ports k key host ports';
      Ok (bare ++ full ++ rest)
  end.

Definition emit_cluster (k : Kubernetes) (key ips : list string) (ports : list ServicePort) : result go_fault (list (list RR)) :=
  '(addrs, host) ← emit_cluster_ips k key ips EmptyString;
  srvs ← emit_cluster_ports k key host ports;
  Ok (addrs ++ srvs).

Fixpoint emit_endpoint_ports (k : Kubernetes) (key : list string) (host : string) (weight : Z) (ports : list EndpointPort)
  : result go_fault (list (list RR)) :=
  match ports with
  | [] => Ok []
  | p :: ports' =>
      full ← (if decide (epp_Name p = EmptyString) then Ok []
              else emit_srv (found host (epp_Port p) (k_ttl k) (srv_key key (epp_Protocol p) (epp_Name p))) weight);
      rest ← emit_endpoint_ports k key host weight ports';
      Ok (full ++ rest)
  end.

(** The port of an earlier endpoint port stays in the service, but each port
    sets its own. *)
Definition emit_endpoint (k : Kubernetes) (key : list string) (weight : Z) (ports : list EndpointPort) (addr : EndpointAddress)
  : result go_fault (list (list RR)) :=
  '(l1, _) ← emitAddressRecord (found (ea_IP addr) 0 (k_ttl k) key);
  '(l2, host) ← emitAddressRecord (found (ea_IP addr) 0 (k_ttl k) (key ++ [endpointHostname addr (endpointNameMode k)]));
  l3 ← emit_endpoint_ports k key host weight ports;
  Ok (l1 ++ l2 ++ l3).

(** The parts of a loop one after the other. *)
Fixpoint emit_all {A} (emit : A -> result go_fault (list (list RR))) (l : list A) : result go_fault (list (list RR)) :=
  match l with
  | [] => Ok []
  | x :: l' => a ← emit x; b ← emit_all emit l'; Ok (a ++ b)
  end.

Definition emit_subset (k : Kubernetes) (key : list string) (eps : EndpointSubset) : result go_fault (list (list RR)) :=
  emit_all (emit_endpoint k key (calcSRVWeight (length (Addresses eps))) (ss_Ports eps)) (Addresses eps).

Definition emit_service (k : Kubernetes) (zonePath : string) (svc : object_Service) : result go_fault (list (list RR)) :=
  if negb (namespaceExposed k (svc_Namespace svc)) then Ok []
  else
    let key := [zonePath; Svc; svc_Namespace svc; svc_Name svc] in
    if decide (svc_Type svc ∈ [ServiceTypeClusterIP; ServiceTypeNodePort; ServiceTypeLoadBalancer]) then
      match svc_ClusterIPs svc with
      | [] => Err IndexOutOfRange
      | ip0 :: _ =>
          if decide (is_Some (ParseIP ip0)) then emit_cluster k key (svc_ClusterIPs svc) (svc_Ports svc)
          else emit_all (emit_subset k key) (flat_map Subsets (EpIndex (svc_Name svc +:+ "." +:+ svc_Namespace svc)))
      end
    else if decide (svc_Type svc = ServiceTypeExternalName) then
      let s := found (svc_ExternalName svc) 0 (k_ttl k) key in
      if decide ((HostType s).1 = TypeCNAME) then name ← Domain (Key s); Ok [[NewCNAME s name (Host s)]] else Ok []
    else Ok [].

(** [sort.Slice] by name.  The order of the list sorted is not determined, so
    neither is that of services with the same name. *)
Definition svc_le (a b : object_Service) : Prop := String.leb (svc_Name a) (svc_Name b) = true.
Definition imp_le (a b : object_ServiceImport) : Prop := String.leb (imp_Name a) (imp_Name b) = true.
#[local] Instance svc_le_dec a b : Decision (svc_le a b) := decide (_ = true).
#[local] Instance imp_le_dec a b : Decision (imp_le a b) := decide (_ = true).

Definition transferServices (k : Kubernetes) (zonePath : string) : result go_fault (list (list RR)) :=
  emit_all (emit_service k zonePath) (merge_sort svc_le ServiceList).

Definition emit_import (k : Kubernetes) (zonePath : string) (svc : object_ServiceImport) : result go_fault (list (list RR)) :=
  if negb (namespaceExposed k (imp_Namespace svc)) then Ok []
  else
    let key := [zonePath; Svc; imp_Namespace svc; imp_Name svc] in
    if decide (is_Some (head (imp_ClusterIPs svc) ≫= ParseIP)) then emit_cluster k key (imp_ClusterIPs svc) (imp_Ports svc)
    else emit_all (emit_subset k key) (flat_map (fun ep => Subsets (mc_Endpoints ep)) (McEpIndex (imp_Name svc +:+ "." +:+ imp_Namespace svc))).

Definition transferMultiClusterServices (k : Kubernetes) (zonePath : string) : result go_fault (list (list RR)) :=
  emit_all (emit_import k zonePath) (merge_sort imp_le ServiceImportList).

(** The body of the loop over the name server addresses, up to closing the
    channel. *)
Definition xfr_body (k : Kubernetes) (zone zonePath : string) (soa addrs : list RR) (nsHost : string) (known : bool)
  : result go_fault (list (list RR)) :=
  services ← (if isMultiClusterZone k zone then transferMultiClusterServices k zonePath else transferServices k zonePath);
  Ok ((if known then [] else [[mkRR (mkHdr zone TypeNS ClassINET (k_ttl k)) (RNS nsHost)]]) ++ [addrs] ++ services ++ [soa]).

Fixpoint xfr_loop (k : Kubernetes) (zone zonePath : string) (soa addrs : list RR) (closed : bool) (nsHosts : list string) (l : list RR) : stream :=
  match l with
  | [] => ([], if closed then ChanClosed else ChanOpen)
  | nsAddr :: l' =>
      (* every turn sends *)
      if closed then ([], SendOnClosed)
      else
        let nsHost := Name (Hdr nsAddr) in
        then_send (xfr_body k zone zonePath soa addrs nsHost (bool_decide (nsHost ∈ nsHosts))) (fun sent =>
          let '(rest, e) := xfr_loop k zone zonePath soa addrs true (nsHost :: nsHosts) l' in (sent ++ rest, e))
  end.

Definition soa_serial (soa : list RR) : Z := match soa with rr :: _ => match Data rr with RSOA _ _ s _ _ _ _ => s | _ => 0 end | [] => 0 end.

(** The SOA record is made for a request without a zone. *)
Definition kube_Transfer (k : Kubernetes) (zone : string) (serial : Z) : option stream :=
  if decide (Matches (k_Zones k) zone = EmptyString) then None
  else
    match @SOA _ (kube_backend k EmptyString) zone (mkMsg 0 false 0 false false false false false false 0 [] [] [] []) with
    | Err _ => None
    | Ok soa =>
        if decide (serial <> 0 /\ soa_serial soa = serial) then Some ([soa], ChanClosed)
        else
          let addrs := nsAddrs k false false zone in
          let '(rest, e) := xfr_loop k zone (Path zone "coredns") soa addrs false [] addrs in
          Some (soa :: rest, e)
    end.

End kubernetes.

(** ** Local addresses (local.go) *)

(** The address of [net.ParseCIDR], no bytes for an error. *)
Definition ParseCIDR_ip (s : string) : list Z :=
  match IndexByte s "/" with
  | None => []
  | Some i =>
      let ip := ip_of (take_str i s) in
      let bits := if Contains (take_str i s) ":" then 128 else 32 in
      match ip, drop_str (S i) s with
      | [], _ | _, EmptyString => []
      | _, mask => match parse_digits mask 0 with Some n => if decide (n <= bits) then ip else [] | None => [] end
      end
  end.

Definition IsLoopback (ip : list Z) : bool :=
  match To4 ip with
  | Some v4 => bool_decide (head v4 = Some 127)
  | None => bool_decide (ip = replicate 15 0 ++ [1])
  end.

(** [interfaces]: the addresses of the machine, [None] when they cannot be
    read. *)
Definition boundIPs (listenHosts : list string) (interfaces : option (list string)) : list (list Z) :=
  let hosts := match listenHosts with
               | [] => default [] interfaces
               | h :: _ => if decide (h = EmptyString) then default [] interfaces else listenHosts
               end in
  omap (fun host =>
    let ip := ParseCIDR_ip host in
    match To4 ip with
    | Some ip4 => if IsLoopback ip4 then (match To16 ip with Some ip6 => if IsLoopback ip6 then None else Some ip6 | None => None end) else Some ip4
    | None => match To16 ip with Some ip6 => if IsLoopback ip6 then None else Some ip6 | None => None end
    end) hosts.
