(* ===== verification/KubeFacts.v ===== *)
(** * Properties of the kubernetes plugin

    Every name of a service is answered from the object with exactly that name
    in a namespace that is exposed ([kube_Services_sound]); an address of such
    a service is served ([kube_serves]) and a hidden namespace is denied
    ([kube_denies_hidden]); a reverse lookup leads back to the address
    ([kube_reverse_agrees]); when a zone transfer comes to an end
    ([kube_Transfer_ends]) and that it has what is served
    ([transfer_has_services]); and the cases in which hidden names are shown
    or records are missed ([KubeSample]). *)

From Stdlib Require Import Ascii ZArith Lia.
From stdpp Require Import base numbers gmap strings list sorting.
From S2P Require Import Prelude DnsTypes DnsLib Ip GoStrings Http Serve Xfer FileZone Server ServerFacts Filters FilterFacts Backend BackendFacts Etcd EtcdFacts GoNet Hosts KubeObjects KubeControlFacts Kubernetes.

Local Open Scope Z_scope.

(** ** Keys of objects *)

Lemma append_split (a a' b b' : string) : String.length a = String.length a' -> a +:+ b = a' +:+ b' -> a = a' /\ b = b'.
Proof.
  revert a'. induction a as [|c a IH]; intros [|c' a']; simpl; try done. intros [= Hl] H. injection H as -> H.
  destruct (IH a' Hl H) as [-> ->]. done.
Qed.

Lemma EqualFold_length a b : EqualFold a b = true -> String.length a = String.length b.
Proof. unfold EqualFold. intros H%bool_decide_eq_true. by rewrite <-(ToLower_length a), <-(ToLower_length b), H. Qed.

(** A key names one object among those whose name is the same but for case. *)
Lemma key_of_exact a ns a' ns' : key_of a ns = key_of a' ns' -> EqualFold a a' = true -> a = a' /\ ns = ns'.
Proof.
  unfold key_of. intros H Hl%EqualFold_length. apply append_split in H as [-> H]; [|done]. split; [done|]. by injection H.
Qed.

Lemma EqualFold_refl a : EqualFold a a = true.
Proof. unfold EqualFold. by rewrite bool_decide_true. Qed.

Section facts.
Context {L : DnsLib} {N : DnsNames} {api : dnsController} {spec : dnsControllerSpec api}.

Implicit Types (k : Kubernetes) (r : Msg) (q : recordRequest) (s : Service) (sx : list Service) (svc : object_Service).

(** ** What a name finds *)

(** An address of a service: of its ready endpoints when it is headless. *)
Definition address_of svc (ip : string) : Prop :=
  if Headless svc then exists ep, ep ∈ EndpointsList /\ ep_Index ep = svc_Index svc /\ ip ∈ ep_IndexIP ep
  else ip ∈ svc_ClusterIPs svc.

Lemma svc_index svc : svc ∈ ServiceList -> svc_Index svc = key_of (svc_Name svc) (svc_Namespace svc).
Proof. intros [a ->]%service_converted. done. Qed.

Lemma subset_services_elem k q key eps s :
  s ∈ subset_services k q key eps -> exists addr, addr ∈ Addresses eps /\ Host s = ea_IP addr.
Proof.
  unfold subset_services. intros (addr & Ha & Hs)%list_elem_of_In%in_flat_map. apply list_elem_of_In in Ha, Hs. exists addr. split; [done|].
  destruct (_ && _); [by apply elem_of_nil in Hs|]. apply list_elem_of_fmap in Hs as (p & -> & _). done.
Qed.

Lemma endpoint_services_elem k q svc key eps s :
  s ∈ endpoint_services k q svc key eps ->
  exists ep, ep ∈ eps /\ ep_Index ep = key_of (svc_Name svc) (svc_Namespace svc) /\
    exists addr, addr ∈ flat_map Addresses (Subsets ep) /\ Host s = ea_IP addr.
Proof.
  unfold endpoint_services. intros (ep & He & Hs)%list_elem_of_In%in_flat_map. apply list_elem_of_In in He, Hs. exists ep. split; [done|].
  case_decide as HX; [by apply elem_of_nil in Hs|]. split; [by symmetry|].
  apply list_elem_of_In, in_flat_map in Hs as (eps' & He' & Hs). apply list_elem_of_In, subset_services_elem in Hs as (addr & Ha & E).
  exists addr. split; [|done]. apply list_elem_of_In, in_flat_map. exists eps'. split; [done|]. by apply list_elem_of_In.
Qed.

Lemma index_ip ep addr : ep ∈ EndpointsList -> addr ∈ flat_map Addresses (Subsets ep) -> ea_IP addr ∈ ep_IndexIP ep.
Proof. intros [a ->]%endpoints_converted H. rewrite to_Endpoints_index. by apply list_elem_of_fmap_2. Qed.

(** Where a service that is found comes from. *)
Inductive origin (ns name : string) s : Prop :=
| from_cluster svc : svc ∈ ServiceList -> svc_Name svc = name -> svc_Namespace svc = ns -> Host s ∈ svc_ClusterIPs svc -> origin ns name s
| from_endpoint svc ep : svc ∈ ServiceList -> svc_Name svc = name -> svc_Namespace svc = ns ->
    ep ∈ EndpointsList -> ep_Index ep = svc_Index svc -> Host s ∈ ep_IndexIP ep -> origin ns name s
| from_external svc : svc ∈ ServiceList -> svc_Name svc = name -> svc_Namespace svc = ns ->
    svc_Type svc = ServiceTypeExternalName -> Host s = svc_ExternalName svc -> origin ns name s.

Lemma service_items_origin k q zone svc s :
  svc ∈ SvcIndex (ServiceKey (r_service q) (r_namespace q)) ->
  s ∈ (service_items k q zone (ServiceKey (r_service q) (r_namespace q)) svc).1 -> origin (r_namespace q) (r_service q) s.
Proof.
  intros [Hl Hi]%SvcIndex_law. unfold service_items. destruct (_ || _) eqn:Em; [by intros ?%elem_of_nil|].
  apply orb_false_iff in Em as [Hns Hnm]. apply negb_false_iff in Hnm.
  rewrite (svc_index svc Hl) in Hi. symmetry in Hi. apply key_of_exact in Hi as [En Es]; [|done].
  destruct (_ && _ && _ && _); [by intros ?%elem_of_nil|]. case_decide as Hx.
  { case_decide; [by intros ?%elem_of_nil|]. case_decide; [|by intros ?%elem_of_nil].
    intros ->%list_elem_of_singleton. by eapply from_external. }
  destruct (_ || _).
  - intros (ep & [He Hei]%EpIndex_law & Ei & addr & Ha & E)%endpoint_services_elem.
    eapply (from_endpoint _ _ _ svc ep); [done..| |rewrite E; by apply index_ip]. by rewrite (svc_index svc Hl).
  - unfold cluster_services. simpl. intros (p & _ & Hs)%list_elem_of_In%in_flat_map. apply list_elem_of_In, list_elem_of_fmap in Hs as (ip & -> & Hip).
    by eapply from_cluster.
Qed.

Lemma gather_items_inv {S} (items : S -> list Service * bool) l sx s :
  gather_items items l = Ok sx -> s ∈ sx -> exists x, x ∈ l /\ s ∈ (items x).1.
Proof.
  unfold gather_items. destruct (existsb _ _); [|done]. intros [= <-] (x & Hx & Hs)%list_elem_of_In%in_flat_map.
  exists x. by rewrite !list_elem_of_In.
Qed.

(** The services found under the name of a service. *)
Lemma findServices_sound k q zone sx s :
  findServices k q zone = Ok sx -> s ∈ sx -> namespaceExposed k (r_namespace q) = true /\ origin (r_namespace q) (r_service q) s.
Proof.
  unfold findServices. destruct (namespaceExposed _ _); [|done]. simpl. case_decide; [intros [= <-] []%elem_of_nil|].
  intros HG Hs. split; [done|]. eapply gather_items_inv in HG as (svc & Hsvc & Hin); [|done]. by eapply service_items_origin.
Qed.

(** The services found under the name of a pod: in insecure mode the address
    the name spells, in verified mode that of a pod of the namespace. *)
Lemma findPods_sound k q zone sx s :
  findPods k q zone = Ok sx -> s ∈ sx ->
  podMode k <> podModeDisabled /\ namespaceExposed k (r_namespace q) = true /\ Host s = pod_ip (r_service q) /\
  (podMode k = podModeVerified -> exists p, p ∈ PodIndex (Host s) /\ PodIP p = Host s /\ EqualFold (r_namespace q) (pod_Namespace p) = true).
Proof.
  unfold findPods. case_decide as Hm; [done|]. destruct (namespaceExposed _ _); [|done]. simpl. case_decide; [intros [= <-] []%elem_of_nil|].
  case_decide as Hi.
  { case_decide; [done|]. intros [= <-] ->%list_elem_of_singleton. split_and!; [done..|]. congruence. }
  unfold some_items. destruct (map _ _) as [|s0 l] eqn:E; [done|]. intros [= <-]. rewrite <-E.
  intros (p & -> & [[Hp Hn] Hin]%list_elem_of_filter)%list_elem_of_fmap. split_and!; [done..|]. intros _. by exists p.
Qed.

(** ** Requests *)

Lemma parse_kinds name zone mc q : parseRequest name zone mc = Ok q -> r_podOrSvc q <> EmptyString -> r_podOrSvc q = Pod \/ r_podOrSvc q = Svc.
Proof.
  unfold parseRequest. case_decide; [by intros [= <-]|]. destruct (reverse _) as [|p rest]; [by intros [= <-]|].
  case_decide as HX; [done|]. assert (p = Pod \/ p = Svc) as Hp by (destruct (decide (p = Pod)), (decide (p = Svc)); naive_solver).
  destruct rest as [|ns [|n rest]]; [by intros [= <-]..|]. unfold parse_rest.
  destruct rest as [|l1 [|l0 [|]]]; [by intros [= <-]..| |done]. destruct (_ || _); by intros [= <-].
Qed.

(** A name that asks for a service. *)
Definition asks_service (name zone svc ns : string) : Prop :=
  (trimmed name zone ∉ [EmptyString; Svc; Pod]) /\ SplitDomainName (trimmed name zone) = [svc; ns; Svc].

Definition service_request (svc ns : string) : recordRequest := mkRequest EmptyString EmptyString EmptyString EmptyString svc ns Svc.

Lemma parse_service name zone mc (svc ns : string) : asks_service name zone svc ns -> parseRequest name zone mc = Ok (service_request svc ns).
Proof.
  intros [Hn Hs]. unfold parseRequest. rewrite decide_False by set_solver. by rewrite Hs.
Qed.

(** C18. In a zone of the cluster itself (not a multicluster zone, which is
    served from service imports), every address or name the plugin finds under
    a name of a service is of the service with exactly that name, in the
    namespace the name gives, and that namespace is exposed: one of its cluster
    addresses, an address of an endpoint object of it, or the external name it
    stands for.  Under the name of a pod it is the address spelled by the name,
    in verified mode one of a pod of the namespace, which is exposed.  Queries
    for TXT and NS records and the name of the name server of the zone, which
    are not looked up in the cluster, are left out. *)
Theorem kube_Services_sound k zone r q sx s :
  (QType_ r ∉ [TypeTXT; TypeNS]) -> isDefaultNS (Name_ r) zone = false -> isMultiClusterZone k zone = false ->
  parseRequest (Name_ r) zone false = Ok q -> kube_Services k zone r = Ok sx -> s ∈ sx ->
  namespaceExposed k (r_namespace q) = true /\
  (r_podOrSvc q = Svc /\ origin (r_namespace q) (r_service q) s \/
   r_podOrSvc q = Pod /\ Host s = pod_ip (r_service q) /\
   (podMode k = podModeVerified -> exists p, p ∈ PodIndex (Host s) /\ PodIP p = Host s /\ EqualFold (r_namespace q) (pod_Namespace p) = true)).
Proof.
  intros Ht Hd Hmc Hq. unfold kube_Services. rewrite decide_False, decide_False, Hd by set_solver. intros HS Hs.
  apply bind_ok_inv in HS as (sx' & HR & HS).
  assert (s ∈ sx') as Hin. { injection HS as <-. case_decide; [by apply list_elem_of_filter in Hs as [_ ?]|done]. }
  clear HS Hs. unfold kube_Records in HR. rewrite Hmc, Hq in HR. simpl in HR. case_decide as Hp; [injection HR as <-; by apply elem_of_nil in Hin|].
  case_decide; [done|]. destruct (namespaceExposed k (r_namespace q)) eqn:Ens; [|done]. split; [done|]. simpl in HR.
  destruct (parse_kinds _ _ _ _ Hq Hp) as [E|E]; rewrite E in HR.
  - right. rewrite decide_True in HR by done. split; [done|]. by destruct (findPods_sound _ _ _ _ _ HR Hin) as (_ & _ & ? & ?).
  - left. rewrite decide_False in HR by done. split; [done|]. by destruct (findServices_sound _ _ _ _ _ HR Hin).
Qed.

(** ** What is in the cluster is served *)

Definition ready svc : Prop := podsCount (EpIndex (svc_Index svc)) <> 0%nat.

Lemma matchPort_any p proto : matchPortAndProtocol EmptyString p EmptyString proto = true.
Proof. unfold matchPortAndProtocol. rewrite !(bool_decide_true (EmptyString = EmptyString)) by done. by rewrite !orb_true_r. Qed.

Lemma filter_keeps {A} (P : A -> Prop) `{forall x, Decision (P x)} (l : list A) : (forall x, x ∈ l -> P x) -> filter P l = l.
Proof. induction l as [|x l IH]; intros HP; [done|]. rewrite filter_cons_True by (apply HP; by left). f_equal. apply IH. set_solver. Qed.

Lemma ports_of svc : svc ∈ ServiceList -> svc_Ports svc <> [].
Proof. intros [a ->]%service_converted. simpl. by destruct (as_Ports a). Qed.

Lemma subset_ports ep eps : ep ∈ EndpointsList -> eps ∈ Subsets ep -> ss_Ports eps <> [].
Proof. intros [a ->]%endpoints_converted. simpl. intros ->%list_elem_of_singleton. simpl. by destruct (sl_Ports a). Qed.

Lemma elem_of_flat_map {A B} (f : A -> list B) l (y : B) x : x ∈ l -> y ∈ f x -> y ∈ flat_map f l.
Proof. intros Hx Hy. apply list_elem_of_In, in_flat_map. exists x. by rewrite <-!list_elem_of_In. Qed.

Lemma endpoint_served k svc key ep ip :
  svc ∈ ServiceList -> ep ∈ EndpointsList -> ep_Index ep = svc_Index svc -> ip ∈ ep_IndexIP ep ->
  exists s, s ∈ endpoint_services k (service_request (svc_Name svc) (svc_Namespace svc)) svc key (EpIndex (svc_Index svc)) /\
    Host s = ip /\ Text s = EmptyString.
Proof.
  intros Hs He Hi Hip.
  assert (exists addr eps, eps ∈ Subsets ep /\ addr ∈ Addresses eps /\ ea_IP addr = ip) as (addr & eps & Heps & Ha & E).
  { destruct (endpoints_converted _ He) as [a ->]. rewrite to_Endpoints_index in Hip. apply list_elem_of_fmap in Hip as (addr & -> & Ha).
    apply list_elem_of_In, in_flat_map in Ha as (eps & Heps & Ha). apply list_elem_of_In in Heps, Ha. by exists addr, eps. }
  destruct (ss_Ports eps) as [|p ps] eqn:Ep; [by destruct (subset_ports ep eps He Heps)|].
  eexists (found ip (epp_Port p) (k_ttl k) (key ++ [_])). split; [|done]. unfold endpoint_services.
  eapply (elem_of_flat_map _ _ _ ep); [by apply EpIndex_law|]. rewrite decide_False.
  2: { rewrite Hi, (svc_index svc Hs). intros HX. by apply HX. }
  eapply (elem_of_flat_map _ _ _ eps); [done|]. unfold subset_services. eapply (elem_of_flat_map _ _ _ addr); [done|]. simpl.
  rewrite Ep. rewrite filter_cons_True by apply matchPort_any. subst ip. by left.
Qed.

Lemma cluster_served k (ports : list ServicePort) ips key (svc ns : string) ip :
  ports <> [] -> ip ∈ ips ->
  (cluster_services k (service_request svc ns) ports ips key).2 = true /\
  exists s, s ∈ (cluster_services k (service_request svc ns) ports ips key).1 /\ Host s = ip /\ Text s = EmptyString.
Proof.
  intros Hp Hip. unfold cluster_services. simpl. rewrite filter_keeps by (intros; apply matchPort_any). split; [by apply bool_decide_true|].
  destruct ports as [|p ports]; [done|]. exists (found ip (sp_Port p) (k_ttl k) key). split; [|done].
  apply elem_of_app. left. apply list_elem_of_fmap. by exists ip.
Qed.

Lemma address_items k zone svc ip :
  svc ∈ ServiceList -> svc_Type svc <> ServiceTypeExternalName -> (ignoreEmptyService k = true -> Headless svc = false -> ready svc) ->
  address_of svc ip ->
  let '(sx, b) := service_items k (service_request (svc_Name svc) (svc_Namespace svc)) zone (svc_Index svc) svc in
  b = true /\ exists s, s ∈ sx /\ Host s = ip /\ Text s = EmptyString.
Proof.
  intros Hs Ht Hr Ha. unfold service_items. simpl. unfold match_. rewrite !EqualFold_refl. simpl.
  rewrite (bool_decide_true (svc_Type svc <> _)) by done. rewrite andb_true_r.
  assert (ignoreEmptyService k && negb (Headless svc) && (podsCount (EpIndex (svc_Index svc)) =? 0)%nat = false) as ->.
  { destruct (ignoreEmptyService k) eqn:Ei, (Headless svc) eqn:Eh; try done. simpl. apply Nat.eqb_neq. by apply Hr. }
  rewrite (decide_False (P := svc_Type svc = _)) by done. unfold address_of in Ha. destruct (Headless svc); simpl.
  - destruct Ha as (ep & He & Hi & Hip).
    destruct (endpoint_served k svc [Path zone coredns; Svc; svc_Namespace svc; svc_Name svc] ep ip Hs He Hi Hip) as (s & Hin & Hh).
    split; [|by exists s]. apply bool_decide_true. intros E. rewrite E in Hin. by apply elem_of_nil in Hin.
  - pose proof (cluster_served k (svc_Ports svc) (svc_ClusterIPs svc) [Path zone coredns; Svc; svc_Namespace svc; svc_Name svc]
      (svc_Name svc) (svc_Namespace svc) ip (ports_of svc Hs) Ha) as Hc.
    exact Hc.
Qed.

(** A service that is exposed is found with each of its addresses. *)
Lemma kube_Records_served k zone r svc ip :
  isMultiClusterZone k zone = false -> IsReverse (Name_ r) = 0 -> asks_service (Name_ r) zone (svc_Name svc) (svc_Namespace svc) ->
  svc_Name svc <> EmptyString -> namespaceExposed k (svc_Namespace svc) = true ->
  svc ∈ ServiceList -> svc_Type svc <> ServiceTypeExternalName -> (ignoreEmptyService k = true -> Headless svc = false -> ready svc) ->
  address_of svc ip ->
  exists sx s, kube_Records k zone r = Ok sx /\ s ∈ sx /\ Host s = ip /\ Text s = EmptyString.
Proof.
  intros Hmc Hrev Hq Hn Hns Hs Ht Hr Ha. unfold kube_Records. rewrite Hmc, (parse_service _ _ _ _ _ Hq). simpl. rewrite Hrev, Hns. simpl.
  unfold findServices. simpl. rewrite Hns, decide_False by done. simpl.
  change (ServiceKey (svc_Name svc) (svc_Namespace svc)) with (key_of (svc_Name svc) (svc_Namespace svc)). rewrite <-(svc_index svc Hs).
  pose proof (address_items k zone svc ip Hs Ht Hr Ha) as Hi.
  destruct (service_items _ _ _ _ svc) as [items b] eqn:E. destruct Hi as [-> (s & Hin & Hh)].
  assert (svc ∈ SvcIndex (svc_Index svc)) as Hsi by by apply SvcIndex_law. unfold gather_items.
  assert (existsb (fun x => (service_items k (service_request (svc_Name svc) (svc_Namespace svc)) zone (svc_Index svc) x).2)
            (SvcIndex (svc_Index svc)) = true) as ->.
  { apply existsb_exists. exists svc. split; [by apply list_elem_of_In|]. by rewrite E. }
  eexists _, s. split; [done|]. split; [|done]. apply (elem_of_flat_map _ _ _ svc); [done|]. by rewrite E.
Qed.

(** ** The handler *)

Lemma kube_plugin_ok name k : plugin_ok (mkPlugin name (kube_ServeDNS k)).
Proof.
  intros next Hn r. apply next_or_failure_protocol in Hn. simpl. unfold kube_ServeDNS. case_decide; [apply Hn|].
  destruct (query_zone _ _) as [zone|]; [|done]. case_decide; [done|]. unfold kube_answer. cbv zeta.
  assert (forall rc, match @backend_error _ (kube_backend k zone) zone rc (kube_looked_up zone r) with
    | (m, Ok c) => is_Some m <-> ClientWrite c = true | (m, Err _) => m = None end) as Hb.
  { intros rc. destruct (backend_error _ _ _) as [m res] eqn:E. by apply backend_error_protocol in E. }
  destruct (kube_lookup _ _ _) as [[[[|rr records] extra] tc]|err]; [apply Hb| |].
  - split; [done|]. by eexists.
  - destruct err as [err| |]; [|done|done]. destruct (is_name_error _); [destruct (Through _ _); [apply Hn|apply Hb]|done].
Qed.

(** Lookups elsewhere do not panic. *)
Definition resolver_ok k : Prop := forall u r f, k_Upstream k = Some u -> u r <> Err f.

Lemma kube_Lookup_ok k r n t f : resolver_ok k -> Upstream_Lookup NoUpstream (k_Upstream k) r n t = Err (Fault f) -> Question r = [].
Proof.
  intros Hu. unfold Upstream_Lookup. destruct (k_Upstream k) as [u|] eqn:E; [|done]. unfold NewWithQuestion.
  destruct (Question r); [done|]. simpl. destruct (u _) as [|f'] eqn:E'; [done|]. by apply Hu in E'.
Qed.

(** The zone of a query. *)
Definition in_zone k r zone : Prop :=
  Matches (k_Zones k) (QName_ r) <> EmptyString /\ query_zone (QName_ r) (Matches (k_Zones k) (QName_ r)) = Ok zone.

Lemma kube_Services_served k zone r svc ip :
  QType_ r = TypeA -> isDefaultNS (Name_ r) zone = false ->
  isMultiClusterZone k zone = false -> IsReverse (Name_ r) = 0 -> asks_service (Name_ r) zone (svc_Name svc) (svc_Namespace svc) ->
  svc_Name svc <> EmptyString -> namespaceExposed k (svc_Namespace svc) = true ->
  svc ∈ ServiceList -> svc_Type svc <> ServiceTypeExternalName -> (ignoreEmptyService k = true -> Headless svc = false -> ready svc) ->
  address_of svc ip ->
  exists sx s, kube_Services k zone r = Ok sx /\ s ∈ sx /\ Host s = ip /\ Text s = EmptyString.
Proof.
  intros Ht Hd Hmc Hrev Hq Hn Hns Hs Hty Hr Ha. destruct (kube_Records_served k zone r svc ip) as (sx & s & HR & Hin & Hh); [done..|].
  exists sx, s. split; [|done]. unfold kube_Services. rewrite Ht, decide_False, decide_False, Hd, HR; done.
Qed.

(** C19. What is in the cluster is served.  An A query for a service, in a zone
    of the plugin and below its apex, is answered with success and authority
    and with an A record of any IPv4 address of the service, owned by the name
    as asked, when the namespace is exposed.  The zone is one of the cluster
    itself, not a multicluster zone; the name is not a reverse name and not
    the name of the zone's name server, and the service does not stand for an
    external name; lookups elsewhere do not panic.  The addresses of a service
    are its cluster addresses; of a headless service, those of its ready
    endpoints.  With empty services ignored, a service that is not headless
    must have an endpoint. *)
Theorem kube_serves k next r zone svc ip ip4 :
  resolver_ok k -> Question r <> [] -> QType_ r = TypeA -> in_zone k r zone -> Name_ r <> zone ->
  isDefaultNS (Name_ r) zone = false -> isMultiClusterZone k zone = false -> IsReverse (Name_ r) = 0 ->
  asks_service (Name_ r) zone (svc_Name svc) (svc_Namespace svc) -> svc_Name svc <> EmptyString ->
  namespaceExposed k (svc_Namespace svc) = true -> svc ∈ ServiceList -> svc_Type svc <> ServiceTypeExternalName ->
  (ignoreEmptyService k = true -> Headless svc = false -> ready svc) ->
  address_of svc ip -> ParseIP ip ≫= To4 = Some ip4 ->
  exists m rr, kube_ServeDNS k next r = (Some m, Ok RcodeSuccess) /\
    Rcode m = Rcode (SetReply r) /\ Question m = Question (SetReply r) /\ Authoritative m = true /\
    rr ∈ Answer m /\ rr_name rr = QName_ r /\ rr_type rr = TypeA /\ Data rr = RA ip4.
Proof.
  intros Hu Hq Ht [Hz Hqz] Hn Hd Hmc Hrev Ha Hne Hns Hs Hty Hr Haddr Hip.
  destruct (kube_Services_served k zone r svc ip) as (sx & s & HS & Hin & Hh & Htx); [done..|].
  assert (HostType s = (TypeA, ip4)) as HT.
  { unfold HostType. rewrite Hh. destruct (ParseIP ip) as [x|]; simpl in Hip; [by rewrite Hip|done]. }
  destruct (@A_found L N (kube_backend k zone) zone r sx) as (records & tc & HA & Hall); [done| |done|done|].
  { intros r0 n t f. by apply kube_Lookup_ok. }
  destruct (Hall s ip4 Hin HT) as (rr & Hrr & Ho & Hty' & Hdat).
  exists (reply_found r (records, [], tc)), rr. split; [|by split_and!].
  unfold kube_ServeDNS. rewrite decide_False, Hqz by done. rewrite (decide_False (P := _ \/ _)) by (rewrite Ht; naive_solver).
  unfold kube_answer, kube_lookup, zone_backend. rewrite Ht, decide_True by done. rewrite HA. cbn.
  unfold kube_looked_up. rewrite decide_False by naive_solver. by destruct records; [apply elem_of_nil in Hrr|].
Qed.

(** ** Hidden namespaces *)

(** The namespace a name gives. *)
Definition asks_namespace k r zone (ns : string) : Prop :=
  exists q, parseRequest (Name_ r) zone (isMultiClusterZone k zone) = Ok q /\ r_podOrSvc q <> EmptyString /\ r_namespace q = ns.

Lemma kube_Records_hidden k zone r ns :
  asks_namespace k r zone ns -> namespaceExposed k ns = false ->
  exists e, kube_Records k zone r = Err e /\ e <> NoUpstream.
Proof.
  intros (q & Hq & Hp & <-) Hns. unfold kube_Records. rewrite Hq. simpl. rewrite decide_False by done.
  case_decide; [by eexists|]. rewrite Hns. by eexists.
Qed.

Lemma kube_hidden k zone r ns :
  asks_namespace k r zone ns -> namespaceExposed k ns = false -> ExtractAddressFromReverse (Name_ r) = EmptyString ->
  isDefaultNS (Name_ r) zone = false -> SplitDomainName (trimmed (Name_ r) zone) <> ["dns-version"] ->
  (QType_ r <> TypeNS -> exists e, kube_Services k zone r = Err e /\ e <> NoUpstream) /\
  exists e, kube_Reverse k zone r = Err e /\ e <> NoUpstream.
Proof.
  intros Ha Hns Hx Hd Hv. destruct (kube_Records_hidden k zone r ns Ha Hns) as (e & HR & He). split.
  - intros Ht. unfold kube_Services. case_decide; [rewrite (decide_False (P := _ = ["dns-version"])) by done; rewrite HR; by eexists|].
    rewrite decide_False, Hd, HR by done. by exists e.
  - unfold kube_Reverse. rewrite decide_True, HR by done. by exists e.
Qed.

(** A request with another type but the same name is as hidden. *)
Lemma hidden_services k zone r ns r1 :
  asks_namespace k r zone ns -> namespaceExposed k ns = false -> ExtractAddressFromReverse (Name_ r) = EmptyString ->
  isDefaultNS (Name_ r) zone = false -> SplitDomainName (trimmed (Name_ r) zone) <> ["dns-version"] -> Name_ r <> zone ->
  Name_ r1 = Name_ r -> QType_ r1 <> TypeNS ->
  exists e, e <> NoUpstream /\ kube_Services k zone r1 = Err e /\ @checkForApex L (kube_backend k zone) zone r1 = Err (BackendErr e).
Proof.
  intros Ha Hns Hx Hd Hv Hn E Ht. destruct (kube_hidden k zone r1 ns) as [HS _]; rewrite ?E; [|done..|].
  { destruct Ha as (q & ?). exists q. by rewrite E. }
  destruct (HS Ht) as (e & HE & He). exists e. split_and!; [done..|]. unfold checkForApex. rewrite decide_True by by rewrite E. simpl. by rewrite HE.
Qed.

Lemma kube_lookup_hidden k zone r ns :
  Question r <> [] -> Name_ r <> zone -> QType_ r <> TypeSOA -> NameString (Fqdn (QName_ r)) = QName_ r ->
  asks_namespace k r zone ns -> namespaceExposed k ns = false -> ExtractAddressFromReverse (Name_ r) = EmptyString ->
  isDefaultNS (Name_ r) zone = false -> SplitDomainName (trimmed (Name_ r) zone) <> ["dns-version"] ->
  exists e, kube_lookup k zone r = Err (BackendErr e) /\ e <> NoUpstream.
Proof.
  intros Hq Hn Ht Hfq Ha Hns Hx Hd Hv. pose proof (hidden_services k zone r ns) as HH.
  unfold kube_lookup, zone_backend, A, AAAA, TXT, CNAME, PTR, MX, SRV. cbn [chain_fuel chase k_services kind_A kind_AAAA kind_TXT].
  destruct (decide (QType_ r = TypeNS)) as [E|E].
  2: { destruct (HH r) as (e & He & HS & HC); [done..|]. rewrite HC. cbn [b_Services b_Reverse kube_backend]. rewrite HS.
       do 4 (case_decide; [by exists e|]). case_decide.
       { destruct (kube_hidden k zone r ns Ha Hns Hx Hd Hv) as [_ (e' & -> & ?)]. by exists e'. }
       do 2 (case_decide; [by exists e|]). case_decide; [done|]. rewrite decide_False by naive_solver.
       unfold NewWithQuestion. destruct (Question r) as [|q0 qs] eqn:Eq; [done|]. simpl.
       destruct (HH (set_question r (mkQ (Fqdn (QName_ r)) TypeA ClassINET :: qs))) as (e1 & He1 & _ & HC1); [done..| |done|].
       - unfold Name_ at 1. simpl. rewrite Hfq. unfold Name_, QName_. by rewrite Eq.
       - exists e1. by rewrite HC1. }
  rewrite E. do 8 (rewrite decide_False by done). rewrite decide_False by naive_solver.
  unfold NewWithQuestion. destruct (Question r) as [|q0 qs] eqn:Eq; [done|]. simpl.
  destruct (HH (set_question r (mkQ (Fqdn (QName_ r)) TypeA ClassINET :: qs))) as (e1 & He1 & _ & HC1); [done..| |done|].
  - unfold Name_ at 1. simpl. rewrite Hfq. unfold Name_, QName_. by rewrite Eq.
  - exists e1. by rewrite HC1.
Qed.

(** A namespace that is not exposed does not exist.  A query below the apex
    for a name in such a namespace, of any type that is not a transfer, SOA or
    reverse lookup, is answered with NXDOMAIN, authority and the SOA record of
    the zone once the plugin has synchronised; with SERVFAIL before. *)
Theorem kube_denies_hidden k next r zone ns :
  Question r <> [] -> in_zone k r zone -> Name_ r <> zone -> (QType_ r ∉ [TypeSOA; TypeAXFR; TypeIXFR]) ->
  NameString (Fqdn (QName_ r)) = QName_ r ->
  asks_namespace k r zone ns -> namespaceExposed k ns = false -> ExtractAddressFromReverse (Name_ r) = EmptyString ->
  isDefaultNS (Name_ r) zone = false -> SplitDomainName (trimmed (Name_ r) zone) <> ["dns-version"] ->
  Through (k_Fall k) (Name_ r) = false ->
  exists m soa, kube_ServeDNS k next r = (Some m, Ok RcodeSuccess) /\
    Rcode m = (if HasSynced then RcodeNameError else RcodeServerFailure) /\
    Answer m = Answer (SetReply r) /\ Authoritative m = true /\ Ns_ m = [soa] /\ rr_name soa = zone /\ rr_type soa = TypeSOA.
Proof.
  intros Hq [Hz Hqz] Hn Ht Hfq Ha Hns Hx Hd Hv Hf. unfold kube_ServeDNS. rewrite decide_False, Hqz by done.
  rewrite decide_False by set_solver. unfold kube_answer. cbv zeta.
  destruct (kube_lookup_hidden k zone r ns) as (e & -> & He); [done|done|set_solver|done..|].
  cbn [is_name_error b_IsNameError kube_backend zone_backend]. unfold kube_IsNameError. rewrite bool_decide_true, Hf by done.
  assert (kube_looked_up zone r = r) as ->. { unfold kube_looked_up. by rewrite decide_False by naive_solver. }
  unfold backend_error, BackendError, SOA.
  destruct (Join_ok ["hostmaster"; zone]) as [mbox ->]; [done|]. destruct (Join_ok ["ns.dns"; zone]) as [n ->]; [done|].
  eexists _, _. by split_and!.
Qed.

(** ** Reverse lookups *)

(** The name a reverse lookup gives for a service. *)
Definition service_name k svc : string := JoinStr [svc_Name svc; svc_Namespace svc; Svc; primaryZone k] ".".

Lemma not_skipped k ns : namespaceExposed k ns = true -> skipped k ns = false.
Proof. intros H. unfold skipped. rewrite H. by rewrite andb_false_r. Qed.

(** An ordinary service: not headless, not an external name, with endpoints
    where that matters. *)
Definition ordinary k svc : Prop :=
  svc_Name svc <> EmptyString /\ svc_Type svc <> ServiceTypeExternalName /\ Headless svc = false /\ (ignoreEmptyService k = true -> ready svc).

(** C23. Reverse and forward lookups agree.  If an address is a cluster address
    of a service whose namespace is exposed, and the services with that address
    are ordinary ones, whose names are read as they are written, in exposed
    namespaces, then a reverse lookup of the address gives exactly one name, of
    a service with that address, and a lookup of this name in the primary zone
    gives the address.  The primary zone is not a multicluster zone. *)
Theorem kube_reverse_agrees k zone r1 r2 ip svc0 :
  ExtractAddressFromReverse (Name_ r1) = ip -> ip <> EmptyString ->
  svc0 ∈ ServiceList -> ip ∈ svc_ClusterIPs svc0 -> namespaceExposed k (svc_Namespace svc0) = true ->
  (forall svc, svc ∈ ServiceList -> ip ∈ svc_ClusterIPs svc ->
    ordinary k svc /\ namespaceExposed k (svc_Namespace svc) = true /\
    asks_service (service_name k svc) (primaryZone k) (svc_Name svc) (svc_Namespace svc) /\
    isDefaultNS (service_name k svc) (primaryZone k) = false /\ IsReverse (service_name k svc) = 0) ->
  isMultiClusterZone k (primaryZone k) = false -> QType_ r2 = TypeA ->
  exists s, kube_Reverse k zone r1 = Ok [s] /\
    (Name_ r2 = Host s -> exists sx s', kube_Services k (primaryZone k) r2 = Ok sx /\ s' ∈ sx /\ Host s' = ip).
Proof.
  intros Hip Hne Hs0 Hip0 Hns0 Hall Hmc Ht. unfold kube_Reverse. rewrite Hip, decide_False by done. unfold serviceRecordForIP.
  assert (svc0 ∈ List.filter (fun svc => negb (skipped k (svc_Namespace svc))) (SvcIndexReverse ip)) as Hin.
  { apply list_elem_of_In, filter_In. split; [by apply list_elem_of_In, SvcIndexReverse_law|]. by rewrite not_skipped. }
  destruct (List.filter _ _) as [|svc l] eqn:E; [by apply elem_of_nil in Hin|].
  assert (svc ∈ SvcIndexReverse ip) as [Hs Hi]%SvcIndexReverse_law.
  { assert (In svc (svc :: l)) as Hi by (by left). rewrite <-E in Hi. apply filter_In in Hi as [Hi _]. by apply list_elem_of_In. }
  destruct (Hall svc Hs Hi) as ((Hn & Hty & Hh & Hr) & Hns & Ha & Hd & Hrev).
  eexists. split; [done|]. intros E2. change (Host (named k _)) with (service_name k svc) in E2.
  destruct (kube_Services_served k (primaryZone k) r2 svc ip) as (sx & s' & ? & ? & ? & _); rewrite ?E2; try done.
  - intros H1 _. by apply Hr.
  - unfold address_of. by rewrite Hh.
  - by exists sx, s'.
Qed.

(** ** Zone transfers *)

Lemma Split_length_app a c b : (length (Split (a +:+ String c b) c) = length (Split a c) + length (Split b c))%nat.
Proof. by rewrite Split_app_sep, length_app. Qed.

Lemma Split_length_pos a c : (1 <= length (Split a c))%nat.
Proof. pose proof (Split_some a c). destruct (Split a c); [done|simpl; lia]. Qed.

Lemma Split_JoinStr_length (l : list string) : (length l <= length (Split (JoinStr l "/") "/"%char))%nat.
Proof.
  induction l as [|x [|y l] IH]; [simpl; lia|apply Split_length_pos|].
  change (JoinStr (x :: y :: l) "/") with (x +:+ String "/"%char (JoinStr (y :: l) "/")). rewrite Split_length_app.
  pose proof (Split_length_pos x "/"%char). cbn [length] in *. lia.
Qed.

Lemma Domain_total (key : list string) : (4 <= length key)%nat -> exists n, Domain (JoinStr key "/") = Ok n.
Proof.
  intros Hl. unfold Domain. pose proof (Split_JoinStr_length key) as Hs. set (l := Split _ _) in *.
  set (l' := if decide (last l = Some EmptyString) then removelast l else l).
  assert (3 <= length l')%nat as Hl'.
  { unfold l'. case_decide; [|lia]. rewrite removelast_firstn_len, length_firstn. lia. }
  destruct l' as [|a [|b [|c rest]]]; simpl in Hl'; [lia..|]. apply Join_ok. intros E%(f_equal length). rewrite length_reverse in E. done.
Qed.

(** Code that does not panic. *)
Definition fine {A} (x : result go_fault A) : Prop := exists a, x = Ok a.

Lemma fine_ok {A} (a : A) : fine (Ok a).
Proof. by exists a. Qed.

Lemma fine_bind {A B} (x : result go_fault A) (f : A -> result go_fault B) : fine x -> (forall a, fine (f a)) -> fine (x ≫= f).
Proof. intros [a ->] Hf. apply Hf. Qed.

Lemma fine_if {A} (P : Prop) `{Decision P} (x y : result go_fault A) : fine x -> fine y -> fine (if decide P then x else y).
Proof. by case_decide. Qed.

Lemma fine_all {A} (emit : A -> result go_fault (list (list RR))) l : (forall x, x ∈ l -> fine (emit x)) -> fine (emit_all emit l).
Proof.
  induction l as [|x l IH]; intros H; simpl; [apply fine_ok|]. apply fine_bind; [apply H; by left|]. intros a.
  apply fine_bind; [apply IH; set_solver|]. intros b. apply fine_ok.
Qed.

Create HintDb fine.
#[local] Hint Resolve fine_ok fine_bind fine_if fine_all : fine.

Lemma fine_Domain (key : list string) : (4 <= length key)%nat -> fine (Domain (JoinStr key "/")).
Proof. apply Domain_total. Qed.

#[local] Hint Resolve fine_Domain : fine.

Lemma fine_address k host port (key : list string) : (4 <= length key)%nat -> fine (emitAddressRecord (found host port (k_ttl k) key)).
Proof. intros H. unfold emitAddressRecord, found. cbn [Key Host]. repeat apply fine_if; auto with fine. Qed.

Lemma fine_srv k host port (key : list string) w : (4 <= length key)%nat -> fine (emit_srv (found host port (k_ttl k) key) w).
Proof. intros H. unfold emit_srv, found. cbn [Key]. auto with fine. Qed.

#[local] Hint Resolve fine_address fine_srv : fine.

Lemma srv_key_length key p n : (4 <= length key)%nat -> (4 <= length (srv_key key p n))%nat.
Proof. intros H. unfold srv_key. rewrite length_app. lia. Qed.

#[local] Hint Resolve srv_key_length : fine.

Lemma fine_cluster k (key ips : list string) ports : (4 <= length key)%nat -> fine (emit_cluster k key ips ports).
Proof.
  intros H. unfold emit_cluster. apply fine_bind.
  - generalize EmptyString. induction ips as [|ip ips IH]; intros h; simpl; auto with fine.
    apply fine_bind; auto with fine. intros [l1 h1]. apply fine_bind; [apply IH|]. intros [l2 h2]. auto with fine.
  - intros [addrs host]. apply fine_bind; auto with fine. induction ports as [|p ports IH]; simpl; auto 10 with fine.
Qed.

Lemma fine_subset k (key : list string) eps : (4 <= length key)%nat -> fine (emit_subset k key eps).
Proof.
  intros H. unfold emit_subset. apply fine_all. intros addr _. unfold emit_endpoint.
  apply fine_bind; auto with fine. intros [l1 _]. apply fine_bind; [apply fine_address; rewrite length_app; lia|]. intros [l2 host].
  apply fine_bind; auto with fine. induction (ss_Ports eps) as [|p ports IH]; simpl; auto 10 with fine.
Qed.

#[local] Hint Resolve fine_cluster fine_subset : fine.

Lemma cluster_ips_of svc : svc ∈ ServiceList -> svc_ClusterIPs svc <> [].
Proof. intros [a ->]%service_converted. simpl. by destruct (as_ClusterIPs a). Qed.

Lemma fine_service k zonePath svc : svc ∈ ServiceList -> fine (emit_service k zonePath svc).
Proof.
  intros Hs%cluster_ips_of. unfold emit_service. destruct (negb _); [apply fine_ok|]. apply fine_if.
  - destruct (svc_ClusterIPs svc); [done|]. apply fine_if; [apply fine_cluster; simpl; lia|]. apply fine_all. intros eps _. apply fine_subset. simpl; lia.
  - repeat apply fine_if; [|apply fine_ok..]. apply fine_bind; [apply fine_Domain; simpl; lia|]. intros n. apply fine_ok.
Qed.

Lemma fine_import k zonePath (svc : object_ServiceImport) : fine (emit_import k zonePath svc).
Proof.
  unfold emit_import. destruct (negb _); [apply fine_ok|]. apply fine_if; [apply fine_cluster; simpl; lia|].
  apply fine_all. intros eps _. apply fine_subset. simpl; lia.
Qed.

(** The services of a zone, as a transfer lists them. *)
Definition zone_services k zone : result go_fault (list (list RR)) :=
  if isMultiClusterZone k zone then transferMultiClusterServices k (Path zone "coredns") else transferServices k (Path zone "coredns").

Lemma fine_services k zone : fine (zone_services k zone).
Proof.
  unfold zone_services. destruct (isMultiClusterZone _ _).
  - apply fine_all. intros svc _. apply fine_import.
  - apply fine_all. intros svc Hs. rewrite merge_sort_Permutation in Hs. by apply fine_service.
Qed.

(** The SOA record of a transfer. *)
Definition transfer_soa k zone : result (lookup_error kube_error) (list RR) :=
  @SOA L (kube_backend k EmptyString) zone (mkMsg 0 false 0 false false false false false false 0 [] [] [] []).

(** A full transfer, by the addresses of the name servers. *)
Lemma kube_xfr k zone serial soa :
  Matches (k_Zones k) zone <> EmptyString -> transfer_soa k zone = Ok soa -> (serial = 0 \/ soa_serial soa <> serial) ->
  exists services sent e, zone_services k zone = Ok services /\ kube_Transfer k zone serial = Some (soa :: sent, e) /\
    match nsAddrs k false false zone with
    | [] => sent = [] /\ e = ChanOpen
    | [a] => sent = [[mkRR (mkHdr zone TypeNS ClassINET (k_ttl k)) (RNS (rr_name a))]; [a]] ++ services ++ [soa] /\ e = ChanClosed
    | _ :: _ :: _ => e = SendOnClosed
    end.
Proof.
  intros Hz Hsoa Hser. destruct (fine_services k zone) as [services Hsv]. exists services.
  unfold kube_Transfer. rewrite decide_False by done. unfold transfer_soa in Hsoa. rewrite Hsoa. rewrite decide_False by naive_solver.
  destruct (nsAddrs k false false zone) as [|a [|b l]]; cbn [xfr_loop]; [by do 2 eexists|..].
  all: unfold xfr_body; fold (zone_services k zone); rewrite Hsv, (bool_decide_false (_ ∈ [])) by apply not_elem_of_nil; cbn; rewrite ?app_nil_r; by do 2 eexists.
Qed.

(** C21. When a transfer ends.  A full transfer of a zone of the plugin starts
    with the SOA record, and what follows depends on how many addresses the
    name servers have.  With one, an NS record, the address, the services and
    the SOA record follow and the channel is closed.  With none nothing follows
    and the channel is never closed.  With two or more the goroutine sends to
    the channel after closing it, which panics. *)
Theorem kube_Transfer_ends k zone serial soa :
  Matches (k_Zones k) zone <> EmptyString -> transfer_soa k zone = Ok soa -> (serial = 0 \/ soa_serial soa <> serial) ->
  exists services sent e, zone_services k zone = Ok services /\ kube_Transfer k zone serial = Some (soa :: sent, e) /\
    match nsAddrs k false false zone with
    | [] => sent = [] /\ e = ChanOpen
    | [a] => sent = [[mkRR (mkHdr zone TypeNS ClassINET (k_ttl k)) (RNS (rr_name a))]; [a]] ++ services ++ [soa] /\ e = ChanClosed
    | _ :: _ :: _ => e = SendOnClosed
    end.
Proof. apply kube_xfr. Qed.

(** *** What a transfer has *)

Lemma emit_all_elem {A} (emit : A -> result go_fault (list (list RR))) l out x :
  emit_all emit l = Ok out -> x ∈ l -> exists part, emit x = Ok part /\ forall b, b ∈ part -> b ∈ out.
Proof.
  revert out. induction l as [|y l IH]; intros out; simpl; [by intros _ ?%elem_of_nil|].
  intros (a & Ha & (b & Hb & [= <-])%bind_ok_inv)%bind_ok_inv [->|Hx]%elem_of_cons.
  - exists a. split; [done|]. intros c Hc. apply elem_of_app. by left.
  - destruct (IH b Hb Hx) as (part & ? & Hp). exists part. split; [done|]. intros c Hc. apply elem_of_app. right. by apply Hp.
Qed.

(** An address record of a key. *)
Definition address_record k (key : list string) (ip4 : list Z) (b : list RR) : Prop :=
  exists rr name bytes, b = [rr] /\ Domain (JoinStr key "/") = Ok name /\
    Hdr rr = mkHdr name TypeA ClassINET (k_ttl k) /\ Data rr = RA bytes /\ To4 bytes = Some ip4.

Lemma emitAddressRecord_v4 k ip port key ip4 out :
  ParseIP ip ≫= To4 = Some ip4 -> emitAddressRecord (found ip port (k_ttl k) key) = Ok out ->
  exists b, b ∈ out.1 /\ address_record k key ip4 b.
Proof.
  intros Hip. unfold emitAddressRecord. unfold HostType. cbn [Host Key found].
  destruct (ParseIP ip) as [x|] eqn:Ep; simpl in Hip; [|done]. rewrite Hip. cbn [fst]. rewrite decide_True by done.
  intros (name & Hn & [= <-])%bind_ok_inv. eexists. split; [by left|]. eexists _, name, x. split_and!; [done..| |done].
  simpl. unfold ip_of. by rewrite Ep.
Qed.

Lemma emit_cluster_has k (key ips : list string) ports ip ip4 out :
  ip ∈ ips -> ParseIP ip ≫= To4 = Some ip4 -> emit_cluster k key ips ports = Ok out ->
  exists b, b ∈ out /\ address_record k key ip4 b.
Proof.
  intros Hin Hip. unfold emit_cluster. intros ([addrs host] & Ha & (srvs & Hs & [= <-])%bind_ok_inv)%bind_ok_inv.
  assert (exists b, b ∈ addrs /\ address_record k key ip4 b) as (b & Hb & ?); [|exists b; split; [apply elem_of_app; by left|done]].
  clear Hs. revert addrs host Ha. generalize EmptyString. induction ips as [|ip' ips IH]; intros h addrs host; [by apply elem_of_nil in Hin|].
  cbn [emit_cluster_ips]. intros ([l1 h1] & H1 & ([l2 h2] & H2 & [= <- <-])%bind_ok_inv)%bind_ok_inv.
  apply elem_of_cons in Hin as [<-|Hin].
  - destruct (emitAddressRecord_v4 _ _ _ _ _ _ Hip H1) as (b & Hb & ?). exists b. split; [apply elem_of_app; by left|done].
  - destruct (IH Hin _ _ _ H2) as (b & Hb & ?). exists b. split; [apply elem_of_app; by right|done].
Qed.

Lemma emit_endpoint_has k key w ports addr ip4 out :
  ParseIP (ea_IP addr) ≫= To4 = Some ip4 -> emit_endpoint k key w ports addr = Ok out -> exists b, b ∈ out /\ address_record k key ip4 b.
Proof.
  intros Hip. unfold emit_endpoint. intros ([l1 h1] & H1 & ([l2 h2] & _ & (l3 & _ & [= <-])%bind_ok_inv)%bind_ok_inv)%bind_ok_inv.
  destruct (emitAddressRecord_v4 _ _ _ _ _ _ Hip H1) as (b & Hb & ?). exists b. split; [apply elem_of_app; by left|done].
Qed.

Lemma headless_no_ip svc ip0 rest : Headless svc = true -> svc_ClusterIPs svc = ip0 :: rest -> ParseIP ip0 = None.
Proof. unfold Headless. intros H%bool_decide_eq_true E. rewrite E in H. by injection H as ->. Qed.

Lemma emit_service_has k zonePath svc ip ip4 out :
  svc ∈ ServiceList -> namespaceExposed k (svc_Namespace svc) = true ->
  svc_Type svc ∈ [ServiceTypeClusterIP; ServiceTypeNodePort; ServiceTypeLoadBalancer] ->
  (Headless svc = false -> is_Some (head (svc_ClusterIPs svc) ≫= ParseIP)) ->
  address_of svc ip -> ParseIP ip ≫= To4 = Some ip4 -> emit_service k zonePath svc = Ok out ->
  exists b, b ∈ out /\ address_record k [zonePath; Svc; svc_Namespace svc; svc_Name svc] ip4 b.
Proof.
  intros Hs Hns Hty Hhd Ha Hip. unfold emit_service. rewrite Hns. cbn [negb]. rewrite decide_True by done.
  destruct (svc_ClusterIPs svc) as [|ip0 rest] eqn:Eips; [by destruct (cluster_ips_of svc Hs)|]. unfold address_of in Ha.
  destruct (Headless svc) eqn:Eh.
  - rewrite decide_False by (rewrite (headless_no_ip svc ip0 rest) by done; by intros [? [=]]).
    destruct Ha as (ep & He & Hi & Hep). intros Hout. destruct (endpoints_converted _ He) as [a Ea].
    pose proof Hep as Hep'. rewrite Ea, to_Endpoints_index in Hep'. apply list_elem_of_fmap in Hep' as (addr & -> & Haddr). rewrite <-Ea in Haddr.
    apply list_elem_of_In, in_flat_map in Haddr as (eps & Heps & Haddr). apply list_elem_of_In in Heps, Haddr.
    destruct (emit_all_elem _ _ _ eps Hout) as (part & Hpart & Hsub).
    { apply (elem_of_flat_map _ _ _ ep); [|done]. apply EpIndex_law. split; [done|]. rewrite Hi. by apply svc_index. }
    destruct (emit_all_elem _ _ _ addr Hpart Haddr) as (part2 & Hpart2 & Hsub2).
    destruct (emit_endpoint_has _ _ _ _ _ _ _ Hip Hpart2) as (b & Hb & ?). exists b. split; [by apply Hsub, Hsub2|done].
  - rewrite decide_True by by apply Hhd. apply emit_cluster_has with ip; [by rewrite <-Eips|done].
Qed.

Lemma JoinStr_app (l1 l2 : list string) : l1 <> [] -> JoinStr (JoinStr l1 "/" :: l2) "/" = JoinStr (l1 ++ l2) "/".
Proof.
  induction l1 as [|x [|y l1] IH]; intros Hne; [done|done|]. destruct l2 as [|z l2]; [by rewrite app_nil_r|].
  specialize (IH ltac:(done)). change (JoinStr (?a :: z :: l2) "/") with (a +:+ "/" +:+ JoinStr (z :: l2) "/") in *.
  change ((x :: y :: l1) ++ z :: l2) with (x :: ((y :: l1) ++ z :: l2)).
  change (JoinStr (x :: y :: l1) "/") with (x +:+ "/" +:+ JoinStr (y :: l1) "/").
  assert (JoinStr (x :: (y :: l1) ++ z :: l2) "/" = x +:+ "/" +:+ JoinStr ((y :: l1) ++ z :: l2) "/") as -> by done.
  rewrite <-IH. by rewrite !str_app_assoc.
Qed.

(** The name of the key of a service. *)
Lemma service_key_name (zone prefix ns name : string) :
  segment prefix -> segment ns -> segment name -> Forall segment (SplitDomainName zone) -> SplitDomainName zone <> [] ->
  Domain (JoinStr [Path zone prefix; Svc; ns; name] "/") = Join ([name; ns; Svc] ++ SplitDomainName zone).
Proof.
  intros Hp Hns Hn Hz Hne. rewrite Path_segments by done.
  assert (JoinStr [("/" +:+ JoinStr (prefix :: reverse (SplitDomainName zone)) "/"); Svc; ns; name] "/" =
    "/" +:+ JoinStr (prefix :: (reverse (SplitDomainName zone) ++ [Svc; ns; name])) "/") as ->.
  { change (prefix :: (?a ++ ?b)) with ((prefix :: a) ++ b). by rewrite <-(JoinStr_app _ [Svc; ns; name]). }
  rewrite Domain_segments; [|done| |by intros [_ ?]%app_eq_nil].
  - by rewrite reverse_app, reverse_involutive.
  - apply Forall_app. split; [by apply Forall_reverse|]. repeat constructor; done || apply Hns || apply Hn.
Qed.

(** C22. A transfer has what is served.  When a transfer of a zone ends as it
    should, it has, for every service in an exposed namespace and each of its
    IPv4 addresses (those of its ready endpoints for a headless service), an
    address record owned by the name of the service in that zone, with the
    lifetime of answers.  The zone is one of the cluster itself, not a
    multicluster zone, which is transferred from service imports; its labels
    and the names of service and namespace are ordinary path segments; the
    service is no external name, and unless it is headless its first cluster
    address is one. *)
Theorem transfer_has_services k zone serial soa sent svc ip ip4 :
  Matches (k_Zones k) zone <> EmptyString -> isMultiClusterZone k zone = false ->
  transfer_soa k zone = Ok soa -> (serial = 0 \/ soa_serial soa <> serial) ->
  kube_Transfer k zone serial = Some (sent, ChanClosed) ->
  svc ∈ ServiceList -> namespaceExposed k (svc_Namespace svc) = true ->
  svc_Type svc ∈ [ServiceTypeClusterIP; ServiceTypeNodePort; ServiceTypeLoadBalancer] ->
  (Headless svc = false -> is_Some (head (svc_ClusterIPs svc) ≫= ParseIP)) ->
  address_of svc ip -> ParseIP ip ≫= To4 = Some ip4 ->
  segment (svc_Namespace svc) -> segment (svc_Name svc) -> Forall segment (SplitDomainName zone) -> SplitDomainName zone <> [] ->
  exists rr name bytes, [rr] ∈ sent /\ Join ([svc_Name svc; svc_Namespace svc; Svc] ++ SplitDomainName zone) = Ok name /\
    Hdr rr = mkHdr name TypeA ClassINET (k_ttl k) /\ Data rr = RA bytes /\ To4 bytes = Some ip4.
Proof.
  intros Hz Hmc Hsoa Hser HT Hs Hns Hty Hhd Ha Hip Hseg1 Hseg2 Hseg3 Hne.
  destruct (kube_xfr k zone serial soa Hz Hsoa Hser) as (services & sent' & e & Hsv & HT' & Hcase). rewrite HT' in HT. injection HT as <- ->.
  destruct (nsAddrs k false false zone) as [|a [|b l]]; [by destruct Hcase| |done]. destruct Hcase as [-> _].
  unfold zone_services in Hsv. rewrite Hmc in Hsv. destruct (emit_all_elem _ _ _ svc Hsv) as (part & Hpart & Hsub).
  { by rewrite merge_sort_Permutation. }
  destruct (emit_service_has k _ svc ip ip4 part Hs Hns Hty Hhd Ha Hip Hpart) as (x & Hx & rr & name & bytes & -> & Hd & ? & ? & ?).
  rewrite service_key_name in Hd by done. exists rr, name, bytes. split_and!; [|done..]. right. apply elem_of_app. right. apply elem_of_app. left. by apply Hsub.
Qed.

(** ** Updates that are not noticed *)

Lemma all_same_Forall2 {A} (same : A -> A -> bool) a b :
  length a = length b -> all_same same a b = true -> Forall2 (fun x y => same x y = true) a b.
Proof.
  revert b. induction a as [|x a IH]; intros [|y b]; simpl; try done; try (constructor; done). intros [= Hl] [H1 H2]%andb_prop. constructor; [done|by apply IH].
Qed.

Lemma same_address_hostname a b : same_address a b = true -> ea_IP a = ea_IP b /\ endpointHostname a false = endpointHostname b false.
Proof.
  unfold same_address. intros [H1%bool_decide_eq_true H2%bool_decide_eq_true]%andb_prop. split; [done|]. unfold endpointHostname. by rewrite H1, H2.
Qed.

Lemma same_port_eq a b : same_port a b = true -> a = b.
Proof.
  unfold same_port. intros [[H1%bool_decide_eq_true H2%bool_decide_eq_true]%andb_prop H3%bool_decide_eq_true]%andb_prop.
  destruct a, b. simpl in *. by subst.
Qed.

Lemma subset_unnoticed k q key a b :
  endpointNameMode k = false -> subsetsEquivalent a b = true -> subset_services k q key a = subset_services k q key b.
Proof.
  intros Hk. unfold subsetsEquivalent. destruct (Nat.eqb_spec (length (Addresses a)) (length (Addresses b))) as [E1|]; [|done].
  destruct (Nat.eqb_spec (length (ss_Ports a)) (length (ss_Ports b))) as [E2|]; [|done]. cbn [negb].
  intros [H1%(all_same_Forall2 _ _ _ E1) H2%(all_same_Forall2 _ _ _ E2)]%andb_prop.
  assert (ss_Ports a = ss_Ports b) as Ep.
  { clear -H2. induction H2 as [|x y l l' H _ IH]; [done|]. by rewrite (same_port_eq _ _ H), IH. }
  unfold subset_services. rewrite Ep, Hk. clear -H1. induction H1 as [|x y l l' [Hi Hn]%same_address_hostname _ IH]; [done|].
  simpl. by rewrite Hi, Hn, IH.
Qed.

(** An update of endpoints that leaves the times alone leaves the answers alone
    as well, unless endpoints are named after pods. *)
Lemma unnoticed_same_answers k q svc key a b :
  endpointNameMode k = false -> endpointsEquivalent a b = true -> ep_Index a = ep_Index b ->
  endpoint_services k q svc key [a] = endpoint_services k q svc key [b].
Proof.
  intros Hk. unfold endpointsEquivalent. destruct (Nat.eqb_spec (length (Subsets a)) (length (Subsets b))) as [E|]; [|done]. cbn [negb].
  intros H%(all_same_Forall2 _ _ _ E) Ei. unfold endpoint_services. simpl. rewrite Ei. case_decide; [done|]. f_equal.
  clear -H Hk. induction H as [|x y l l' Hs _ IH]; [done|]. simpl. by rewrite (subset_unnoticed k q key x y Hk Hs), IH.
Qed.

End facts.

(** ** A small cluster *)

Module KubeSample.

#[local] Existing Instance PlainLib.lib.
#[local] Existing Instance Plain.names.
#[local] Existing Instance MapStore.indexer.
#[local] Existing Instance MapStore.indexer_spec.

Definition http : ServicePort := mkServicePort "http" 80 "TCP".
Definition cluster_service (name ns : string) (ips : list string) (ports : list ServicePort) : api_Service :=
  mkApiService "1" name ns ServiceTypeClusterIP EmptyString EmptyString ips [] ports [].
Definition slice (name ns : string) (ips : list string) : api_EndpointSlice :=
  mkEndpointSlice "1" (name +:+ "-1") ns {[ LabelServiceName := name ]} [mkSlicePort (Some 53) (Some "dns") (Some "UDP")]
    [mkSliceEndpoint ips (Some true) None None None; mkSliceEndpoint ["10.1.9.9"] (Some false) None None None].

Definition web := cluster_service "web" "default" ["10.0.0.1"] [http].
Definition bare := cluster_service "bare" "default" ["10.0.0.2"] [].
Definition db := cluster_service "db" "hidden" ["10.0.0.9"] [http].
Definition peers := cluster_service "peers" "default" ["None"] [http].

(** [dns_ips]: the cluster addresses of the service of the server itself. *)
Definition events (dns_ips : list string) : history :=
  [(KNamespace, 1, [Create (ApiNamespace (mkApiNamespace "1" "default")); Create (ApiNamespace (mkApiNamespace "1" "kube-system"))]);
   (KService, 100, [Create (ApiService web); Create (ApiService bare); Create (ApiService db); Create (ApiService peers);
                    Create (ApiService (cluster_service "dns" "kube-system" dns_ips [http]))]);
   (KEndpoints, 200, [Create (ApiEndpointSlice (slice "dns" "kube-system" ["10.1.0.2"]));
                      Create (ApiEndpointSlice (slice "peers" "default" ["10.1.0.5"; "10.1.0.6"]))])].

Definition cluster (dns_ips : list string) : dnsController := control (after false true false (events dns_ips)).

#[local] Instance one_address : dnsController := cluster ["10.96.0.10"].
#[local] Instance one_address_spec : dnsControllerSpec one_address.
Proof. exact (control_spec _ (after_reachable false true false (events ["10.96.0.10"]))). Qed.

Definition plugin (local : list (list Z)) : Kubernetes :=
  mkKubernetes ["cluster.local."; "10.in-addr.arpa."] None ∅ podModeDisabled false [] 5 false false [] 0 local [].
Definition here : Kubernetes := plugin [[10; 1; 0; 2]].

Definition query (name : string) (t : Z) : Msg :=
  mkMsg 7 false OpcodeQuery false false true false false false RcodeSuccess [mkQ name t ClassINET] [] [] [].

Lemma controller_mirrors_witness :
  exists c, deliver_all (events ["10.96.0.10"]) (newdnsController false true false) = Ok c /\ reachable c /\
    forall k, controllers c k = true -> mirrors k (lister c k) (cluster_after (events ["10.96.0.10"]) k).
Proof.
  apply (@controller_mirrors MapStore.indexer MapStore.indexer_spec false true false (events ["10.96.0.10"])).
  repeat constructor; by intros [=].
Defined.

(** A decidable fact about the sample. *)
#[local] Ltac holds := apply (bool_decide_unpack _); vm_compute; exact I.

Lemma web_listed : to_Service web ∈ ServiceList.
Proof. apply list_elem_of_In. vm_compute. tauto. Qed.

Definition web_services : list Service := Eval vm_compute in
  match kube_Services here "cluster.local." (query "web.default.svc.cluster.local." TypeA) with Ok l => l | Err _ => [] end.

Lemma kube_Services_sound_witness :
  exists s, web_services = [s] /\ namespaceExposed here "default" = true /\
  (Svc = Svc /\ origin "default" "web" s \/
   Svc = Pod /\ Host s = pod_ip "web" /\
   (podMode here = podModeVerified -> exists p, p ∈ PodIndex (Host s) /\ PodIP p = Host s /\ EqualFold "default" (pod_Namespace p) = true)).
Proof.
  eexists. split; [reflexivity|].
  apply (@kube_Services_sound PlainLib.lib Plain.names one_address one_address_spec here "cluster.local."
    (query "web.default.svc.cluster.local." TypeA) (service_request "web" "default") web_services);
    [holds|vm_compute; reflexivity..|by left].
Defined.

Lemma no_upstream : resolver_ok here.
Proof. by intros u r f [=]. Qed.

Lemma web_asked : asks_service (Name_ (query "web.default.svc.cluster.local." TypeA)) "cluster.local." (svc_Name (to_Service web)) (svc_Namespace (to_Service web)).
Proof. split; [holds|vm_compute; reflexivity]. Qed.

Lemma kube_serves_witness :
  exists m rr, kube_ServeDNS here None (query "web.default.svc.cluster.local." TypeA) = (Some m, Ok RcodeSuccess) /\
    Rcode m = Rcode (SetReply (query "web.default.svc.cluster.local." TypeA)) /\
    Question m = Question (SetReply (query "web.default.svc.cluster.local." TypeA)) /\ Authoritative m = true /\
    rr ∈ Answer m /\ rr_name rr = QName_ (query "web.default.svc.cluster.local." TypeA) /\ rr_type rr = TypeA /\ Data rr = RA [10; 0; 0; 1].
Proof.
  apply (@kube_serves PlainLib.lib Plain.names one_address one_address_spec here None (query "web.default.svc.cluster.local." TypeA)
    "cluster.local." (to_Service web) "10.0.0.1" [10; 0; 0; 1]).
  - exact no_upstream.
  - done.
  - reflexivity.
  - split; [holds|vm_compute; reflexivity].
  - holds.
  - vm_compute. reflexivity.
  - vm_compute. reflexivity.
  - vm_compute. reflexivity.
  - exact web_asked.
  - done.
  - vm_compute. reflexivity.
  - exact web_listed.
  - holds.
  - by intros [=].
  - by left.
  - vm_compute. reflexivity.
Defined.

Lemma kube_denies_hidden_witness :
  let r := query "db.hidden.svc.cluster.local." TypeAAAA in
  exists m soa, kube_ServeDNS here None r = (Some m, Ok RcodeSuccess) /\
    Rcode m = (if HasSynced then RcodeNameError else RcodeServerFailure) /\
    Answer m = Answer (SetReply r) /\ Authoritative m = true /\ Ns_ m = [soa] /\ rr_name soa = "cluster.local." /\ rr_type soa = TypeSOA.
Proof.
  intros r.
  apply (@kube_denies_hidden PlainLib.lib Plain.names one_address one_address_spec here None r "cluster.local." "hidden").
  - done.
  - split; [holds|vm_compute; reflexivity].
  - holds.
  - holds.
  - vm_compute. reflexivity.
  - exists (service_request "db" "hidden"). split_and!; [vm_compute; reflexivity|done|done].
  - vm_compute. reflexivity.
  - vm_compute. reflexivity.
  - vm_compute. reflexivity.
  - holds.
  - vm_compute. reflexivity.
Defined.

(** The services of the sample by their addresses. *)
Lemma web_alone svc : svc ∈ ServiceList -> "10.0.0.1" ∈ svc_ClusterIPs svc -> svc = to_Service web.
Proof.
  intros Hs Hi. assert (svc ∈ [to_Service web]) as ?%list_elem_of_singleton; [|done].
  assert (svc ∈ filter (fun s => "10.0.0.1" ∈ svc_ClusterIPs s) ServiceList) as Hf by by apply list_elem_of_filter.
  exact Hf.
Qed.

Lemma kube_reverse_agrees_witness :
  exists s, kube_Reverse here "10.in-addr.arpa." (query "1.0.0.10.in-addr.arpa." TypePTR) = Ok [s] /\
    (Name_ (query "web.default.svc.cluster.local." TypeA) = Host s ->
     exists sx s', kube_Services here (primaryZone here) (query "web.default.svc.cluster.local." TypeA) = Ok sx /\ s' ∈ sx /\ Host s' = "10.0.0.1").
Proof.
  apply (@kube_reverse_agrees PlainLib.lib Plain.names one_address one_address_spec here "10.in-addr.arpa."
    (query "1.0.0.10.in-addr.arpa." TypePTR) (query "web.default.svc.cluster.local." TypeA) "10.0.0.1" (to_Service web)).
  - vm_compute. reflexivity.
  - done.
  - exact web_listed.
  - by left.
  - vm_compute. reflexivity.
  - intros svc Hs Hi. rewrite (web_alone svc Hs Hi). split_and!; [split_and!; [holds|holds|holds|by intros [=]]|vm_compute; reflexivity|exact web_asked|vm_compute; reflexivity..].
  - vm_compute. reflexivity.
  - reflexivity.
Defined.

(** The SOA record and the services of a transfer. *)
Definition soa : list RR := Eval vm_compute in match transfer_soa here "cluster.local." with Ok l => l | Err _ => [] end.

Lemma kube_Transfer_ends_witness :
  exists services sent e, zone_services here "cluster.local." = Ok services /\
    kube_Transfer here "cluster.local." 0 = Some (soa :: sent, e) /\
    match nsAddrs here false false "cluster.local." with
    | [] => sent = [] /\ e = ChanOpen
    | [a] => sent = [[mkRR (mkHdr "cluster.local." TypeNS ClassINET (k_ttl here)) (RNS (rr_name a))]; [a]] ++ services ++ [soa] /\ e = ChanClosed
    | _ :: _ :: _ => e = SendOnClosed
    end.
Proof.
  apply (@kube_Transfer_ends PlainLib.lib Plain.names one_address one_address_spec here "cluster.local." 0 soa);
    [holds|vm_compute; reflexivity|by left].
Defined.

Definition full_transfer : list (list RR) := Eval vm_compute in
  match kube_Transfer here "cluster.local." 0 with Some (l, _) => l | None => [] end.

Lemma transfer_has_services_witness :
  exists rr name bytes, [rr] ∈ full_transfer /\
    Join ([svc_Name (to_Service web); svc_Namespace (to_Service web); Svc] ++ SplitDomainName "cluster.local.") = Ok name /\
    Hdr rr = mkHdr name TypeA ClassINET (k_ttl here) /\ Data rr = RA bytes /\ To4 bytes = Some [10; 0; 0; 1].
Proof.
  apply (@transfer_has_services PlainLib.lib Plain.names one_address one_address_spec here "cluster.local." 0 soa full_transfer
    (to_Service web) "10.0.0.1" [10; 0; 0; 1]).
  - holds.
  - vm_compute. reflexivity.
  - vm_compute. reflexivity.
  - by left.
  - vm_compute. reflexivity.
  - exact web_listed.
  - vm_compute. reflexivity.
  - by left.
  - intros _. holds.
  - by left.
  - vm_compute. reflexivity.
  - by split_and!.
  - by split_and!.
  - repeat constructor; done.
  - done.
Defined.

(** *** What goes wrong *)

(** On a cluster with addresses of both families a transfer makes the server
    panic. *)
Lemma transfer_panics :
  snd <$> @kube_Transfer PlainLib.lib Plain.names (cluster ["10.96.0.10"; "fd00::10"]) here "cluster.local." 0 = Some SendOnClosed.
Proof. vm_compute. reflexivity. Qed.

(** A server bound to one address has no local addresses, because they are
    read as prefixes, and a transfer from it never ends. *)
Lemma bound_transfer_open :
  boundIPs ["10.1.0.2"] (Some ["10.1.0.2/24"]) = [] /\
  snd <$> kube_Transfer (plugin (boundIPs ["10.1.0.2"] (Some ["10.1.0.2/24"]))) "cluster.local." 0 = Some ChanOpen /\
  boundIPs [EmptyString] (Some ["127.0.0.1/8"; "10.1.0.2/24"]) = [[10; 1; 0; 2]].
Proof. split_and!; vm_compute; reflexivity. Qed.

Definition answers (k : Kubernetes) (r : Msg) : option (Z * list RR) :=
  match (kube_ServeDNS k None r).1 with Some m => Some (Rcode m, Answer m) | None => None end.

(** A namespace that labels hide is shown by reverse lookups. *)
Lemma reverse_shows_hidden :
  namespaceExposed here "hidden" = false /\
  answers here (query "9.0.0.10.in-addr.arpa." TypePTR) =
    Some (RcodeSuccess, [mkRR (mkHdr "9.0.0.10.in-addr.arpa." TypePTR ClassINET 5) (RPTR "db.hidden.svc.cluster.local.")]) /\
  option_map snd (answers here (query "db.hidden.svc.cluster.local." TypeA)) = Some [].
Proof. split_and!; vm_compute; reflexivity. Qed.

(** The name servers of a zone depend on the case of the query. *)
Lemma ns_case_sensitive :
  option_map (fun a => length a.2) (answers here (query "cluster.local." TypeNS)) = Some 1%nat /\
  option_map (fun a => length a.2) (answers here (query "Cluster.local." TypeNS)) = Some 0%nat.
Proof. split; vm_compute; reflexivity. Qed.

(** A service without ports is transferred with an SRV record of port 65535,
    and a query for it finds none. *)
Lemma portless_srv :
  (exists rr host, [rr] ∈ full_transfer /\ Hdr rr = mkHdr "bare.default.svc.cluster.local." TypeSRV ClassINET 5 /\ Data rr = RSRV 0 100 65535 host) /\
  answers here (query "bare.default.svc.cluster.local." TypeSRV) = Some (RcodeSuccess, []).
Proof.
  split; [|vm_compute; reflexivity]. eexists (mkRR _ _), _. split_and!; [|reflexivity..]. cbn [Hdr Data].
  apply list_elem_of_In. vm_compute. repeat (left; reflexivity) || right.
Qed.

(** The SOA record of a transfer of a cluster set zone has another serial than
    that of a query. *)
Definition cluster_set : Kubernetes :=
  mkKubernetes ["clusterset.local."] None ∅ podModeDisabled false [] 5 false false ["clusterset.local."] 0 [[10; 1; 0; 2]] [].

Lemma transfer_serial_differs :
  match transfer_soa cluster_set "clusterset.local." with Ok l => soa_serial l | Err _ => 0 end = 200 /\
  option_map (fun a => soa_serial a.2) (answers cluster_set (query "clusterset.local." TypeSOA)) = Some 0.
Proof. split; vm_compute; reflexivity. Qed.

(** Endpoints named after pods: another pod at the same address is not
    noticed, and its name is another. *)
Lemma pod_rename_unnoticed :
  let a := mkAddress "10.1.0.5" EmptyString "node" "peer-1" in
  let b := mkAddress "10.1.0.5" EmptyString "node" "peer-2" in
  subsetsEquivalent (mkSubset [a] []) (mkSubset [b] []) = true /\ endpointHostname a true <> endpointHostname b true.
Proof. split; [vm_compute; reflexivity|]. by apply (bool_decide_unpack _). Qed.

End KubeSample.
