(* ===== verification/KubeExternal.v ===== *)
(** * Names for clusters from outside (plugin/k8s_external, plugin/kubernetes/external.go)

    The external addresses of services under a zone of their own: what the
    kubernetes plugin gives for a name ([kube_External]), all it has
    ([ExternalServices]), and the plugin that serves them, over the interface
    [Externaler]: the handler, the names of its name servers and its zone
    transfers. *)

From Stdlib Require Import Ascii ZArith Lia.
From stdpp Require Import base numbers gmap strings list.
From S2P Require Import Prelude DnsTypes DnsLib Ip GoStrings Http Serve Xfer FileZone Server Filters Backend Etcd GoNet Hosts KubeObjects Kubernetes.

Local Open Scope Z_scope.

Definition Endpoint : string := "endpoint".
Definition PortProtocol : string := "port.protocol".

(** What the plugin asks of the one that knows the services. *)
Class Externaler := {
  externalFunc : string -> Msg -> bool -> list Service * Z;
  externalAddrFunc : string -> bool -> list RR;
  externalServicesFunc : string -> bool -> list Service * gmap string (list Service);
  externalSerialFunc : string -> Z }.

(** ** The kubernetes plugin (plugin/kubernetes/external.go) *)

Section external.
Context {L : DnsLib} {N : DnsNames} {api : dnsController}.

Definition serviceRecordForExternalIP (k : Kubernetes) (ip : string) : list Service :=
  map (fun service => named k [svc_Name service; svc_Namespace service])
    (List.filter (fun service => negb (skipped k (svc_Namespace service))) (SvcExtIndexReverse ip)).

Definition ExternalReverse (k : Kubernetes) (ip : string) : result kube_error (list Service) :=
  some_items (serviceRecordForExternalIP k ip).

(** The labels of a name: an endpoint, or a port and a protocol, of a service
    in a namespace. *)
Record ext_request := mkExt { x_port : string; x_protocol : string; x_endpoint : string; x_service : string; x_namespace : string }.

Inductive ext_parsed : Type :=
| ExtCode (namespace : option string) (code : Z)
| ExtAsks (q : ext_request).

(** [ExtCode]: the name is answered by a code, in a namespace if it gives
    one. *)
Definition ext_parse (segs : list string) : ext_parsed :=
  match reverse segs with
  | [] => ExtCode None RcodeServerFailure
  | [namespace] => ExtCode (Some namespace) RcodeSuccess
  | [namespace; service] => ExtAsks (mkExt EmptyString EmptyString EmptyString service namespace)
  | [namespace; service; l0] => ExtAsks (mkExt EmptyString EmptyString (stripUnderscore l0) service namespace)
  | [namespace; service; l1; l0] => ExtAsks (mkExt (stripUnderscore l0) (stripUnderscore l1) EmptyString service namespace)
  | namespace :: _ => ExtCode (Some namespace) RcodeNameError
  end.

(** The services of the endpoints of a headless service. *)
Definition ext_endpoints (k : Kubernetes) (q : ext_request) (svc : object_Service) (key : list string) (eps : list object_Endpoints) : list Service :=
  endpoint_services k (mkRequest (x_port q) (x_protocol q) (x_endpoint q) EmptyString (x_service q) (x_namespace q) EmptyString) svc key eps.

Definition ext_items (k : Kubernetes) (zone : string) (q : ext_request) (headless : bool) (svc : object_Service) : list Service :=
  let key := [Path zone coredns; svc_Namespace svc; svc_Name svc] in
  if decide (x_namespace q <> svc_Namespace svc) then []
  else if decide (x_service q <> svc_Name svc) then []
  else if headless && bool_decide (svc_ExternalIPs svc = []) && (Headless svc || bool_decide (x_endpoint q <> EmptyString)) then
    ext_endpoints k q svc key (EpIndex (ServiceKey (x_service q) (x_namespace q)))
  else
    let ports := filter (fun p => matchPortAndProtocol (x_port q) (sp_Name p) (x_protocol q) (sp_Protocol p) = true) (svc_Ports svc) in
    flat_map (fun ip => map (fun p => found ip (sp_Port p) (k_ttl k) key) ports) (svc_ExternalIPs svc).

(** The services and the code: success when there is a service. *)
Definition ext_services (k : Kubernetes) (zone : string) (q : ext_request) (headless : bool) : list Service * Z :=
  let sx := flat_map (ext_items k zone q headless) (SvcIndex (ServiceKey (x_service q) (x_namespace q))) in
  (sx, if decide (sx = []) then RcodeNameError else RcodeSuccess).

Definition kube_External (k : Kubernetes) (zone : string) (state : Msg) (headless : bool) : list Service * Z :=
  let ptr := bool_decide (QType_ state = TypePTR) in
  let ip := ExtractAddressFromReverse (Name_ state) in
  if ptr && bool_decide (ip <> EmptyString) then
    match ExternalReverse k ip with Ok svcs => (svcs, RcodeSuccess) | Err _ => ([], RcodeNameError) end
  else
    match ext_parse (SplitDomainName (trimmed (Name_ state) zone)) with
    | ExtCode None code => ([], code)
    | ExtCode (Some namespace) code => ([], if namespaceExposed k namespace then code else RcodeNameError)
    | ExtAsks q =>
        if negb (namespaceExposed k (x_namespace q)) then ([], RcodeNameError)
        else let '(sx, rcode) := ext_services k zone q headless in (if ptr then [] else sx, rcode)
    end.

(** A service under a key of the map, after those that are there. *)
Definition add_service (key : string) (s : Service) (m : gmap string (list Service)) : gmap string (list Service) :=
  <[key := default [] (m !! key) ++ [s]]> m.

(** The entries of one port of an endpoint. *)
Definition headless_entries (k : Kubernetes) (base : list string) (addr : EndpointAddress) (p : EndpointPort) : list (string * Service) :=
  let s := found (ea_IP addr) (epp_Port p) (k_ttl k) (base ++ [endpointHostname addr (endpointNameMode k)]) in
  (JoinStr (base ++ [Endpoint]) "/", s) ::
  (if decide (epp_Name p = EmptyString) then []
   else
     let key := srv_key base (epp_Protocol p) (epp_Name p) in
     [(JoinStr (key ++ [PortProtocol]) "/",
       found (match Domain (Key s) with Ok n => n | Err _ => EmptyString end) (epp_Port p) (k_ttl k) key)]).

Definition external_entries (k : Kubernetes) (base : list string) (svc : object_Service) : list Service :=
  flat_map (fun ip => flat_map (fun p =>
    [found ip (sp_Port p) (k_ttl k) base;
     mkService ip (sp_Port p) 0 0 EmptyString false (k_ttl k) 2 EmptyString (JoinStr (srv_key base (sp_Protocol p) (sp_Name p)) "/")])
    (svc_Ports svc)) (svc_ExternalIPs svc).

Definition is_headless (headless : bool) (svc : object_Service) : bool :=
  headless && bool_decide (svc_ExternalIPs svc = []) && Headless svc.

Definition svc_headless_entries (k : Kubernetes) (base : list string) (svc : object_Service) : list (string * Service) :=
  flat_map (fun ep => flat_map (fun eps => flat_map (fun addr => flat_map (headless_entries k base addr) (ss_Ports eps)) (Addresses eps)) (Subsets ep))
    (EpIndex (ServiceKey (svc_Name svc) (svc_Namespace svc))).

Definition ExternalServices (k : Kubernetes) (zone : string) (headless : bool) : list Service * gmap string (list Service) :=
  let base svc := [Path zone coredns; svc_Namespace svc; svc_Name svc] in
  (flat_map (fun svc => if is_headless headless svc then [] else external_entries k (base svc) svc) ServiceList,
   foldl (fun m e => add_service e.1 e.2 m) ∅
     (flat_map (fun svc => if is_headless headless svc then svc_headless_entries k (base svc) svc else []) ServiceList)).

Definition ExternalSerial : Z := u32 (Modified_ ModifiedExternal).

Definition kube_externaler (k : Kubernetes) : Externaler := {|
  externalFunc := kube_External k;
  externalAddrFunc := fun zone headless => nsAddrs k true headless zone;
  externalServicesFunc := ExternalServices k;
  externalSerialFunc := fun _ => ExternalSerial |}.

End external.

(** ** The plugin (plugin/k8s_external) *)

Record External := mkExternal {
  x_Zones : list string;
  x_Fall : list string;
  hostmaster : string;
  apex : string;
  x_ttl : Z;
  x_headless : bool;
  upstream_ : option (Msg -> result go_fault (option Msg)) }.

Definition set_ttl (ttl : Z) (rr : RR) : RR := mkRR (mkHdr (rr_name rr) (rr_type rr) (Class_ (Hdr rr)) ttl) (Data rr).
Definition renamed (name : string) (ttl : Z) (rr : RR) : RR := mkRR (mkHdr name (rr_type rr) (Class_ (Hdr rr)) ttl) (Data rr).

Section plugin.
Context {L : DnsLib} {N : DnsNames} {X : Externaler}.

(** *** Records (msg_to_dns.go) *)

(** The answer of another server for a name and whether it is truncated.
    Nothing written by that server is nil, which is dereferenced. *)
Definition resolved (up : option (Msg -> result go_fault (option Msg))) (r : Msg) (name : string) (t : Z) : result go_fault (list RR * bool) :=
  match Upstream_Lookup tt up r name t with
  | Ok (Some m) => Ok (Answer m, Truncated m)
  | Ok None => Err NilDeref
  | Err (Fault f) => Err f
  | Err _ => Ok ([], false)
  end.

(** The loops of [a] and [aaaa]: [t] is the type. *)
Fixpoint ext_addresses (e : External) (t : Z) (r : Msg) (services : list Service) (dup : list string) : result go_fault (list RR * bool) :=
  match services with
  | [] => Ok ([], false)
  | s :: services' =>
      let '(what, ip) := HostType s in
      if decide (what = TypeCNAME) then
        '(found, tc) ← resolved (upstream_ e) r (Fqdn (Host s)) t;
        '(records, tc') ← ext_addresses e t r services' dup;
        Ok (NewCNAME s (QName_ r) (Host s) :: found ++ records, tc || tc')
      else if decide (what = t) then
        if decide (Host s ∈ dup) then ext_addresses e t r services' dup
        else
          '(records, tc) ← ext_addresses e t r services' (Host s :: dup);
          Ok (set_ttl (x_ttl e) (if decide (t = TypeA) then NewA s (QName_ r) ip else NewAAAA s (QName_ r) ip) :: records, tc)
      else ext_addresses e t r services' dup
  end.

Definition ext_a (e : External) (services : list Service) (r : Msg) : result go_fault (list RR * bool) := ext_addresses e TypeA r services [].
Definition ext_aaaa (e : External) (services : list Service) (r : Msg) : result go_fault (list RR * bool) := ext_addresses e TypeAAAA r services [].

Fixpoint ext_ptr_loop (e : External) (r : Msg) (services : list Service) (dup : list string) : result go_fault (list RR) :=
  match services with
  | [] => Ok []
  | s :: services' =>
      if decide (Host s ∈ dup) then ext_ptr_loop e r services' dup
      else
        match x_Zones e with
        | [] => Err IndexOutOfRange
        | z0 :: _ =>
            target ← Join [Host s; z0];
            records ← ext_ptr_loop e r services' (Host s :: dup);
            Ok (set_ttl (x_ttl e) (NewPTR s (QName_ r) target) :: records)
        end
  end.

Definition ext_ptr (e : External) (services : list Service) (r : Msg) : result go_fault (list RR) := ext_ptr_loop e r services [].

Fixpoint ext_srv_loop (e : External) (r : Msg) (w : gmap Z Z) (services : list Service) (dup : list item) : result go_fault (list RR * list RR) :=
  match services with
  | [] => Ok ([], [])
  | s :: services' =>
      if decide (Port s = -1) then ext_srv_loop e r w services' dup
      else
        let weight := srv_weight w s in
        let '(what, ip) := HostType s in
        if decide (what = TypeCNAME) then
          let srv := NewSRV s (QName_ r) weight in
          let '(d1, dup) := isDuplicate dup (stripped_host s) EmptyString (u16 (Port s)) in
          let '(d2, dup) := isDuplicate dup (stripped_host s) (Fqdn (Host s)) 0 in
          '(a, _) ← (if d2 : bool then Ok ([], false) else resolved (upstream_ e) r (Fqdn (Host s)) TypeA);
          '(aaaa, _) ← (if d2 : bool then Ok ([], false) else resolved (upstream_ e) r (Fqdn (Host s)) TypeAAAA);
          '(records, extra) ← ext_srv_loop e r w services' dup;
          Ok ((if d1 : bool then [] else [srv]) ++ records, a ++ aaaa ++ extra)
        else if decide (what = TypeA \/ what = TypeAAAA) then
          host ← Domain (Key s);
          let s' := set_Host s host in
          let '(d1, dup) := isDuplicate dup (stripped_host s') EmptyString (u16 (Port s)) in
          let '(d2, dup) := isDuplicate dup (stripped_host s') (Host s) 0 in
          '(records, extra) ← ext_srv_loop e r w services' dup;
          Ok ((if d1 : bool then [] else [NewSRV s' (QName_ r) weight]) ++ records,
              (if d2 : bool then [] else [set_ttl (x_ttl e) (newAddress s' (stripped_host s') ip what)]) ++ extra)
        else ext_srv_loop e r w services' dup
  end.

Definition ext_srv (e : External) (services : list Service) (r : Msg) : result go_fault (list RR * list RR) :=
  ext_srv_loop e r (weights services) services [].

(** *** The apex (apex.go) *)

Definition ext_soa (e : External) (zone : string) : result go_fault RR :=
  mbox ← Join [hostmaster e; apex e; zone];
  ns ← Join ["ns1"; apex e; zone];
  Ok (mkRR (mkHdr zone TypeSOA ClassINET (x_ttl e)) (RSOA ns mbox (externalSerialFunc zone) 7200 1800 86400 (x_ttl e))).

Definition ext_ns (e : External) (zone : string) : result go_fault RR :=
  ns ← Join ["ns1"; apex e; zone];
  Ok (mkRR (mkHdr zone TypeNS ClassINET (x_ttl e)) (RNS ns)).

(** An authoritative reply with a code and its sections. *)
Definition ext_reply (r : Msg) (rc : Z) (tc : bool) (answer ns extra : list RR) : Msg :=
  let m := SetReply r in
  mkMsg (Id m) (Response m) (Opcode m) true tc (RecursionDesired m) (RecursionAvailable m) (AuthenticatedData m) (CheckingDisabled m)
    rc (Question m) answer ns extra.

Definition serveApex (e : External) (zone : string) (r : Msg) : result go_fault Msg :=
  let t := QType_ r in
  if decide (t = TypeSOA) then soa ← ext_soa e zone; Ok (ext_reply r RcodeSuccess false [soa] [] [])
  else if decide (t = TypeNS) then
    ns ← ext_ns e zone;
    name ← Join ["ns1"; apex e; QName_ r];
    Ok (ext_reply r RcodeSuccess false [ns] [] (map (renamed name (x_ttl e)) (externalAddrFunc zone (x_headless e))))
  else soa ← ext_soa e zone; Ok (ext_reply r RcodeSuccess false [] [soa] []).

Definition serveSubApex (e : External) (zone : string) (r : Msg) : result go_fault Msg :=
  let base := trimmed (Name_ r) zone in
  soa ← ext_soa e zone;
  match CountLabel base with
  | 1%nat => Ok (ext_reply r RcodeSuccess false [] [soa] [])
  | 2%nat =>
      let '(nl, _) := NextLabel base 0 in
      if decide (take_str nl base <> "ns1.") then Ok (ext_reply r RcodeNameError false [] [soa] [])
      else
        let addr := map (renamed (QName_ r) (x_ttl e)) (externalAddrFunc zone (x_headless e)) in
        let answer := filter (fun rr => (QType_ r = TypeA \/ QType_ r = TypeAAAA) /\ rr_type rr = QType_ r) addr in
        Ok (ext_reply r RcodeSuccess false answer (match answer with [] => [soa] | _ => [] end) [])
  | _ => Ok (ext_reply r RcodeNameError false [] [soa] [])
  end.

(** *** The handler (external.go) *)

(** The first zone whose apex, or whose name servers, the query asks for:
    [true] for the apex. *)
Fixpoint apex_query (e : External) (zones : list string) (name : string) : option bool :=
  match zones with
  | [] => None
  | z :: zones' =>
      if decide (name = z) then Some true
      else if IsSubDomain (apex e +:+ "." +:+ z) name then Some false
      else apex_query e zones' name
  end.

Definition ext_records (e : External) (r : Msg) (svc : list Service) : result go_fault (list RR * list RR * bool) :=
  let t := QType_ r in
  if decide (t = TypeA) then '(l, tc) ← ext_a e svc r; Ok (l, [], tc)
  else if decide (t = TypeAAAA) then '(l, tc) ← ext_aaaa e svc r; Ok (l, [], tc)
  else if decide (t = TypeSRV) then '(l, extra) ← ext_srv e svc r; Ok (l, extra, false)
  else if decide (t = TypePTR) then l ← ext_ptr e svc r; Ok (l, [], false)
  else Ok ([], [], false).

(** What is written; [None]: the query is passed on. *)
Definition ext_answer (e : External) (zone : string) (r : Msg) : result go_fault (option Msg) :=
  match apex_query e (x_Zones e) (Name_ r) with
  | Some true => m ← serveApex e zone r; Ok (Some m)
  | Some false => m ← serveSubApex e zone r; Ok (Some m)
  | None =>
      let '(svc, rcode) := externalFunc zone r (x_headless e) in
      match svc with
      | [] =>
          if Through (x_Fall e) (Name_ r) && bool_decide (rcode = RcodeNameError) then Ok None
          else soa ← ext_soa e zone; Ok (Some (ext_reply r rcode false [] [soa] []))
      | _ =>
          '(answer, extra, tc) ← ext_records e r svc;
          ns ← (match answer with [] => soa ← ext_soa e zone; Ok [soa] | _ => Ok [] end);
          Ok (Some (ext_reply r RcodeSuccess tc answer ns extra))
      end
  end.

Definition ext_ServeDNS (e : External) (next : option Chain) : Chain := fun r =>
  let zone := Matches (x_Zones e) (Name_ r) in
  if decide (zone = EmptyString) then next_or_failure next r
  else match ext_answer e zone r with
       | Ok (Some m) => (Some m, Ok 0)
       | Ok None => next_or_failure next r
       | Err f => (None, Err f)
       end.

(** *** Transfers (transfer.go) *)

Context {O : MapOrder}.

Definition ask (name : string) : Msg := mkMsg 0 false 0 false false false false false false 0 [mkQ name 0 0] [] [] [].

(** Records that are sent unless there are none. *)
Definition nonempty (l : list RR) : list (list RR) := match l with [] => [] | _ => [l] end.

(** Records whose owner has not been seen, one by one. *)
Fixpoint unseen (l : list RR) (seen : list string) : list (list RR) * list string :=
  match l with
  | [] => ([], seen)
  | rr :: l' =>
      if decide (rr_name rr ∈ seen) then unseen l' seen
      else let '(out, seen) := unseen l' (rr_name rr :: seen) in ([rr] :: out, seen)
  end.

Fixpoint send_services (e : External) (svcs : list Service) (seen : list string) : result go_fault (list (list RR)) :=
  match svcs with
  | [] => Ok []
  | s :: svcs' =>
      name ← Domain (Key s);
      addrs ← (if decide (TargetStrip s = 0) then
                 '(a, _) ← ext_a e [s] (ask name);
                 '(aaaa, _) ← ext_aaaa e [s] (ask name);
                 Ok (nonempty a ++ nonempty aaaa)
               else Ok []);
      '(recs, _) ← ext_srv e [s] (ask name);
      let '(srvs, seen) := unseen recs seen in
      rest ← send_services e svcs' seen;
      Ok (addrs ++ srvs ++ rest)
  end.

(** The addresses and SRV records of some services under a name. *)
Definition send_endpoints (e : External) (svcs : list Service) (name : string) : result go_fault (list (list RR)) :=
  '(a, _) ← ext_a e svcs (ask name);
  '(aaaa, _) ← ext_aaaa e svcs (ask name);
  '(recs, _) ← ext_srv e svcs (ask name);
  Ok (nonempty a ++ nonempty aaaa ++ [recs] ++ map (fun rr => [rr]) recs).

Definition send_headless (e : External) (entry : string * list Service) : result go_fault (list (list RR)) :=
  let '(key, svcs) := entry in
  match LastIndexByte key "/" with
  | None => Err IndexOutOfRange
  | Some i =>
      name ← Domain (take_str i key);
      let switchKey := drop_str (S i) key in
      if decide (switchKey = Endpoint) then
        all ← send_endpoints e svcs name;
        each ← emit_all (fun s => name ← Domain (Key s); send_endpoints e [s] name) svcs;
        Ok (all ++ each)
      else if decide (switchKey = PortProtocol) then '(recs, _) ← ext_srv e svcs (ask name); Ok [recs]
      else Ok []
  end.

(** No server is asked in a transfer. *)
Definition offline (e : External) : External := mkExternal (x_Zones e) (x_Fall e) (hostmaster e) (apex e) (x_ttl e) (x_headless e) None.

Definition ext_Transfer (e : External) (zone : string) (serial : Z) : option (result go_fault (list (list RR))) :=
  let e := offline e in
  if decide (Matches (x_Zones e) zone <> zone) then None
  else Some (
    let zone := if decide (zone = dot) then EmptyString else zone in
    soa ← ext_soa e zone;
    if decide (serial <> 0 /\ externalSerialFunc zone <= serial) then Ok [[soa]]
    else
      let nsName := "ns1." +:+ apex e +:+ "." +:+ zone in
      let ns := mkRR (mkHdr zone TypeNS ClassINET (x_ttl e)) (RNS nsName) in
      let addrs := map (fun rr => [renamed nsName (x_ttl e) rr]) (externalAddrFunc zone (x_headless e)) in
      let '(svcs, headless) := externalServicesFunc zone (x_headless e) in
      services ← send_services e svcs [];
      others ← emit_all (send_headless e) (map_range headless);
      Ok ([[soa]; [ns]] ++ addrs ++ services ++ others ++ [[soa]])).

End plugin.
