(* ===== verification/KubeExternalFacts.v ===== *)
(** * Properties of the names of clusters from outside

    What the plugin gives for a name is of the service with that name, in a
    namespace that is exposed ([External_sound]); an external address is served
    ([ext_serves]); a transfer never panics, starts and ends with the SOA
    record and has every external address ([ext_Transfer_complete]), also those
    in hidden namespaces ([ExternalSample.hidden_transferred]). *)

From Stdlib Require Import Ascii ZArith Lia.
From stdpp Require Import base numbers gmap strings list.
From S2P Require Import Prelude DnsTypes DnsLib Ip GoStrings Http Serve Xfer FileZone Server ServerFacts Filters FilterFacts Backend BackendFacts Etcd EtcdFacts GoNet Hosts KubeObjects KubeControlFacts Kubernetes KubeFacts KubeExternal.

Local Open Scope Z_scope.

Section facts.
Context {L : DnsLib} {N : DnsNames} {api : dnsController} {spec : dnsControllerSpec api}.

Implicit Types (k : Kubernetes) (r : Msg) (e : External) (s : Service) (svc : object_Service).

(** ** What a name finds *)

(** An external address of a service, or of its endpoints. *)
Definition external_address (headless : bool) svc (ip : string) : Prop :=
  ip ∈ svc_ExternalIPs svc \/
  headless = true /\ svc_ExternalIPs svc = [] /\ exists ep, ep ∈ EndpointsList /\ ep_Index ep = svc_Index svc /\ ip ∈ ep_IndexIP ep.

Lemma ext_items_sound k zone q headless svc s :
  svc ∈ ServiceList -> s ∈ ext_items k zone q headless svc ->
  svc_Namespace svc = x_namespace q /\ svc_Name svc = x_service q /\ external_address headless svc (Host s).
Proof.
  intros Hl. unfold ext_items. case_decide as H1; [by intros ?%elem_of_nil|]. case_decide as H2; [by intros ?%elem_of_nil|].
  destruct (headless && _ && _) eqn:Eh.
  - apply andb_prop in Eh as [[-> He%bool_decide_eq_true]%andb_prop _]. unfold ext_endpoints.
    intros (ep & [Hep _]%EpIndex_law & Hi & addr & Ha & E)%endpoint_services_elem. split_and!; [done..|]. right. split_and!; [done..|].
    exists ep. split; [done|]. split; [by rewrite (svc_index svc Hl)|]. rewrite E. by apply index_ip.
  - intros (ip & Hip & Hs)%list_elem_of_In%in_flat_map. apply list_elem_of_In in Hip, Hs. apply list_elem_of_fmap in Hs as (p & -> & _).
    split_and!; [done..|]. by left.
Qed.

(** Everything the plugin gives for a name that is not a reverse lookup is
    an external address, or with headless services enabled that of a ready
    endpoint, of a service that has exactly the name and the namespace of the
    query, and this namespace is exposed. *)
Theorem External_sound k zone r headless sx code s :
  QType_ r <> TypePTR -> kube_External k zone r headless = (sx, code) -> s ∈ sx ->
  code = RcodeSuccess /\ exists svc, svc ∈ ServiceList /\ namespaceExposed k (svc_Namespace svc) = true /\
    svc_Namespace svc ∈ SplitDomainName (trimmed (Name_ r) zone) /\ svc_Name svc ∈ SplitDomainName (trimmed (Name_ r) zone) /\
    external_address headless svc (Host s).
Proof.
  intros Ht. unfold kube_External. rewrite bool_decide_false by done. simpl.
  assert (forall l q, ext_parse l = ExtAsks q -> x_namespace q ∈ l /\ x_service q ∈ l) as Hq.
  { intros l q. unfold ext_parse. rewrite <-(reverse_involutive l) at 2 3.
    destruct (reverse l) as [|a [|b [|c [|d [|x y]]]]]; intros [= <-]; simpl; rewrite !elem_of_reverse; set_solver. }
  destruct (ext_parse _) as [[ns|] c|q] eqn:E; [intros [= <- <-] []%elem_of_nil..|]. apply Hq in E as [En Es].
  destruct (namespaceExposed _ _) eqn:Ee; [|intros [= <- <-] []%elem_of_nil]. simpl. unfold ext_services. intros [= <- <-] Hs.
  split. { rewrite decide_False; [done|]. intros E. rewrite E in Hs. by apply elem_of_nil in Hs. }
  apply list_elem_of_In, in_flat_map in Hs as (svc & Hsvc & Hs). apply list_elem_of_In in Hsvc, Hs. apply SvcIndex_law in Hsvc as [Hl _].
  destruct (ext_items_sound _ _ _ _ _ _ Hl Hs) as (E1 & E2 & Ha). exists svc. rewrite E1, E2. by split_and!.
Qed.

(** ** The handler *)

Lemma ext_plugin_ok {X : Externaler} name e : plugin_ok (mkPlugin name (ext_ServeDNS e)).
Proof.
  intros next Hn r. apply next_or_failure_protocol in Hn. simpl. unfold ext_ServeDNS. case_decide; [apply Hn|].
  destruct (ext_answer _ _ _) as [[m|]|]; [|apply Hn|done]. split; [done|]. by eexists.
Qed.

(** Lookups elsewhere return a message. *)
Definition answers_ok e : Prop := forall u r, upstream_ e = Some u -> exists m, u r = Ok (Some m).

Lemma resolved_ok e r n t : answers_ok e -> Question r <> [] -> fine (resolved (upstream_ e) r n t).
Proof.
  intros Hu Hq. unfold resolved, Upstream_Lookup. destruct (upstream_ e) as [u|] eqn:E; [|by eexists]. unfold NewWithQuestion.
  destruct (Question r) as [|q0 qs]; [done|]. simpl. destruct (Hu u (set_question r (mkQ (Fqdn n) t ClassINET :: qs)) E) as [m ->]. by eexists.
Qed.

(** The records of each address that is not there yet. *)
Lemma ext_addresses_has e t r services dup :
  answers_ok e -> Question r <> [] ->
  exists records tc, ext_addresses e t r services dup = Ok (records, tc) /\
    forall s ip, s ∈ services -> t = TypeA -> HostType s = (TypeA, ip) -> Host s ∉ dup ->
    exists rr, rr ∈ records /\ rr_name rr = QName_ r /\ rr_type rr = TypeA /\ Data rr = RA ip /\ rr_ttl rr = x_ttl e.
Proof.
  intros Hu Hq. revert dup. induction services as [|s services IH]; intros dup.
  { eexists _, _. split; [done|]. by intros ? ? ?%elem_of_nil. }
  cbn [ext_addresses]. destruct (HostType s) as [what ip] eqn:Ew.
  case_decide as Hc; [|case_decide as Ht; [case_decide as Hd|]].
  - destruct (resolved_ok e r (Fqdn (Host s)) t Hu Hq) as [[fnd tc] ->]. destruct (IH dup) as (records & tc' & -> & Hall). simpl.
    eexists _, _. split; [done|]. intros s' ip' [->|Hs]%elem_of_cons Et Hh Hn; [rewrite Ew in Hh; by injection Hh as -> ->|].
    destruct (Hall s' ip' Hs Et Hh Hn) as (rr & ? & ?). exists rr. split; [|done]. right. apply elem_of_app. by right.
  - destruct (IH dup) as (records & tc' & -> & Hall). eexists _, _. split; [done|].
    intros s' ip' [->|Hs]%elem_of_cons Et Hh Hn; [done|by apply (Hall s')].
  - destruct (IH (Host s :: dup)) as (records & tc' & -> & Hall). simpl. eexists _, _. split; [done|].
    intros s' ip' Hs Et Hh Hn. destruct (decide (Host s' = Host s)) as [E|E].
    + eexists. split; [by left|]. subst t. rewrite decide_True by done. simpl. split_and!; [done|done| |done]. simpl. f_equal.
      revert Ew Hh. unfold HostType. rewrite E. destruct (ParseIP (Host s)) as [x|]; [destruct (To4 x); naive_solver|by repeat case_decide].
    + apply elem_of_cons in Hs as [->|Hs]; [done|]. destruct (Hall s' ip' Hs Et Hh) as (rr & ? & ?); [set_solver|]. exists rr. split; [by right|done].
  - destruct (IH dup) as (records & tc' & -> & Hall). eexists _, _. split; [done|].
    intros s' ip' [->|Hs]%elem_of_cons Et Hh Hn; [|by apply (Hall s')]. congruence.
Qed.

(** An external address of a service that is asked for is found. *)
Lemma External_found k zone r headless svc ip :
  QType_ r <> TypePTR -> SplitDomainName (trimmed (Name_ r) zone) = [svc_Name svc; svc_Namespace svc] ->
  namespaceExposed k (svc_Namespace svc) = true -> svc ∈ ServiceList -> ip ∈ svc_ExternalIPs svc ->
  exists sx s, kube_External k zone r headless = (sx, RcodeSuccess) /\ s ∈ sx /\ Host s = ip /\ Text s = EmptyString.
Proof.
  intros Ht Hn Hns Hs Hip. unfold kube_External. rewrite bool_decide_false by done. rewrite Hn. cbn [andb ext_parse reverse]. simpl. rewrite Hns.
  cbn [negb]. unfold ext_services. cbn [x_service x_namespace].
  set (q := mkExt EmptyString EmptyString EmptyString (svc_Name svc) (svc_Namespace svc)).
  set (sx := flat_map (ext_items k zone q headless) _).
  destruct (svc_Ports svc) as [|p ps] eqn:Ep; [by destruct (ports_of svc Hs)|].
  assert (exists s, s ∈ sx /\ Host s = ip /\ Text s = EmptyString) as (s & Hin & Hh).
  { exists (found ip (sp_Port p) (k_ttl k) [Path zone coredns; svc_Namespace svc; svc_Name svc]). split; [|done].
    apply (elem_of_flat_map _ _ _ svc). { apply SvcIndex_law. split; [done|]. by rewrite (svc_index svc Hs). }
    unfold ext_items. rewrite decide_False, decide_False by (simpl; congruence).
    rewrite (bool_decide_false (svc_ExternalIPs svc = [])) by (intros E; rewrite E in Hip; by apply elem_of_nil in Hip).
    rewrite andb_false_r. cbn [andb]. apply (elem_of_flat_map _ _ _ ip); [done|]. apply list_elem_of_fmap. exists p. split; [done|].
    apply list_elem_of_filter. split; [apply matchPort_any|]. rewrite Ep. by left. }
  exists sx, s. split; [|done]. rewrite decide_False; [done|]. intros E. rewrite E in Hin. by apply elem_of_nil in Hin.
Qed.

(** An A query for a service in an exposed namespace, in a zone of the plugin
    and not at its apex, is answered with authority and with an A record of
    each IPv4 external address, with the lifetime of the plugin. *)
Theorem ext_serves k e next r svc ip ip4 :
  let zone := Matches (x_Zones e) (Name_ r) in
  answers_ok e -> Question r <> [] -> QType_ r = TypeA -> zone <> EmptyString -> apex_query e (x_Zones e) (Name_ r) = None ->
  SplitDomainName (trimmed (Name_ r) zone) = [svc_Name svc; svc_Namespace svc] ->
  namespaceExposed k (svc_Namespace svc) = true -> svc ∈ ServiceList -> ip ∈ svc_ExternalIPs svc -> ParseIP ip ≫= To4 = Some ip4 ->
  exists m rr, @ext_ServeDNS L N (kube_externaler k) e next r = (Some m, Ok 0) /\ Rcode m = RcodeSuccess /\ Authoritative m = true /\
    rr ∈ Answer m /\ rr_name rr = QName_ r /\ rr_type rr = TypeA /\ Data rr = RA ip4 /\ rr_ttl rr = x_ttl e.
Proof.
  intros zone Hu Hq Ht Hz Ha Hn Hns Hs Hip H4.
  destruct (External_found k zone r (x_headless e) svc ip) as (sx & s & HE & Hin & Hh & Htx); [by rewrite Ht|done..|].
  assert (HostType s = (TypeA, ip4)) as HT.
  { unfold HostType. rewrite Hh. destruct (ParseIP ip) as [x|]; simpl in H4; [by rewrite H4|done]. }
  destruct (ext_addresses_has e TypeA r sx [] Hu Hq) as (records & tc & HA & Hall).
  destruct (Hall s ip4 Hin eq_refl HT) as (rr & Hrr & Hrest); [apply not_elem_of_nil|].
  exists (ext_reply r RcodeSuccess tc records [] []), rr. split; [|destruct Hrest as (? & ? & ? & ?); by split_and!].
  unfold ext_ServeDNS. fold zone. rewrite decide_False by done. unfold ext_answer. rewrite Ha. cbn [externalFunc kube_externaler].
  rewrite HE. destruct sx as [|s0 sx]; [by apply elem_of_nil in Hin|]. unfold ext_records. rewrite Ht, decide_True by done.
  unfold ext_a. rewrite HA. cbn. by destruct records; [apply elem_of_nil in Hrr|].
Qed.

(** ** Transfers *)

Lemma JoinStr_slash (p : string) l : JoinStr (("/" +:+ p) :: l) "/" = JoinStr (EmptyString :: p :: l) "/".
Proof. destruct l; [done|]. change (JoinStr (?a :: s :: l) "/") with (a +:+ "/" +:+ JoinStr (s :: l) "/"). simpl. done. Qed.

(** A key below the path of a zone names a domain. *)
Lemma fine_path_key zone prefix (l : list string) : (2 <= length l)%nat -> fine (Domain (JoinStr (Path zone prefix :: l) "/")).
Proof.
  intros Hl. unfold Path, path_Join, Clean. rewrite JoinStr_slash. apply Domain_total. simpl. lia.
Qed.

Definition good s : Prop := fine (Domain (Key s)).

Lemma ask_asks n : Question (ask n) <> [].
Proof. done. Qed.

Lemma offline_ok e : answers_ok (offline e).
Proof. by intros u r [=]. Qed.

Lemma fine_addresses e t services n : fine (ext_addresses (offline e) t (ask n) services []).
Proof. destruct (ext_addresses_has (offline e) t (ask n) services [] (offline_ok e) (ask_asks n)) as (l & tc & -> & _). by eexists. Qed.

Lemma fine_ext_srv e services n : Forall good services -> fine (ext_srv (offline e) services (ask n)).
Proof.
  intros H. unfold ext_srv. generalize (weights services). intros w. generalize (@nil item). induction H as [|s services Hs H IH]; intros dup.
  { by eexists. }
  cbn [ext_srv_loop]. case_decide; [apply IH|]. destruct (HostType s) as [what ip]. case_decide; [|case_decide; [|apply IH]].
  - destruct (isDuplicate _ _ _ _) as [d1 dup1]. destruct (isDuplicate _ _ _ _) as [d2 dup2].
    destruct (IH dup2) as [[records extra] E]. destruct d2; simpl; rewrite E; by eexists.
  - destruct Hs as [host ->]. simpl. destruct (isDuplicate _ _ _ _) as [d1 dup1]. destruct (isDuplicate _ _ _ _) as [d2 dup2].
    destruct (IH dup2) as [[records extra] ->]. by eexists.
Qed.

Lemma fine_send_services e svcs seen : Forall good svcs -> fine (send_services (offline e) svcs seen).
Proof.
  intros H. revert seen. induction H as [|s svcs Hs H IH]; intros seen; cbn [send_services]; [by eexists|].
  destruct Hs as [name Hn]. rewrite Hn. cbn [mbind result_bind].
  destruct (fine_addresses e TypeA [s] name) as [[a tca] Ea]. destruct (fine_addresses e TypeAAAA [s] name) as [[b tcb] Eb].
  destruct (fine_ext_srv e [s] name) as [[recs extra] Es]; [by constructor; [exists name|]|].
  unfold ext_a, ext_aaaa. rewrite Ea, Eb, Es. destruct (unseen recs seen) as [srvs seen'] eqn:Eu. destruct (IH seen') as [rest Er].
  destruct (decide (TargetStrip s = 0)); simpl; rewrite Eu, Er; by eexists.
Qed.

Lemma fine_send_endpoints e svcs name : Forall good svcs -> fine (send_endpoints (offline e) svcs name).
Proof.
  intros H. unfold send_endpoints, ext_a, ext_aaaa. destruct (fine_addresses e TypeA svcs name) as [[la ?] ->].
  destruct (fine_addresses e TypeAAAA svcs name) as [[lb ?] ->]. destruct (fine_ext_srv e svcs name H) as [[recs ?] ->]. by eexists.
Qed.

(** An entry of the map of headless services. *)
Definition good_entry (x : string * list Service) : Prop :=
  (exists i, LastIndexByte x.1 "/" = Some i /\ fine (Domain (take_str i x.1))) /\ Forall good x.2.

Lemma fine_send_headless e x : good_entry x -> fine (send_headless (offline e) x).
Proof.
  destruct x as [key svcs]. intros [(i & Hi & name & Hn) Hs]. simpl in *. rewrite Hi, Hn. simpl. case_decide.
  - destruct (fine_send_endpoints e svcs name Hs) as [all ->]. simpl. apply fine_bind; [|intros; by eexists].
    apply fine_all. intros s Hin. rewrite Forall_forall in Hs. destruct (Hs s Hin) as [n Hn']. rewrite Hn'. simpl.
    apply fine_send_endpoints. constructor; [by exists n|done].
  - case_decide; [|by eexists]. destruct (fine_ext_srv e svcs name Hs) as [[recs ?] ->]. by eexists.
Qed.

Lemma JoinStr_snoc (l : list string) x : l <> [] -> JoinStr (l ++ [x]) "/" = JoinStr l "/" +:+ String "/"%char x.
Proof. intros Hl. by rewrite <-JoinStr_app. Qed.

Lemma good_key_last (l : list string) x :
  l <> [] -> lacks x "/" -> fine (Domain (JoinStr l "/")) ->
  exists i, LastIndexByte (JoinStr (l ++ [x]) "/") "/" = Some i /\ fine (Domain (take_str i (JoinStr (l ++ [x]) "/"))).
Proof.
  intros Hl Hx Hd. rewrite JoinStr_snoc by done. exists (String.length (JoinStr l "/")). split; [by apply LastIndexByte_app|].
  by rewrite take_str_app.
Qed.

Lemma headless_entries_good k zone ns name addr p key s :
  (key, s) ∈ headless_entries k [Path zone coredns; ns; name] addr p ->
  (exists i, LastIndexByte key "/" = Some i /\ fine (Domain (take_str i key))) /\ good s.
Proof.
  unfold headless_entries. intros [[= -> ->]|Hin]%elem_of_cons.
  - split; [apply (good_key_last [_; _; _]); [done|done|]; apply fine_path_key; simpl; lia|].
    unfold good. cbn [Key found]. apply (fine_path_key zone coredns [ns; name; _]). simpl. lia.
  - case_decide; [by apply elem_of_nil in Hin|]. apply list_elem_of_singleton in Hin as [= -> ->]. unfold srv_key.
    split; [apply (good_key_last ([_; _; _] ++ [_; _])); [done|done|]; apply fine_path_key; simpl; lia|].
    unfold good. cbn [Key found]. apply (fine_path_key zone coredns [ns; name; _; _]). simpl. lia.
Qed.

Lemma add_all_good (l : list (string * Service)) m :
  (forall key s, (key, s) ∈ l -> (exists i, LastIndexByte key "/" = Some i /\ fine (Domain (take_str i key))) /\ good s) ->
  (forall key v, m !! key = Some v -> good_entry (key, v)) ->
  forall key v, foldl (fun m x => add_service x.1 x.2 m) m l !! key = Some v -> good_entry (key, v).
Proof.
  revert m. induction l as [|[key s] l IH]; intros m Hl Hm; [done|]. simpl. apply IH; [set_solver|].
  destruct (Hl key s) as [Hk Hs]; [by left|]. intros key' v. unfold add_service.
  destruct (decide (key = key')) as [<-|Hne]; [rewrite lookup_insert_eq|rewrite lookup_insert_ne by done; apply Hm].
  intros [= <-]. split; [done|]. simpl. apply Forall_app. split; [|by constructor].
  destruct (m !! key) as [v0|] eqn:E; [|done]. by destruct (Hm _ _ E).
Qed.

Lemma ExternalServices_good k zone headless :
  Forall good (ExternalServices k zone headless).1 /\
  forall key v, (ExternalServices k zone headless).2 !! key = Some v -> good_entry (key, v).
Proof.
  unfold ExternalServices. simpl. split.
  - apply Forall_forall. intros s (svc & _ & Hs)%list_elem_of_In%in_flat_map. apply list_elem_of_In in Hs.
    destruct (is_headless _ _); [by apply elem_of_nil in Hs|]. unfold external_entries in Hs.
    apply list_elem_of_In, in_flat_map in Hs as (ip & _ & Hs). apply in_flat_map in Hs as (p & _ & Hs). unfold good.
    destruct Hs as [<-|[<-|[]]]; cbn [Key found]; [apply (fine_path_key zone coredns [_; _])|apply (fine_path_key zone coredns [_; _; _; _])]; simpl; lia.
  - apply add_all_good; [|done]. intros key s (svc & _ & Hs)%list_elem_of_In%in_flat_map. apply list_elem_of_In in Hs.
    destruct (is_headless _ _); [|by apply elem_of_nil in Hs]. unfold svc_headless_entries in Hs.
    do 4 (apply list_elem_of_In, in_flat_map in Hs as (? & _ & Hs); apply list_elem_of_In in Hs). by eapply headless_entries_good.
Qed.

(** What a service without a strip adds. *)
Lemma send_services_has e svcs seen out s name ip4 :
  send_services (offline e) svcs seen = Ok out -> s ∈ svcs -> TargetStrip s = 0 -> HostType s = (TypeA, ip4) -> Domain (Key s) = Ok name ->
  [set_ttl (x_ttl e) (NewA s (NameString name) ip4)] ∈ out.
Proof.
  intros Hout Hs Ht Hh Hn. revert seen out Hout. induction svcs as [|s' svcs IH]; intros seen out; [by apply elem_of_nil in Hs|].
  cbn [send_services]. intros (name' & Hn' & (addrs & Ha & ([recs ?] & _ & Hrest)%bind_ok_inv)%bind_ok_inv)%bind_ok_inv.
  destruct (unseen recs seen) as [srvs seen']. apply bind_ok_inv in Hrest as (rest & Hr & [= <-]).
  apply elem_of_cons in Hs as [<-|Hs]; [|apply elem_of_app; right; apply elem_of_app; right; by eapply IH].
  apply elem_of_app. left. rewrite Hn in Hn'. injection Hn' as <-. rewrite decide_True in Ha by done.
  apply bind_ok_inv in Ha as ([la ?] & Ea & ([lb ?] & _ & [= <-])%bind_ok_inv). apply elem_of_app. left.
  unfold ext_a in Ea. cbn [ext_addresses] in Ea. rewrite Hh in Ea. rewrite decide_False, decide_True, decide_False in Ea by (done || apply not_elem_of_nil).
  simpl in Ea. injection Ea as <- <-. by left.
Qed.

Lemma external_listed k zone headless svc ip :
  svc ∈ ServiceList -> ip ∈ svc_ExternalIPs svc ->
  exists port, found ip port (k_ttl k) [Path zone coredns; svc_Namespace svc; svc_Name svc] ∈ (ExternalServices k zone headless).1.
Proof.
  intros Hs Hip. destruct (svc_Ports svc) as [|p ps] eqn:Ep; [by destruct (ports_of svc Hs)|]. exists (sp_Port p). simpl.
  apply (elem_of_flat_map _ _ _ svc); [done|]. unfold is_headless.
  rewrite (bool_decide_false (svc_ExternalIPs svc = [])) by (intros E; rewrite E in Hip; by apply elem_of_nil in Hip).
  rewrite andb_false_r. cbn [andb]. apply (elem_of_flat_map _ _ _ ip); [done|]. apply (elem_of_flat_map _ _ _ p); [rewrite Ep; by left|]. by left.
Qed.

(** A transfer of a zone does not panic; it starts and ends with the SOA
    record, and has an A record for every IPv4 external address of every
    service, whether its namespace is exposed or not. *)
Theorem ext_Transfer_complete {O : MapOrder} k e zone serial svc ip ip4 :
  Matches (x_Zones e) zone = zone -> zone <> dot -> (serial = 0 \/ serial < ExternalSerial) ->
  svc ∈ ServiceList -> ip ∈ svc_ExternalIPs svc -> ParseIP ip ≫= To4 = Some ip4 ->
  exists sent soa name, @ext_Transfer L N (kube_externaler k) O e zone serial = Some (Ok ([[soa]] ++ sent ++ [[soa]])) /\
    rr_type soa = TypeSOA /\ rr_name soa = zone /\
    Domain (JoinStr [Path zone coredns; svc_Namespace svc; svc_Name svc] "/") = Ok name /\
    [mkRR (mkHdr (NameString name) TypeA ClassINET (x_ttl e)) (RA ip4)] ∈ sent.
Proof.
  intros Hz Hd Hser Hs Hip H4. unfold ext_Transfer. rewrite (decide_False (P := _ <> _)) by (intros HX; by apply HX).
  rewrite (decide_False (P := zone = dot)) by done. destruct (fine_path_key zone coredns [svc_Namespace svc; svc_Name svc]) as [name Hn]; [simpl; lia|].
  destruct (Join_ok [hostmaster e; apex e; zone]) as [mbox Em]; [done|]. destruct (Join_ok ["ns1"; apex e; zone]) as [ns En]; [done|].
  unfold ext_soa. cbn [offline hostmaster apex x_ttl x_headless externalSerialFunc kube_externaler]. rewrite Em, En. cbn [mbind result_bind].
  rewrite decide_False by lia. cbn [externalServicesFunc kube_externaler].
  destruct (ExternalServices_good k zone (x_headless e)) as [Hg Hm]. destruct (external_listed k zone (x_headless e) svc ip Hs Hip) as [port Hl].
  destruct (ExternalServices k zone (x_headless e)) as [svcs m]. simpl in Hg, Hm, Hl.
  destruct (fine_send_services e svcs [] Hg) as [services Esv]. rewrite Esv. cbn [mbind result_bind].
  destruct (fine_all (send_headless (offline e)) (map_range m)) as [others ->].
  { intros [key v] Hin%elem_of_map_range. apply fine_send_headless. by apply Hm. }
  cbn [mbind result_bind].
  match goal with |- context [Some (Ok ([[?s]; [?n]] ++ ?a ++ services ++ others ++ _))] => exists ([[n]] ++ a ++ services ++ others), s, name end.
  split; [by rewrite <-!app_assoc|]. split_and!; [done|done|exact Hn|]. apply elem_of_app. right. apply elem_of_app. right. apply elem_of_app. left.
  assert (HostType (found ip port (k_ttl k) [Path zone coredns; svc_Namespace svc; svc_Name svc]) = (TypeA, ip4)) as HT.
  { unfold HostType. cbn [Host found]. destruct (ParseIP ip) as [x|]; simpl in H4; [by rewrite H4|done]. }
  exact (send_services_has e svcs [] services _ name ip4 Esv Hl eq_refl HT Hn).
Qed.

End facts.

(** ** A small cluster *)

Module ExternalSample.

#[local] Existing Instance PlainLib.lib.
#[local] Existing Instance Plain.names.
#[local] Existing Instance MapStore.indexer.
#[local] Existing Instance MapStore.indexer_spec.

Definition shop (ns ip : string) : api_Service :=
  mkApiService "1" "shop" ns ServiceTypeLoadBalancer EmptyString EmptyString ["10.0.0.7"] [] [mkServicePort "https" 443 "TCP"] [mkIngress ip EmptyString].

Definition events : history :=
  [(KNamespace, 1, [Create (ApiNamespace (mkApiNamespace "1" "default"))]);
   (KService, 100, [Create (ApiService (shop "default" "192.0.2.7")); Create (ApiService (shop "hidden" "192.0.2.9"))])].

#[local] Instance cluster : dnsController := control (after false true false events).
#[local] Instance cluster_spec : dnsControllerSpec cluster.
Proof. exact (control_spec _ (after_reachable false true false events)). Qed.

Definition kube : Kubernetes := mkKubernetes ["cluster.local."] None ∅ podModeDisabled false [] 5 false false [] 0 [[10; 1; 0; 2]] [].
Definition outside : External := mkExternal ["example.org."] [] "hostmaster" "dns" 30 false None.

Definition query (name : string) (t : Z) : Msg :=
  mkMsg 7 false OpcodeQuery false false true false false false RcodeSuccess [mkQ name t ClassINET] [] [] [].

#[local] Ltac holds := apply (bool_decide_unpack _); vm_compute; exact I.

Lemma shop_listed ns ip : (ns, ip) ∈ [("default", "192.0.2.7"); ("hidden", "192.0.2.9")] -> to_Service (shop ns ip) ∈ ServiceList.
Proof.
  intros H. apply list_elem_of_In. repeat (apply elem_of_cons in H as [[= -> ->]|H]; [vm_compute; tauto|]). exfalso. by apply elem_of_nil in H.
Qed.

Definition shop_services : list Service := Eval vm_compute in
  (kube_External kube "example.org." (query "shop.default.example.org." TypeA) false).1.

Lemma External_sound_witness :
  exists s, shop_services = [s] /\ RcodeSuccess = RcodeSuccess /\
  exists svc, svc ∈ ServiceList /\ namespaceExposed kube (svc_Namespace svc) = true /\
    svc_Namespace svc ∈ SplitDomainName (trimmed (Name_ (query "shop.default.example.org." TypeA)) "example.org.") /\
    svc_Name svc ∈ SplitDomainName (trimmed (Name_ (query "shop.default.example.org." TypeA)) "example.org.") /\
    external_address false svc (Host s).
Proof.
  eexists. split; [reflexivity|].
  apply (@External_sound PlainLib.lib Plain.names cluster cluster_spec kube "example.org." (query "shop.default.example.org." TypeA) false shop_services);
    [holds|vm_compute; reflexivity|by left].
Defined.

Lemma ext_serves_witness :
  exists m rr, @ext_ServeDNS _ _ (kube_externaler kube) outside None (query "shop.default.example.org." TypeA) = (Some m, Ok 0) /\
    Rcode m = RcodeSuccess /\ Authoritative m = true /\ rr ∈ Answer m /\ rr_name rr = QName_ (query "shop.default.example.org." TypeA) /\
    rr_type rr = TypeA /\ Data rr = RA [192; 0; 2; 7] /\ rr_ttl rr = x_ttl outside.
Proof.
  apply (@ext_serves PlainLib.lib Plain.names cluster cluster_spec kube outside None (query "shop.default.example.org." TypeA)
    (to_Service (shop "default" "192.0.2.7")) "192.0.2.7" [192; 0; 2; 7]).
  - by intros u r [=].
  - done.
  - reflexivity.
  - holds.
  - vm_compute. reflexivity.
  - vm_compute. reflexivity.
  - vm_compute. reflexivity.
  - apply shop_listed. by left.
  - by left.
  - vm_compute. reflexivity.
Defined.

#[local] Existing Instance list_order.

Lemma ext_Transfer_complete_witness :
  exists sent soa name, @ext_Transfer _ _ (kube_externaler kube) list_order outside "example.org." 0 = Some (Ok ([[soa]] ++ sent ++ [[soa]])) /\
    rr_type soa = TypeSOA /\ rr_name soa = "example.org." /\
    Domain (JoinStr [Path "example.org." coredns; "hidden"; "shop"] "/") = Ok name /\
    [mkRR (mkHdr (NameString name) TypeA ClassINET (x_ttl outside)) (RA [192; 0; 2; 9])] ∈ sent.
Proof.
  apply (@ext_Transfer_complete PlainLib.lib Plain.names cluster cluster_spec list_order kube outside "example.org." 0
    (to_Service (shop "hidden" "192.0.2.9")) "192.0.2.9" [192; 0; 2; 9]).
  - vm_compute. reflexivity.
  - done.
  - by left.
  - apply shop_listed. right. by left.
  - by left.
  - vm_compute. reflexivity.
Defined.

(** A service of a namespace that is hidden is transferred, and does not exist
    to a query. *)
Lemma hidden_transferred :
  namespaceExposed kube "hidden" = false /\
  kube_External kube "example.org." (query "shop.hidden.example.org." TypeA) false = ([], RcodeNameError) /\
  exists s, s ∈ (ExternalServices kube "example.org." false).1 /\ Domain (Key s) = Ok "shop.hidden.example.org." /\ Host s = "192.0.2.9".
Proof.
  split_and!; [vm_compute; reflexivity..|].
  destruct (external_listed kube "example.org." false (to_Service (shop "hidden" "192.0.2.9")) "192.0.2.9") as [port H];
    [apply shop_listed; right; by left|by left|].
  eexists. split; [exact H|]. split; vm_compute; reflexivity.
Qed.

End ExternalSample.
