(* ===== verification/Operator.v ===== *)
(** * The Kubernetes operator (operator)

    The objects of the operator's API (operator/api/v1alpha1), its Cloudflare
    client (operator/internal/cloudflare) and its reconcilers
    (operator/internal/controller): records and zones, the records kept at
    Cloudflare with a finalizer that cleans them up, and Pages projects whose
    domain is a record of their own.

    The API server, the transport to Cloudflare and JSON decoding are
    parameters ([KubeApi], [Edge]), as are the helpers of controllerutil
    ([ControllerUtil]).  A reconciler is a computation of the monad [M]: it
    passes on the world and stops at the first error. *)

From Stdlib Require Import Ascii ZArith Lia.
From stdpp Require Import base numbers gmap strings list.
From S2P Require Import Prelude Http.

Local Open Scope Z_scope.

(** ** Objects *)

Record ObjectMeta := mkMeta {
  meta_Name : string;
  meta_Namespace : string;
  ResourceVersion : Z;
  Finalizers : list string;
  DeletionTimestamp : option Z;
  OwnerReferences : list string }.

Definition NamespacedName : Type := (string * string)%type.
Definition name_of (m : ObjectMeta) : NamespacedName := (meta_Namespace m, meta_Name m).

Record DnsZoneSpec := mkZoneSpec {
  zs_Zone : string;
  zs_OrgID : string;
  zs_CloudflareZoneID : string;
  zs_SyncToCoreDNS : bool;
  zs_CoreDNSEndpoint : string }.

Record DnsZoneStatus := mkZoneStatus {
  zst_Phase : string;
  zst_RecordCount : nat;
  zst_LastSyncTime : option Z }.

Record DnsZone := mkDnsZone { zone_Meta : ObjectMeta; zone_Spec : DnsZoneSpec; zone_Status : DnsZoneStatus }.

Record DnsRecordSpec := mkRecordSpec {
  rs_ZoneRef : string;
  rs_Name : string;
  rs_Type : string;
  rs_Content : string;
  rs_TTL : Z;
  rs_Priority : option Z;
  rs_Proxied : bool;
  rs_SyncToCloudflare : bool }.

Record DnsRecordStatus := mkRecordStatus {
  rst_Phase : string;
  CloudflareRecordID : string;
  rst_LastSyncTime : option Z }.

Record DnsRecord := mkDnsRecord { rec_Meta : ObjectMeta; rec_Spec : DnsRecordSpec; rec_Status : DnsRecordStatus }.

Record PagesProjectSpec := mkProjectSpec {
  ps_AccountID : string;
  ps_ProjectName : string;
  ps_ProductionBranch : string;
  ps_CustomDomain : string;
  ps_ZoneRef : string }.

Record PagesProjectStatus := mkProjectStatus { pst_Phase : string; pst_Subdomain : string }.

Record PagesProject := mkPagesProject { pp_Meta : ObjectMeta; pp_Spec : PagesProjectSpec; pp_Status : PagesProjectStatus }.

#[export] Instance ObjectMeta_eq_dec : EqDecision ObjectMeta.
Proof. solve_decision. Defined.
#[export] Instance DnsRecordSpec_eq_dec : EqDecision DnsRecordSpec.
Proof. solve_decision. Defined.
#[export] Instance DnsRecordStatus_eq_dec : EqDecision DnsRecordStatus.
Proof. solve_decision. Defined.
#[export] Instance DnsRecord_eq_dec : EqDecision DnsRecord.
Proof. solve_decision. Defined.

Definition set_finalizers (r : DnsRecord) (l : list string) : DnsRecord :=
  let m := rec_Meta r in
  mkDnsRecord (mkMeta (meta_Name m) (meta_Namespace m) (ResourceVersion m) l (DeletionTimestamp m) (OwnerReferences m))
    (rec_Spec r) (rec_Status r).
Definition set_status (r : DnsRecord) (s : DnsRecordStatus) : DnsRecord := mkDnsRecord (rec_Meta r) (rec_Spec r) s.
Definition set_phase (r : DnsRecord) (p : string) : DnsRecord :=
  set_status r (mkRecordStatus p (CloudflareRecordID (rec_Status r)) (rst_LastSyncTime (rec_Status r))).

(** ** Errors and computations *)

(** Errors of the Cloudflare client. *)
Inductive cf_error : Type :=
| ApiError (code : Z) (message : string)
| Failed (status : Z)            (* no success and no error given *)
| Undecodable                    (* of the answer or of its result *)
| Unsent.                        (* the request is invalid, or the transport failed *)

Inductive op_error : Type :=
| NotFound
| ApiServer (e : string)         (* another error of the API server *)
| StatusLost (e : string)        (* an update of a status failed *)
| Cloudflare (e : cf_error).

Definition M (W A : Type) : Type := W -> result op_error A * W.

Definition ret {W A} (a : A) : M W A := fun w => (Ok a, w).
Definition fails {W A} (e : op_error) : M W A := fun w => (Err e, w).
Definition bind {W A B} (c : M W A) (k : A -> M W B) : M W B := fun w =>
  match c w with (Ok a, w') => k a w' | (Err e, w') => (Err e, w') end.
(** The error as a value, for code that looks at it. *)
Definition try {W A} (c : M W A) : M W (result op_error A) := fun w => let '(r, w') := c w in (Ok r, w').

Declare Scope op_scope.
Delimit Scope op_scope with op.
Notation "'let*' x := c 'in' k" := (bind c (fun x => k)) (at level 10, x pattern, c at level 100, k at level 200) : op_scope.
Notation "c ;;; k" := (bind c (fun _ => k)) (at level 199, right associativity) : op_scope.
Local Open Scope op_scope.

(** ** The Cloudflare client (client.go) *)

(** A DNS record at Cloudflare. *)
Record EdgeRecord := mkEdgeRecord {
  er_ID : string;
  er_Type : string;
  er_Name : string;
  er_Content : string;
  er_TTL : Z;
  er_Proxied : bool;
  er_Priority : option Z }.

#[export] Instance EdgeRecord_eq_dec : EqDecision EdgeRecord.
Proof. solve_decision. Defined.

Record EdgeProject := mkEdgeProject { ep_Name : string; ep_Subdomain : string; ep_ProductionBranch : string }.

(** The raw result is empty when there is none. *)
Record apiResponse := mkApiResponse { ar_Success : bool; ar_Errors : list (Z * string); ar_Result : string }.

(** The transport and the decoders; [None] is a JSON error. *)
Record Edge (W : Type) := mkEdge {
  edge_do : HttpCall -> W -> HttpReply * W;
  edge_request_ok : string -> bool;
  get_response : string -> option apiResponse;
  get_records : string -> option (list EdgeRecord);
  get_record_ : string -> option EdgeRecord;
  get_project_ : string -> option EdgeProject }.
Arguments edge_do {W} _ _ _.
Arguments edge_request_ok {W} _ _.
Arguments get_response {W} _ _.
Arguments get_records {W} _ _.
Arguments get_record_ {W} _ _.
Arguments get_project_ {W} _ _.

(** Records and projects as JSON objects. *)
Definition record_body (r : EdgeRecord) : gmap string JVal :=
  let m : gmap string JVal :=
    <["type" := JStr (er_Type r)]> (<["name" := JStr (er_Name r)]>
    (<["content" := JStr (er_Content r)]> (<["proxied" := JBool (er_Proxied r)]> ∅))) in
  let m := if decide (er_ID r <> EmptyString) then <["id" := JStr (er_ID r)]> m else m in
  let m := if decide (er_TTL r <> 0) then <["ttl" := JNum (er_TTL r)]> m else m in
  match er_Priority r with Some p => <["priority" := JNum p]> m | None => m end.

Definition project_body (p : EdgeProject) : gmap string JVal :=
  let m : gmap string JVal := <["name" := JStr (ep_Name p)]> ∅ in
  let m := if decide (ep_Subdomain p <> EmptyString) then <["subdomain" := JStr (ep_Subdomain p)]> m else m in
  if decide (ep_ProductionBranch p <> EmptyString) then <["production_branch" := JStr (ep_ProductionBranch p)]> m else m.

Record Client := mkClient { Token : string; BaseURL : string }.

Definition DefaultBaseURL : string := "https://api.cloudflare.com/client/v4".

Definition edge_New (token : string) : Client := mkClient token DefaultBaseURL.

Section client.
Context {W : Type} (E : Edge W) (c : Client).

(** The result decoded with [out], or its zero value when there is none. *)
Definition op_do {A} (method path : string) (body : option (gmap string JVal)) (out : string -> option A) (zero : A) : M W A := fun w =>
  let url := (BaseURL c +++ path)%string in
  if negb (edge_request_ok E url) then (Err (Cloudflare Unsent), w)
  else
    match edge_do E (mkCall method url ("Bearer " +++ Token c)%string body) w with
    | (None, w) => (Err (Cloudflare Unsent), w)
    | (Some (status, data), w) =>
        (match get_response E data with
         | None => Err (Cloudflare Undecodable)
         | Some ar =>
             if negb (ar_Success ar) then
               match ar_Errors ar with
               | (code, message) :: _ => Err (Cloudflare (ApiError code message))
               | [] => Err (Cloudflare (Failed status))
               end
             else if decide (ar_Result ar = EmptyString) then Ok zero
             else match out (ar_Result ar) with Some a => Ok a | None => Err (Cloudflare Undecodable) end
         end, w)
    end.

(** [do] without a place for the result. *)
Definition op_do_nil (method path : string) (body : option (gmap string JVal)) : M W unit := op_do method path body (fun _ => Some tt) tt.

(** An error of this code is no error. *)
Definition unless {A} (code : Z) (x : M W A) (a : A) : M W A :=
  let* r := try x in
  match r with
  | Ok b => ret b
  | Err e => match e with
             | Cloudflare (ApiError n _) => if decide (n = code) then ret a else fails e
             | _ => fails e
             end
  end.

Definition FindRecord (zoneID name recType : string) : M W (option EdgeRecord) :=
  let query := ("name=" +++ QueryEscape name +++ "&type=" +++ QueryEscape recType)%string in
  let* recs := op_do "GET" ("/zones/" +++ zoneID +++ "/dns_records?" +++ query)%string None (get_records E) [] in
  ret (head recs).

Definition empty_record : EdgeRecord := mkEdgeRecord EmptyString EmptyString EmptyString EmptyString 0 false None.

Definition edge_CreateRecord (zoneID : string) (r : EdgeRecord) : M W string :=
  let* out := op_do "POST" ("/zones/" +++ zoneID +++ "/dns_records")%string (Some (record_body r)) (get_record_ E) empty_record in
  ret (er_ID out).

Definition edge_UpdateRecord (zoneID id : string) (r : EdgeRecord) : M W unit :=
  op_do_nil "PUT" ("/zones/" +++ zoneID +++ "/dns_records/" +++ id)%string (Some (record_body r)).

Definition recordMissing : Z := 81044.

Definition edge_DeleteRecord (zoneID id : string) : M W unit :=
  unless recordMissing (op_do_nil "DELETE" ("/zones/" +++ zoneID +++ "/dns_records/" +++ id)%string None) tt.

Definition empty_project : EdgeProject := mkEdgeProject EmptyString EmptyString EmptyString.

Definition GetPagesProject (accountID name : string) : M W (option EdgeProject) :=
  unless 8000007
    (let* p := op_do "GET" ("/accounts/" +++ accountID +++ "/pages/projects/" +++ name)%string None (get_project_ E) empty_project in
     ret (Some p)) None.

Definition CreatePagesProject (accountID : string) (p : EdgeProject) : M W EdgeProject :=
  let p := if decide (ep_ProductionBranch p = EmptyString) then mkEdgeProject (ep_Name p) (ep_Subdomain p) "main" else p in
  op_do "POST" ("/accounts/" +++ accountID +++ "/pages/projects")%string (Some (project_body p)) (get_project_ E) empty_project.

Definition AddPagesDomain (accountID project domain : string) : M W unit :=
  unless 8000038
    (op_do_nil "POST" ("/accounts/" +++ accountID +++ "/pages/projects/" +++ project +++ "/domains")%string
       (Some (<["name" := JStr domain]> ∅))) tt.

End client.

(** ** The API server *)

(** Helpers of controllerutil.  [AddFinalizer] says whether it added it. *)
Class ControllerUtil := {
  ContainsFinalizer : DnsRecord -> string -> bool;
  AddFinalizer : DnsRecord -> string -> DnsRecord * bool;
  RemoveFinalizer : DnsRecord -> string -> DnsRecord;
  SetControllerReference : ObjectMeta -> DnsRecord -> result string DnsRecord }.

(** The calls of the client of controller-runtime.  A call that writes an
    object returns it as the server has it then; one that writes a status
    returns the text of an error.
    [CreateOrUpdate] is given what to make of the object. *)
Record KubeApi (W : Type) := mkKubeApi {
  get_zone : NamespacedName -> M W DnsZone;
  get_record : NamespacedName -> M W DnsRecord;
  get_project : NamespacedName -> M W PagesProject;
  list_zones : string -> M W (list DnsZone);
  list_records : string -> M W (list DnsRecord);
  update_record : DnsRecord -> M W DnsRecord;
  put_zone_status : DnsZone -> W -> option string * W;
  put_record_status : DnsRecord -> W -> option string * W;
  put_project_status : PagesProject -> W -> option string * W;
  CreateOrUpdate : DnsRecord -> (DnsRecord -> result string DnsRecord) -> M W unit;
  time_Now : W -> Z }.
Arguments get_zone {W} _ _.
Arguments get_record {W} _ _.
Arguments get_project {W} _ _.
Arguments list_zones {W} _ _.
Arguments list_records {W} _ _.
Arguments update_record {W} _ _.
Arguments put_zone_status {W} _ _ _.
Arguments put_record_status {W} _ _ _.
Arguments put_project_status {W} _ _ _.
Arguments CreateOrUpdate {W} _ _ _.
Arguments time_Now {W} _ _.

(** ** The reconcilers *)

(** An update of a status, with its error told apart. *)
Definition status_update {W} (put : W -> option string * W) : M W unit := fun w =>
  match put w with (None, w') => (Ok tt, w') | (Some e, w') => (Err (StatusLost e), w') end.

Definition update_zone_status {W} (K : KubeApi W) (z : DnsZone) : M W unit := status_update (put_zone_status K z).
Definition update_record_status {W} (K : KubeApi W) (r : DnsRecord) : M W unit := status_update (put_record_status K r).
Definition update_project_status {W} (K : KubeApi W) (p : PagesProject) : M W unit := status_update (put_project_status K p).

(** When to reconcile again, in seconds; 0: no such time. *)
Definition op_Result : Type := Z.

Definition cloudflareFinalizer : string := "dns.hanzo.ai/cloudflare-cleanup".

Definition op_fqdn (name zone : string) : string :=
  if decide (zone = EmptyString \/ name = zone) then name
  else if decide (name = "@" \/ name = EmptyString) then zone
  else if HasSuffix name ("." +++ zone)%string then name
  else (name +++ "." +++ zone)%string.

Definition ttlOrDefault (ttl : Z) : Z := if decide (ttl <= 0) then 1 else ttl.

Section reconcilers.
Context {W : Type} {U : ControllerUtil} (K : KubeApi W) (E : Edge W).

(** [client.IgnoreNotFound], and the tests for it of the other reconcilers: an
    object that is gone ends the reconciliation. *)
Definition unless_gone {A} (x : M W A) (k : A -> M W op_Result) : M W op_Result :=
  let* r := try x in
  match r with
  | Ok a => k a
  | Err NotFound => ret 0
  | Err e => fails e
  end.

(** *** Zones (dnszone_controller.go) *)

Record syncRecord := mkOpSyncRecord {
  sr_Name : string;
  sr_Type : string;
  sr_TTL : Z;
  sr_Content : string;
  sr_Priority : Z;
  sr_Proxied : bool }.

Record syncZone := mkOpSyncZone { sz_Zone : string; sz_OrgID : string; sz_Records : list syncRecord }.

(** Posting a payload of one zone: [None] is an invalid address or an error of
    the transport. *)
Variable post_zone : string -> syncZone -> W -> option Z * W.

Definition sync_record (rec : DnsRecord) : syncRecord :=
  let s := rec_Spec rec in
  mkOpSyncRecord (rs_Name s) (rs_Type s) (rs_TTL s) (rs_Content s) (default 0 (rs_Priority s)) (rs_Proxied s).

Definition defaultEndpoint : string := "http://coredns-hanzodns.dns-system.svc:8443".

(** The flag: there was no error. *)
Definition op_syncToCoreDNS (zone : DnsZone) (records : list DnsRecord) : W -> bool * W := fun w =>
  let payload := mkOpSyncZone (zs_Zone (zone_Spec zone)) (zs_OrgID (zone_Spec zone)) (sync_record <$> records) in
  let endpoint := if decide (zs_CoreDNSEndpoint (zone_Spec zone) = EmptyString) then defaultEndpoint
                  else zs_CoreDNSEndpoint (zone_Spec zone) in
  let '(status, w) := post_zone (endpoint +++ "/api/v1/sync")%string payload w in
  (bool_decide (status = Some 200), w).

Definition zone_Reconcile (req : NamespacedName) : M W op_Result :=
  unless_gone (get_zone K req) (fun zone =>
  let* recordList := list_records K req.1 in
  let zoneRecords := filter (fun rec => rs_ZoneRef (rec_Spec rec) = meta_Name (zone_Meta zone)) recordList in
  let counted phase last := mkDnsZone (zone_Meta zone) (zone_Spec zone) (mkZoneStatus phase (length zoneRecords) last) in
  let last := zst_LastSyncTime (zone_Status zone) in
  if zs_SyncToCoreDNS (zone_Spec zone) then
    fun w =>
      match op_syncToCoreDNS zone zoneRecords w with
      | (false, w) => (try (update_zone_status K (counted "Error" last));;; ret 30) w
      | (true, w) => (update_zone_status K (counted "Active" (Some (time_Now K w)));;; ret 60) w
      end
  else update_zone_status K (counted "Active" last);;; ret 60).

(** *** Records (dnsrecord_controller.go) *)

Definition record_Reconcile (req : NamespacedName) : M W op_Result :=
  unless_gone (get_record K req) (fun record =>
  let* zoneList := list_zones K req.1 in
  if existsb (fun z => bool_decide (meta_Name (zone_Meta z) = rs_ZoneRef (rec_Spec record))) zoneList
  then update_record_status K (set_phase record "Active");;; ret 0
  else update_record_status K (set_phase record "Error");;; ret 30).

(** *** Records at Cloudflare (cloudflare_controller.go) *)

(** The zone of a record; none when zones cannot be listed. *)
Definition op_zone (ns zoneRef : string) : M W (option DnsZone) :=
  let* zones := try (list_zones K ns) in
  match zones with
  | Ok zones => ret (snd <$> list_find (fun z => meta_Name (zone_Meta z) = zoneRef) zones)
  | Err _ => ret None
  end.

Definition op_zoneID (ns zoneRef : string) : M W string :=
  let* z := op_zone ns zoneRef in
  ret (match z with Some z => zs_CloudflareZoneID (zone_Spec z) | None => EmptyString end).

Definition op_zoneName (ns zoneRef : string) : M W string :=
  let* z := op_zone ns zoneRef in
  ret (match z with Some z => zs_Zone (zone_Spec z) | None => EmptyString end).

Definition markError (record : DnsRecord) : M W op_Result :=
  update_record_status K (set_phase record "Error");;; ret 60.

(** The two places that clean up at the edge and release the finalizer. *)
Definition op_cleanup (CF : option Client) (zoneID : string) (record : DnsRecord) : M W op_Result :=
  if ContainsFinalizer record cloudflareFinalizer then
    (match CF with
     | Some cf => if decide (zoneID <> EmptyString /\ CloudflareRecordID (rec_Status record) <> EmptyString)
                  then edge_DeleteRecord E cf zoneID (CloudflareRecordID (rec_Status record)) else ret tt
     | None => ret tt
     end);;;
    update_record K (RemoveFinalizer record cloudflareFinalizer);;;
    ret 0
  else ret 0.

Definition desired (record : DnsRecord) (zone : string) : EdgeRecord :=
  let s := rec_Spec record in
  mkEdgeRecord EmptyString (rs_Type s) (op_fqdn (rs_Name s) zone) (rs_Content s) (ttlOrDefault (rs_TTL s)) (rs_Proxied s) (rs_Priority s).

(** The id of the record at the edge, created, adopted or updated. *)
Definition put_edge (cf : Client) (zoneID id : string) (want : EdgeRecord) : M W string :=
  if decide (id = EmptyString) then
    let* existing := FindRecord E cf zoneID (er_Name want) (er_Type want) in
    match existing with
    | Some e => edge_UpdateRecord E cf zoneID (er_ID e) want;;; ret (er_ID e)
    | None => edge_CreateRecord E cf zoneID want
    end
  else edge_UpdateRecord E cf zoneID id want;;; ret id.

Definition add_finalizer (record : DnsRecord) : M W DnsRecord :=
  match AddFinalizer record cloudflareFinalizer with
  | (record, true) => update_record K record
  | (record, false) => ret record
  end.

Definition cf_Reconcile (CF : option Client) (req : NamespacedName) : M W op_Result :=
  unless_gone (get_record K req) (fun record =>
  let ns := meta_Namespace (rec_Meta record) in
  let* zoneID := op_zoneID ns (rs_ZoneRef (rec_Spec record)) in
  if decide (DeletionTimestamp (rec_Meta record) <> None) then op_cleanup CF zoneID record
  else if negb (rs_SyncToCloudflare (rec_Spec record)) then op_cleanup CF zoneID record
  else
    match CF with
    | None => ret 0
    | Some cf =>
        if decide (zoneID = EmptyString) then markError record
        else
          let* record := add_finalizer record in
          let* zone := op_zoneName (meta_Namespace (rec_Meta record)) (rs_ZoneRef (rec_Spec record)) in
          let* id := put_edge cf zoneID (CloudflareRecordID (rec_Status record)) (desired record zone) in
          (fun w => update_record_status K (set_status record (mkRecordStatus "Active" id (Some (time_Now K w)))) w);;;
          ret 300
    end).

(** *** Pages (pagesproject_controller.go) *)

Definition with_status (pp : PagesProject) (s : PagesProjectStatus) : PagesProject := mkPagesProject (pp_Meta pp) (pp_Spec pp) s.

Definition pages_fail (pp : PagesProject) : M W op_Result :=
  update_project_status K (with_status pp (mkProjectStatus "Error" (pst_Subdomain (pp_Status pp))));;; ret 60.

Definition domain_spec (pp : PagesProject) (subdomain : string) : DnsRecordSpec :=
  mkRecordSpec (ps_ZoneRef (pp_Spec pp)) (ps_CustomDomain (pp_Spec pp)) "CNAME" subdomain 0 None true true.

Definition new_record (name ns : string) : DnsRecord :=
  mkDnsRecord (mkMeta name ns 0 [] None []) (mkRecordSpec EmptyString EmptyString EmptyString EmptyString 0 None false false)
    (mkRecordStatus EmptyString EmptyString None).

Definition ensureDomainRecord (pp : PagesProject) (subdomain : string) : M W unit :=
  CreateOrUpdate K (new_record (meta_Name (pp_Meta pp) +++ "-domain")%string (meta_Namespace (pp_Meta pp)))
    (fun rec => SetControllerReference (pp_Meta pp) (mkDnsRecord (rec_Meta rec) (domain_spec pp subdomain) (rec_Status rec))).

(** The steps that fail the reconciliation: the project with its domain. *)
Definition ensure_project (cf : Client) (pp : PagesProject) (name : string) : M W EdgeProject :=
  let account := ps_AccountID (pp_Spec pp) in
  let* found := GetPagesProject E cf account name in
  let* proj := match found with
               | Some p => ret p
               | None => CreatePagesProject E cf account (mkEdgeProject name EmptyString (ps_ProductionBranch (pp_Spec pp)))
               end in
  (if decide (ps_CustomDomain (pp_Spec pp) = EmptyString) then ret tt
   else
     AddPagesDomain E cf account name (ps_CustomDomain (pp_Spec pp));;;
     (if decide (ps_ZoneRef (pp_Spec pp) = EmptyString) then ret tt else ensureDomainRecord pp (ep_Subdomain proj)));;;
  ret proj.

Definition pages_Reconcile (CF : option Client) (req : NamespacedName) : M W op_Result :=
  unless_gone (get_project K req) (fun pp =>
  if decide (DeletionTimestamp (pp_Meta pp) <> None) then ret 0
  else
    match CF with
    | None => ret 0
    | Some cf =>
        let name := if decide (ps_ProjectName (pp_Spec pp) = EmptyString) then meta_Name (pp_Meta pp) else ps_ProjectName (pp_Spec pp) in
        let* proj := try (ensure_project cf pp name) in
        match proj with
        | Err _ => pages_fail pp
        | Ok proj => update_project_status K (with_status pp (mkProjectStatus "Ready" (ep_Subdomain proj)));;; ret 600
        end
    end).

End reconcilers.
