(* ===== verification/OperatorFacts.v ===== *)
(** * Correctness of the operator

    What the API server and Cloudflare promise ([OpSpec]), with other clients
    of both acting between any two calls, and what the reconciler of records
    at Cloudflare makes of it.  No more records are left behind at Cloudflare
    than there were reconciliations with a lost answer, a failed write of a
    status or no token ([operator_no_orphans]); when nobody interferes and no call fails a
    reconciliation brings the record there up to date ([cf_Reconcile_syncs]) or
    removes it ([cf_Reconcile_cleans]), and the domain of a Pages project
    reaches Cloudflare ([pages_domain_served]).  The module [OpSample] is a
    cluster in memory, with the ways in which records are left behind. *)

From Stdlib Require Import Ascii ZArith Lia.
From stdpp Require Import base numbers gmap strings list.
From S2P Require Import Prelude Http Operator.

Local Open Scope Z_scope.
Local Open Scope op_scope.

(** ** Postconditions *)

(** What holds of the result and the world after a computation. *)
Definition wp {W A} (c : M W A) (Q : result op_error A -> W -> Prop) (w : W) : Prop := Q (c w).1 (c w).2.

Lemma wp_ret {W A} (a : A) Q (w : W) : Q (Ok a) w -> wp (ret a) Q w.
Proof. done. Qed.

Lemma wp_fails {W A} e Q (w : W) : Q (Err e) w -> wp (@fails W A e) Q w.
Proof. done. Qed.

Lemma wp_bind {W A B} (c : M W A) (k : A -> M W B) Q w :
  wp c (fun r w' => match r with Ok a => wp (k a) Q w' | Err e => Q (Err e) w' end) w -> wp (bind c k) Q w.
Proof. unfold wp, bind. by destruct (c w) as [[a|e] w']. Qed.

Lemma wp_try {W A} (c : M W A) Q w : wp c (fun r w' => Q (Ok r) w') w -> wp (try c) Q w.
Proof. unfold wp, try. by destruct (c w). Qed.

Lemma wp_mono {W A} (c : M W A) (Q Q' : result op_error A -> W -> Prop) w :
  (forall r w', Q r w' -> Q' r w') -> wp c Q w -> wp c Q' w.
Proof. intros H. apply H. Qed.

(** A computation that reads the world. *)
Lemma wp_here {W A} (c : W -> M W A) Q w : wp (c w) Q w -> wp (fun w => c w w) Q w.
Proof. done. Qed.

Lemma wp_unless_gone {W A} (x : M W A) k Q w :
  wp x (fun r w' => match r with Ok a => wp (k a) Q w' | Err NotFound => Q (Ok 0) w' | Err e => Q (Err e) w' end) w ->
  wp (unless_gone x k) Q w.
Proof. intros H. apply wp_bind, wp_try. eapply wp_mono, H. by intros [a|[]] w'. Qed.

Lemma wp_unless {W A} code (x : M W A) a Q w :
  wp x (fun r w' => match r with
                    | Err (Cloudflare (ApiError n _)) => if decide (n = code) then Q (Ok a) w' else Q r w'
                    | _ => Q r w'
                    end) w -> wp (unless code x a) Q w.
Proof.
  intros H. apply wp_bind, wp_try. eapply wp_mono, H. intros [b|[| | |[]]] w'; try done. by destruct (decide _).
Qed.

(** ** What the API server and Cloudflare promise *)

(** The state: the objects of the cluster, the records at Cloudflare by zone
    and id, and the revision of the cluster. *)
Class OpView (W : Type) := {
  v_recs : W -> gmap NamespacedName DnsRecord;
  v_zones : W -> gmap NamespacedName DnsZone;
  v_edge : W -> gmap (string * string) EdgeRecord;
  v_rev : W -> Z }.

Definition version (r : DnsRecord) : Z := ResourceVersion (rec_Meta r).
Definition finalizers (r : DnsRecord) : list string := Finalizers (rec_Meta r).
Definition rec_key (r : DnsRecord) : NamespacedName := name_of (rec_Meta r).

Definition at_version (v : Z) (r : DnsRecord) : DnsRecord :=
  let m := rec_Meta r in
  mkDnsRecord (mkMeta (meta_Name m) (meta_Namespace m) v (Finalizers m) (DeletionTimestamp m) (OwnerReferences m)) (rec_Spec r) (rec_Status r).

Definition with_id (id : string) (r : EdgeRecord) : EdgeRecord :=
  mkEdgeRecord id (er_Type r) (er_Name r) (er_Content r) (er_TTL r) (er_Proxied r) (er_Priority r).

(** The objects at a later time: those of before, or of a newer version. *)
Definition later `{OpView W} (w w' : W) : Prop :=
  v_rev w <= v_rev w' /\ forall k b, v_recs w' !! k = Some b -> v_recs w !! k = Some b \/ v_rev w < version b.

(** A call to Cloudflare that leaves these records there. *)
Definition edge_only `{OpView W} (w w' : W) (m : gmap (string * string) EdgeRecord) : Prop :=
  v_recs w' = v_recs w /\ v_zones w' = v_zones w /\ v_rev w' = v_rev w /\ v_edge w' = m.

(** A write of an object of this key. *)
Definition stored `{OpView W} (w w' : W) (k : NamespacedName) (r : DnsRecord) : Prop :=
  v_recs w' = (if decide (finalizers r = [] /\ DeletionTimestamp (rec_Meta r) <> None) then delete k (v_recs w) else <[k := r]> (v_recs w)) /\
  v_zones w' = v_zones w /\ v_edge w' = v_edge w /\ v_rev w <= v_rev w' /\ (v_rev w < version r \/ v_recs w !! k = Some r).

Definition record_path (z id : string) : string := ("/zones/" +++ z +++ "/dns_records/" +++ id)%string.

(** What the calls that write do, after others have acted ([env]).  A write of
    an object needs the version of the stored object, of which it leaves the
    status, or the rest if it is a write of the status. *)
Definition wrote `{OpView W} (env : relation W) (w w' : W) (rec rec' : DnsRecord) : Prop :=
  exists w0 old v, env w w0 /\ v_recs w0 !! rec_key rec = Some old /\ version old = version rec /\
    rec' = at_version v (set_status rec (rec_Status old)) /\ stored w0 w' (rec_key rec) rec'.

Definition wrote_status `{OpView W} (env : relation W) (w w' : W) (rec : DnsRecord) : Prop :=
  exists w0 old v, env w w0 /\ v_recs w0 !! rec_key rec = Some old /\ version old = version rec /\
    stored w0 w' (rec_key rec) (at_version v (set_status old (rec_Status rec))).

Definition created `{OpView W} (env : relation W) (w w' : W) (z : string) (x : EdgeRecord) (id : string) : Prop :=
  exists w0, env w w0 /\ id <> EmptyString /\ v_edge w0 !! (z, id) = None /\ edge_only w0 w' (<[(z, id) := with_id id x]> (v_edge w0)).

Definition changed `{OpView W} (env : relation W) (w w' : W) (z id : string) (x : EdgeRecord) : Prop :=
  exists w0, env w w0 /\ is_Some (v_edge w0 !! (z, id)) /\ edge_only w0 w' (<[(z, id) := with_id id x]> (v_edge w0)).

Definition removed `{OpView W} (env : relation W) (w w' : W) (z id : string) : Prop :=
  exists w0, env w w0 /\ edge_only w0 w' (delete (z, id) (v_edge w0)).

(** The answer was lost or does not decode: the call may have been done. *)
Definition in_doubt (e : op_error) : bool :=
  match e with Cloudflare Unsent | Cloudflare Undecodable => true | _ => false end.

(** [env w w']: what other clients do between two calls.  A read returns what
    is there; an object that is being deleted is gone when its last finalizer
    is.  A write to the API server that fails may have been done all the same,
    and so may a call to Cloudflare whose answer is lost; one that Cloudflare
    answers with an error was not done. *)
Class OpSpec {W} {V : OpView W} {U : ControllerUtil} (K : KubeApi W) (E : Edge W) (cf : Client) (env : relation W) : Prop := {
  env_preorder :: PreOrder env;
  env_later w w' : env w w' -> later w w';
  recs_key w k r : v_recs w !! k = Some r -> rec_key r = k /\ version r <= v_rev w;
  zones_key w k z : v_zones w !! k = Some z -> name_of (zone_Meta z) = k;
  contains_spec r f : ContainsFinalizer r f = true <-> f ∈ finalizers r;
  add_spec r f : exists l, AddFinalizer r f = (set_finalizers r l, negb (ContainsFinalizer r f)) /\ f ∈ l /\ (f ∈ finalizers r -> l = finalizers r);
  remove_spec r f : exists l, RemoveFinalizer r f = set_finalizers r l /\ forall g, g ∈ l <-> g ∈ finalizers r /\ g <> f;
  get_record_spec k w : wp (get_record K k) (fun r w' => env w w' /\
    match r with Ok rec => v_recs w' !! k = Some rec | Err NotFound => v_recs w' !! k = None | Err _ => True end) w;
  list_zones_spec ns w : wp (list_zones K ns) (fun r w' => env w w' /\
    match r with Ok l => forall z, z ∈ l <-> exists n, v_zones w' !! (ns, n) = Some z | Err _ => True end) w;
  update_record_spec rec w : wp (update_record K rec) (fun r w' =>
    match r with
    | Ok rec' => wrote env w w' rec rec'
    | Err _ => env w w' \/ exists rec', wrote env w w' rec rec'
    end) w;
  put_status_spec rec w : match put_record_status K rec w with
    | (None, w') => wrote_status env w w' rec
    | (Some _, w') => env w w' \/ wrote_status env w w' rec
    end;
  find_spec z name t w : wp (op_do E cf "GET" ("/zones/" +++ z +++ "/dns_records?name=" +++ QueryEscape name +++ "&type=" +++ QueryEscape t)%string
      None (get_records E) []) (fun r w' => env w w' /\
    match r with
    | Ok l => (forall x, x ∈ l -> v_edge w' !! (z, er_ID x) = Some x /\ er_ID x <> EmptyString) /\
              (l = [] -> forall id x, v_edge w' !! (z, id) = Some x -> er_Name x = name -> er_Type x <> t)
    | Err _ => True
    end) w;
  create_spec z x w : wp (op_do E cf "POST" ("/zones/" +++ z +++ "/dns_records")%string (Some (record_body x)) (get_record_ E) empty_record) (fun r w' =>
    match r with
    | Ok out => created env w w' z x (er_ID out)
    | Err e => env w w' \/ in_doubt e = true /\ exists id, created env w w' z x id
    end) w;
  update_spec z id x w : wp (op_do_nil E cf "PUT" (record_path z id) (Some (record_body x))) (fun r w' =>
    match r with
    | Ok _ => changed env w w' z id x
    | Err e => env w w' \/ in_doubt e = true /\ changed env w w' z id x
    end) w;
  delete_spec z id w : wp (op_do_nil E cf "DELETE" (record_path z id) None) (fun r w' =>
    match r with
    | Ok _ => removed env w w' z id
    | Err (Cloudflare (ApiError n _)) => env w w' /\ (n = recordMissing -> v_edge w' !! (z, id) = None)
    | Err e => env w w' \/ in_doubt e = true /\ removed env w w' z id
    end) w }.

(** ** Versions and stored objects *)

Lemma later_refl `{OpView W} (w : W) : later w w.
Proof. split; [lia|auto]. Qed.

Lemma later_trans `{OpView W} (w1 w2 w3 : W) : later w1 w2 -> later w2 w3 -> later w1 w3.
Proof. intros [L1 H1] [L2 H2]. split; [lia|]. intros k b Hb. destruct (H2 _ _ Hb) as [?|?]; [eauto|right; lia]. Qed.

Lemma later_edge `{OpView W} (w w' : W) m : edge_only w w' m -> later w w'.
Proof. intros (E1 & _ & E2 & _). split; [lia|]. rewrite E1. auto. Qed.

Lemma later_stored `{OpView W} (w w' : W) k r : stored w w' k r -> later w w'.
Proof.
  intros (E & _ & _ & Hr & Hv). split; [done|]. rewrite E. intros k' b.
  case_decide; [rewrite lookup_delete_Some; naive_solver|]. rewrite lookup_insert_Some. naive_solver.
Qed.

Create HintDb op.
#[export] Hint Resolve later_refl later_trans later_edge later_stored : op.

(** The stored object, after a write that does not remove it. *)
Lemma stored_lookup `{OpView W} (w w' : W) k r : stored w w' k r -> finalizers r <> [] -> v_recs w' !! k = Some r.
Proof. intros (E & _) Hf. rewrite E, decide_False by naive_solver. apply lookup_insert_eq. Qed.

Lemma stored_ne `{OpView W} (w w' : W) k k' r : stored w w' k r -> k' <> k -> v_recs w' !! k' = v_recs w !! k'.
Proof. intros (E & _) Hk. rewrite E. case_decide; [by rewrite lookup_delete_ne by done|by rewrite lookup_insert_ne by done]. Qed.

(** The id of the zone of a record. *)
Definition zone_id `{OpView W} (w : W) (ns ref : string) : string :=
  match v_zones w !! (ns, ref) with Some z => zs_CloudflareZoneID (zone_Spec z) | None => EmptyString end.

Definition zone_name `{OpView W} (w : W) (ns ref : string) : string :=
  match v_zones w !! (ns, ref) with Some z => zs_Zone (zone_Spec z) | None => EmptyString end.

Definition id_of (r : DnsRecord) : string := CloudflareRecordID (rec_Status r).
Definition ref_of (r : DnsRecord) : string := rs_ZoneRef (rec_Spec r).

(** ** No record is left behind *)

(** A record with the finalizer of the operator. *)
Definition kept `{OpView W} (w : W) (k : NamespacedName) (r : DnsRecord) : Prop :=
  v_recs w !! k = Some r /\ cloudflareFinalizer ∈ finalizers r.

(** The record [i] of the zone [z] at Cloudflare is that of an object with the
    finalizer. *)
Definition tracks `{OpView W} (w : W) (k : NamespacedName) (z i : string) : Prop :=
  exists r, kept w k r /\ id_of r = i /\ zone_id w k.1 (ref_of r) = z /\ z <> EmptyString /\ i <> EmptyString.

(** Every record at Cloudflare is foreign, that is in [F], or is that of an
    object with the finalizer that satisfies [P]. *)
Definition accounted `{OpView W} (F : string * string -> Prop) (P : NamespacedName -> Prop) (w : W) : Prop :=
  forall z i, is_Some (v_edge w !! (z, i)) -> F (z, i) \/ exists k, P k /\ tracks w k z i.

(** What others may do.  They may do anything to objects without the finalizer
    and to zones that are not at Cloudflare.  An object with the finalizer stays, with
    its finalizer, its id and its zone; a zone at Cloudflare stays; and others
    create foreign records only. *)
Definition rely `{OpView W} (F : string * string -> Prop) (w w' : W) : Prop :=
  (forall z i, is_Some (v_edge w' !! (z, i)) -> is_Some (v_edge w !! (z, i)) \/ F (z, i)) /\
  (forall ns ref, zone_id w ns ref <> EmptyString -> zone_id w' ns ref = zone_id w ns ref) /\
  (forall k r, kept w k r -> exists r', kept w' k r' /\ id_of r' = id_of r /\ ref_of r' = ref_of r).

Section accounts.
Context {W : Type} {V : OpView W} (F : string * string -> Prop).
Implicit Types (w : W) (P : NamespacedName -> Prop).

Lemma rely_tracks G w w' k z i : rely G w w' -> tracks w k z i -> tracks w' k z i.
Proof.
  intros (_ & Hz & Hk) (r & Hr & Hi & Hzi & Hz0 & Hi0). destruct (Hk _ _ Hr) as (r' & Hr' & E1 & E2).
  exists r'. split_and!; [done|congruence| |done|done]. rewrite E2, Hz; congruence.
Qed.

(** [G] is more than what others create. *)
Lemma rely_accounted G P w w' : (forall p, F p -> G p) -> rely F w w' -> accounted G P w -> accounted G P w'.
Proof.
  intros HFG HR HA z i Hi. pose proof HR as (He & _). destruct (He z i Hi) as [Hi'|?]; [|auto].
  destruct (HA z i Hi') as [?|(k & ? & ?)]; [by left|]. right. exists k. split; [done|]. by eapply rely_tracks.
Qed.

Lemma accounted_weaken (G G' : string * string -> Prop) P P' w :
  (forall p, G p -> G' p) -> (forall k, P k -> P' k) -> accounted G P w -> accounted G' P' w.
Proof. intros HG HP H z i Hi. destruct (H z i Hi) as [?|(k & ? & ?)]; [auto|]. right. exists k. auto. Qed.

(** A call to Cloudflare keeps what is accounted for, if it adds nothing. *)
Lemma edge_tracks w w' m k z i : edge_only w w' m -> tracks w k z i -> tracks w' k z i.
Proof. intros (E1 & E2 & _) H. unfold tracks, kept, zone_id in *. by rewrite E1, E2. Qed.

Lemma edge_accounted P w w' m :
  edge_only w w' m -> (forall z i, is_Some (m !! (z, i)) -> is_Some (v_edge w !! (z, i)) \/ F (z, i)) ->
  accounted F P w -> accounted F P w'.
Proof.
  intros Ho Hm HA z i Hi. pose proof Ho as (_ & _ & _ & E). rewrite E in Hi. destruct (Hm _ _ Hi) as [Hi'|?]; [|by left].
  destruct (HA z i Hi') as [?|(k & ? & ?)]; [by left|]. right. exists k. split; [done|]. by eapply edge_tracks.
Qed.

(** A write of an object keeps what other objects account for. *)
Lemma stored_tracks w w' k r k' z i : stored w w' k r -> k' <> k -> tracks w k' z i -> tracks w' k' z i.
Proof.
  intros Hs Hk (r' & [Hr' Hf] & H). exists r'. split; [split; [by rewrite (stored_ne _ _ _ _ _ Hs)|done]|].
  destruct Hs as (_ & E & _). unfold zone_id. by rewrite E.
Qed.

Lemma stored_accounted G w w' k r : stored w w' k r -> accounted G (fun k' => k' <> k) w -> accounted G (fun k' => k' <> k) w'.
Proof.
  intros Hs HA z i Hi. pose proof Hs as (_ & _ & E & _). rewrite E in Hi. destruct (HA z i Hi) as [?|(k' & Hk & Ht)]; [by left|].
  right. exists k'. split; [done|]. by eapply stored_tracks.
Qed.

(** A write that keeps finalizer, id and zone keeps everything. *)
Lemma stored_same G w w' k r old :
  stored w w' k r -> v_recs w !! k = Some old -> id_of r = id_of old -> ref_of r = ref_of old -> finalizers r = finalizers old ->
  accounted G (fun _ => True) w -> accounted G (fun _ => True) w'.
Proof.
  intros Hs Ho E1 E2 E3 HA z i Hi. pose proof Hs as (_ & Ez & E & _). rewrite E in Hi. destruct (HA z i Hi) as [?|(k' & _ & Ht)]; [by left|].
  right. exists k'. split; [done|]. destruct (decide (k' = k)) as [->|]; [|by eapply stored_tracks].
  destruct Ht as (r' & [Hr' Hf] & Hi' & Hz' & Hne). replace r' with old in * by congruence. exists r. split; [split|].
  - apply (stored_lookup _ _ _ _ Hs). rewrite E3. intros E0. rewrite E0 in Hf. by apply elem_of_nil in Hf.
  - by rewrite E3.
  - rewrite E1, E2. unfold zone_id in *. by rewrite Ez.
Qed.

End accounts.

Section operator.
Context {W : Type} {V : OpView W} {U : ControllerUtil} (K : KubeApi W) (E : Edge W) (cf : Client) (env : relation W) {S : OpSpec K E cf env}.
Implicit Types (w : W) (k : NamespacedName).

#[local] Hint Resolve env_later : op.

(** A stored object of the version that was read is the object that was read. *)
Lemma same_version w w' k r old :
  later w w' -> v_recs w !! k = Some r -> v_recs w' !! k = Some old -> version old = version r -> old = r.
Proof.
  intros [_ Hl] Hr Ho Hv. destruct (recs_key w k r Hr) as [_ Hb]. destruct (Hl _ _ Ho) as [Ho'|?]; [congruence|lia].
Qed.

(** Zones can always be listed. *)
Hypothesis listed : forall ns w, is_ok (list_zones K ns w).1 = true.

Lemma op_zone_spec ns ref w : wp (op_zone K ns ref) (fun r w' => env w w' /\ r = Ok (v_zones w' !! (ns, ref))) w.
Proof.
  apply wp_bind, wp_try. pose proof (listed ns w) as Hl. pose proof (list_zones_spec ns w) as HS. unfold wp in *.
  destruct (list_zones K ns w) as [[l|e] w']; [|done]. destruct HS as [He HS]. split; [done|]. simpl in *. f_equal.
  destruct (list_find _ l) as [[n z]|] eqn:Ef; simpl.
  - apply list_find_Some in Ef as (Hz & Hn & _). apply list_elem_of_lookup_2, HS in Hz as [n' Hz].
    pose proof (zones_key _ _ _ Hz) as Hk. injection Hk as _ Hk. by rewrite <-Hn, Hk.
  - apply list_find_None in Ef. destruct (v_zones w' !! (ns, ref)) as [z|] eqn:Hz; [|done].
    pose proof (zones_key _ _ _ Hz) as Hk. injection Hk as _ Hk. exfalso. rewrite Forall_forall in Ef. apply (Ef z); [|done]. apply HS. eauto.
Qed.

Lemma op_zoneID_spec ns ref w : wp (op_zoneID K ns ref) (fun r w' => env w w' /\ r = Ok (zone_id w' ns ref)) w.
Proof. apply wp_bind. eapply wp_mono, op_zone_spec. by intros r w' [? ->]. Qed.

Lemma op_zoneName_spec ns ref w : wp (op_zoneName K ns ref) (fun r w' => env w w' /\ r = Ok (zone_name w' ns ref)) w.
Proof. apply wp_bind. eapply wp_mono, op_zone_spec. by intros r w' [? ->]. Qed.

(** Deleting a record that is gone is no error. *)
Lemma edge_DeleteRecord_spec z id w :
  wp (edge_DeleteRecord E cf z id) (fun r w' =>
    match r with Ok _ => removed env w w' z id | Err _ => env w w' \/ removed env w w' z id end) w.
Proof.
  apply wp_unless. eapply wp_mono, delete_spec. intros [[]|[| | |[]]] w'; try naive_solver; [].
  intros [He Hm]. case_decide as Hc; [|by left]. exists w'. split; [done|]. by rewrite delete_id by auto.
Qed.

Section orphans.
(** [F] is what others create at Cloudflare, [G] what is not accounted for. *)
Variables F G : string * string -> Prop.
Hypothesis others : forall w w', env w w' -> rely F w w'.
Hypothesis more : forall p, F p -> G p.
Abbreviation all := (fun _ : NamespacedName => True).

Lemma env_accounted H P w w' : (forall p, G p -> H p) -> env w w' -> accounted H P w -> accounted H P w'.
Proof. intros HG He. apply (rely_accounted F); auto. Qed.

Lemma env_accounted_G P w w' : env w w' -> accounted G P w -> accounted G P w'.
Proof. by apply env_accounted. Qed.

(** What a record that was read accounts for, if anything, is under its id in
    its zone. *)
Lemma tracks_read w1 w2 k r z i :
  env w1 w2 -> v_recs w1 !! k = Some r -> cloudflareFinalizer ∈ finalizers r -> tracks w2 k z i -> i = id_of r /\ z = zone_id w2 k.1 (ref_of r).
Proof.
  intros He Hr Hf (r2 & [Hr2 _] & Hi & Hz & _). destruct (others _ _ He) as (_ & _ & Hk).
  destruct (Hk k r) as (r' & [Hr' _] & E1 & E2); [done|]. assert (r' = r2) as -> by congruence. split; congruence.
Qed.

(** Removing a record leaves the others accounted for. *)
Lemma removed_accounted z i w w' : removed env w w' z i -> accounted G all w -> later w w' /\ accounted G all w'.
Proof.
  intros (w0 & He & Ho) HA. split; [eauto with op|]. eapply edge_accounted; [done| |by eapply env_accounted_G].
  intros z' i' [x Hx]. apply lookup_delete_Some in Hx as [_ Hx]. left. by rewrite Hx.
Qed.

Lemma delete_accounted w1 w2 k r :
  env w1 w2 -> v_recs w1 !! k = Some r -> cloudflareFinalizer ∈ finalizers r -> accounted G all w2 ->
  let z := zone_id w2 k.1 (ref_of r) in
  wp (if decide (z <> EmptyString /\ id_of r <> EmptyString) then edge_DeleteRecord E cf z (id_of r) else ret tt)
    (fun res w' => later w2 w' /\ match res with Ok _ => accounted G (fun k' => k' <> k) w' | Err _ => accounted G all w' end) w2.
Proof.
  intros He Hr Hf HA z. case_decide as Hc.
  - eapply wp_mono, edge_DeleteRecord_spec.
    intros [[]|e] w'; [|intros [He'|Hd]; [eauto using env_accounted_G with op|by eapply removed_accounted]].
    intros (w0 & He0 & Ho). split; [eauto with op|]. pose proof Ho as (_ & _ & _ & Ee). intros z' i' Hi.
    rewrite Ee in Hi. destruct (decide ((z', i') = (z, id_of r))) as [[= -> ->]|Hne].
    { rewrite lookup_delete_eq in Hi. by destruct Hi. }
    rewrite lookup_delete_ne in Hi by congruence. destruct (others _ _ He0) as (Hin & _). destruct (Hin _ _ Hi) as [Hi2|?]; [|left; auto].
    destruct (HA _ _ Hi2) as [?|(k' & _ & Ht)]; [by left|]. right. exists k'. split.
    + intros ->. destruct (tracks_read _ _ _ _ _ _ He Hr Hf Ht) as [-> ->]. by destruct Hne.
    + eapply edge_tracks, rely_tracks; eauto.
  - apply wp_ret. split; [apply later_refl|]. intros z' i' Hi. destruct (HA _ _ Hi) as [?|(k' & _ & Ht)]; [by left|]. right. exists k'.
    split; [|done]. intros ->. pose proof Ht as (_ & _ & _ & _ & Hz & Hi'). destruct (tracks_read _ _ _ _ _ _ He Hr Hf Ht) as [-> ->]. by apply Hc.
Qed.

(** A write of an object, done or not, keeps what the others account for. *)
Lemma write_accounted H k rec w :
  (forall p, G p -> H p) -> rec_key rec = k -> accounted H (fun k' => k' <> k) w ->
  wp (update_record K rec) (fun _ w' => accounted H all w') w.
Proof.
  intros HG Hk HA. assert (forall w' rec', wrote env w w' rec rec' -> accounted H all w') as Hw.
  { intros w' rec' (w0 & old & v & He0 & _ & _ & _ & Hst). rewrite Hk in Hst.
    apply (accounted_weaken H H (fun k' => k' <> k)); [done..|]. eapply stored_accounted; [done|]. by eapply env_accounted. }
  eapply wp_mono, update_record_spec. intros [r'|e] w4; [by apply Hw|]. intros [He4|[r' Hr']]; [|by eapply Hw].
  apply (accounted_weaken H H (fun k' => k' <> k)); [done..|]. by eapply env_accounted.
Qed.

Lemma cleanup_accounted w1 w2 k r :
  env w1 w2 -> v_recs w1 !! k = Some r -> accounted G all w2 ->
  wp (op_cleanup K E (Some cf) (zone_id w2 k.1 (ref_of r)) r) (fun _ w' => accounted G all w') w2.
Proof.
  intros He Hr HA. unfold op_cleanup. destruct (ContainsFinalizer _ _) eqn:Ef; [|by apply wp_ret]. apply contains_spec in Ef.
  apply wp_bind. eapply wp_mono, (delete_accounted w1 w2 k r); [|done..]. intros [[]|e] w3 [Hl H3]; [|done].
  apply wp_bind. destruct (remove_spec r cloudflareFinalizer) as (l & -> & _).
  eapply wp_mono, (write_accounted G k); [|done|apply (recs_key _ _ _ Hr)|done]. by intros [r'|e] w4.
Qed.

(** Without a token the finalizer is released all the same: the record that
    the object accounted for, one at most, is left behind. *)
Lemma tokenless_accounted w1 w2 k r :
  env w1 w2 -> v_recs w1 !! k = Some r -> accounted G all w2 ->
  let p := (zone_id w2 k.1 (ref_of r), id_of r) in
  wp (op_cleanup K E None (zone_id w2 k.1 (ref_of r)) r) (fun _ w' => accounted (fun q => q = p \/ G q) all w') w2.
Proof.
  intros He Hr HA p. unfold op_cleanup. destruct (ContainsFinalizer _ _) eqn:Ef.
  2: { apply wp_ret. eapply accounted_weaken; eauto. }
  apply contains_spec in Ef. apply wp_bind, wp_ret, wp_bind. destruct (remove_spec r cloudflareFinalizer) as (l & -> & _).
  eapply wp_mono, (write_accounted (fun q => q = p \/ G q) k); [by intros [r'|e] w4|auto|apply (recs_key _ _ _ Hr)|].
  intros z i Hi. destruct (HA _ _ Hi) as [?|(k' & _ & Ht)]; [left; auto|]. destruct (decide (k' = k)) as [->|]; [|right; eauto].
  destruct (tracks_read _ _ _ _ _ _ He Hr Ef Ht) as [-> ->]. left. by left.
Qed.

(** A write of the status of a record that was read. *)
Lemma status_spec w1 w2 k r s :
  later w1 w2 -> v_recs w1 !! k = Some r ->
  wp (update_record_status K (set_status r s)) (fun res w' =>
    (exists w0 v, env w2 w0 /\ v_recs w0 !! k = Some r /\ stored w0 w' k (at_version v (set_status r s))) \/
    (env w2 w' /\ exists t, res = Err (StatusLost t))) w2.
Proof.
  intros Hl Hr. pose proof (put_status_spec (set_status r s) w2) as HS. unfold wp, update_record_status, status_update.
  assert (rec_key (set_status r s) = k) as Hk by apply (recs_key _ _ _ Hr).
  assert (forall w', wrote_status env w2 w' (set_status r s) ->
    exists w0 v, env w2 w0 /\ v_recs w0 !! k = Some r /\ stored w0 w' k (at_version v (set_status r s))) as Hw.
  { intros w' (w0 & old & v & He & Ho & Hv & Hst). rewrite Hk in *. simpl in Hst.
    assert (old = r) as -> by (eapply (same_version w1 w0); eauto with op). exists w0, v. eauto. }
  destruct (put_record_status K (set_status r s) w2) as [[e|] w']; simpl; [|left; by apply Hw].
  destruct HS as [?|?]; [right; eauto|left; by apply Hw].
Qed.

(** Zones at Cloudflare stay. *)
Definition zones_stay w w' : Prop := forall ns ref, zone_id w ns ref <> EmptyString -> zone_id w' ns ref = zone_id w ns ref.

Lemma zones_stay_refl w : zones_stay w w.
Proof. done. Qed.
Lemma zones_stay_trans w1 w2 w3 : zones_stay w1 w2 -> zones_stay w2 w3 -> zones_stay w1 w3.
Proof. intros H1 H2 ns ref Hz. rewrite H2, H1; [done..|]. by rewrite H1. Qed.
Lemma zones_stay_env w w' : env w w' -> zones_stay w w'.
Proof. intros He. by destruct (others _ _ He) as (_ & ? & _). Qed.
Lemma zones_stay_same w w' : v_zones w' = v_zones w -> zones_stay w w'.
Proof. intros E0 ns ref _. unfold zone_id. by rewrite E0. Qed.
Lemma zones_stay_edge w w' m : edge_only w w' m -> zones_stay w w'.
Proof. intros (_ & Ez & _). by apply zones_stay_same. Qed.
Lemma zones_stay_stored w w' k r : stored w w' k r -> zones_stay w w'.
Proof. intros (_ & Ez & _). by apply zones_stay_same. Qed.

#[local] Hint Resolve zones_stay_refl zones_stay_trans zones_stay_env zones_stay_edge zones_stay_stored : op.

(** Before the finalizer is there an object accounts for nothing. *)
Lemma add_finalizer_accounted w1 w2 k r :
  later w1 w2 -> v_recs w1 !! k = Some r -> accounted G all w2 ->
  wp (add_finalizer K r) (fun res w' => zones_stay w2 w' /\ accounted G all w' /\
    match res with
    | Ok r' => (exists w0, kept w0 k r' /\ later w0 w') /\ id_of r' = id_of r /\ rec_Spec r' = rec_Spec r
    | Err _ => True
    end) w2.
Proof.
  intros Hl Hr HA. unfold add_finalizer. destruct (add_spec r cloudflareFinalizer) as (l & -> & Hf & Hid).
  destruct (ContainsFinalizer r _) eqn:Ec; simpl.
  { apply contains_spec in Ec. rewrite (Hid Ec). apply wp_ret. split_and!; [done..| |done|done]. exists w1. destruct r as [[]]; done. }
  assert (forall w' r', wrote env w2 w' (set_finalizers r l) r' -> zones_stay w2 w' /\ accounted G all w' /\
    (exists w0, kept w0 k r' /\ later w0 w') /\ id_of r' = id_of r /\ rec_Spec r' = rec_Spec r) as Hw.
  2: { eapply wp_mono, update_record_spec. intros [r'|e] w'; [by apply Hw|].
       intros [He|[r' Hr']]; [split_and!; eauto using env_accounted_G with op|]. by destruct (Hw _ _ Hr') as (? & ? & _). }
  intros w' r' (w0 & old & v & He & Ho & Hv & -> & Hst).
  assert (rec_key (set_finalizers r l) = k) as Hk by apply (recs_key _ _ _ Hr). rewrite Hk in *.
  assert (old = r) as -> by (eapply (same_version w1 w0); eauto with op). split_and!; [eauto with op| | |done|done].
  - apply (accounted_weaken G G (fun k' => k' <> k)); [done..|]. eapply stored_accounted; [done|]. intros z i Hi.
    destruct (env_accounted_G all w2 w0 He HA z i Hi) as [?|(k' & _ & Ht)]; [by left|right]. exists k'. split; [|done].
    intros ->. destruct Ht as (r' & [Hr' Hc] & _). assert (r' = r) as -> by congruence. apply contains_spec in Hc. congruence.
  - exists w'. split; [|auto with op]. split; [|done]. apply (stored_lookup _ _ _ _ Hst). intros E0. cbn in E0. rewrite E0 in Hf. by apply elem_of_nil in Hf.
Qed.

Lemma UpdateRecord_accounted z id x w :
  accounted G all w ->
  wp (edge_UpdateRecord E cf z id x) (fun _ w' => later w w' /\ zones_stay w w' /\ accounted G all w') w.
Proof.
  intros HA. assert (forall w', changed env w w' z id x -> later w w' /\ zones_stay w w' /\ accounted G all w') as Hc.
  2: { eapply wp_mono, update_spec. intros [[]|e] w'; [by apply Hc|].
       intros [He|[_ ?]]; [split_and!; eauto using env_accounted_G with op|by apply Hc]. }
  intros w' (w0 & He & Hi & Ho). split_and!; [eauto with op..|]. eapply edge_accounted; [done| |by eapply env_accounted_G].
  intros z' i'. destruct (decide ((z', i') = (z, id))) as [[= -> ->]|]; [auto|]. rewrite lookup_insert_ne by congruence. auto.
Qed.

Lemma accounted_more p w : accounted G all w -> accounted (fun q => q = p \/ G q) all w.
Proof. apply accounted_weaken; auto. Qed.

Lemma created_accounted z x i w w' :
  created env w w' z x i -> accounted G all w ->
  i <> EmptyString /\ later w w' /\ zones_stay w w' /\ accounted (fun q => q = (z, i) \/ G q) all w'.
Proof.
  intros (w0 & He0 & Hout & Hfr & Ho) HA. split_and!; [done|eauto with op..|]. eapply edge_accounted; [done| |].
  - intros z' i'. destruct (decide ((z', i') = (z, i))) as [[= -> ->]|]; [auto|]. rewrite lookup_insert_ne by congruence. auto.
  - eauto using accounted_more, env_accounted_G.
Qed.

(** What is at Cloudflare afterwards is accounted for, apart from the record
    whose id is returned, or one that was created in a call whose answer was
    lost. *)
Lemma put_edge_accounted z id want w :
  accounted G all w ->
  wp (put_edge E cf z id want) (fun res w' => later w w' /\ zones_stay w w' /\
    match res with
    | Ok i => i <> EmptyString /\ (id <> EmptyString -> i = id) /\ accounted (fun p => p = (z, i) \/ G p) all w'
    | Err e => accounted G all w' \/ in_doubt e = true /\ exists q, accounted (fun p => p = q \/ G p) all w'
    end) w.
Proof.
  intros HA. unfold put_edge. case_decide as Hid.
  - apply wp_bind, wp_bind. eapply wp_mono, find_spec. intros [l|e] w' [He Hl]; [|split_and!; eauto using env_accounted_G with op].
    assert (accounted G all w') as HA' by eauto using env_accounted_G. apply wp_ret. destruct l as [|x l]; simpl.
    + apply wp_bind. eapply wp_mono, create_spec. intros [out|e] w2.
      { intros Hc. apply wp_ret. destruct (created_accounted _ _ _ _ _ Hc HA') as (? & ? & ? & ?). split_and!; eauto with op; done. }
      intros [He2|[Hd [i Hc]]]; [split_and!; eauto 6 using env_accounted_G with op|].
      destruct (created_accounted _ _ _ _ _ Hc HA') as (? & ? & ? & ?). split_and!; eauto with op.
    + destruct Hl as [Hl _]. destruct (Hl x) as [_ Hx]; [by left|]. apply wp_bind.
      eapply wp_mono, UpdateRecord_accounted; [|done].
      intros [[]|e] w2 (H1 & H2 & H3); [apply wp_ret|]; split_and!; eauto using accounted_more with op; done.
  - apply wp_bind. eapply wp_mono, UpdateRecord_accounted; [|done].
    intros [[]|e] w2 (H1 & H2 & H3); [apply wp_ret|]; split_and!; eauto using accounted_more with op.
Qed.

(** The id is in the status, so that the record is accounted for. *)
Lemma status_accounted w1 w2 k r z i phase :
  later w1 w2 -> kept w1 k r -> zone_id w2 k.1 (ref_of r) = z -> z <> EmptyString -> i <> EmptyString ->
  (id_of r <> EmptyString -> i = id_of r) -> accounted (fun p => p = (z, i) \/ G p) all w2 ->
  wp (fun w => update_record_status K (set_status r (mkRecordStatus phase i (Some (time_Now K w)))) w) (fun res w' =>
    accounted G all w' \/ (exists t, res = Err (StatusLost t)) /\ accounted (fun p => p = (z, i) \/ G p) all w') w2.
Proof.
  intros Hl [Hr Hf] Hz Hz0 Hi0 Hi HA. apply (wp_here (fun w => update_record_status K (set_status r (mkRecordStatus phase i (Some (time_Now K w)))))).
  eapply wp_mono, (status_spec w1 w2 k); [|done..]. intros res w' [Hw|[He ?]]; [left|right; split; [done|eapply env_accounted; [|done..]; auto]].
  destruct Hw as (w0 & v & He & Ho & Hst). pose proof Hst as (_ & Ez & Ee & _). intros z' i' He'. rewrite Ee in He'.
  set (r' := at_version v (set_status r _)) in *.
  assert (tracks w' k z i) as Hk.
  { exists r'. split_and!; [split; [|done]|done| |done|done].
    - apply (stored_lookup _ _ _ _ Hst). intros E0. cbn in E0. unfold finalizers in Hf. rewrite E0 in Hf. by apply elem_of_nil in Hf.
    - unfold zone_id. rewrite Ez. rewrite <-Hz. apply (zones_stay_env w2 w0 He). congruence. }
  assert (accounted (fun p => p = (z, i) \/ G p) all w0) as HA0 by (eapply env_accounted; [|done..]; auto).
  destruct (HA0 z' i' He') as [[[= -> ->]|?]|(k' & _ & Ht)]; [by eauto|by left|]. right.
  destruct (decide (k' = k)) as [->|]; [|exists k'; split; [done|by eapply stored_tracks]]. exists k. split; [done|].
  destruct Ht as (r2 & [Hr2 _] & Hi2 & Hz2 & Hne & Hne'). assert (r2 = r) as -> by congruence.
  assert (i' = i) as -> by (rewrite Hi; congruence). replace z' with z; [done|]. rewrite <-Hz2, <-Hz. symmetry. apply (zones_stay_env w2 w0 He). congruence.
Qed.

(** A reconciliation may leave a record behind when it ends in one of these
    errors, or when there is no token. *)
Definition doubtful (res : result op_error op_Result) : bool :=
  match res with Err (StatusLost _) => true | Err e => in_doubt e | Ok _ => false end.

Definition leaky (CF : option Client) (res : result op_error op_Result) : bool :=
  match CF with None => true | Some _ => doubtful res end.

(** All is accounted for, or all but one record after a leaky end. *)
Definition all_but_one (leak : bool) w : Prop := accounted G all w \/ leak = true /\ exists q, accounted (fun p => p = q \/ G p) all w.

(** The part of the reconciliation that brings a record up to date. *)
Definition cf_sync (z : string) (record : DnsRecord) : M W op_Result :=
  let* record := add_finalizer K record in
  let* zone := op_zoneName K (meta_Namespace (rec_Meta record)) (rs_ZoneRef (rec_Spec record)) in
  let* id := put_edge E cf z (CloudflareRecordID (rec_Status record)) (desired record zone) in
  (fun w => update_record_status K (set_status record (mkRecordStatus "Active" id (Some (time_Now K w)))) w);;;
  ret 300.

Lemma cf_sync_accounted w1 w2 k r :
  later w1 w2 -> v_recs w1 !! k = Some r -> zone_id w2 k.1 (ref_of r) <> EmptyString -> accounted G all w2 ->
  wp (cf_sync (zone_id w2 k.1 (ref_of r)) r) (fun res w' => all_but_one (doubtful res) w') w2.
Proof.
  intros Hl Hr Hz HA. unfold cf_sync.
  apply wp_bind. eapply wp_mono, (add_finalizer_accounted w1 w2 k r); [|done..]. intros [r'|e] w3 (Hs3 & HA3 & H3); [|by left].
  destruct H3 as ((w0 & Hk0 & Hl0) & Hid & Hsp). apply wp_bind. eapply wp_mono, op_zoneName_spec. intros ? w4 [He4 ->].
  apply wp_bind. eapply wp_mono, put_edge_accounted; [|by eauto using env_accounted_G]. intros [i|e] w5 (Hl5 & Hs5 & H5).
  2: { destruct H5 as [?|[Hd ?]]; [by left|right]. split; [|done]. by destruct e as [| | |[]]. }
  destruct H5 as (Hi0 & Hi & HA5). apply wp_bind.
  eapply wp_mono, (status_accounted w0 w5 k r' (zone_id w2 k.1 (ref_of r)) i); [|eauto 6 with op|done| |done|done|done|done].
  - intros res w' [?|[[t ->] ?]]; [destruct res; left; done|right; eauto].
  - unfold ref_of in *. rewrite Hsp. assert (zones_stay w2 w5) as Hs by eauto 6 with op. by apply Hs.
Qed.

Lemma cf_Reconcile_accounted CF k w :
  (CF = None \/ CF = Some cf) -> accounted G all w ->
  wp (cf_Reconcile K E CF k) (fun res w' => all_but_one (leaky CF res) w') w.
Proof.
  intros HCF HA. apply wp_unless_gone. eapply wp_mono, get_record_spec. intros res w1 [He1 Hr].
  assert (accounted G all w1) as HA1 by eauto using env_accounted_G. destruct res as [r|e]; [|by destruct e; left].
  assert (meta_Namespace (rec_Meta r) = k.1) as Hns by (by rewrite <-(proj1 (recs_key _ _ _ Hr))).
  apply wp_bind. rewrite Hns. eapply wp_mono, op_zoneID_spec. intros ? w2 [He2 ->].
  assert (accounted G all w2) as HA2 by eauto using env_accounted_G. fold (ref_of r).
  assert (wp (op_cleanup K E CF (zone_id w2 k.1 (ref_of r)) r) (fun res w' => all_but_one (leaky CF res) w') w2) as Hc.
  { destruct HCF as [->| ->].
    - eapply wp_mono, (tokenless_accounted w1); [|done..]. intros res w' Hq. right. split; [done|]. eexists. exact Hq.
    - eapply wp_mono, (cleanup_accounted w1); [|done..]. by left. }
  case_decide; [done|]. destruct (negb _); [done|]. clear Hc. destruct HCF as [->| ->]; [by left|]. case_decide as Hz.
  { apply wp_bind. eapply wp_mono, (status_spec w1 w2 k); [|eauto with op..].
    assert (forall w0 w' v, env w2 w0 -> v_recs w0 !! k = Some r -> stored w0 w' k (at_version v (set_phase r "Error")) -> accounted G all w') as Hst.
    { intros w0 w' v He Ho Hst. eapply stored_same; eauto using env_accounted_G. }
    intros res w' [(w0 & v & He & Ho & Hw)|[He [t ->]]]; [destruct res; left; by eapply Hst|left; eauto using env_accounted_G]. }
  apply (cf_sync_accounted w1); eauto with op.
Qed.

Lemma record_Reconcile_accounted k w :
  accounted G all w -> wp (record_Reconcile K k) (fun _ w' => accounted G all w') w.
Proof.
  intros HA. apply wp_unless_gone. eapply wp_mono, get_record_spec. intros res w1 [He1 Hr].
  assert (accounted G all w1) as HA1 by eauto using env_accounted_G. destruct res as [r|e]; [|by destruct e].
  apply wp_bind. eapply wp_mono, list_zones_spec. intros res w2 [He2 _]. assert (accounted G all w2) as HA2 by eauto using env_accounted_G.
  destruct res as [l|e]; [|done].
  assert (forall (p : string) (n : Z), wp (update_record_status K (set_phase r p);;; ret n) (fun _ w' => accounted G all w') w2) as Hp.
  { intros p n. apply wp_bind. eapply wp_mono, (status_spec w1 w2 k); [|eauto with op..].
    intros res w' [(w0 & v & He & Ho & Hst)|[He [t ->]]]; [|eauto using env_accounted_G].
    assert (accounted G all w') by (eapply stored_same; eauto using env_accounted_G). by destruct res. }
  by destruct (existsb _ _).
Qed.

End orphans.

(** The operator at work, with the number of leaky reconciliations: others act
    within [rely], and the reconcilers of records run one after the other, with
    a token or without, each call of theirs failing or not. *)
Inductive runs (F : string * string -> Prop) (w0 : W) : nat -> W -> Prop :=
| run_start : runs F w0 0 w0
| run_others n w w' : runs F w0 n w -> rely F w w' -> runs F w0 n w'
| run_cloudflare n CF w k : runs F w0 n w -> (CF = None \/ CF = Some cf) ->
    runs F w0 (if leaky CF (cf_Reconcile K E CF k w).1 then Datatypes.S n else n) (cf_Reconcile K E CF k w).2
| run_record n w k : runs F w0 n w -> runs F w0 n (record_Reconcile K k w).2.

(** C24. The records that the operator leaves behind at Cloudflare.  However
    reconciliations, their failures (also of calls that were done although
    they failed) and the acts of others follow on each other, every record at
    Cloudflare is foreign (in [F]), or is the record whose id is in the status
    of an object that is still in the cluster, held there by the finalizer of
    the operator, and whose zone is that at Cloudflare, or is one of a list of
    records left behind.  That list is no longer than the number of
    reconciliations that ended in a lost or undecodable answer of Cloudflare
    or in a failed write of a status, or that ran without a token: without
    these nothing is left behind.  It is assumed that others leave finalizers,
    ids and zones alone ([rely]) and that zones can always be listed; the
    module [OpSample] shows what happens otherwise. *)
Theorem operator_no_orphans F w0 n w :
  (forall w w', env w w' -> rely F w w') -> accounted F (fun _ => True) w0 -> runs F w0 n w ->
  exists left : list (string * string), (length left <= n)%nat /\
    forall z i, is_Some (v_edge w !! (z, i)) ->
      F (z, i) \/ (z, i) ∈ left \/
      exists k r, v_recs w !! k = Some r /\ cloudflareFinalizer ∈ finalizers r /\ id_of r = i /\ zone_id w k.1 (ref_of r) = z.
Proof.
  intros Hothers H0 Hr.
  assert (exists left, (length left <= n)%nat /\ accounted (fun p => F p \/ p ∈ left) (fun _ => True) w) as (left & Hl & HA).
  2: { exists left. split; [done|]. intros z i Hi. destruct (HA z i Hi) as [[?|?]|(k & _ & r & [? ?] & ? & ? & _)]; [by left|by right; left|].
       right; right. eauto 6. }
  induction Hr as [|n w w' _ (left & Hl & IH) HR|n CF w k _ (left & Hl & IH) HCF|n w k _ (left & Hl & IH)].
  - exists []. split; [done|]. eapply accounted_weaken; [| |done]; auto.
  - exists left. split; [done|]. eapply rely_accounted; [|done..]. auto.
  - assert (forall p, F p -> F p \/ p ∈ left) as Hm by auto.
    destruct (cf_Reconcile_accounted F _ Hothers Hm CF k w HCF IH) as [?|[-> [q Hq]]].
    + exists left. split; [destruct (leaky _ _); lia|done].
    + exists (q :: left). split; [simpl; lia|]. eapply accounted_weaken; [| |exact Hq]; [|done]. intros p. rewrite elem_of_cons. naive_solver.
  - exists left. split; [done|]. apply (record_Reconcile_accounted F _ Hothers); auto.
Qed.

(** ** A reconciliation that nothing disturbs *)

Definition same w w' : Prop := v_recs w' = v_recs w /\ v_zones w' = v_zones w /\ v_edge w' = v_edge w.

(** Calls succeed when what they need is there and ids can be parts of a path. *)
Record reliable (addressable : string -> Prop) : Prop := {
  r_get k w : is_Some (v_recs w !! k) -> is_ok (get_record K k w).1 = true;
  r_update rec old w : v_recs w !! rec_key rec = Some old -> version old = version rec -> is_ok (update_record K rec w).1 = true;
  r_status rec old w : v_recs w !! rec_key rec = Some old -> version old = version rec -> is_ok (update_record_status K rec w).1 = true;
  r_edge z id w : is_Some (v_edge w !! (z, id)) -> addressable z /\ addressable id;
  r_find z name t w : addressable z -> is_ok (FindRecord E cf z name t w).1 = true;
  r_create z x w : addressable z -> is_ok (edge_CreateRecord E cf z x w).1 = true;
  r_put z id x w : is_Some (v_edge w !! (z, id)) -> is_ok (edge_UpdateRecord E cf z id x w).1 = true;
  r_delete z id w : addressable z -> addressable id -> is_ok (edge_DeleteRecord E cf z id w).1 = true }.

Lemma wp_ok {A} (c : M W A) (Q : result op_error A -> W -> Prop) w :
  is_ok (c w).1 = true -> wp c (fun r w' => match r with Ok a => Q (Ok a) w' | Err _ => True end) w -> wp c Q w.
Proof. unfold wp. by destruct (c w) as [[]]. Qed.

Section quiet.
Hypothesis quiet : forall w w', env w w' -> same w w'.
Variable addressable : string -> Prop.
Hypothesis reliably : reliable addressable.

Lemma get_quiet k w r Q : v_recs w !! k = Some r -> (forall w', same w w' -> Q (Ok r) w') -> wp (get_record K k) Q w.
Proof.
  intros Hr HQ. apply wp_ok; [by apply reliably; eauto|]. eapply wp_mono, get_record_spec. intros [r'|] w' [He H]; [|done].
  apply quiet in He. assert (r' = r) as ->; [|auto]. destruct He as (E1 & _). congruence.
Qed.

Lemma status_quiet k w r s Q : v_recs w !! k = Some r ->
  (forall w0 w' v, same w w0 -> stored w0 w' k (at_version v (set_status r s)) -> Q (Ok tt) w') -> wp (update_record_status K (set_status r s)) Q w.
Proof.
  intros Hr HQ. assert (rec_key (set_status r s) = k) as Hk by apply (recs_key _ _ _ Hr).
  apply wp_ok; [apply (r_status _ reliably _ r); by rewrite ?Hk|]. eapply wp_mono, (status_spec w w k); [|auto with op..].
  intros [[]|] w'; [|done]. intros [(w0 & v & He & Ho & Hst)|[_ [t [=]]]]. eapply HQ; [by apply quiet|done].
Qed.

Lemma add_finalizer_quiet k w r Q : v_recs w !! k = Some r ->
  (forall w' r', v_recs w' = <[k := r']> (v_recs w) -> cloudflareFinalizer ∈ finalizers r' -> rec_Spec r' = rec_Spec r -> rec_Status r' = rec_Status r ->
     v_zones w' = v_zones w -> v_edge w' = v_edge w -> Q (Ok r') w') -> wp (add_finalizer K r) Q w.
Proof.
  intros Hr HQ. unfold add_finalizer. destruct (add_spec r cloudflareFinalizer) as (l & -> & Hf & Hid).
  destruct (ContainsFinalizer r _) eqn:Ec; simpl.
  - apply contains_spec in Ec. rewrite (Hid Ec). apply wp_ret. replace (set_finalizers r _) with r by (by destruct r as [[]]).
    apply HQ; try done. by rewrite insert_id.
  - assert (rec_key (set_finalizers r l) = k) as Hk by apply (recs_key _ _ _ Hr).
    apply wp_ok; [apply (r_update _ reliably _ r); by rewrite ?Hk|]. eapply wp_mono, update_record_spec. intros [r'|] w'; [|done].
    intros (w0 & old & v & (E1 & E2 & E3)%quiet & Ho & Hv & -> & Hst). rewrite Hk in *. assert (old = r) as -> by congruence.
    pose proof Hst as (Er & Ez & Ee & _). apply HQ; try done; [|congruence..]. rewrite Er, decide_False, E1; [done|].
    intros [E0 _]. cbn in E0. rewrite E0 in Hf. by apply elem_of_nil in Hf.
Qed.

Lemma zoneID_quiet ns ref w Q : (forall w', same w w' -> Q (Ok (zone_id w ns ref)) w') -> wp (op_zoneID K ns ref) Q w.
Proof. intros HQ. eapply wp_mono, op_zoneID_spec. intros r w' [He%quiet ->]. pose proof He as (_ & Ez & _). unfold zone_id. rewrite Ez. by apply HQ. Qed.

Lemma zoneName_quiet ns ref w Q : (forall w', same w w' -> Q (Ok (zone_name w ns ref)) w') -> wp (op_zoneName K ns ref) Q w.
Proof. intros HQ. eapply wp_mono, op_zoneName_spec. intros r w' [He%quiet ->]. pose proof He as (_ & Ez & _). unfold zone_name. rewrite Ez. by apply HQ. Qed.

Lemma UpdateRecord_quiet z id x w Q : is_Some (v_edge w !! (z, id)) ->
  (forall w', v_recs w' = v_recs w -> v_zones w' = v_zones w -> v_edge w' = <[(z, id) := with_id id x]> (v_edge w) -> Q (Ok tt) w') ->
  wp (edge_UpdateRecord E cf z id x) Q w.
Proof.
  intros Hi HQ. apply wp_ok; [by apply reliably|]. eapply wp_mono, update_spec. intros [[]|] w'; [|done].
  intros (w0 & (E1 & E2 & E3)%quiet & _ & (O1 & O2 & _ & O3)). apply HQ; congruence.
Qed.

(** The record is at Cloudflare under the id returned: that given, that of a
    record with the name and type wanted, or a new one. *)
Lemma put_edge_quiet z id want w Q : addressable z -> (id = EmptyString \/ is_Some (v_edge w !! (z, id))) ->
  (forall w' i, v_recs w' = v_recs w -> v_zones w' = v_zones w -> v_edge w' = <[(z, i) := with_id i want]> (v_edge w) ->
     i <> EmptyString -> (id <> EmptyString -> i = id) -> Q (Ok i) w') ->
  wp (put_edge E cf z id want) Q w.
Proof.
  intros Hz Hid HQ. unfold put_edge. case_decide as H0.
  - apply wp_bind. apply wp_ok; [by apply reliably|]. apply wp_bind. eapply wp_mono, find_spec. intros [l|] w1; [|done].
    intros [(E1 & E2 & E3)%quiet [Hl _]]. apply wp_ret. destruct l as [|x l]; simpl.
    + apply wp_ok; [by apply reliably|]. apply wp_bind. eapply wp_mono, create_spec. intros [out|] w2; [|done].
      intros (w0 & (E4 & E5 & E6)%quiet & Hn & _ & (O1 & O2 & _ & O3)). apply wp_ret, HQ; congruence.
    + destruct (Hl x) as [Hx Hn]; [by left|]. apply wp_bind, UpdateRecord_quiet; [by rewrite Hx|]. intros w2 E4 E5 E6. apply wp_ret, HQ; congruence.
  - destruct Hid as [->|Hid]; [done|]. apply wp_bind, UpdateRecord_quiet; [done|]. intros w1 E1 E2 E3. apply wp_ret, HQ; congruence.
Qed.

Definition wanted (r : DnsRecord) : bool := rs_SyncToCloudflare (rec_Spec r) && bool_decide (DeletionTimestamp (rec_Meta r) = None).

Lemma cf_Reconcile_puts k w r :
  v_recs w !! k = Some r -> wanted r = true -> zone_id w k.1 (ref_of r) <> EmptyString -> addressable (zone_id w k.1 (ref_of r)) ->
  (id_of r = EmptyString \/ is_Some (v_edge w !! (zone_id w k.1 (ref_of r), id_of r))) ->
  wp (cf_Reconcile K E (Some cf) k) (fun res w' => res = Ok 300 /\ exists r' i, v_recs w' = <[k := r']> (v_recs w) /\
    rec_Spec r' = rec_Spec r /\ cloudflareFinalizer ∈ finalizers r' /\ rst_Phase (rec_Status r') = "Active" /\ id_of r' = i /\
    i <> EmptyString /\ (id_of r <> EmptyString -> i = id_of r) /\ v_zones w' = v_zones w /\
    v_edge w' = <[(zone_id w k.1 (ref_of r), i) := with_id i (desired r (zone_name w k.1 (ref_of r)))]> (v_edge w)) w.
Proof.
  intros Hr [Hw Hd%bool_decide_eq_true]%andb_true_iff Hz Ha Hi.
  assert (meta_Namespace (rec_Meta r) = k.1) as Hns by (by rewrite <-(proj1 (recs_key _ _ _ Hr))).
  apply wp_unless_gone, (get_quiet _ _ r); [done|]. intros w1 (E1 & E2 & E3). rewrite Hns. apply wp_bind, zoneID_quiet. intros w2 (E4 & E5 & E6).
  rewrite decide_False, Hw by naive_solver. cbn [negb]. replace (zone_id w1 k.1 (rs_ZoneRef (rec_Spec r))) with (zone_id w k.1 (ref_of r)) by (unfold zone_id; by rewrite E2).
  rewrite decide_False by done. apply wp_bind, (add_finalizer_quiet k); [congruence|]. intros w3 r3 F1 F2 F3 F4 F5 F6.
  assert (meta_Namespace (rec_Meta r3) = k.1) as Hns3.
  { assert (v_recs w3 !! k = Some r3) as H3 by (by rewrite F1, lookup_insert_eq). by rewrite <-(proj1 (recs_key _ _ _ H3)). }
  rewrite Hns3, F3, F4. apply wp_bind, zoneName_quiet. intros w4 (E7 & E8 & E9).
  apply wp_bind, put_edge_quiet; [done|by replace (v_edge w4) with (v_edge w) by congruence|]. intros w5 i G1 G2 G3 Hi0 Hid. apply wp_bind.
  apply (wp_here (fun w => update_record_status K (set_status r3 (mkRecordStatus "Active" i (Some (time_Now K w)))))).
  apply (status_quiet k); [by rewrite G1, E7, F1, lookup_insert_eq|]. intros w0 w6 v (E10 & E11 & E12) Hst. apply wp_ret. split; [done|].
  pose proof Hst as (Er & Ez & Ee & _). exists (at_version v (set_status r3 (mkRecordStatus "Active" i (Some (time_Now K w5))))), i.
  split_and!; [|exact F3|exact F2|done|done|done|done|congruence|].
  - rewrite Er, decide_False, E10, G1, E7, F1, E4, E1, insert_insert_eq; [done|]. intros [E0 _]. cbn in E0. unfold finalizers in F2. rewrite E0 in F2. by apply elem_of_nil in F2.
  - rewrite Ee, E12, G3, E9, F6, E6, E3. do 2 f_equal. unfold desired, zone_name, ref_of. by rewrite F3, F5, E5, E2.
Qed.

(** C25. A reconciliation that nothing disturbs brings Cloudflare up to date.
    While no other client changes an object, a zone or a record of the edge
    ([quiet]), zones can be listed and every call succeeds whose object or
    record is there, whose version is the stored one and whose ids can be
    parts of a path ([reliable]): for a record that is wanted there, whose zone is, and which has no id yet or one that is known
    there, a reconciliation succeeds and asks for another in five minutes.
    Cloudflare then has under some id what the object describes, with its name
    completed by that of the zone, and is otherwise unchanged; the object has
    that id and the finalizer, its phase is Active, its specification is as it
    was, and no other object changes. *)
Theorem cf_Reconcile_syncs k w r :
  v_recs w !! k = Some r -> wanted r = true -> zone_id w k.1 (ref_of r) <> EmptyString -> addressable (zone_id w k.1 (ref_of r)) ->
  (id_of r = EmptyString \/ is_Some (v_edge w !! (zone_id w k.1 (ref_of r), id_of r))) ->
  exists w' r' i, cf_Reconcile K E (Some cf) k w = (Ok 300, w') /\ v_recs w' = <[k := r']> (v_recs w) /\
    rec_Spec r' = rec_Spec r /\ cloudflareFinalizer ∈ finalizers r' /\ rst_Phase (rec_Status r') = "Active" /\ id_of r' = i /\
    i <> EmptyString /\ (id_of r <> EmptyString -> i = id_of r) /\ v_zones w' = v_zones w /\
    v_edge w' = <[(zone_id w k.1 (ref_of r), i) := with_id i (desired r (zone_name w k.1 (ref_of r)))]> (v_edge w).
Proof.
  intros H1 H2 H3 H4 H5. pose proof (cf_Reconcile_puts k w r H1 H2 H3 H4 H5) as H. unfold wp in H.
  destruct (cf_Reconcile K E (Some cf) k w) as [res w']. cbn in H. destruct H as (-> & r' & i & H). by exists w', r', i.
Qed.

(** And takes away what is not wanted.  A record that is being deleted, or is
    not to be at Cloudflare, has its record there deleted and loses the
    finalizer; if it is being deleted and that was the last one, it is gone. *)
Theorem cf_Reconcile_cleans k w r :
  v_recs w !! k = Some r -> wanted r = false -> cloudflareFinalizer ∈ finalizers r ->
  zone_id w k.1 (ref_of r) <> EmptyString -> id_of r <> EmptyString -> addressable (zone_id w k.1 (ref_of r)) -> addressable (id_of r) ->
  exists w', cf_Reconcile K E (Some cf) k w = (Ok 0, w') /\ v_edge w' = delete (zone_id w k.1 (ref_of r), id_of r) (v_edge w) /\
    (forall k', k' <> k -> v_recs w' !! k' = v_recs w !! k') /\
    match v_recs w' !! k with
    | Some r' => (cloudflareFinalizer ∉ finalizers r') /\ rec_Spec r' = rec_Spec r
    | None => DeletionTimestamp (rec_Meta r) <> None /\ forall f, f ∈ finalizers r -> f = cloudflareFinalizer
    end.
Proof.
  intros Hr Hw Hf Hz Hi Ha Ha'. assert (meta_Namespace (rec_Meta r) = k.1) as Hns by (by rewrite <-(proj1 (recs_key _ _ _ Hr))).
  enough (wp (cf_Reconcile K E (Some cf) k) (fun res w' => res = Ok 0 /\ v_edge w' = delete (zone_id w k.1 (ref_of r), id_of r) (v_edge w) /\
    (forall k', k' <> k -> v_recs w' !! k' = v_recs w !! k') /\
    match v_recs w' !! k with
    | Some r' => (cloudflareFinalizer ∉ finalizers r') /\ rec_Spec r' = rec_Spec r
    | None => DeletionTimestamp (rec_Meta r) <> None /\ forall f, f ∈ finalizers r -> f = cloudflareFinalizer
    end) w) as H.
  { unfold wp in H. destruct (cf_Reconcile K E (Some cf) k w) as [res w']. cbn in H. destruct H as (-> & H). by exists w'. }
  apply wp_unless_gone, (get_quiet _ _ r); [done|]. intros w1 (E1 & E2 & E3). rewrite Hns. apply wp_bind, zoneID_quiet. intros w2 (E4 & E5 & E6).
  replace (zone_id w1 k.1 (rs_ZoneRef (rec_Spec r))) with (zone_id w k.1 (ref_of r)) by (unfold zone_id; by rewrite E2).
  match goal with |- wp (if _ then ?c else if _ then ?c else ?d) ?Q _ => assert (wp c Q w2) as Hc end.
  - unfold op_cleanup. rewrite (proj2 (contains_spec _ _) Hf). apply wp_bind. rewrite decide_True by done.
    apply wp_ok; [by apply reliably|]. eapply wp_mono, edge_DeleteRecord_spec. intros [[]|] w3; [|done].
    intros (w0 & (E7 & E8 & E9)%quiet & (O1 & O2 & _ & O3)). apply wp_bind. destruct (remove_spec r cloudflareFinalizer) as (l & -> & Hl).
    assert (rec_key (set_finalizers r l) = k) as Hk by apply (recs_key _ _ _ Hr). assert (v_recs w3 = v_recs w) as E10 by congruence.
    apply wp_ok; [apply (r_update _ reliably _ r); by rewrite ?Hk, ?E10|]. eapply wp_mono, update_record_spec. intros [r'|] w4; [|done].
    intros (w0' & old & v & (E11 & E12 & E13)%quiet & Ho & Hv & -> & Hst). rewrite Hk in *. apply wp_ret. pose proof Hst as (Er & _ & Ee & _).
    split_and!; [done|rewrite Ee, E13, O3, E9, E6, E3; done| |].
    + intros k' Hk'. rewrite (stored_ne _ _ _ _ _ Hst Hk'). congruence.
    + rewrite Er. case_decide as Hg; [|rewrite lookup_insert_eq; split; [|done]; cbn; intros Hin; by apply Hl in Hin as [_ ?]].
      rewrite lookup_delete_eq. destruct Hg as [Hg Hg']. split; [done|]. intros f Hf'. destruct (decide (f = cloudflareFinalizer)); [done|].
      assert (f ∈ l) as Hin by (by apply Hl). cbn in Hg. rewrite Hg in Hin. by apply elem_of_nil in Hin.
  - case_decide as Hd; [done|]. unfold wanted in Hw. rewrite bool_decide_true, andb_true_r in Hw by (destruct (DeletionTimestamp _); naive_solver).
    by rewrite Hw.
Qed.

(** ** Pages *)

(** The calls for Pages leave records and zones alone; what is ensured is
    stored. *)
Record pages_spec : Prop := {
  p_calls {A} m p b (out : string -> option A) zero w : wp (op_do E cf m ("/accounts/" +++ p)%string b out zero) (fun _ w' => same w w') w;
  p_status pp w : same w (put_project_status K pp w).2;
  p_get k w : same w (get_project K k w).2;
  p_owner m r r' : SetControllerReference m r = Ok r' ->
    rec_key r' = rec_key r /\ rec_Spec r' = rec_Spec r /\ rec_Status r' = rec_Status r /\ DeletionTimestamp (rec_Meta r') = DeletionTimestamp (rec_Meta r);
  p_ensure r f w : (forall x y, f x = Ok y -> rec_key y = rec_key x) -> wp (CreateOrUpdate K r f) (fun res w' =>
    match res with
    | Ok _ => exists w0 new v, same w w0 /\ f (default r (v_recs w0 !! rec_key r)) = Ok new /\ stored w0 w' (rec_key r) (at_version v new)
    | Err _ => same w w'
    end) w }.

Hypothesis pages : pages_spec.

Lemma same_trans w1 w2 w3 : same w1 w2 -> same w2 w3 -> same w1 w3.
Proof. intros (? & ? & ?) (? & ? & ?). split_and!; congruence. Qed.

Lemma same_refl w : same w w.
Proof. done. Qed.

#[local] Hint Resolve same_trans same_refl : op.

Definition domain_key (pp : PagesProject) : NamespacedName := (meta_Namespace (pp_Meta pp), meta_Name (pp_Meta pp) +++ "-domain")%string.

(** The record of the domain, if there is one. *)
Definition domain_record w (pp : PagesProject) : DnsRecord :=
  default (new_record (meta_Name (pp_Meta pp) +++ "-domain")%string (meta_Namespace (pp_Meta pp))) (v_recs w !! domain_key pp).

Lemma GetPagesProject_same a name w : wp (GetPagesProject E cf a name) (fun _ w' => same w w') w.
Proof.
  apply wp_unless, wp_bind. eapply wp_mono, p_calls; [|exact pages]. intros [x|[| | |[]]] w'; try done. intros ?. by case_decide.
Qed.

Lemma AddPagesDomain_same a name d w : wp (AddPagesDomain E cf a name d) (fun _ w' => same w w') w.
Proof. apply wp_unless. eapply wp_mono, p_calls; [|exact pages]. intros [x|[| | |[]]] w'; try done. intros ?. by case_decide. Qed.

(** With a domain in a zone, the record of the domain points to the project. *)
Lemma ensure_project_spec pp name w :
  ps_CustomDomain (pp_Spec pp) <> EmptyString -> ps_ZoneRef (pp_Spec pp) <> EmptyString -> DeletionTimestamp (rec_Meta (domain_record w pp)) = None ->
  wp (ensure_project K E cf pp name) (fun res w' =>
    match res with
    | Ok proj => exists child, v_recs w' = <[domain_key pp := child]> (v_recs w) /\ v_zones w' = v_zones w /\ v_edge w' = v_edge w /\
        rec_Spec child = domain_spec pp (ep_Subdomain proj) /\ DeletionTimestamp (rec_Meta child) = None /\ rec_Status child = rec_Status (domain_record w pp)
    | Err _ => True
    end) w.
Proof.
  intros Hd Hz Hdel. apply wp_bind. eapply wp_mono, GetPagesProject_same. intros [found|] w1 S1; [|done].
  apply wp_bind. apply (wp_mono _ (fun _ w' => same w1 w')); [|destruct found; [apply wp_ret, same_refl|eapply wp_mono, p_calls; [done|exact pages]]].
  intros [proj|] w2 S2; [|done]. apply wp_bind. rewrite decide_False by done.
  apply wp_bind. eapply wp_mono, AddPagesDomain_same. intros [[]|] w3 S3; [|done]. rewrite decide_False by done.
  eapply wp_mono, p_ensure; [|exact pages|intros x y Hxy; by apply p_owner in Hxy as [? _]]. intros [[]|] w4; [|done]. intros (w0 & new & v & S0 & Hn & Hst). apply wp_ret.
  assert (same w w0) as (E1 & E2 & E3) by eauto with op. change (rec_key (new_record _ _)) with (domain_key pp) in *.
  rewrite E1 in Hn. fold (domain_record w pp) in Hn. apply p_owner in Hn as (_ & N1 & N2 & N3); [|exact pages]. cbn in N1, N2, N3.
  destruct Hst as (Er & Ez & Ee & _). exists (at_version v new). split_and!; [|congruence|congruence|done|by rewrite <-Hdel|done].
  rewrite Er, decide_False, E1; [done|]. intros [_ H]. apply H. cbn. by rewrite N3.
Qed.

(** A project that is ready has the record of its domain. *)
Lemma pages_Reconcile_ready req w pp :
  (get_project K req w).1 = Ok pp -> DeletionTimestamp (pp_Meta pp) = None -> ps_CustomDomain (pp_Spec pp) <> EmptyString -> ps_ZoneRef (pp_Spec pp) <> EmptyString ->
  DeletionTimestamp (rec_Meta (domain_record w pp)) = None ->
  wp (pages_Reconcile K E (Some cf) req) (fun res w1 => res = Ok 600 -> exists child host, v_recs w1 = <[domain_key pp := child]> (v_recs w) /\
    v_zones w1 = v_zones w /\ v_edge w1 = v_edge w /\ rec_Spec child = domain_spec pp host /\ DeletionTimestamp (rec_Meta child) = None /\
    rec_Status child = rec_Status (domain_record w pp)) w.
Proof.
  intros Hg Hdel Hd Hzr Hcd. apply wp_unless_gone. apply (wp_mono _ (fun res w' => res = Ok pp /\ same w w')); [|split; [done|by apply p_get]].
  intros ? w0 [-> (P1 & P2 & P3)]. rewrite decide_False by naive_solver. apply wp_bind, wp_try.
  assert (domain_record w0 pp = domain_record w pp) as Edr by (unfold domain_record; by rewrite P1).
  eapply wp_mono, ensure_project_spec; [|done|done|by rewrite Edr]. intros [proj|e] w2.
  - intros (child & C1 & C2 & C3 & C4 & C5 & C6). apply wp_bind. unfold wp, update_project_status, status_update.
    pose proof (p_status pages (with_status pp (mkProjectStatus "Ready" (ep_Subdomain proj))) w2) as (S1 & S2 & S3).
    destruct (put_project_status K _ w2) as [[e|] w3]; cbn in *; [done|]. intros _. exists child, (ep_Subdomain proj). split_and!; congruence.
  - intros _. apply wp_bind. unfold wp, update_project_status, status_update. by destruct (put_project_status K _ w2) as [[e'|] w3].
Qed.

(** The domain of a Pages project reaches Cloudflare.  When a project with a
    domain and a zone is reconciled and ready, and then the record it made for
    the domain is reconciled, Cloudflare has a proxied CNAME record from the
    domain to the host of the project, and is otherwise unchanged. *)
Theorem pages_domain_served req w pp w1 :
  (get_project K req w).1 = Ok pp -> pages_Reconcile K E (Some cf) req w = (Ok 600, w1) ->
  DeletionTimestamp (pp_Meta pp) = None -> ps_CustomDomain (pp_Spec pp) <> EmptyString -> ps_ZoneRef (pp_Spec pp) <> EmptyString ->
  DeletionTimestamp (rec_Meta (domain_record w pp)) = None ->
  let z := zone_id w (meta_Namespace (pp_Meta pp)) (ps_ZoneRef (pp_Spec pp)) in
  z <> EmptyString -> addressable z -> (id_of (domain_record w pp) = EmptyString \/ is_Some (v_edge w !! (z, id_of (domain_record w pp)))) ->
  exists host w2 i, cf_Reconcile K E (Some cf) (domain_key pp) w1 = (Ok 300, w2) /\
    v_edge w2 = <[(z, i) := mkEdgeRecord i "CNAME" (op_fqdn (ps_CustomDomain (pp_Spec pp)) (zone_name w (meta_Namespace (pp_Meta pp)) (ps_ZoneRef (pp_Spec pp)))) host 1 true None]> (v_edge w).
Proof.
  intros Hg HR Hdel Hd Hzr Hcd z Hz Ha Hid.
  pose proof (pages_Reconcile_ready req w pp Hg Hdel Hd Hzr Hcd) as HP. unfold wp in HP. rewrite HR in HP. cbn in HP.
  destruct (HP eq_refl) as (child & host & C1 & C2 & C3 & C4 & C5 & C6). clear HP.
  assert (v_recs w1 !! domain_key pp = Some child) as Hc by (by rewrite C1, lookup_insert_eq).
  assert (zone_id w1 (domain_key pp).1 (ref_of child) = z) as Ez by (unfold zone_id, ref_of; by rewrite C4, C2).
  pose proof (cf_Reconcile_puts (domain_key pp) w1 child Hc) as H. rewrite Ez, C3 in H. unfold id_of in H. rewrite C6 in H.
  specialize (H ltac:(unfold wanted; by rewrite C4, C5) Hz Ha Hid). unfold wp in H. destruct (cf_Reconcile K E (Some cf) (domain_key pp) w1) as [res w2].
  cbn in H. destruct H as (-> & r' & i & _ & _ & _ & _ & _ & _ & _ & _ & He). exists host, w2, i. split; [done|]. rewrite He.
  unfold with_id, desired, zone_name, ref_of. by rewrite C4, C2.
Qed.

End quiet.
End operator.
