(* ===== verification/OperatorSample.v ===== *)
(** * A cluster and Cloudflare in memory

    An instance of the promises of OperatorFacts.v, in which nobody else acts
    and in which writes of a status and listings of zones can be made to fail;
    the theorems of OperatorFacts.v applied to it; and the ways in which the
    operator leaves records behind at Cloudflare or never gets them right. *)

From Stdlib Require Import Ascii ZArith Lia.
From stdpp Require Import base numbers gmap strings list countable.
From S2P Require Import Prelude Http Operator OperatorFacts.

Local Open Scope Z_scope.
Local Open Scope op_scope.

(** ** Text *)

(** A number as text. *)
Fixpoint bits (p : positive) : string :=
  match p with xH => EmptyString | xO p => String "0" (bits p) | xI p => String "1" (bits p) end.
Fixpoint unbits (s : string) : positive :=
  match s with EmptyString => xH | String "0" s => xO (unbits s) | String _ s => xI (unbits s) end.

Lemma unbits_bits p : unbits (bits p) = p.
Proof. induction p as [p IH|p IH|]; simpl; by rewrite ?IH. Qed.

#[export] Instance EdgeRecord_countable : Countable EdgeRecord.
Proof.
  apply (inj_countable' (fun r => (er_ID r, er_Type r, er_Name r, er_Content r, er_TTL r, er_Proxied r, er_Priority r))
    (fun '(a, b, c, d, e, f, g) => mkEdgeRecord a b c d e f g)). by intros [].
Defined.
#[export] Instance EdgeProject_countable : EqDecision EdgeProject.
Proof. solve_decision. Defined.
#[export] Instance EdgeProject_count : Countable EdgeProject.
Proof.
  apply (inj_countable' (fun r => (ep_Name r, ep_Subdomain r, ep_ProductionBranch r)) (fun '(a, b, c) => mkEdgeProject a b c)). by intros [].
Defined.

Definition text {A} `{Countable A} (a : A) : string := String "r" (bits (encode a)).
Definition untext {A} `{Countable A} (s : string) : option A := match s with String _ s => decode (unbits s) | EmptyString => None end.

(** A text without a slash. *)
Fixpoint no_slash (s : string) : bool :=
  match s with EmptyString => true | String c s => negb (bool_decide (c = "/"%char)) && no_slash s end.

Lemma no_slash_app a b : no_slash (a +++ b)%string = no_slash a && no_slash b.
Proof. induction a as [|c a IH]; [done|]. rewrite str_app_cons. simpl. by rewrite IH, andb_assoc. Qed.

Lemma no_slash_Split s : no_slash s = true -> Split s "/"%char = [s].
Proof.
  induction s as [|c s IH]; [done|]. simpl. intros [Hc%negb_true_iff%bool_decide_eq_false Hs]%andb_true_iff.
  rewrite decide_False by done. by rewrite IH.
Qed.

Lemma no_slash_QueryEscape s : no_slash (QueryEscape s) = true.
Proof.
  assert (forall c, no_slash (hex_byte true c) = true) as Hh by (intros [[] [] [] [] [] [] [] []]; vm_compute; reflexivity).
  induction s as [|c s IH]; [done|]. cbn [QueryEscape]. case_decide; [done|]. destruct (escape_in_query c) eqn:Ec; cbn [no_slash].
  - by rewrite no_slash_app, Hh, IH.
  - rewrite IH, andb_true_r. apply negb_true_iff, bool_decide_eq_false. intros ->. by vm_compute in Ec.
Qed.

Lemma Split_one s c x : Split s c = [x] -> x = s.
Proof.
  revert x. induction s as [|a s IH]; intros x; simpl; [by intros [= <-]|]. case_decide as Hd.
  - intros [= <- H0]. by destruct (Split_some s c).
  - destruct (Split s c) as [|y l] eqn:Es; [by destruct (Split_some s c)|]. intros [= <- ->]. by rewrite (IH y).
Qed.

Lemma Split_no_slash s : Split s "/"%char = [s] -> no_slash s = true.
Proof.
  induction s as [|c s IH]; [done|]. simpl. case_decide as Hd; [done|]. destruct (Split s "/"%char) as [|y l] eqn:Es; [by destruct (Split_some s "/"%char)|].
  intros [= -> ->]. rewrite bool_decide_false by done. by apply IH.
Qed.

Lemma no_slash_bits p : no_slash (bits p) = true.
Proof. by induction p. Qed.

(** ** The world *)

Record Mem := mkMem {
  m_recs : gmap NamespacedName DnsRecord;
  m_zones : gmap NamespacedName DnsZone;
  m_edge : gmap (string * string) EdgeRecord;
  m_rev : Z;
  m_projects : gmap NamespacedName PagesProject;
  m_pages : gmap string EdgeProject;
  m_now : Z }.

Definition with_recs (w : Mem) m : Mem := mkMem m (m_zones w) (m_edge w) (m_rev w + 1) (m_projects w) (m_pages w) (m_now w).
Definition with_edge (w : Mem) m : Mem := mkMem (m_recs w) (m_zones w) m (m_rev w) (m_projects w) (m_pages w) (m_now w).

(** Objects that are filed under their names count, and records under their ids. *)
Definition filed_rec (rev : Z) (p : NamespacedName * DnsRecord) : Prop := rec_key p.2 = p.1 /\ version p.2 <= rev.
Definition filed_zone (p : NamespacedName * DnsZone) : Prop := name_of (zone_Meta p.2) = p.1.
Definition filed_edge (p : (string * string) * EdgeRecord) : Prop := (er_ID p.2 = p.1.2 /\ p.1.2 <> EmptyString) /\ (no_slash p.1.1 = true /\ no_slash p.1.2 = true).
#[export] Instance filed_rec_dec rev p : Decision (filed_rec rev p).
Proof. unfold filed_rec. apply _. Defined.
#[export] Instance filed_zone_dec p : Decision (filed_zone p).
Proof. unfold filed_zone. apply _. Defined.
#[export] Instance filed_edge_dec p : Decision (filed_edge p).
Proof. unfold filed_edge. apply _. Defined.

#[export] Instance mem_view : OpView Mem := {|
  v_recs := fun w => filter (filed_rec (m_rev w)) (m_recs w);
  v_zones := fun w => filter filed_zone (m_zones w);
  v_edge := fun w => filter filed_edge (m_edge w);
  v_rev := m_rev |}.

#[export] Instance util : ControllerUtil := {|
  ContainsFinalizer := fun r f => bool_decide (f ∈ finalizers r);
  AddFinalizer := fun r f => if decide (f ∈ finalizers r) then (r, false) else (set_finalizers r (finalizers r ++ [f]), true);
  RemoveFinalizer := fun r f => set_finalizers r (filter (fun g => g <> f) (finalizers r));
  SetControllerReference := fun m r => Ok r |}.

(** *** Cloudflare *)

Inductive cf_req : Type :=
| RFind (z q : string) | RCreate (z : string) | RPut (z id : string) | RDelete (z id : string)
| RProject (a p : string) | RNewProject (a : string) | RDomain (a p : string) | RBad.

Definition mem_route (m : string) (parts : list string) : cf_req :=
  match parts with
  | [a; b; z; d] =>
      if decide (m = "GET" /\ b = "zones") then RFind z d
      else if decide (m = "POST" /\ b = "zones" /\ d = "dns_records") then RCreate z else RBad
  | [a; b; z; d; i] =>
      if decide (m = "PUT" /\ b = "zones" /\ d = "dns_records") then RPut z i
      else if decide (m = "DELETE" /\ b = "zones" /\ d = "dns_records") then RDelete z i
      else if decide (m = "POST" /\ b = "accounts" /\ d = "pages" /\ i = "projects") then RNewProject z else RBad
  | [a; b; z; d; i; p] => if decide (m = "GET" /\ b = "accounts") then RProject z p else RBad
  | [a; b; z; d; i; p; e] => if decide (m = "POST" /\ b = "accounts") then RDomain z p else RBad
  | _ => RBad
  end.

Definition query (x : EdgeRecord) : string := ("dns_records?name=" +++ QueryEscape (er_Name x) +++ "&type=" +++ QueryEscape (er_Type x))%string.

Definition jstr (j : option JVal) : string := match j with Some (JStr s) => s | _ => EmptyString end.
Definition jnum (j : option JVal) : option Z := match j with Some (JNum n) => Some n | _ => None end.
Definition jbool (j : option JVal) : bool := match j with Some (JBool b) => b | _ => false end.

Definition body_record (b : gmap string JVal) : EdgeRecord :=
  mkEdgeRecord (jstr (b !! "id")) (jstr (b !! "type")) (jstr (b !! "name")) (jstr (b !! "content")) (default 0 (jnum (b !! "ttl")))
    (jbool (b !! "proxied")) (jnum (b !! "priority")).

Definition tail_str (s : string) : string := match s with String _ s => s | EmptyString => EmptyString end.
Definition new_id (w : Mem) : string := String "n" (bits (fresh (set_map (fun p : string * string => unbits (tail_str p.2)) (dom (v_edge w)) : gset positive))).

Definition mem_do (c : HttpCall) (w : Mem) : HttpReply * Mem :=
  let body := default ∅ (call_body c) in
  match mem_route (call_method c) (Split (call_url c) "/") with
  | RFind z q => (Some (200, text (map snd (filter (fun p => p.1.1 = z /\ query p.2 = q) (map_to_list (v_edge w))))), w)
  | RCreate z =>
      let x := with_id (new_id w) (body_record body) in
      (Some (200, text x), with_edge w (<[(z, new_id w) := x]> (v_edge w)))
  | RPut z id =>
      if decide (is_Some (v_edge w !! (z, id))) then (Some (200, EmptyString), with_edge w (<[(z, id) := with_id id (body_record body)]> (v_edge w)))
      else (Some (404, "e"), w)
  | RDelete z id =>
      if decide (is_Some (v_edge w !! (z, id))) then (Some (200, EmptyString), with_edge w (delete (z, id) (v_edge w)))
      else (Some (404, "e"), w)
  | RProject _ p => (Some (200, match m_pages w !! p with Some x => text x | None => "p" end), w)
  | RNewProject _ =>
      let p := jstr (body !! "name") in
      let x := mkEdgeProject p (p +++ ".pages.dev")%string (jstr (body !! "production_branch")) in
      (Some (200, text x), mkMem (m_recs w) (m_zones w) (m_edge w) (m_rev w) (m_projects w) (<[p := x]> (m_pages w)) (m_now w))
  | RDomain _ _ => (Some (200, EmptyString), w)
  | RBad => (None, w)
  end.

Definition mem_edge : Edge Mem :=
  mkEdge Mem mem_do (fun _ => true)
    (fun s => Some match s with
                   | String "e" _ => mkApiResponse false [(recordMissing, s)] EmptyString
                   | String "p" _ => mkApiResponse false [(8000007, s)] EmptyString
                   | _ => mkApiResponse true [] s
                   end)
    untext untext untext.

Definition client : Client := mkClient "token" "cf".

(** *** The API server *)

Definition mem_get {A} (m : gmap NamespacedName A) (k : NamespacedName) : M Mem A := fun w =>
  (match m !! k with Some a => Ok a | None => Err NotFound end, w).

Definition mem_put_rec (w : Mem) (k : NamespacedName) (r : DnsRecord) : Mem :=
  with_recs w (if decide (finalizers r = [] /\ DeletionTimestamp (rec_Meta r) <> None) then delete k (v_recs w) else <[k := r]> (v_recs w)).

(** A write of [f] of the stored object, if it has the version given. *)
Definition mem_write (rec : DnsRecord) (f : DnsRecord -> DnsRecord) (w : Mem) : result op_error DnsRecord * Mem :=
  match v_recs w !! rec_key rec with
  | Some old =>
      if decide (version old = version rec) then
        let r := at_version (m_rev w + 1) (f old) in
        (Ok r, mem_put_rec w (rec_key rec) r)
      else (Err (ApiServer "conflict"), w)
  | None => (Err NotFound, w)
  end.

(** [status_fails] and [zones_fail]: writes of a status, listings of zones fail. *)
Definition mem_kube (status_fails zones_fail : bool) : KubeApi Mem :=
  mkKubeApi Mem
    (fun k w => mem_get (v_zones w) k w)
    (fun k w => mem_get (v_recs w) k w)
    (fun k w => mem_get (m_projects w) k w)
    (fun ns w => if zones_fail then (Err (ApiServer "timeout"), w)
                 else (Ok (map snd (filter (fun p => p.1.1 = ns) (map_to_list (v_zones w)))), w))
    (fun ns w => (Ok (map snd (filter (fun p => p.1.1 = ns) (map_to_list (v_recs w)))), w))
    (fun r => mem_write r (fun old => set_status r (rec_Status old)))
    (fun _ w => (None, w))
    (fun r w => if status_fails then (Some "conflict", w)
                else match mem_write r (fun old => set_status old (rec_Status r)) w with
                     | (Ok _, w') => (None, w')
                     | (Err _, w') => (Some "conflict", w')
                     end)
    (fun _ w => (None, w))
    (fun r f w => match v_recs w !! rec_key r with
                  | Some old => match f old with
                                | Ok new => let '(res, w') := mem_write old (fun _ => new) w in (match res with Ok _ => Ok tt | Err e => Err e end, w')
                                | Err e => (Err (ApiServer e), w)
                                end
                  | None => match f r with
                            | Ok new => (Ok tt, mem_put_rec w (rec_key r) (at_version (m_rev w + 1) new))
                            | Err e => (Err (ApiServer e), w)
                            end
                  end)
    m_now.

(** ** The promises hold *)

Lemma filter_filed {K A} `{Countable K} (P : K * A -> Prop) `{!forall x, Decision (P x)} (m : gmap K A) :
  (forall k a, m !! k = Some a -> P (k, a)) -> filter P m = m.
Proof. intros HP. apply map_filter_id. intros k a Ha. by apply HP. Qed.

Lemma v_recs_filed (w : Mem) k r : v_recs w !! k = Some r -> rec_key r = k /\ version r <= m_rev w.
Proof. intros [_ H]%map_lookup_filter_Some. exact H. Qed.

Lemma v_edge_filed (w : Mem) z id x : v_edge w !! (z, id) = Some x -> (er_ID x = id /\ id <> EmptyString) /\ (no_slash z = true /\ no_slash id = true).
Proof. intros [_ H]%map_lookup_filter_Some. exact H. Qed.

(** Records written are filed. *)
Lemma v_recs_write (w : Mem) m :
  (forall k r, m !! k = Some r -> v_recs w !! k = Some r \/ rec_key r = k /\ version r = m_rev w + 1) -> v_recs (with_recs w m) = m.
Proof.
  intros Hm. apply filter_filed. intros k r Hr. destruct (Hm _ _ Hr) as [[? ?]%v_recs_filed|[? ?]]; split; simpl; [done|lia|done|lia].
Qed.

Lemma v_edge_write (w : Mem) m :
  (forall z id x, m !! (z, id) = Some x -> v_edge w !! (z, id) = Some x \/ filed_edge ((z, id), x)) ->
  edge_only w (with_edge w m) m.
Proof.
  intros Hm. split_and!; [done..|]. apply filter_filed. intros [z id] x Hx. by destruct (Hm _ _ _ Hx) as [?%v_edge_filed|?].
Qed.

Lemma mem_put_rec_spec w k r : rec_key r = k -> stored w (mem_put_rec w k (at_version (m_rev w + 1) r)) k (at_version (m_rev w + 1) r).
Proof.
  intros Hk. split_and!; [|done|done|simpl; lia|left; unfold version; simpl; lia].
  apply v_recs_write. intros k' r'. case_decide as Hd; [intros [_ ?]%lookup_delete_Some; by left|].
  intros [[<- <-]|[_ ?]]%lookup_insert_Some; [by right|by left].
Qed.

Lemma mem_write_spec rec f w :
  (forall old, v_recs w !! rec_key rec = Some old -> rec_key (f old) = rec_key rec) ->
  match mem_write rec f w with
  | (Ok r, w') => exists old v, v_recs w !! rec_key rec = Some old /\ version old = version rec /\ r = at_version v (f old) /\ stored w w' (rec_key rec) r
  | (Err _, w') => w' = w
  end.
Proof.
  intros Hf. unfold mem_write. destruct (v_recs w !! rec_key rec) as [old|] eqn:Ho; [|done]. case_decide as Hv; [|done].
  exists old, (m_rev w + 1). split_and!; [done..|]. apply mem_put_rec_spec. by apply Hf.
Qed.

(** Calls, by their paths. *)
Lemma route_zones m l :
  mem_route m ("cf" :: "zones" :: l) =
  match l with
  | [z; d] => if decide (m = "GET") then RFind z d else if decide (m = "POST" /\ d = "dns_records") then RCreate z else RBad
  | [z; d; i] => if decide (m = "PUT" /\ d = "dns_records") then RPut z i else if decide (m = "DELETE" /\ d = "dns_records") then RDelete z i else RBad
  | _ => RBad
  end.
Proof.
  destruct l as [|z [|d [|i [|p [|e [|]]]]]]; cbn [mem_route]; try done; repeat case_decide; naive_solver.
Qed.

(** One part or more. *)
Lemma Split_cases z : no_slash z = true /\ Split z "/"%char = [z] \/ exists a b l, Split z "/"%char = a :: b :: l.
Proof.
  destruct (Split z "/"%char) as [|a [|b l]] eqn:Es; [by destruct (Split_some z "/"%char)| |eauto]. left. pose proof (Split_one _ _ _ Es) as ->. split; [|done]. by apply Split_no_slash.
Qed.

Lemma Split_zone z rest : Split ("cf" +++ "/zones/" +++ z +++ String "/" rest)%string "/" = "cf" :: "zones" :: Split z "/" ++ Split rest "/".
Proof.
  change ("cf" +++ "/zones/" +++ z +++ String "/" rest)%string with (String.append "cf" (String "/" (String.append "zones" (String "/" (String.append z (String "/" rest)))))).
  by rewrite !Split_app_sep.
Qed.

Lemma route_record m z id : m = "PUT" \/ m = "DELETE" ->
  let r := mem_route m (Split ("cf" +++ record_path z id)%string "/") in r = (if decide (m = "PUT") then RPut z id else RDelete z id) \/ r = RBad.
Proof.
  intros Hm. unfold record_path. change ("/dns_records/" +++ id)%string with (String "/" (String.append "dns_records" (String "/" id))).
  rewrite Split_zone, Split_app_sep, route_zones. destruct (Split_cases z) as [[? ->]|(a & b & l & ->)], (Split_cases id) as [[? ->]|(a' & b' & l' & ->)].
  all: destruct Hm as [->| ->]; simpl; auto; destruct l as [|? [|]]; auto.
Qed.

Lemma route_record_ok m z id : m = "PUT" \/ m = "DELETE" -> no_slash z = true -> no_slash id = true ->
  mem_route m (Split ("cf" +++ record_path z id)%string "/") = (if decide (m = "PUT") then RPut z id else RDelete z id).
Proof.
  intros Hm Hz Hid. unfold record_path. change ("/dns_records/" +++ id)%string with (String "/" (String.append "dns_records" (String "/" id))).
  rewrite Split_zone, Split_app_sep, route_zones, !no_slash_Split by done. by destruct Hm as [->| ->].
Qed.

Lemma route_create z :
  mem_route "POST" (Split ("cf" +++ "/zones/" +++ z +++ "/dns_records")%string "/") = RCreate z /\ no_slash z = true \/ mem_route "POST" (Split ("cf" +++ "/zones/" +++ z +++ "/dns_records")%string "/") = RBad.
Proof.
  change "/dns_records" with (String "/" "dns_records"). rewrite Split_zone, route_zones.
  destruct (Split_cases z) as [[? ->]|(a & b & l & ->)]; simpl; [auto|]. destruct l as [|? [|]]; auto.
Qed.

Lemma route_find z q : no_slash q = true ->
  mem_route "GET" (Split ("cf" +++ "/zones/" +++ z +++ "/" +++ q)%string "/") = RFind z q \/ mem_route "GET" (Split ("cf" +++ "/zones/" +++ z +++ "/" +++ q)%string "/") = RBad.
Proof.
  intros Hq. change ("/" +++ q)%string with (String "/" q). rewrite Split_zone, route_zones, (no_slash_Split q Hq).
  destruct (Split_cases z) as [[? ->]|(a & b & l & ->)]; simpl; [auto|]. destruct l as [|? [|]]; auto.
Qed.

Lemma with_id_body id x : with_id id (body_record (record_body x)) = with_id id x.
Proof.
  destruct x as [id' ty nm ct ttl pr pri]. unfold record_body, body_record, with_id. cbn [er_ID er_Type er_Name er_Content er_TTL er_Proxied er_Priority].
  case_decide as H1; case_decide as H2; destruct pri; simplify_map_eq; done.
Qed.

Lemma new_id_new (w : Mem) z : v_edge w !! (z, new_id w) = None.
Proof.
  apply not_elem_of_dom. intros Hin. unfold new_id in Hin.
  set (X := set_map (fun p : string * string => unbits (tail_str p.2)) (dom (v_edge w)) : gset positive) in *. apply (is_fresh X).
  apply elem_of_map. exists (z, String "n" (bits (fresh X))). split; [simpl; by rewrite unbits_bits|done].
Qed.

Ltac call := unfold wp, op_do_nil, op_do; cbn [edge_request_ok mem_edge negb edge_do BaseURL Token client]; unfold mem_do; cbn [call_method call_url call_body].
Ltac answered := cbn -[bits unbits encode decode v_edge]; rewrite ?unbits_bits, ?decode_encode.

Lemma mem_find z name t w : wp (op_do mem_edge client "GET" ("/zones/" +++ z +++ "/dns_records?name=" +++ QueryEscape name +++ "&type=" +++ QueryEscape t)%string
    None (get_records mem_edge) []) (fun r w' => w = w' /\
  match r with
  | Ok l => (forall x, x ∈ l -> v_edge w' !! (z, er_ID x) = Some x /\ er_ID x <> EmptyString) /\
            (l = [] -> forall id x, v_edge w' !! (z, id) = Some x -> er_Name x = name -> er_Type x <> t)
  | Err _ => True
  end) w.
Proof.
  set (q := ("dns_records?name=" +++ QueryEscape name +++ "&type=" +++ QueryEscape t)%string).
  assert (no_slash q = true) as Hq by (unfold q; by rewrite !no_slash_app, !no_slash_QueryEscape).
  call. change (Split _ _) with (Split ("cf" +++ "/zones/" +++ z +++ "/" +++ q)%string "/").
  destruct (route_find z q Hq) as [->| ->]; [|done]. answered. split; [done|]. split.
  - intros x ([[z' id] x'] & -> & [[Hz _] Hx%elem_of_map_to_list]%list_elem_of_filter)%list_elem_of_fmap. simpl in *. subst z'.
    by destruct (v_edge_filed _ _ _ _ Hx) as [[-> ?] _].
  - intros Hl id x Hx Hn Ht. apply fmap_nil_inv in Hl. assert (((z, id), x) ∈ @nil (string * string * EdgeRecord)) as Hin; [|by apply elem_of_nil in Hin].
    rewrite <-Hl. apply list_elem_of_filter. split; [|by apply elem_of_map_to_list]. split; [done|]. unfold query, q. simpl. by rewrite Hn, Ht.
Qed.

Lemma mem_create z x w : wp (op_do mem_edge client "POST" ("/zones/" +++ z +++ "/dns_records")%string (Some (record_body x)) (get_record_ mem_edge) empty_record) (fun r w' =>
  match r with Ok out => created eq w w' z x (er_ID out) | Err _ => w = w' end) w.
Proof.
  call. destruct (route_create z) as [[-> Hz]| ->]; [|done]. answered. exists w. split_and!; [done..|apply new_id_new|].
  cbn [default]. rewrite with_id_body. apply v_edge_write. intros z' id y [[[= <- <-] <-]|[_ ?]]%lookup_insert_Some; [right|by left].
  by split; [|split; [|apply no_slash_bits]].
Qed.

Lemma mem_put z id x w : wp (op_do_nil mem_edge client "PUT" (record_path z id) (Some (record_body x))) (fun r w' =>
  match r with
  | Ok _ => changed eq w w' z id x
  | Err e => w = w' \/ in_doubt e = true /\ changed eq w w' z id x
  end) w.
Proof.
  call. destruct (route_record "PUT" z id) as [->| ->]; [by left| |by left]. rewrite decide_True by done. case_decide as Hi; answered; [|by left].
  exists w. split_and!; [done..|]. rewrite with_id_body. apply v_edge_write. intros z' id' y [[[= <- <-] <-]|[_ ?]]%lookup_insert_Some; [right|by left].
  destruct Hi as [y Hi]. by apply v_edge_filed in Hi as [[_ ?] ?].
Qed.

Lemma mem_delete z id w : wp (op_do_nil mem_edge client "DELETE" (record_path z id) None) (fun r w' =>
  match r with
  | Ok _ => removed eq w w' z id
  | Err (Cloudflare (ApiError n _)) => w = w' /\ (n = recordMissing -> v_edge w' !! (z, id) = None)
  | Err e => w = w' \/ in_doubt e = true /\ removed eq w w' z id
  end) w.
Proof.
  call. destruct (route_record "DELETE" z id) as [->| ->]; [by right| |by left]. rewrite decide_False by done. case_decide as Hi; answered.
  - exists w. split; [done|]. apply v_edge_write. intros z' id' y [_ ?]%lookup_delete_Some. by left.
  - split; [done|]. intros _. by apply eq_None_not_Some.
Qed.

(** Cloudflare, with answers to POST that are lost after the call was done. *)
Definition lossy_edge : Edge Mem :=
  mkEdge Mem (fun c w => let '(a, w') := mem_do c w in (if decide (call_method c = "POST") then None else a, w')) (fun _ => true)
    (get_response mem_edge) untext untext untext.

Lemma lossy_do {A} m path b (out : string -> option A) zero w :
  m <> "POST" -> op_do lossy_edge client m path b out zero w = op_do mem_edge client m path b out zero w.
Proof.
  intros Hm. unfold op_do. cbn [edge_request_ok edge_do lossy_edge mem_edge negb call_method get_response].
  destruct (mem_do _ w) as [a w']. by rewrite decide_False.
Qed.

Definition some_edge (lossy : bool) : Edge Mem := if lossy then lossy_edge else mem_edge.

Lemma some_create lossy z x w : wp (op_do (some_edge lossy) client "POST" ("/zones/" +++ z +++ "/dns_records")%string
    (Some (record_body x)) (get_record_ (some_edge lossy)) empty_record) (fun r w' =>
  match r with
  | Ok out => created eq w w' z x (er_ID out)
  | Err e => w = w' \/ in_doubt e = true /\ exists id, created eq w w' z x id
  end) w.
Proof.
  pose proof (mem_create z x w) as H. destruct lossy; [|eapply wp_mono, H; intros [out|e] w' ?; auto].
  revert H. call. cbn [edge_do some_edge lossy_edge edge_request_ok negb]. unfold mem_do. cbn [call_method call_url call_body].
  destruct (route_create z) as [[-> Hz]| ->]; [|by left]. answered. intros H. right. split; [done|]. eexists. exact H.
Qed.

#[export] Instance some_spec sf zf lossy : OpSpec (mem_kube sf zf) (some_edge lossy) client eq.
Proof.
  split.
  - apply _.
  - intros w w' <-. apply later_refl.
  - exact v_recs_filed.
  - intros w k z [_ H]%map_lookup_filter_Some. exact H.
  - intros r f. apply bool_decide_eq_true.
  - intros r f. simpl. case_decide as Hf; [exists (finalizers r)|exists (finalizers r ++ [f])].
    + rewrite bool_decide_true by done. by destruct r as [[]].
    + rewrite bool_decide_false by done. split_and!; [done|set_solver|done].
  - intros r f. simpl. eexists. split; [done|]. intros g. rewrite list_elem_of_filter. naive_solver.
  - intros k w. split; [done|]. simpl. unfold mem_get. by destruct (_ !! k) eqn:Ek.
  - intros ns w. simpl. unfold wp. destruct zf; simpl; [done|]. split; [done|]. intros z. rewrite list_elem_of_fmap. split.
    + intros ([[ns' n] z'] & -> & [Hns Hz%elem_of_map_to_list]%list_elem_of_filter). simpl in *. subst. eauto.
    + intros [n Hz]. exists ((ns, n), z). split; [done|]. apply list_elem_of_filter. split; [done|]. by apply elem_of_map_to_list.
  - intros rec w. unfold wp. simpl. pose proof (mem_write_spec rec (fun old => set_status rec (rec_Status old)) w ltac:(done)) as H.
    destruct (mem_write _ _ w) as [[r'|e] w']; simpl; [|by left]. destruct H as (old & v & H1 & H2 & H3 & H4). exists w, old, v. done.
  - intros rec w. simpl. destruct sf; [by left|]. pose proof (mem_write_spec rec (fun old => set_status old (rec_Status rec)) w) as H.
    destruct (mem_write _ _ w) as [[r'|e] w']; [|left; by rewrite H by (intros old Ho; apply (v_recs_filed _ _ _ Ho))].
    destruct H as (old & v & H1 & H2 & -> & H4); [intros old Ho; apply (v_recs_filed _ _ _ Ho)|]. by exists w, old, v.
  - intros z name t w. destruct lossy; [unfold wp; rewrite lossy_do by done|]; exact (mem_find z name t w).
  - apply some_create.
  - intros z id x w. destruct lossy; [unfold wp, op_do_nil; rewrite lossy_do by done|]; exact (mem_put z id x w).
  - intros z id w. destruct lossy; [unfold wp, op_do_nil; rewrite lossy_do by done|]; exact (mem_delete z id w).
Qed.

#[export] Instance mem_spec sf zf : OpSpec (mem_kube sf zf) mem_edge client eq.
Proof. exact (some_spec sf zf false). Qed.

(** Nothing fails. *)
Lemma mem_reliable : reliable (mem_kube false false) mem_edge client (fun s => no_slash s = true).
Proof.
  split.
  - intros k w [r Hr]. change (is_ok (E := op_error) match v_recs w !! k with Some a => Ok a | None => Err NotFound end = true). by rewrite Hr.
  - intros rec old w Ho Hv. cbn [update_record mem_kube]. unfold mem_write. by rewrite Ho, decide_True.
  - intros rec old w Ho Hv. unfold update_record_status, status_update. cbn [put_record_status mem_kube]. unfold mem_write. by rewrite Ho, decide_True.
  - intros z id w [x Hx]. by apply v_edge_filed in Hx as [_ ?].
  - intros z name t w Hz. set (q := ("dns_records?name=" +++ QueryEscape name +++ "&type=" +++ QueryEscape t)%string).
    assert (no_slash q = true) as Hq by (unfold q; by rewrite !no_slash_app, !no_slash_QueryEscape).
    unfold FindRecord, bind. call. change (Split _ _) with (Split ("cf" +++ "/zones/" +++ z +++ "/" +++ q)%string "/").
    change ("/" +++ q)%string with (String "/" q). rewrite Split_zone, !no_slash_Split, route_zones by done.
    cbn [app]. rewrite decide_True by done. by answered.
  - intros z x w Hz. unfold edge_CreateRecord, bind. call. change "/dns_records" with (String "/" "dns_records").
    rewrite Split_zone, !no_slash_Split, route_zones by done. cbn [app]. rewrite decide_False, decide_True by done. by answered.
  - intros z id x w Hi. pose proof Hi as [y [_ [Hz Hid]]%v_edge_filed]. unfold edge_UpdateRecord. fold (record_path z id). call.
    rewrite (route_record_ok "PUT" z id), decide_True by auto. by rewrite decide_True.
  - intros z id w Hz Hid. unfold edge_DeleteRecord, unless, bind, try. fold (record_path z id). call.
    rewrite (route_record_ok "DELETE" z id), decide_False by auto. by case_decide as Hi.
Qed.

Lemma mem_listed ns w : is_ok (list_zones (mem_kube false false) ns w).1 = true.
Proof. done. Qed.

Lemma mem_quiet (w w' : Mem) : w = w' -> same w w'.
Proof. by intros <-. Qed.

Lemma route_accounts m l :
  match mem_route m ("cf" :: "accounts" :: l) with RProject _ _ | RNewProject _ | RDomain _ _ | RBad => True | _ => False end.
Proof. destruct l as [|z [|d [|i [|p [|e [|]]]]]]; cbn [mem_route]; try done; repeat case_decide; naive_solver. Qed.

Lemma mem_pages : pages_spec (mem_kube false false) mem_edge client.
Proof.
  split.
  - intros A m p b out zero w. call. change ("cf" +++ "/accounts/" +++ p)%string with (String.append "cf" (String "/" (String.append "accounts" (String "/" p)))).
    rewrite !Split_app_sep. cbn [app Split]. pose proof (route_accounts m (Split p "/")) as H. by destruct (mem_route m _).
  - done.
  - done.
  - intros m r r' [= <-]. done.
  - intros r f w Hf. unfold wp. cbn [CreateOrUpdate mem_kube]. destruct (v_recs w !! rec_key r) as [old|] eqn:Ho.
    + destruct (v_recs_filed _ _ _ Ho) as [Hk _]. destruct (f old) as [new|e] eqn:Ef; [|done]. unfold mem_write. rewrite Hk, Ho, decide_True by done.
      exists w, new, (m_rev w + 1). rewrite Ho. split_and!; [done..|]. apply mem_put_rec_spec. by rewrite (Hf _ _ Ef).
    + destruct (f r) as [new|e] eqn:Ef; [|done]. exists w, new, (m_rev w + 1). rewrite Ho. split_and!; [done..|]. apply mem_put_rec_spec. by apply Hf.
Qed.

Module OpSample.

Definition key : NamespacedName := ("ns", "www").
Definition zone0 : DnsZone := mkDnsZone (mkMeta "z" "ns" 1 [] None []) (mkZoneSpec "example.com" EmptyString "cfz" false EmptyString) (mkZoneStatus EmptyString 0 None).
Definition spec0 (content : string) : DnsRecordSpec := mkRecordSpec "z" "www" "A" content 300 None false true.
Definition rec0 (name content : string) : DnsRecord :=
  mkDnsRecord (mkMeta name "ns" 2 [] None []) (spec0 content) (mkRecordStatus EmptyString EmptyString None).

Definition start : Mem := mkMem {[ key := rec0 "www" "192.0.2.1" ]} {[ ("ns", "z") := zone0 ]} ∅ 2 ∅ ∅ 1.

(** A reconciliation, with the failures chosen. *)
Definition reconcile (status_fails zones_fail : bool) (CF : option Client) (k : NamespacedName) (w : Mem) : Mem :=
  (cf_Reconcile (mem_kube status_fails zones_fail) mem_edge CF k w).2.

(** A user changes the specification of an object, or deletes it. *)
Definition edit (k : NamespacedName) (f : DnsRecord -> DnsRecord) (w : Mem) : Mem :=
  match v_recs w !! k with Some r => with_recs w (<[k := at_version (m_rev w + 1) (f r)]> (v_recs w)) | None => w end.
Definition deleting (r : DnsRecord) : DnsRecord :=
  let m := rec_Meta r in
  mkDnsRecord (mkMeta (meta_Name m) (meta_Namespace m) (ResourceVersion m) (Finalizers m) (Some 5) (OwnerReferences m)) (rec_Spec r) (rec_Status r).
Definition wanting (b : bool) (r : DnsRecord) : DnsRecord :=
  let s := rec_Spec r in
  mkDnsRecord (rec_Meta r) (mkRecordSpec (rs_ZoneRef s) (rs_Name s) (rs_Type s) (rs_Content s) (rs_TTL s) (rs_Priority s) (rs_Proxied s) b) (rec_Status r).

Definition synced : Mem := Eval vm_compute in reconcile false false (Some client) key start.
Definition edge_id : string := Eval vm_compute in match map_to_list (v_edge synced) with (k, _) :: _ => k.2 | [] => EmptyString end.

(** The answer to the creation is lost, and the object is deleted before the
    next reconciliation, which finds no id to delete. *)
Definition lost1 : Mem := Eval vm_compute in (cf_Reconcile (mem_kube false false) lossy_edge (Some client) key start).2.
Definition lost2 : Mem := Eval vm_compute in edit key deleting lost1.
Definition lost3 : Mem := Eval vm_compute in (cf_Reconcile (mem_kube false false) lossy_edge (Some client) key lost2).2.

Lemma nobody (w w' : Mem) : w = w' -> rely (fun _ => False) w w'.
Proof. intros <-. split_and!; [auto|done|]. intros k r Hr. by exists r. Qed.

Lemma start_accounted : accounted (fun _ => False) (fun _ => True) start.
Proof. intros z i [x Hx]. vm_compute in Hx. discriminate Hx. Qed.

Lemma lost1_keys : (map_to_list (v_recs lost1)).*1 = [key].
Proof. vm_compute. reflexivity. Qed.

Lemma lost2_deleting : v_recs lost2 !! key = (fun r => at_version (m_rev lost1 + 1) (deleting r)) <$> v_recs lost1 !! key.
Proof. vm_compute. reflexivity. Qed.

Lemma lost2_edge : v_edge lost2 = v_edge lost1.
Proof. vm_compute. reflexivity. Qed.

(** The user who deletes the object leaves its finalizer to the operator. *)
Lemma deleting_rely : rely (fun _ => False) lost1 lost2.
Proof.
  split_and!; [intros z i; rewrite lost2_edge; by left|intros; reflexivity|]. intros k r [Hr Hf].
  assert (k ∈ [key]) as ->%list_elem_of_singleton.
  { rewrite <-lost1_keys. apply list_elem_of_fmap. exists (k, r). split; [reflexivity|]. by apply elem_of_map_to_list. }
  exists (at_version (m_rev lost1 + 1) (deleting r)). split; [|split; reflexivity]. split; [|exact Hf].
  rewrite lost2_deleting, Hr. reflexivity.
Qed.

Lemma operator_no_orphans_witness :
  (exists left : list (string * string), (length left <= 0)%nat /\
     forall z i, is_Some (v_edge synced !! (z, i)) -> False \/ (z, i) ∈ left \/
       exists k r, v_recs synced !! k = Some r /\ cloudflareFinalizer ∈ finalizers r /\ id_of r = i /\ zone_id synced k.1 (ref_of r) = z) /\
  v_recs lost3 !! key = None /\ size (v_edge lost3) = 1%nat /\
  (exists left : list (string * string), (length left <= 1)%nat /\
     forall z i, is_Some (v_edge lost3 !! (z, i)) -> False \/ (z, i) ∈ left \/
       exists k r, v_recs lost3 !! k = Some r /\ cloudflareFinalizer ∈ finalizers r /\ id_of r = i /\ zone_id lost3 k.1 (ref_of r) = z).
Proof.
  split_and!; [|vm_compute; reflexivity|vm_compute; reflexivity|].
  - apply (operator_no_orphans (mem_kube false false) mem_edge client eq mem_listed (fun _ => False) start); [exact nobody|exact start_accounted|].
    exact (run_cloudflare (mem_kube false false) mem_edge client (fun _ => False) start 0 (Some client) start key (run_start _ _ _ _ _) (or_intror eq_refl)).
  - apply (operator_no_orphans (mem_kube false false) (some_edge true) client eq mem_listed (fun _ => False) start); [exact nobody|exact start_accounted|].
    refine (run_cloudflare (mem_kube false false) lossy_edge client (fun _ => False) start 1 (Some client) lost2 key _ (or_intror eq_refl)).
    refine (run_others _ _ _ _ _ 1 lost1 lost2 _ deleting_rely).
    exact (run_cloudflare (mem_kube false false) lossy_edge client (fun _ => False) start 0 (Some client) start key (run_start _ _ _ _ _) (or_intror eq_refl)).
Defined.

Lemma cf_Reconcile_syncs_witness :
  exists w' r' i, cf_Reconcile (mem_kube false false) mem_edge (Some client) key start = (Ok 300, w') /\
    v_recs w' = <[key := r']> (v_recs start) /\ id_of r' = i /\
    v_edge w' = <[("cfz", i) := mkEdgeRecord i "A" "www.example.com" "192.0.2.1" 300 false None]> (v_edge start).
Proof.
  destruct (cf_Reconcile_syncs (mem_kube false false) mem_edge client eq mem_listed mem_quiet _ mem_reliable key start (rec0 "www" "192.0.2.1"))
    as (w' & r' & i & H1 & H2 & _ & _ & _ & H3 & _ & _ & _ & H4).
  - vm_compute. reflexivity.
  - reflexivity.
  - vm_compute. discriminate.
  - vm_compute. reflexivity.
  - left. reflexivity.
  - exists w', r', i. split_and!; [exact H1|exact H2|exact H3|exact H4].
Defined.

Definition dying : Mem := Eval vm_compute in edit key deleting synced.

Lemma cf_Reconcile_cleans_witness :
  exists w', cf_Reconcile (mem_kube false false) mem_edge (Some client) key dying = (Ok 0, w') /\ v_edge w' = delete ("cfz", edge_id) (v_edge dying).
Proof.
  assert (exists r, v_recs dying !! key = Some r) as [r Hr] by (vm_compute; by eexists).
  assert (v_recs dying !! key = Some r -> bool_decide (wanted r = false /\ cloudflareFinalizer ∈ finalizers r /\ ref_of r = "z" /\ id_of r = edge_id) = true) as Hb.
  { intros E0. vm_compute in E0. injection E0 as <-. vm_compute. reflexivity. }
  specialize (Hb Hr). apply bool_decide_eq_true_1 in Hb as (H1 & H2 & H3 & H4).
  assert (zone_id dying key.1 (ref_of r) = "cfz") as H0 by (rewrite H3; vm_compute; reflexivity).
  pose proof (cf_Reconcile_cleans (mem_kube false false) mem_edge client eq mem_listed mem_quiet _ mem_reliable key dying r Hr H1 H2) as H.
  rewrite H0, H4 in H. destruct H as (w' & H5 & H6 & _).
  - discriminate.
  - vm_compute. discriminate.
  - reflexivity.
  - vm_compute. reflexivity.
  - exists w'. split; [exact H5|exact H6].
Defined.

(** A project and its domain. *)
Definition project : PagesProject := mkPagesProject (mkMeta "site" "ns" 1 [] None []) (mkProjectSpec "acc" EmptyString EmptyString "shop" "z") (mkProjectStatus EmptyString EmptyString).
Definition site : Mem := mkMem ∅ {[ ("ns", "z") := zone0 ]} ∅ 2 {[ ("ns", "site") := project ]} ∅ 1.
Definition ready : Mem := Eval vm_compute in (pages_Reconcile (mem_kube false false) mem_edge (Some client) ("ns", "site") site).2.

Lemma pages_domain_served_witness :
  exists host w2 i, cf_Reconcile (mem_kube false false) mem_edge (Some client) ("ns", "site-domain") ready = (Ok 300, w2) /\
    v_edge w2 = <[("cfz", i) := mkEdgeRecord i "CNAME" "shop.example.com" host 1 true None]> (v_edge site).
Proof.
  apply (pages_domain_served (mem_kube false false) mem_edge client eq mem_listed mem_quiet _ mem_reliable mem_pages ("ns", "site") site project ready).
  - vm_compute. reflexivity.
  - vm_compute. reflexivity.
  - reflexivity.
  - discriminate.
  - discriminate.
  - vm_compute. reflexivity.
  - vm_compute. discriminate.
  - vm_compute. reflexivity.
  - left. vm_compute. reflexivity.
Defined.

(** ** What goes wrong *)

(** The write of the status after a record is created fails, and the object is
    deleted before the next reconciliation: the id is not known, the finalizer
    is released, and the record stays at Cloudflare for good. *)
Lemma lost_status_orphan :
  let w1 := reconcile true false (Some client) key start in
  let w2 := reconcile false false (Some client) key (edit key deleting w1) in
  v_recs w2 !! key = None /\ size (v_edge w2) = 1%nat.
Proof. vm_compute. done. Qed.

(** An error of listing zones is taken for a zone that is not at Cloudflare: an
    object that is being deleted is let go without its record being deleted.
    So it is when the zone was deleted first, or when the operator runs without
    a token. *)
Lemma unlisted_zone_orphan :
  let gone w := v_recs w !! key = None /\ size (v_edge w) = 1%nat in
  gone (reconcile false true (Some client) key dying) /\
  gone (reconcile false false (Some client) key
          (mkMem (m_recs dying) ∅ (m_edge dying) (m_rev dying) ∅ ∅ 1)) /\
  gone (reconcile false false None key dying).
Proof. vm_compute. done. Qed.

(** A record taken out of Cloudflare keeps its id, so that it cannot be put
    back: the first reconciliation after it is wanted again adds the finalizer,
    and then each updates a record that is not there, fails and changes
    nothing. *)
Lemma unwanted_stuck :
  let out := reconcile false false (Some client) key (edit key (wanting false) synced) in
  let w := reconcile false false (Some client) key (edit key (wanting true) out) in
  exists t, cf_Reconcile (mem_kube false false) mem_edge (Some client) key w = (Err (Cloudflare (ApiError recordMissing t)), w).
Proof. vm_compute. by eexists. Qed.

(** Two records of one name and type share a record at Cloudflare, which each
    reconciliation overwrites with its own content; deleting one deletes it
    for both. *)
Lemma shared_record :
  let other := ("ns", "www2") in
  let both := with_recs synced (<[other := rec0 "www2" "192.0.2.2"]> (v_recs synced)) in
  let contents w := map (fun p : string * string * EdgeRecord => er_Content p.2) (map_to_list (v_edge w)) in
  let w1 := reconcile false false (Some client) other both in
  let w2 := reconcile false false (Some client) key w1 in
  contents both = ["192.0.2.1"] /\ contents w1 = ["192.0.2.2"] /\ contents w2 = ["192.0.2.1"] /\
  contents (reconcile false false (Some client) other (edit other deleting w2)) = [].
Proof. vm_compute. done. Qed.

(** Each reconciliation writes the time into the object it watches, so that it
    is followed by another at once, not in five minutes. *)
Lemma resync_at_once t : t <> 1 ->
  v_recs (reconcile false false (Some client) key (mkMem (m_recs synced) (m_zones synced) (m_edge synced) (m_rev synced) ∅ ∅ t)) !! key <> v_recs synced !! key.
Proof. intros Ht H. vm_compute in H. congruence. Qed.

End OpSample.
