(* ===== verification/Register.v ===== *)
(** * From server blocks to servers (core/dnsserver, plugin/normalize.go)

    The keys of server blocks as zones and ports ([SplitHostPort], with the
    reverse zones of plugin/pkg/cidr), the configurations they make
    ([InspectServerBlocks]), their grouping by listening address and the check
    that no two of them claim the same zone ([MakeServers], register.go and
    address.go).  Timeouts, TLS settings and secrets, which are copied along
    with the plugins of a block, are not part of it. *)

From Stdlib Require Import Ascii ZArith Lia.
From stdpp Require Import base numbers gmap strings list.
From S2P Require Import Prelude DnsTypes DnsLib Ip GoStrings Http Xfer Serve Server GoNet ForwardSetup.

Local Open Scope Z_scope.

(** ** Networks *)

(** [IPMask]: the byte [i] of a mask of [n] ones. *)
Definition mask_byte (n : nat) (i : nat) : Z :=
  if decide (8 * S i <= n)%nat then 255
  else if decide (n <= 8 * i)%nat then 0
  else 256 - 2 ^ Z.of_nat (8 - (n - 8 * i)).

Definition mask_ip (ip : list Z) (n : nat) : list Z := imap (fun i b => Z.land b (mask_byte n i)) ip.

(** [net.ParseCIDR]: the address and the network. *)
Definition ParseCIDR (s : string) : option (list Z * IPNet) :=
  match IndexByte s "/" with
  | None => None
  | Some i =>
      let addr := take_str i s in
      let v6 := Contains addr ":" in
      ip ← ParseIP addr;
      match drop_str (S i) s with
      | EmptyString => None
      | mask =>
          n ← parse_digits mask 0;
          if decide (n <= if v6 then 128 else 32)
          then Some (ip, mkIPNet (mask_ip (if v6 then ip else drop 12 ip) (Z.to_nat n)) (Z.to_nat n)) else None
      end
  end.

(** [IPNet.Contains]: a mapped address and a mapped network count as the four
    bytes. *)
Definition IPNet_Contains (n : IPNet) (ip : list Z) : bool :=
  let '(nn, off) := match To4 (net_IP n) with
                    | Some v4 => (v4, length (net_IP n) - 4)%nat
                    | None => (if decide (length (net_IP n) = 16%nat) then net_IP n else [], 0%nat)
                    end in
  let ip := default ip (To4 ip) in
  let masked := imap (fun i b => Z.land b (mask_byte (ones n) (off + i))) in
  bool_decide (masked ip = masked nn).

Definition net_bits (n : IPNet) : nat := (8 * length (net_IP n))%nat.

(** [IPNet.String], of the four bytes of a mapped network. *)
Definition net_String (n : IPNet) : string :=
  let nn := default (net_IP n) (To4 (net_IP n)) in
  IP_String nn +:+ "/" +:+ Itoa (Z.of_nat (ones n - 8 * (length (net_IP n) - length nn))).

(** Of github.com/miekg/dns and github.com/apparentlymart/go-cidr.  No reverse
    name is an error. *)
Class CidrLib := {
  ReverseAddr : string -> option string;
  IsDomainName : string -> bool;
  NextSubnet : IPNet -> nat -> IPNet * bool }.

(** ** plugin/pkg/cidr *)

Section cidr.
Context {N : DnsNames} {C : CidrLib}.

(** The networks after [last], at most [n] of them. *)
Fixpoint nets_loop (n : nat) (newPrefixLen : nat) (last : IPNet) : list IPNet :=
  match n with
  | O => []
  | S n' =>
      let '(next, exceeds) := NextSubnet last newPrefixLen in
      next :: (if exceeds : bool then [] else nets_loop n' newPrefixLen next)
  end.

Definition nets (network : IPNet) (newPrefixLen : nat) : list IPNet :=
  let maxSubnets := Z.to_nat (2 ^ Z.of_nat newPrefixLen / 2 ^ Z.of_nat (ones network)) in
  let first := mkIPNet (net_IP network) newPrefixLen in
  first :: nets_loop (maxSubnets - 1) newPrefixLen first.

Definition boundary (n : IPNet) : nat := if Contains (net_String n) ":" then 4%nat else 8%nat.

(** The next multiple of the boundary. *)
Definition next_boundary (n : IPNet) : nat := (((ones n + boundary n - 1) / boundary n) * boundary n)%nat.

Definition cidr_Split (n : IPNet) : list string :=
  if decide (ones n mod boundary n = 0)%nat then [net_String n] else net_String <$> nets n (next_boundary n).

(** The offset after [n] labels, or at the last one. *)
Fixpoint skip_labels (n : nat) (r : string) (offset : nat) : nat :=
  match n with
  | O => offset
  | S n' => let '(offset, end_) := NextLabel r offset in if end_ : bool then offset else skip_labels n' r offset
  end.

Definition cidr_reverse (s : string) : result go_fault string :=
  match ParseCIDR s with
  | None => Err NilDeref
  | Some (ip, n) =>
      match ReverseAddr (IP_String ip) with
      | None => Ok EmptyString
      | Some r =>
          let sizeDigit := if decide (length (net_IP n) = 16)%nat then 4%nat else 8%nat in
          let host := (net_bits n - ones n)%nat in
          let nearest := (host + host mod sizeDigit)%nat in
          Ok (drop_str (skip_labels (nearest / sizeDigit) r 0) r)
      end
  end.

Fixpoint cidr_Reverse (nets : list string) : result go_fault (list string) :=
  match nets with
  | [] => Ok []
  | s :: nets' => r ← cidr_reverse s; rs ← cidr_Reverse nets'; Ok (r :: rs)
  end.

(** ** plugin/normalize.go *)

(** [strconv.Atoi] *)
Definition Atoi (s : string) : option Z :=
  let '(neg, digits) := match s with String "-" s' => (true, s') | String "+" s' => (false, s') | _ => (false, s) end in
  match digits with
  | EmptyString => None
  | _ => n ← parse_digits digits 0;
         let n := if neg : bool then - n else n in
         if decide (- 2 ^ 63 <= n < 2 ^ 63) then Some n else None
  end.

Inductive host_error : Type := NoDataAfterColon | ZoneTooLong | NotADomain | InvalidCIDR | HostPanic (f : go_fault).

Definition plugin_SplitHostPort (s : string) : result host_error (list string * string) :=
  let colon := LastIndexByte s ":" in
  if decide (s = EmptyString \/ colon = Some (String.length s - 1)%nat) then Err NoDataAfterColon
  else
    let '(s, port) := match colon with
                      | Some i => match Atoi (drop_str (S i) s) with Some p => (take_str i s, Itoa p) | None => (s, EmptyString) end
                      | None => (s, EmptyString)
                      end in
    if decide (255 < String.length s)%nat then Err ZoneTooLong
    else if negb (IsDomainName s) then Err NotADomain
    else match ParseCIDR s with
         | None => Ok ([s], port)
         | Some (_, n) =>
             if HasPrefix s ":" || (HasPrefix s "0" && Contains s ":") then Err InvalidCIDR
             else match cidr_Reverse (cidr_Split n) with Ok hosts => Ok (hosts, port) | Err f => Err (HostPanic f) end
         end.

Section normalize.
Context {L : DnsLib}.

Definition Name_Normalize (n : string) : string := ToLower (Fqdn n).

Definition NormalizeExact (h : string) : list string :=
  match plugin_SplitHostPort (Transport_ h).2 with
  | Err _ => []
  | Ok (hosts, _) => Name_Normalize <$> hosts
  end.

Definition OriginsFromArgsOrServerBlock (args serverblock : list string) : list string :=
  match args with
  | [] => (fun s => match NormalizeExact s with [] => s | x :: _ => x end) <$> serverblock
  | _ => flat_map NormalizeExact args
  end.

End normalize.
End cidr.

(** ** Addresses of zones (address.go) *)

Record zoneAddr := mkZoneAddr { za_Zone : string; za_Port : string; za_Transport : string; za_Address : string }.

#[export] Instance zoneAddr_eq_dec : EqDecision zoneAddr.
Proof. solve_decision. Defined.
#[export] Instance zoneAddr_countable : Countable zoneAddr.
Proof.
  apply (inj_countable' (fun z => (za_Zone z, za_Port z, za_Transport z, za_Address z)) (fun '(a, b, c, d) => mkZoneAddr a b c d)). by intros [].
Defined.

Definition zoneAddr_String (z : zoneAddr) : string :=
  let s := za_Transport z +:+ "://" +:+ za_Zone z +:+ ":" +:+ za_Port z in
  if decide (za_Address z = EmptyString) then s else s +:+ " on " +:+ za_Address z.

Record zoneOverlap := mkOverlap { registeredAddr : gmap zoneAddr zoneAddr; unboundOverlap : gmap zoneAddr zoneAddr }.

Definition newOverlapZone : zoneOverlap := mkOverlap ∅ ∅.

Definition unbound (z : zoneAddr) : zoneAddr := mkZoneAddr (za_Zone z) (za_Port z) (za_Transport z) EmptyString.

(** The zone that exists already, and the one that overlaps. *)
Definition check (zo : zoneOverlap) (z : zoneAddr) : option zoneAddr * option zoneAddr :=
  match registeredAddr zo !! z with
  | Some existing => (Some existing, None)
  | None =>
      let uz := unbound z in
      match unboundOverlap zo !! uz with
      | Some already =>
          if decide (za_Address z = EmptyString) then (None, Some already)
          else if decide (is_Some (registeredAddr zo !! uz)) then (None, Some uz)
          else (None, None)
      | None => (None, None)
      end
  end.

Definition registerAndCheck (zo : zoneOverlap) (z : zoneAddr) : option zoneAddr * option zoneAddr * zoneOverlap :=
  match check zo z with
  | (None, None) => (None, None, mkOverlap (<[z := z]> (registeredAddr zo)) (<[unbound z := z]> (unboundOverlap zo)))
  | r => (r, zo)
  end.

(** ** Configurations (register.go) *)

(** A filter of a view with the name of the view. *)
Definition Viewer : Type := (string * (Client -> Msg -> bool))%type.

(** [firstConfigInBlock] is a position in the list of configurations; the views
    are those of the registered plugins, in the order of directives. *)
Record SiteConfig := mkSiteConfig {
  c_Zone : string;
  c_ListenHosts : list string;
  c_Port : string;
  c_Transport : string;
  c_NumSockets : Z;
  c_Debug : bool;
  c_Plugin : list Plugin;
  c_Viewers : list Viewer;
  c_FilterFuncs : list (Client -> Msg -> bool);
  c_ViewName : string;
  firstConfigInBlock : nat }.

Inductive register_error : Type :=
| BadKey (e : host_error)
| Unresolvable (addr : string)
| MultipleViews
| AlreadyDefined (z : zoneAddr)
| Overlaps (z other : zoneAddr)
| EmptyGroup.

Section register.
Context {L : DnsLib} {N : DnsNames} {C : CidrLib}.

(** The default port, which a flag can change. *)
Variable Port : string.

Definition port_of (trans port : string) : string :=
  if decide (port = EmptyString) then
    if decide (trans = "dns") then Port else if decide (trans = "tls") then "853" else if decide (trans = "quic") then "853"
    else if decide (trans = "grpc") then "443" else if decide (trans = "https" \/ trans = "https3") then "443" else EmptyString
  else port.

(** Whether the hosts are domain names with their closing dot, too. *)
Fixpoint vet_hosts (hosts : list string) : result host_error unit :=
  match hosts with
  | [] => Ok tt
  | h :: hosts' => _ ← plugin_SplitHostPort (Fqdn h); vet_hosts hosts'
  end.

(** The addresses of a key; an error of the key itself comes after those of
    its hosts, of which it then has none. *)
Definition key_addrs (k : string) : result host_error (list zoneAddr) :=
  let '(trans, k1) := Transport_ k in
  '(hosts, port) ← plugin_SplitHostPort k1;
  _ ← vet_hosts hosts;
  Ok ((fun h => mkZoneAddr (Fqdn h) (port_of trans port) trans EmptyString) <$> hosts).

Fixpoint block_addrs (keys : list string) : result host_error (list zoneAddr) :=
  match keys with
  | [] => Ok []
  | k :: keys' => a ← key_addrs k; b ← block_addrs keys'; Ok (a ++ b)
  end.

Definition new_config (first : nat) (za : zoneAddr) : SiteConfig :=
  mkSiteConfig (za_Zone za) [EmptyString] (za_Port za) (za_Transport za) 0 false [] [] [] EmptyString first.

(** The keys of the blocks as they are saved back, and the configurations.
    There is a key for every address: one that stands for several adds the
    others at the end, and all are then overwritten. *)
Fixpoint inspect_loop (blocks : list (list string)) (configs : list SiteConfig) : result register_error (list (list string) * list SiteConfig) :=
  match blocks with
  | [] => Ok ([], configs)
  | keys :: blocks' =>
      match block_addrs keys with
      | Err e => Err (BadKey e)
      | Ok addrs =>
          '(rest, configs) ← inspect_loop blocks' (configs ++ (new_config (length configs) <$> addrs));
          Ok ((zoneAddr_String <$> addrs) :: rest, configs)
      end
  end.

Definition InspectServerBlocks (blocks : list (list string)) : result register_error (list (list string) * list SiteConfig) :=
  inspect_loop blocks [].

(** The first configuration of a block gives the others its plugins and
    settings. *)
Definition propagate (configs : list SiteConfig) (c : SiteConfig) : SiteConfig :=
  match configs !! firstConfigInBlock c with
  | None => c
  | Some f => mkSiteConfig (c_Zone c) (c_ListenHosts f) (c_Port c) (c_Transport c) (c_NumSockets f) (c_Debug f) (c_Plugin f)
                (c_Viewers c) (c_FilterFuncs c) (c_ViewName c) (firstConfigInBlock c)
  end.
Definition propagateConfigParams (configs : list SiteConfig) : list SiteConfig := propagate configs <$> configs.

(** [net.ResolveTCPAddr] and the text of the address. *)
Variable ResolveTCPAddr : string -> option string.

(** A configuration is filed under each address it listens on. *)
Fixpoint group_hosts (i : nat) (c : SiteConfig) (hosts : list string) (groups : gmap string (list nat)) : result register_error (gmap string (list nat)) :=
  match hosts with
  | [] => Ok groups
  | h :: hosts' =>
      match ResolveTCPAddr (JoinHostPort h (c_Port c)) with
      | None => Err (Unresolvable (JoinHostPort h (c_Port c)))
      | Some a =>
          let addr := c_Transport c +:+ "://" +:+ a in
          group_hosts i c hosts' (<[addr := default [] (groups !! addr) ++ [i]]> groups)
      end
  end.

Fixpoint listen_loop (i : nat) (configs : list SiteConfig) (groups : gmap string (list nat)) : result register_error (gmap string (list nat)) :=
  match configs with
  | [] => Ok groups
  | c :: configs' => groups ← group_hosts i c (c_ListenHosts c) groups; listen_loop (S i) configs' groups
  end.

Definition groupConfigsByListenAddr (configs : list SiteConfig) : result register_error (gmap string (list nat)) := listen_loop 0 configs ∅.

(** The filters of views; a block has one view at most. *)
Definition set_view (c : SiteConfig) (v : Viewer) : SiteConfig :=
  mkSiteConfig (c_Zone c) (c_ListenHosts c) (c_Port c) (c_Transport c) (c_NumSockets c) (c_Debug c) (c_Plugin c)
    (c_Viewers c) (c_FilterFuncs c ++ [v.2]) v.1 (firstConfigInBlock c).

Fixpoint view_loop (vs : list Viewer) (c : SiteConfig) : result register_error SiteConfig :=
  match vs with
  | [] => Ok c
  | v :: vs' => if decide (c_ViewName c <> EmptyString) then Err MultipleViews else view_loop vs' (set_view c v)
  end.

Fixpoint add_views (configs : list SiteConfig) : result register_error (list SiteConfig) :=
  match configs with
  | [] => Ok []
  | c :: configs' => c ← view_loop (c_Viewers c) c; cs ← add_views configs'; Ok (c :: cs)
  end.

(** *** Overlapping zones *)

Definition akey (c : SiteConfig) (h : string) : zoneAddr := mkZoneAddr (c_Zone c) (c_Port c) (c_Transport c) h.

(** One zone on one address; the flag: the configuration has filters. *)
Definition validate_addr (zo : zoneOverlap) (filtered : bool) (z : zoneAddr) : result register_error zoneOverlap :=
  let '(existing, overlapping, zo) :=
    if filtered then (None, (check zo z).2, zo) else registerAndCheck zo z in
  match existing, overlapping with
  | Some _, _ => Err (AlreadyDefined z)
  | None, Some other => Err (Overlaps z other)
  | None, None => Ok zo
  end.

Fixpoint validate_hosts (zo : zoneOverlap) (c : SiteConfig) (hosts : list string) : result register_error zoneOverlap :=
  match hosts with
  | [] => Ok zo
  | h :: hosts' => zo ← validate_addr zo (bool_decide (c_FilterFuncs c <> [])) (akey c h); validate_hosts zo c hosts'
  end.

Fixpoint validate_loop (zo : zoneOverlap) (configs : list SiteConfig) : result register_error zoneOverlap :=
  match configs with
  | [] => Ok zo
  | c :: configs' => zo ← validate_hosts zo c (c_ListenHosts c); validate_loop zo configs'
  end.

Definition validateZonesAndListeningAddresses (configs : list SiteConfig) : result register_error unit :=
  _ ← validate_loop newOverlapZone configs; Ok tt.

(** *** Servers *)

Definition server_config (c : SiteConfig) : Config := mkConfig (c_Zone c) (c_Plugin c) (c_FilterFuncs c) (c_Debug c).

(** The servers of one address: as many as there are sockets, all alike; none
    for a transport that has no servers. *)
Definition makeServersForGroup (addr : string) (group : list SiteConfig) : result register_error (list (string * Server)) :=
  match group with
  | [] => Err EmptyGroup
  | c :: _ =>
      let numSockets := if decide (0 < c_NumSockets c) then Z.to_nat (c_NumSockets c) else 1%nat in
      if decide ((Transport_ addr).1 ∈ ["dns"; "tls"; "quic"; "grpc"; "https"; "https3"])
      then Ok (replicate numSockets (addr, NewServer (server_config <$> group))) else Ok []
  end.

Fixpoint make_groups (configs : list SiteConfig) (l : list (string * list nat)) : result register_error (list (string * Server)) :=
  match l with
  | [] => Ok []
  | (addr, ixs) :: l' =>
      a ← makeServersForGroup addr (omap (fun i => configs !! i) ixs);
      b ← make_groups configs l';
      Ok (a ++ b)
  end.

(** The servers share the configurations, to which the filters are added after
    the servers are made. *)
Definition MakeServers {O : MapOrder} (configs : list SiteConfig) : result register_error (list (string * Server)) :=
  let configs := propagateConfigParams configs in
  groups ← groupConfigsByListenAddr configs;
  _ ← make_groups configs (map_range groups);
  configs ← add_views configs;
  _ ← validateZonesAndListeningAddresses configs;
  make_groups configs (map_range groups).

End register.
