(* ===== verification/RegisterFacts.v ===== *)
(** * Properties of the start of servers (core/dnsserver)

    The check for overlapping zones accepts exactly the configurations that a
    definition over pairs of them accepts ([validate_reference]); a server
    that is made has at most one site without filters for a zone
    ([server_zone_unique]); and the networks a reverse zone is split into
    partition it ([nets_partition]). *)

From Stdlib Require Import Ascii ZArith Lia.
From stdpp Require Import base numbers gmap strings list sorting.
From S2P Require Import Prelude DnsTypes DnsLib Ip GoStrings Http Xfer Serve Server GoNet ForwardSetup Register.

Local Open Scope Z_scope.

(** ** Overlapping zones *)

(** One zone on one address, in the order of the configurations, and whether
    its configuration has filters. *)
Definition claim : Type := (bool * zoneAddr)%type.

Definition filtered (c : SiteConfig) : bool := bool_decide (c_FilterFuncs c <> []).

Definition claims (configs : list SiteConfig) : list claim :=
  flat_map (fun c => (fun h => (filtered c, akey c h)) <$> c_ListenHosts c) configs.

(** Different addresses for one zone and port, of which one is all addresses. *)
Definition overlap (z1 z2 : zoneAddr) : Prop :=
  unbound z1 = unbound z2 /\ z1 <> z2 /\ (za_Address z1 = EmptyString \/ za_Address z2 = EmptyString).

(** [q] can follow [p]. *)
Definition compatible (p q : claim) : Prop :=
  p.1 = false -> ~ overlap p.2 q.2 /\ (q.1 = false -> p.2 <> q.2).

Lemma overlap_sym z1 z2 : overlap z1 z2 -> overlap z2 z1.
Proof. intros (? & ? & ?). split_and!; [done|by apply not_eq_sym|tauto]. Qed.

Lemma unbound_id z : za_Address z = EmptyString -> unbound z = z.
Proof. destruct z; simpl. by intros ->. Qed.

Lemma unbound_unbound z : unbound (unbound z) = unbound z.
Proof. done. Qed.

(** What has been registered, after these claims. *)
Record registered (zo : zoneOverlap) (R : list claim) : Prop := {
  reg_addr z : is_Some (registeredAddr zo !! z) <-> (false, z) ∈ R;
  reg_unbound u : is_Some (unboundOverlap zo !! u) <-> exists z, (false, z) ∈ R /\ unbound z = u;
  reg_apart z1 z2 : (false, z1) ∈ R -> (false, z2) ∈ R -> ~ overlap z1 z2 }.

Lemma registered_nil : registered newOverlapZone [].
Proof. split; simpl; intros; rewrite ?lookup_empty, ?is_Some_None; set_solver. Qed.

Lemma registered_filtered zo R z : registered zo R -> registered zo (R ++ [(true, z)]).
Proof.
  intros HR. assert (forall z1, (false, z1) ∈ R ++ [(true, z)] <-> (false, z1) ∈ R) as E by (intros z1; rewrite elem_of_app, list_elem_of_singleton; naive_solver).
  split; intros *; setoid_rewrite E; apply HR.
Qed.

(** An overlap is found if there is one. *)
Lemma check_spec zo R z :
  registered zo R ->
  match check zo z with
  | (Some _, _) => (false, z) ∈ R
  | (None, Some _) => ((false, z) ∉ R) /\ exists z1, (false, z1) ∈ R /\ overlap z1 z
  | (None, None) => ((false, z) ∉ R) /\ forall z1, (false, z1) ∈ R -> ~ overlap z1 z
  end.
Proof.
  intros HR. unfold check. destruct (registeredAddr zo !! z) as [z'|] eqn:Ez; [apply (reg_addr _ _ HR); by rewrite Ez|].
  assert ((false, z) ∉ R) as Hz by (rewrite <-(reg_addr _ _ HR), Ez; by apply is_Some_None).
  destruct (unboundOverlap zo !! unbound z) as [z'|] eqn:Eu.
  - assert (exists z1, (false, z1) ∈ R /\ unbound z1 = unbound z) as (z1 & H1 & E1) by (apply (reg_unbound _ _ HR); by rewrite Eu).
    case_decide as Ha; [|case_decide as Hs].
    + split; [done|]. exists z1. split; [done|]. split_and!; [done|by intros ->|by right].
    + split; [done|]. apply (reg_addr _ _ HR) in Hs. exists (unbound z). split; [done|]. split_and!; [done|by intros Ez'; rewrite <-Ez' in Hz|by left].
    + split; [done|]. intros z2 H2 (E2 & Hne & [Ha2|?]); [|done]. apply Hs, (reg_addr _ _ HR). by rewrite <-E2, unbound_id.
  - split; [done|]. intros z1 H1 (E1 & _). assert (is_Some (unboundOverlap zo !! unbound z)) as [? Hs] by (apply (reg_unbound _ _ HR); eauto). congruence.
Qed.

Lemma validate_addr_spec zo R b z :
  registered zo R ->
  match validate_addr zo b z with
  | Ok zo' => Forall (fun p => compatible p (b, z)) R /\ registered zo' (R ++ [(b, z)])
  | Err _ => ~ Forall (fun p => compatible p (b, z)) R
  end.
Proof.
  intros HR. pose proof (check_spec zo R z HR) as HC. unfold validate_addr, registerAndCheck. destruct b.
  - destruct (check zo z) as [[e|] o] eqn:Ec; simpl.
    + assert (o = None) as -> by (unfold check in Ec; repeat case_match; congruence).
      split; [|by apply registered_filtered].
      apply Forall_forall. intros [b1 z1] H1 Hb. simpl in *. subst b1. split; [by apply (reg_apart _ _ HR)|done].
    + destruct o as [o|].
      * destruct HC as (_ & z1 & H1 & Ho). intros HF. rewrite Forall_forall in HF. by destruct (HF _ H1 eq_refl) as [[] _].
      * destruct HC as [_ HC]. split; [|by apply registered_filtered].
        apply Forall_forall. intros [b1 z1] H1 Hb. simpl in *. subst b1. split; [by apply HC|done].
  - destruct (check zo z) as [[e|] o] eqn:Ec; simpl.
    + intros HF. rewrite Forall_forall in HF. by destruct (HF _ HC eq_refl) as [_ []].
    + destruct o as [o|]; simpl.
      * destruct HC as (_ & z1 & H1 & Ho). intros HF. rewrite Forall_forall in HF. by destruct (HF _ H1 eq_refl) as [[] _].
      * destruct HC as [Hz HC]. split.
        { apply Forall_forall. intros [b1 z1] H1 Hb. simpl in *. subst b1. split; [by apply HC|]. intros _ ->. done. }
        split; simpl.
        -- intros z1. rewrite lookup_insert_is_Some, (reg_addr _ _ HR), elem_of_app, list_elem_of_singleton. destruct (decide (z = z1)); naive_solver.
        -- intros u. rewrite lookup_insert_is_Some, (reg_unbound _ _ HR). setoid_rewrite elem_of_app. setoid_rewrite list_elem_of_singleton.
           destruct (decide (unbound z = u)); naive_solver.
        -- intros z1 z2. rewrite !elem_of_app, !list_elem_of_singleton. intros [H1|[= ->]] [H2|[= ->]].
           ++ by apply (reg_apart _ _ HR).
           ++ by apply HC.
           ++ intros Ho%overlap_sym. by apply (HC z2).
           ++ by intros (_ & ? & _).
Qed.

(** The check of all the zones, one after the other. *)
Fixpoint validate_all (zo : zoneOverlap) (l : list claim) : result register_error zoneOverlap :=
  match l with
  | [] => Ok zo
  | (b, z) :: l' => zo ← validate_addr zo b z; validate_all zo l'
  end.

Lemma validate_all_app zo l1 l2 : validate_all zo (l1 ++ l2) = (zo ← validate_all zo l1; validate_all zo l2).
Proof. revert zo. induction l1 as [|[b z] l1 IH]; intros zo; simpl; [done|]. destruct (validate_addr zo b z); simpl; [apply IH|done]. Qed.

Lemma validate_loop_all zo configs : validate_loop zo configs = validate_all zo (claims configs).
Proof.
  revert zo. induction configs as [|c configs IH]; intros zo; simpl; [done|]. rewrite validate_all_app.
  assert (forall hosts zo, validate_hosts zo c hosts = validate_all zo ((fun h => (filtered c, akey c h)) <$> hosts)) as ->.
  { intros hosts. induction hosts as [|h hosts IHh]; intros zo'; simpl; [done|]. unfold filtered. destruct (validate_addr _ _ _); simpl; [apply IHh|done]. }
  destruct (validate_all zo _); simpl; [apply IH|done].
Qed.

Lemma validate_all_spec zo R l :
  registered zo R ->
  is_ok (validate_all zo l) = true <-> Forall (fun q => Forall (fun p => compatible p q) R) l /\ StronglySorted compatible l.
Proof.
  revert zo R. induction l as [|[b z] l IH]; intros zo R HR; simpl.
  { split; [intros _; split; constructor|done]. }
  pose proof (validate_addr_spec zo R b z HR) as HV. destruct (validate_addr zo b z) as [zo'|e]; simpl.
  - destruct HV as [Hc HR']. rewrite (IH zo' _ HR'). split.
    + intros [HF HS]. split; [constructor; [done|]|constructor; [done|]].
      * eapply Forall_impl; [exact HF|]. intros q [? _]%Forall_app. done.
      * eapply Forall_impl; [exact HF|]. intros q [_ Hq]%Forall_app. by inversion Hq.
    + intros [HF HS]. inversion HF as [|? ? _ HF']. inversion HS as [|? ? HS' Hz]. subst. split; [|done].
      rewrite Forall_forall in HF', Hz |- *. intros q Hq. apply Forall_app. split; [by apply HF'|]. constructor; [by apply Hz|constructor].
  - split; [done|]. intros [HF _]. inversion HF. by subst.
Qed.

(** The check for overlapping zones, by pairs.  Configurations are accepted
    exactly if no zone is claimed twice without filters on one address, and
    no zone is claimed on one address after it was claimed without filters on
    all of them, or the other way round. *)
Theorem validate_reference configs :
  validateZonesAndListeningAddresses configs = Ok tt <-> StronglySorted compatible (claims configs).
Proof.
  unfold validateZonesAndListeningAddresses. rewrite validate_loop_all. pose proof (validate_all_spec newOverlapZone [] (claims configs) registered_nil) as H.
  assert (Forall (fun q => Forall (fun p => compatible p q) []) (claims configs)) as HF by (apply Forall_forall; intros; constructor).
  destruct (validate_all newOverlapZone (claims configs)) as [zo|e]; simpl in *; split; intros H1; [by apply H|done|done|].
  by discriminate (proj2 H (conj HF H1)).
Qed.

(** ** Servers *)

Section servers.
Context {L : DnsLib} {N : DnsNames} {C : CidrLib} {O : MapOrder} (Resolve : string -> option string).
Implicit Types (c : SiteConfig) (configs : list SiteConfig).

(** A configuration, its position and one of the hosts it listens on. *)
Definition listener : Type := (nat * SiteConfig * string)%type.

Fixpoint listeners (i : nat) configs : list listener :=
  match configs with
  | [] => []
  | c :: configs' => ((fun h => (i, c, h)) <$> c_ListenHosts c) ++ listeners (S i) configs'
  end.

Definition address (l : listener) : option string :=
  (fun a => c_Transport l.1.2 +:+ "://" +:+ a) <$> Resolve (JoinHostPort l.2 (c_Port l.1.2)).

Definition claim_of (l : listener) : claim := (filtered l.1.2, akey l.1.2 l.2).

Lemma claims_listeners i configs : claims configs = claim_of <$> listeners i configs.
Proof.
  revert i. induction configs as [|c configs IH]; intros i; [done|]. simpl. rewrite fmap_app, <-IH, <-list_fmap_compose. done.
Qed.

Lemma listeners_lookup i configs j c h : (j, c, h) ∈ listeners i configs -> (i <= j)%nat /\ configs !! (j - i)%nat = Some c.
Proof.
  revert i. induction configs as [|c0 configs IH]; intros i; simpl; [by intros ?%elem_of_nil|].
  intros [(h0 & [= -> -> ->] & _)%list_elem_of_fmap|[Hj Hc]%IH]%elem_of_app; [by rewrite Nat.sub_diag|].
  split; [lia|]. by replace (j - i)%nat with (S (j - S i)) by lia.
Qed.

(** The configurations of an address are those that listen on it. *)
Lemma group_loop_spec i configs groups g addr :
  listen_loop Resolve i configs groups = Ok g ->
  default [] (g !! addr) = default [] (groups !! addr) ++ ((fun l => l.1.1) <$> filter (fun l => address l = Some addr) (listeners i configs)).
Proof.
  revert i groups. induction configs as [|c configs IH]; intros i groups; simpl; [intros [= <-]; by rewrite app_nil_r|].
  intros (groups1 & Hg & Hl)%bind_ok_inv. rewrite (IH _ _ Hl), filter_app, fmap_app, app_assoc. f_equal. clear IH Hl.
  revert groups Hg. induction (c_ListenHosts c) as [|h hosts IH]; intros groups; simpl; [intros [= <-]; by rewrite app_nil_r|].
  destruct (Resolve (JoinHostPort h (c_Port c))) as [a|] eqn:Er; [|done]. intros Hg. rewrite (IH _ Hg). rewrite filter_cons.
  assert (address (i, c, h) = Some (c_Transport c +:+ "://" +:+ a)) as -> by (unfold address; simpl; by rewrite Er). case_decide as Ha.
  - injection Ha as <-. rewrite lookup_insert_eq. simpl. by rewrite <-app_assoc.
  - rewrite lookup_insert_ne by congruence. done.
Qed.

(** Nothing but the addresses of configurations decides. *)
Definition same_listen c c' : Prop :=
  c_Zone c' = c_Zone c /\ c_ListenHosts c' = c_ListenHosts c /\ c_Port c' = c_Port c /\ c_Transport c' = c_Transport c.

Lemma group_loop_same i cs cs' groups : Forall2 same_listen cs cs' -> listen_loop Resolve i cs' groups = listen_loop Resolve i cs groups.
Proof.
  intros H. revert i groups. induction H as [|c c' cs cs' (_ & E1 & E2 & E3) _ IH]; intros i groups; simpl; [done|].
  assert (forall hosts g, group_hosts Resolve i c' hosts g = group_hosts Resolve i c hosts g) as ->.
  { intros hosts. induction hosts as [|h hosts IHh]; intros g; simpl; [done|]. rewrite E2, E3. destruct (Resolve _); [apply IHh|done]. }
  rewrite E1. destruct (group_hosts _ _ _ _ _); simpl; [apply IH|done].
Qed.

Lemma add_views_same cs cs' : add_views cs = Ok cs' -> Forall2 same_listen cs cs'.
Proof.
  revert cs'. induction cs as [|c cs IH]; intros cs'; simpl; [by intros [= <-]|].
  intros (c1 & Hv & (cs1 & Hc & [= <-])%bind_ok_inv)%bind_ok_inv. constructor; [|by apply IH]. clear IH Hc.
  assert (forall vs c0, same_listen c c0 -> view_loop vs c0 = Ok c1 -> same_listen c c1) as Hl; [|by eapply Hl].
  intros vs. induction vs as [|v vs IHv]; intros c0 Hs; simpl; [by intros [= <-]|]. case_decide; [done|]. apply IHv. exact Hs.
Qed.

Definition site_of (c : Config) : Site := mkSite c (build (Plugins c)).

Lemma zones_NewServer (group : list Config) (z : string) :
  default [] (zones (NewServer group) !! z) = site_of <$> filter (fun c : Config => Zone_ c = z) group.
Proof.
  assert (forall s, default [] (zones (foldl add_site s group) !! z) = default [] (zones s !! z) ++ (site_of <$> filter (fun c : Config => Zone_ c = z) group)) as H.
  { induction group as [|c group IH]; intros s; simpl; [by rewrite app_nil_r|]. rewrite IH, filter_cons. simpl. case_decide as Hz.
    - subst. rewrite lookup_insert_eq, fmap_cons. simpl. by rewrite <-app_assoc.
    - by rewrite lookup_insert_ne. }
  unfold NewServer. rewrite H. simpl. by rewrite lookup_empty.
Qed.

Lemma make_groups_elem configs l servers addr s :
  make_groups configs l = Ok servers -> (addr, s) ∈ servers ->
  exists ixs, (addr, ixs) ∈ l /\ s = NewServer (server_config <$> omap (fun i => configs !! i) ixs).
Proof.
  revert servers. induction l as [|[a ixs] l IH]; intros servers; simpl; [intros [= <-] H; by apply elem_of_nil in H|].
  intros (l1 & H1 & (l2 & H2 & [= <-])%bind_ok_inv)%bind_ok_inv [Hs|Hs]%elem_of_app.
  - unfold makeServersForGroup in H1. destruct (omap _ ixs) as [|c g] eqn:Eg; [done|]. case_decide; injection H1 as <-; [|by apply elem_of_nil in Hs].
    apply elem_of_replicate in Hs as [[= -> ->] _]. exists ixs. split; [left|by rewrite Eg].
  - destruct (IH _ H2 Hs) as (ixs' & ? & ?). exists ixs'. split; [by right|done].
Qed.

(** An address is written in one way in all configurations. *)
Definition spelled_once configs : Prop := forall l1 l2 a,
  l1 ∈ listeners 0 configs -> l2 ∈ listeners 0 configs -> address l1 = Some a -> address l2 = Some a ->
  c_Port l1.1.2 = c_Port l2.1.2 /\ c_Transport l1.1.2 = c_Transport l2.1.2 /\ l1.2 = l2.2.

Lemma listeners_same i cs cs' l : Forall2 same_listen cs cs' -> l ∈ listeners i cs' ->
  exists l', l' ∈ listeners i cs /\ l'.2 = l.2 /\ same_listen l'.1.2 l.1.2.
Proof.
  intros H. revert i. induction H as [|c c' cs cs' Hc _ IH]; intros i; simpl; [by intros ?%elem_of_nil|].
  intros [(h & -> & Hh)%list_elem_of_fmap|(l' & ? & ? & ?)%IH]%elem_of_app.
  - exists (i, c, h). split_and!; [|done|done]. apply elem_of_app. left. apply list_elem_of_fmap. exists h. destruct Hc as (_ & E & _). by rewrite <-E.
  - exists l'. split_and!; [apply elem_of_app; by right|done|done].
Qed.

Lemma spelled_once_same cs cs' : Forall2 same_listen cs cs' -> spelled_once cs -> spelled_once cs'.
Proof.
  intros Hs Hsp l1 l2 a (m1 & I1 & E1 & _ & _ & P1 & T1)%(listeners_same 0 cs cs' _ Hs) (m2 & I2 & E2 & _ & _ & P2 & T2)%(listeners_same 0 cs cs' _ Hs).
  unfold address. rewrite P1, T1, P2, T2, <-E1, <-E2. apply (Hsp m1 m2 a I1 I2).
Qed.

Definition unfiltered (h : Site) : bool := bool_decide (FilterFuncs (site_config h) = []).

(** Two claims of one zone on one address are not compatible. *)
Lemma same_claims_short (ls : list listener) :
  StronglySorted compatible (claim_of <$> ls) -> (forall l, l ∈ ls -> filtered l.1.2 = false) -> (forall l l', l ∈ ls -> l' ∈ ls -> claim_of l = claim_of l') ->
  (length ls <= 1)%nat.
Proof.
  intros HS Hf Hc. destruct ls as [|l1 [|l2 ls]]; simpl; [lia..|]. exfalso. inversion HS as [|? ? _ HF]. subst. inversion HF as [|? ? Hcomp _]. subst.
  pose proof (Hf l1 ltac:(set_solver)) as H1. pose proof (Hf l2 ltac:(set_solver)) as H2. destruct (Hcomp H1) as [_ Hn]. apply (Hn H2).
  by rewrite (Hc l1 l2) by set_solver.
Qed.

Lemma StronglySorted_filter {A B} (R : relation B) (f : A -> B) (P : A -> Prop) `{!forall x, Decision (P x)} (l : list A) :
  StronglySorted R (f <$> l) -> StronglySorted R (f <$> filter P l).
Proof.
  induction l as [|x l IH]; [done|]. rewrite filter_cons. inversion 1 as [|? ? HS HF]. subst. case_decide; [|by apply IH].
  simpl. constructor; [by apply IH|]. rewrite Forall_forall in HF |- *. intros y (x' & -> & [_ Hx']%list_elem_of_filter)%list_elem_of_fmap.
  apply HF. apply list_elem_of_fmap. eauto.
Qed.

Lemma unfiltered_length (ls : list listener) (z : string) :
  length (List.filter unfiltered (site_of <$> filter (fun c : Config => Zone_ c = z) (server_config <$> ((fun l => l.1.2) <$> ls)))) =
  length (filter (fun l => c_Zone l.1.2 = z /\ filtered l.1.2 = false) ls).
Proof.
  induction ls as [|l ls IH]; [done|]. rewrite !fmap_cons, !filter_cons.
  change (Zone_ (server_config l.1.2)) with (c_Zone l.1.2). destruct (decide (c_Zone l.1.2 = z)) as [Hz|Hz].
  - assert (unfiltered (site_of (server_config l.1.2)) = negb (filtered l.1.2)) as Hu.
    { unfold unfiltered, filtered. simpl. destruct (c_FilterFuncs l.1.2) as [|f fs]; [by rewrite bool_decide_true, bool_decide_false by naive_solver|].
      by rewrite bool_decide_false, bool_decide_true by done. }
    rewrite fmap_cons. cbn [List.filter]. rewrite Hu. destruct (filtered l.1.2); simpl.
    + rewrite decide_False by naive_solver. exact IH.
    + rewrite decide_True by done. simpl. by rewrite IH.
  - rewrite decide_False by naive_solver. done.
Qed.

(** C26. A server has at most one site without filters for a zone.  When servers
    are made from configurations in which an address is written in one way,
    the sites that a server has for a zone include at most one without
    filters. *)
Theorem server_zone_unique configs servers addr s z hs :
  MakeServers Resolve configs = Ok servers -> spelled_once (propagateConfigParams configs) ->
  (addr, s) ∈ servers -> zones s !! z = Some hs -> (length (List.filter unfiltered hs) <= 1)%nat.
Proof.
  intros HM Hsp Hs Hz. unfold MakeServers in HM. set (cs := propagateConfigParams configs) in *.
  apply bind_ok_inv in HM as (groups & Hg & (_ & _ & (cs' & Hv & ([] & HV & HM)%bind_ok_inv)%bind_ok_inv)%bind_ok_inv).
  apply validate_reference in HV. rewrite (claims_listeners 0) in HV. pose proof (add_views_same _ _ Hv) as Hsame.
  destruct (make_groups_elem _ _ _ _ _ HM Hs) as (ixs & Hix%elem_of_map_range & ->).
  pose proof (spelled_once_same _ _ Hsame Hsp) as Hsp'.
  unfold groupConfigsByListenAddr in Hg. rewrite <-(group_loop_same _ _ _ _ Hsame) in Hg. apply (group_loop_spec _ _ _ _ addr) in Hg.
  rewrite Hix, lookup_empty in Hg. simpl in Hg. subst ixs.
  pose proof (zones_NewServer (server_config <$> omap (fun i => cs' !! i) ((fun l => l.1.1) <$> filter (fun l => address l = Some addr) (listeners 0 cs'))) z) as Hzs.
  rewrite Hz in Hzs. simpl in Hzs. subst hs.
  assert (omap (fun i => cs' !! i) ((fun l => l.1.1) <$> filter (fun l => address l = Some addr) (listeners 0 cs')) =
    (fun l => l.1.2) <$> filter (fun l => address l = Some addr) (listeners 0 cs')) as ->.
  { assert (forall l, l ∈ filter (fun l => address l = Some addr) (listeners 0 cs') -> cs' !! l.1.1 = Some l.1.2) as Hin.
    { intros [[i c] h] [_ [_ Hl]%listeners_lookup]%list_elem_of_filter. by rewrite Nat.sub_0_r in Hl. }
    clear -Hin. induction (filter _ (listeners 0 cs')) as [|l ls IH]; [done|]. rewrite !fmap_cons. simpl. rewrite Hin by (by left). f_equal. apply IH. intros. apply Hin. by right. }
  rewrite unfiltered_length. apply same_claims_short.
  - by do 2 apply StronglySorted_filter.
  - by intros l [[_ ?] _]%list_elem_of_filter.
  - intros l1 l2 [[Z1 F1] [A1 L1]%list_elem_of_filter]%list_elem_of_filter [[Z2 F2] [A2 L2]%list_elem_of_filter]%list_elem_of_filter.
    destruct (Hsp' l1 l2 addr) as (P & T & H); [done..|]. unfold claim_of, akey. by rewrite F1, F2, Z1, Z2, P, T, H.
Qed.

End servers.

(** ** Networks *)

(** An address as a number. *)
Fixpoint num (ip : list Z) : Z :=
  match ip with [] => 0 | b :: ip' => b * 256 ^ Z.of_nat (length ip') + num ip' end.

(** An address of as many bytes is in the network. *)
Definition net_Contains (n : IPNet) (ip : list Z) : bool := bool_decide (mask_ip ip (ones n) = mask_ip (net_IP n) (ones n)).

Lemma pow256 n : 256 ^ Z.of_nat n = 2 ^ Z.of_nat (8 * n).
Proof. replace 256 with (2 ^ 8) by done. rewrite <-Z.pow_mul_r by lia. f_equal. lia. Qed.

Lemma num_range ip : Forall byte ip -> 0 <= num ip < 256 ^ Z.of_nat (length ip).
Proof.
  induction 1 as [|b ip Hb _ IH]; [simpl; lia|]. unfold byte in Hb. cbn [num length]. rewrite Nat2Z.inj_succ, Z.pow_succ_r by lia. nia.
Qed.

Lemma num_inj a b : Forall byte a -> Forall byte b -> length a = length b -> num a = num b -> a = b.
Proof.
  intros Ha. revert b. induction Ha as [|x a Hx Ha IH]; intros [|y b] Hb Hl; simpl in *; try done.
  inversion Hb as [|? ? Hy Hb']. subst. injection Hl as Hl. rewrite Hl. intros E. pose proof (num_range a Ha) as Ra. pose proof (num_range b Hb') as Rb. rewrite Hl in Ra.
  assert (x = y) as -> by nia. f_equal. apply IH; [done|done|nia].
Qed.

Lemma mask_byte_S n i : mask_byte n (S i) = mask_byte (n - 8) i.
Proof. unfold mask_byte. repeat case_decide; try lia; do 3 f_equal; lia. Qed.

Lemma mask_ip_cons b ip n : mask_ip (b :: ip) n = Z.land b (mask_byte n 0) :: mask_ip ip (n - 8).
Proof. unfold mask_ip. rewrite imap_cons. f_equal. apply imap_ext. intros i x _. simpl. by rewrite mask_byte_S. Qed.

Lemma land_mask b n : byte b -> (n <= 8)%nat -> Z.land b (mask_byte n 0) = b / 2 ^ Z.of_nat (8 - n) * 2 ^ Z.of_nat (8 - n).
Proof.
  intros Hb Hn. assert (forallb (fun b => forallb (fun n => bool_decide (Z.land (Z.of_nat b) (mask_byte n 0) =
    Z.of_nat b / 2 ^ Z.of_nat (8 - n) * 2 ^ Z.of_nat (8 - n))) (seq 0 9)) (seq 0 256) = true) as H by (vm_compute; reflexivity).
  rewrite forallb_forall in H. specialize (H (Z.to_nat b)). rewrite forallb_forall in H. unfold byte in Hb.
  assert (In (Z.to_nat b) (seq 0 256)) as Hi by (apply in_seq; lia). specialize (H Hi n ltac:(apply in_seq; lia)).
  apply bool_decide_eq_true in H. by rewrite Z2Nat.id in H by lia.
Qed.

Lemma mask_ip_byte ip n : Forall byte ip -> Forall byte (mask_ip ip n).
Proof.
  intros H. revert n. induction H as [|b ip Hb _ IH]; intros n; [constructor|]. rewrite mask_ip_cons. constructor; [|apply IH]. unfold byte in *.
  split; [apply Z.land_nonneg; lia|]. destruct (decide (n <= 8)%nat) as [Hn|Hn].
  - rewrite land_mask, Z.mul_comm by done. pose proof (Z.mul_div_le b (2 ^ Z.of_nat (8 - n)) ltac:(lia)). lia.
  - unfold mask_byte. rewrite decide_True by lia. change 255 with (Z.ones 8). rewrite Z.land_ones by lia. change (2 ^ 8) with 256. apply Z.mod_pos_bound. lia.
Qed.

Lemma length_mask_ip ip n : length (mask_ip ip n) = length ip.
Proof. apply length_imap. Qed.

(** Masking rounds down. *)
Lemma num_mask_ip ip n : Forall byte ip ->
  num (mask_ip ip n) = num ip / 2 ^ Z.of_nat (8 * length ip - n) * 2 ^ Z.of_nat (8 * length ip - n).
Proof.
  intros H. revert n. induction H as [|b ip Hb Hip IH]; intros n; [simpl; by rewrite Z.div_0_l by lia|].
  rewrite mask_ip_cons. cbn [num]. rewrite length_mask_ip, IH. pose proof (num_range ip Hip) as R. rewrite pow256 in *. cbn [length].
  destruct (decide (8 <= n)%nat) as [Hn|Hn].
  - assert (Z.land b (mask_byte n 0) = b) as ->.
    { unfold mask_byte. rewrite decide_True by lia. change 255 with (Z.ones 8). rewrite Z.land_ones by lia. unfold byte in Hb. apply Z.mod_small. lia. }
    replace (8 * S (length ip) - n)%nat with (8 * length ip - (n - 8))%nat by lia. set (m := (8 * length ip - (n - 8))%nat).
    assert (2 ^ Z.of_nat (8 * length ip) = 2 ^ Z.of_nat (8 * length ip - m) * 2 ^ Z.of_nat m) as E by (rewrite <-Z.pow_add_r by lia; f_equal; lia).
    rewrite E, Z.mul_assoc, Z.div_add_l by lia. ring.
  - rewrite land_mask by (done || lia). replace (8 * length ip - (n - 8))%nat with (8 * length ip)%nat by lia.
    rewrite (Z.div_small (num ip)) by lia. rewrite Z.mul_0_l, Z.add_0_r.
    replace (8 * S (length ip) - n)%nat with (8 * length ip + (8 - n))%nat by lia. rewrite Nat2Z.inj_add, Z.pow_add_r by lia.
    rewrite <-Z.div_div by lia. rewrite Z.div_add_l by lia. rewrite (Z.div_small (num ip)) by lia. rewrite Z.add_0_r. ring.
Qed.

(** A network: bytes, with zeros after the prefix. *)
Record network (n : IPNet) : Prop := {
  nw_bytes : Forall byte (net_IP n);
  nw_ones : (ones n <= net_bits n)%nat;
  nw_masked : mask_ip (net_IP n) (ones n) = net_IP n }.

(** The size of a network. *)
Definition net_size (n : IPNet) : Z := 2 ^ Z.of_nat (net_bits n - ones n).

(** It has the addresses from its first on. *)
Lemma net_Contains_range n ip :
  network n -> Forall byte ip -> length ip = length (net_IP n) ->
  net_Contains n ip = true <-> num (net_IP n) <= num ip < num (net_IP n) + net_size n.
Proof.
  intros [Hb Ho Hm] Hip Hl. unfold net_Contains, net_size. rewrite bool_decide_eq_true. unfold net_bits. set (m := (8 * length (net_IP n) - ones n)%nat).
  assert (0 < 2 ^ Z.of_nat m) as Hp by lia.
  pose proof (num_mask_ip ip (ones n) Hip) as E1. pose proof (num_mask_ip (net_IP n) (ones n) Hb) as E2. rewrite Hl in E1. fold m in E1, E2. rewrite Hm in E2 |- *.
  split.
  - intros E. rewrite E in E1. pose proof (Z.div_mod (num ip) (2 ^ Z.of_nat m) ltac:(lia)). pose proof (Z.mod_pos_bound (num ip) (2 ^ Z.of_nat m) Hp). lia.
  - intros R. apply num_inj; [by apply mask_ip_byte|done|by rewrite length_mask_ip|]. rewrite E1.
    assert (num ip / 2 ^ Z.of_nat m = num (net_IP n) / 2 ^ Z.of_nat m) as ->; [|done].
    symmetry. apply Z.div_unique with (r := num ip - num (net_IP n)); [left; lia|]. rewrite Z.mul_comm, <-E2. lia.
Qed.

(** What github.com/apparentlymart/go-cidr documents: the next network of the
    same size, if there is one. *)
Class CidrLibSpec (C : CidrLib) : Prop := {
  NextSubnet_spec n : network n -> num (net_IP n) + net_size n < 256 ^ Z.of_nat (length (net_IP n)) ->
    exists ip, NextSubnet n (ones n) = (mkIPNet ip (ones n), false) /\ network (mkIPNet ip (ones n)) /\
      length ip = length (net_IP n) /\ num ip = num (net_IP n) + net_size n }.

Section partition.
Context {C : CidrLib} {CS : CidrLibSpec C}.

(** The [k] networks after [last]. *)
Lemma nets_loop_spec k last :
  network last -> num (net_IP last) + Z.of_nat k * net_size last < 256 ^ Z.of_nat (length (net_IP last)) ->
  length (nets_loop k (ones last) last) = k /\
  forall i x, nets_loop k (ones last) last !! i = Some x ->
    network x /\ ones x = ones last /\ length (net_IP x) = length (net_IP last) /\ num (net_IP x) = num (net_IP last) + Z.of_nat (S i) * net_size last.
Proof.
  revert last. induction k as [|k IH]; intros last Hn Hr; [done|]. cbn [nets_loop]. assert (0 < net_size last) as Hp by (unfold net_size; lia).
  destruct (NextSubnet_spec last Hn) as (ip & -> & Hn' & Hl & Hnum); [nia|].
  assert (net_size (mkIPNet ip (ones last)) = net_size last) as Es by (unfold net_size, net_bits; simpl; by rewrite Hl).
  destruct (IH (mkIPNet ip (ones last)) Hn') as [IHl IHi]; [rewrite Es; simpl; rewrite Hl, Hnum; lia|]. simpl in IHl, IHi. split; [simpl; by rewrite IHl|].
  intros [|i] x; simpl; [intros [= <-]; split_and!; [done|done|done|simpl; lia]|]. intros Hx. destruct (IHi i x Hx) as (H1 & H2 & H3 & H4).
  split_and!; [done|done|congruence|]. rewrite H4, Es, Hnum. lia.
Qed.

Lemma nets_spec n len :
  network n -> (ones n <= len <= net_bits n)%nat ->
  length (nets n len) = Z.to_nat (2 ^ Z.of_nat (len - ones n)) /\
  forall i x, nets n len !! i = Some x -> network x /\ length (net_IP x) = length (net_IP n) /\
    net_size x = 2 ^ Z.of_nat (net_bits n - len) /\ num (net_IP x) = num (net_IP n) + Z.of_nat i * 2 ^ Z.of_nat (net_bits n - len).
Proof.
  intros [Hb Ho Hm] Hlen. unfold nets. set (first := mkIPNet (net_IP n) len). set (k := Z.to_nat (2 ^ Z.of_nat len / 2 ^ Z.of_nat (ones n))).
  assert (2 ^ Z.of_nat len / 2 ^ Z.of_nat (ones n) = 2 ^ Z.of_nat (len - ones n)) as Ek by (rewrite <-Z.pow_sub_r by lia; f_equal; lia).
  pose proof (num_mask_ip (net_IP n) (ones n) Hb) as Em. rewrite Hm in Em. fold (net_bits n) in Em.
  pose proof (num_range _ Hb) as Hr. rewrite pow256 in Hr. fold (net_bits n) in Hr. set (M := 2 ^ Z.of_nat (net_bits n - ones n)) in *. set (m := 2 ^ Z.of_nat (net_bits n - len)).
  assert (0 < m) as Hmp by (unfold m; lia).
  assert (M = 2 ^ Z.of_nat (len - ones n) * m) as EM by (unfold M, m; rewrite <-Z.pow_add_r by lia; f_equal; lia).
  assert (2 ^ Z.of_nat (net_bits n) = 2 ^ Z.of_nat (ones n) * M) as EB by (unfold M; rewrite <-Z.pow_add_r by lia; f_equal; lia).
  assert (num (net_IP n) + M <= 2 ^ Z.of_nat (net_bits n)) as Hroom.
  { rewrite EB in *. set (q := num (net_IP n) / M) in *. assert (q < 2 ^ Z.of_nat (ones n)) by nia. nia. }
  assert (network first) as Hf.
  { split; [done|change (len <= net_bits n)%nat; lia|]. apply num_inj; [by apply mask_ip_byte|done|apply length_mask_ip|]. simpl. rewrite num_mask_ip by done. fold (net_bits n). fold m.
    assert (num (net_IP n) = num (net_IP n) / M * 2 ^ Z.of_nat (len - ones n) * m) as E3 by (rewrite <-Z.mul_assoc, <-EM; done).
    rewrite E3 at 1. rewrite Z.div_mul by lia. by rewrite <-E3. }
  assert (net_size first = m) as Es by done.
  destruct (nets_loop_spec (k - 1) first Hf) as [Hl Hi].
  { rewrite Es. simpl. rewrite pow256. fold (net_bits n). unfold k. rewrite Ek. assert (0 < 2 ^ Z.of_nat (len - ones n)) by lia. nia. }
  split; [|intros [|i] x].
  - cbn [length]. simpl in Hl. rewrite Hl. unfold k. rewrite Ek. assert (0 < 2 ^ Z.of_nat (len - ones n)) by lia. lia.
  - simpl. intros [= <-]. split_and!; [done|done|done|simpl; lia].
  - intros Hx. destruct (Hi i x Hx) as (H1 & H2 & H3 & H4). split_and!; [done|done| |rewrite H4, Es; simpl; lia].
    unfold net_size, net_bits. rewrite H2, H3. done.
Qed.

Lemma filter_one {A} (f : A -> bool) (l : list A) i : (i < length l)%nat -> (forall j x, l !! j = Some x -> f x = true <-> j = i) -> length (List.filter f l) = 1%nat.
Proof.
  revert i. induction l as [|x l IH]; intros i Hi Hf; simpl in *; [lia|]. destruct i as [|i].
  - pose proof (proj2 (Hf 0%nat x eq_refl) eq_refl) as ->. simpl. f_equal.
    assert (forall y, y ∈ l -> f y = false) as Hn.
    { intros y [j Hj]%list_elem_of_lookup. destruct (f y) eqn:Ey; [|done]. by apply (Hf (S j) y Hj) in Ey. }
    clear -Hn. induction l as [|y l IH]; simpl; [done|]. rewrite Hn by (by left). apply IH. intros. apply Hn. by right.
  - destruct (f x) eqn:Ex; [by apply (Hf 0%nat x eq_refl) in Ex|]. apply (IH i); [lia|]. intros j y Hj. rewrite (Hf (S j) y Hj). lia.
Qed.

(** The networks of a longer prefix partition a network: an address of it is
    in exactly one of them, and no other address is in any. *)
Theorem nets_partition n len ip :
  network n -> (ones n <= len <= net_bits n)%nat -> Forall byte ip -> length ip = length (net_IP n) ->
  length (List.filter (fun x => net_Contains x ip) (nets n len)) = if net_Contains n ip then 1%nat else 0%nat.
Proof.
  intros Hn Hlen Hip Hl. destruct (nets_spec n len Hn Hlen) as [Hk Hi]. set (m := 2 ^ Z.of_nat (net_bits n - len)) in *.
  assert (0 < m) as Hm by (unfold m; lia).
  assert (net_size n = 2 ^ Z.of_nat (len - ones n) * m) as EM by (unfold net_size, m; rewrite <-Z.pow_add_r by lia; f_equal; lia).
  assert (forall i x, nets n len !! i = Some x -> net_Contains x ip = true <-> num (net_IP n) + Z.of_nat i * m <= num ip < num (net_IP n) + Z.of_nat (S i) * m) as Hc.
  { intros i x Hx. destruct (Hi i x Hx) as (H1 & H2 & H3 & H4). rewrite net_Contains_range by (done || congruence). rewrite H3, H4. lia. }
  pose proof (net_Contains_range n ip Hn Hip Hl) as Hr. destruct (net_Contains n ip).
  - destruct (proj1 Hr eq_refl) as [R1 R2]. set (d := num ip - num (net_IP n)). pose proof (Z.div_mod d m ltac:(lia)) as Ed. pose proof (Z.mod_pos_bound d m Hm) as Rd.
    assert (0 <= d / m) as Hq by (apply Z.div_pos; lia). apply (filter_one _ _ (Z.to_nat (d / m))).
    + rewrite Hk. assert (d / m < 2 ^ Z.of_nat (len - ones n)) by (apply Z.div_lt_upper_bound; [lia|]; rewrite Z.mul_comm, <-EM; lia). lia.
    + intros j x Hj. rewrite (Hc j x Hj). split; [|intros ->; rewrite Nat2Z.inj_succ, Z2Nat.id by done; lia].
      intros [Q1 Q2]. assert (Z.of_nat j = d / m); [|lia]. apply Z.div_unique with (r := d - m * Z.of_nat j); [left; lia|lia].
  - assert (forall x, x ∈ nets n len -> net_Contains x ip = false) as Hn0.
    { intros x [i Hx]%list_elem_of_lookup. destruct (net_Contains x ip) eqn:Ex; [|done]. apply (Hc i x Hx) in Ex.
      assert (Z.of_nat (S i) <= 2 ^ Z.of_nat (len - ones n)) as Hb by (apply lookup_lt_Some in Hx; lia). assert (false = true); [|done]. apply Hr. nia. }
    clear -Hn0. induction (nets n len) as [|x l IH]; simpl; [done|]. rewrite Hn0 by (by left). apply IH. intros. apply Hn0. by right.
Qed.

End partition.

(** ** Examples *)

Module RegisterSample.

#[local] Existing Instance list_order.
#[local] Existing Instance Plain.names.
#[local] Existing Instance PlainLib.lib.

(** The bytes of a number. *)
Fixpoint unnum (len : nat) (x : Z) : list Z :=
  match len with O => [] | S len' => (x / 256 ^ Z.of_nat len') mod 256 :: unnum len' (x mod 256 ^ Z.of_nat len') end.

Lemma length_unnum len x : length (unnum len x) = len.
Proof. revert x. induction len; intros x; simpl; [done|]. by rewrite IHlen. Qed.

Lemma unnum_byte len x : Forall byte (unnum len x).
Proof. revert x. induction len; intros x; simpl; constructor; [|apply IHlen]. unfold byte. apply Z.mod_pos_bound. lia. Qed.

Lemma num_unnum len x : 0 <= x < 256 ^ Z.of_nat len -> num (unnum len x) = x.
Proof.
  revert x. induction len as [|len IH]; intros x Hx; [simpl in *; lia|]. cbn [unnum num]. rewrite length_unnum.
  rewrite Nat2Z.inj_succ, Z.pow_succ_r in Hx by lia. assert (0 < 256 ^ Z.of_nat len) as Hp by lia. set (p := 256 ^ Z.of_nat len) in *.
  rewrite IH by (apply Z.mod_pos_bound; lia). rewrite (Z.mod_small (x / p)).
  - rewrite (Z.div_mod x p) at 3 by lia. lia.
  - split; [apply Z.div_pos; lia|apply Z.div_lt_upper_bound; lia].
Qed.

Definition next_subnet (n : IPNet) (len : nat) : IPNet * bool :=
  let x := num (net_IP n) + 2 ^ Z.of_nat (net_bits n - len) in
  (mkIPNet (unnum (length (net_IP n)) x) len, bool_decide (256 ^ Z.of_nat (length (net_IP n)) <= x)).

#[export] Instance cidr_lib : CidrLib := {|
  ReverseAddr := fun s => match ParseIP s ≫= To4 with
                          | Some [a; b; c; d] => Some (Itoa d +:+ "." +:+ Itoa c +:+ "." +:+ Itoa b +:+ "." +:+ Itoa a +:+ ".in-addr.arpa.")
                          | _ => None
                          end;
  IsDomainName := fun s => bool_decide (s <> EmptyString);
  NextSubnet := next_subnet |}.

#[export] Instance cidr_lib_spec : CidrLibSpec cidr_lib.
Proof.
  split. intros n Hn Hr. pose proof Hn as [Hb Ho Hm]. set (x := num (net_IP n) + net_size n) in *. pose proof (num_range _ Hb) as R.
  assert (0 < net_size n) as Hp by (unfold net_size; lia). assert (0 <= x) as Hx by (unfold x; lia).
  exists (unnum (length (net_IP n)) x). split_and!; [|split|apply length_unnum|by apply num_unnum].
  - change (NextSubnet n (ones n)) with (mkIPNet (unnum (length (net_IP n)) x) (ones n), bool_decide (256 ^ Z.of_nat (length (net_IP n)) <= x)).
    by rewrite bool_decide_false by lia.
  - apply unnum_byte.
  - unfold net_bits in *. simpl. rewrite length_unnum. exact Ho.
  - simpl. apply num_inj; [apply mask_ip_byte, unnum_byte|apply unnum_byte|apply length_mask_ip|].
    rewrite num_mask_ip by apply unnum_byte. rewrite length_unnum, num_unnum by done.
    pose proof (num_mask_ip (net_IP n) (ones n) Hb) as Em. rewrite Hm in Em. fold (net_bits n) in Em |- *. unfold x. fold (net_size n) in Em |- *.
    rewrite Em at 1. rewrite <-(Z.mul_1_l (net_size n)) at 3. rewrite <-Z.mul_add_distr_r, Z.div_mul by lia. rewrite Z.mul_add_distr_r, <-Em. lia.
Qed.

Definition ten : IPNet := mkIPNet [10; 0; 0; 0] 14.

Lemma nets_partition_witness : length (List.filter (fun x => net_Contains x [10; 1; 2; 3]) (nets ten 16)) = 1%nat.
Proof.
  apply (nets_partition ten 16 [10; 1; 2; 3]).
  - split; [repeat constructor; unfold byte; lia|vm_compute; lia|reflexivity].
  - vm_compute. lia.
  - repeat constructor; unfold byte; lia.
  - reflexivity.
Defined.

(** The keys of a block: a network with its port, and a name. *)
Example inspect_example :
  match InspectServerBlocks "53" [["10.0.0.0/7:5353"; "tls://example.org"]; ["."]] with
  | Ok (_, configs) => map (fun c => (c_Zone c, c_Port c, c_Transport c, firstConfigInBlock c)) configs
  | Err _ => []
  end = [("10.in-addr.arpa.", "5353", "dns", 0%nat); ("11.in-addr.arpa.", "5353", "dns", 0%nat); ("example.org.", "853", "tls", 0%nat); (".", "53", "dns", 3%nat)].
Proof. vm_compute. reflexivity. Qed.

Definition conf (hosts : list string) (filters : list (Client -> Msg -> bool)) (first : nat) : SiteConfig :=
  mkSiteConfig "example.org." hosts "53" "dns" 0 false [] [] filters EmptyString first.

(** Addresses resolve to their text. *)
Definition resolve (s : string) : option string := Some s.

Definition two_views : list SiteConfig := [conf [EmptyString] [fun _ _ => true] 0; conf [EmptyString] [] 1].

Lemma server_zone_unique_witness :
  exists addr s hs, MakeServers resolve two_views = Ok [(addr, s)] /\ zones s !! "example.org." = Some hs /\ length hs = 2%nat /\ (length (List.filter unfiltered hs) <= 1)%nat.
Proof.
  do 3 eexists. split; [vm_compute; reflexivity|]. split; [vm_compute; reflexivity|]. split; [reflexivity|].
  eapply (server_zone_unique resolve two_views _ _ _ "example.org."); [vm_compute; reflexivity| |left|vm_compute; reflexivity].
  intros l1 l2 a H1 H2 _ _. vm_compute in H1, H2. apply list_elem_of_In in H1, H2. simpl in H1, H2.
  destruct H1 as [<-|[<-|[]]], H2 as [<-|[<-|[]]]; split_and!; reflexivity.
Defined.

(** A zone with a filter on one address and the zone without filters on all of
    them are accepted in this order and refused in the other. *)
Lemma order_matters :
  let bound := conf ["192.0.2.1"] [fun _ _ => true] 0 in
  let all := conf [EmptyString] [] 0 in
  validateZonesAndListeningAddresses [bound; all] = Ok tt /\ is_ok (validateZonesAndListeningAddresses [all; bound]) = false.
Proof. vm_compute. done. Qed.

(** Two spellings of one address are not the same to the check: both blocks
    are accepted, and the server has two sites for the zone, of which the
    second is never reached. *)
Lemma spelled_twice :
  let canonical := fun _ : string => Some "[::1]:53" in
  exists addr s hs, MakeServers canonical [conf ["::1"] [] 0; conf ["0:0:0:0:0:0:0:1"] [] 1] = Ok [(addr, s)] /\
    zones s !! "example.org." = Some hs /\ length (List.filter unfiltered hs) = 2%nat.
Proof. do 3 eexists. split; [vm_compute; reflexivity|]. split; vm_compute; reflexivity. Qed.

End RegisterSample.
