(* ===== verification/Weighted.v ===== *)
(** * Weights and preferred networks (plugin/loadbalance)

    The policies of loadbalance that put a chosen address first: by the
    weights of a file (weighted.go) and by preferred networks (prefer.go).
    The number drawn is an argument, and the sort leaves the order of equal
    weights open. *)

From Stdlib Require Import Ascii ZArith Lia.
From stdpp Require Import base numbers gmap strings list.
From S2P Require Import Prelude DnsTypes DnsLib Ip Serve Xfer Server Filters Hosts Register.

Import LoadBalance.
Local Open Scope Z_scope.

(** ** Weights *)

Record weightItem := mkWeight { w_address : list Z; w_value : Z }.

Record weightedRR := mkWeighted { w_reload : bool; w_md5sum : Z; w_domains : gmap string (list weightItem) }.

Inductive weights_error : Type :=
| errOpen | errRead | WrongDomain (s : string) | WrongAddress (s : string) | WrongWeight (s : string)
| MissingDomain | BadLine (s : string) | ScanError.

(** One line: the name of the domain it belongs to, and the weights. *)
Definition parse_line (dname : string) (domains : gmap string (list weightItem)) (line : string)
  : result weights_error (string * gmap string (list weightItem)) :=
  let nextLine := TrimSpace line in
  if decide (nextLine = EmptyString) then Ok (dname, domains)
  else if HasPrefix nextLine "#" then Ok (dname, domains)
  else match Fields nextLine with
       | [name] =>
           if decide (is_Some (ParseIP name)) then Err (WrongDomain name)
           else
             let dname := if HasSuffix name dot then name else String.append name dot in
             Ok (dname, if decide (is_Some (domains !! dname)) then domains else <[dname := []]> domains)
       | [addr; value] =>
           match ParseIP addr with
           | None => Err (WrongAddress addr)
           | Some ip =>
               match ParseUint value 8 with
               | None | Some 0 => Err (WrongWeight value)
               | Some weight =>
                   if decide (dname = EmptyString) then Err MissingDomain
                   else Ok (dname, <[dname := default [] (domains !! dname) ++ [mkWeight ip weight]]> domains)
               end
           end
       | _ => Err (BadLine nextLine)
       end.

Fixpoint parse_lines (dname : string) (domains : gmap string (list weightItem)) (lines : list string) : result weights_error (gmap string (list weightItem)) :=
  match lines with
  | [] => Ok domains
  | l :: lines' => '(dname, domains) ← parse_line dname domains l; parse_lines dname domains lines'
  end.

(** [scanner.Err]: a line longer than the scanner holds. *)
Definition scan_failed (l : list string) : bool :=
  bool_decide (Exists (fun s => MaxScanTokenSize <= Z.of_nat (String.length s)) l).

Definition parseWeights (text : string) : result weights_error (gmap string (list weightItem)) :=
  domains ← parse_lines EmptyString ∅ (scan_lines (Split text newline));
  if scan_failed (Split text newline) then Err ScanError else Ok domains.

(** What opening and reading the file gives. *)
Inductive weight_file : Type := Unopened | Unreadable | Contents (text : string).

Section weights.
Variable md5_Sum : string -> Z.

Definition updateWeights (w : weightedRR) (file : weight_file) : option weights_error * weightedRR :=
  match file with
  | Unopened => (Some errOpen, w)
  | Unreadable => (Some errRead, w)
  | Contents text =>
      let md5sum := md5_Sum text in
      if decide (md5sum = w_md5sum w) then (None, w)
      else
        match parseWeights text with
        | Err e => (Some e, mkWeighted (w_reload w) md5sum (w_domains w))
        | Ok domains => (None, mkWeighted (w_reload w) md5sum domains)
        end
  end.

(** The file at each tick. *)
Definition periodicWeightUpdate (w : weightedRR) (files : list weight_file) : weightedRR :=
  if w_reload w then foldl (fun w f => (updateWeights w f).2) w files else w.

(** The error the start fails with, and the weights it leaves. *)
Definition weightedOnStartUp (w : weightedRR) (file : weight_file) : option weights_error * weightedRR :=
  match updateWeights w file with
  | (Some errOpen, w') => (if w_reload w then None else Some errOpen, w')
  | r => r
  end.

End weights.

(** ** Choosing by weight *)

(** [net.IP.Equal] *)
Definition ip_Equal (a b : list Z) : bool :=
  if decide (length a = length b) then bool_decide (a = b)
  else if decide (length a = 4 /\ length b = 16)%nat then bool_decide (b = v4_prefix ++ a)
  else if decide (length a = 16 /\ length b = 4)%nat then bool_decide (a = v4_prefix ++ b)
  else false.

(** The address of a record; its dynamic type is asserted. *)
Definition record_ip (ar : RR) : result go_fault (list Z) :=
  if decide (rr_type ar = TypeA) then match Data ar with RA ip => Ok ip | _ => Err BadAssertion end
  else if decide (rr_type ar = TypeAAAA) then match Data ar with RAAAA ip => Ok ip | _ => Err BadAssertion end
  else Ok [].

Definition address_weight (w : weightedRR) (ar : RR) : result go_fault Z :=
  ip ← record_ip ar;
  Ok match List.find (fun item => ip_Equal (w_address item) ip) (default [] (w_domains w !! Name (Hdr ar))) with
     | Some item => w_value item
     | None => 1
     end.

(** The addresses by their positions, with their weights. *)
Fixpoint weigh (w : weightedRR) (i : nat) (address : list RR) : result go_fault (list (nat * Z)) :=
  match address with
  | [] => Ok []
  | ar :: address' => x ← address_weight w ar; l ← weigh w (S i) address'; Ok ((i, x) :: l)
  end.

Definition wsum (l : list (nat * Z)) : Z := foldr (fun p s => p.2 + s) 0 l.

Fixpoint pick (v psum : Z) (l : list (nat * Z)) : option nat :=
  match l with
  | [] => None
  | (i, weight) :: l' => let psum := psum + weight in if decide (v < psum) then Some i else pick v psum l'
  end.

Section choose.
(** [sort.Slice] by falling weight, and the draw below a limit. *)
Variable sort_Slice : list (nat * Z) -> list (nat * Z).
Variable randUint : Z -> Z.

Definition topAddressIndex (w : weightedRR) (address : list RR) : result go_fault (option nat) :=
  l ← weigh w 0 address;
  Ok (pick (randUint (wsum l)) 0 (sort_Slice l)).

Definition setTopRecord (w : weightedRR) (address : list RR) : result go_fault (list RR) :=
  itop ← topAddressIndex w address;
  Ok match itop with
     | None | Some O => address
     | Some itop => swap address 0 itop
     end.

Definition weightedRoundRobin (w : weightedRR) (rrs : list RR) : result go_fault (list RR) :=
  let b := foldl bucket (mkBuckets [] [] [] []) rrs in
  match address b with
  | [] => Ok rrs
  | _ => a ← setTopRecord w (address b); Ok (cname b ++ rest b ++ a ++ mx b)
  end.

End choose.

(** The draws of the two sections. *)
Definition weightedShuffle (sort_Slice : list (nat * Z) -> list (nat * Z)) (rand1 rand2 : Z -> Z) (w : weightedRR) (m : Msg) : result go_fault Msg :=
  match Question m with
  | [] => Err IndexOutOfRange
  | q :: _ =>
      if decide (Qtype q ∈ [TypeA; TypeAAAA; TypeSRV]) then
        an ← weightedRoundRobin sort_Slice rand1 w (Answer m);
        ex ← weightedRoundRobin sort_Slice rand2 w (Extra m);
        Ok (mkMsg (Id m) (Response m) (Opcode m) (Authoritative m) (Truncated m) (RecursionDesired m) (RecursionAvailable m)
              (AuthenticatedData m) (CheckingDisabled m) (Rcode m) (Question m) an (Ns_ m) ex)
      else Ok m
  end.

(** ** Preferred networks (prefer.go) *)

(** No address is the empty list. *)
Definition extractIP (r : RR) : list Z :=
  match Data r with RA ip | RAAAA ip => ip | _ => [] end.

Definition preferred (subnet : IPNet) (r : RR) : bool :=
  match extractIP r with [] => false | ip => IPNet_Contains subnet ip end.

(** One network: the records it matches among those not seen yet. *)
Fixpoint match_records (subnet : IPNet) (i : nat) (records : list RR) (matched : list RR) (seen : gset nat) : list RR * gset nat :=
  match records with
  | [] => (matched, seen)
  | r :: records' =>
      if decide (i ∈ seen) then match_records subnet (S i) records' matched seen
      else if preferred subnet r then match_records subnet (S i) records' (matched ++ [r]) ({[i]} ∪ seen)
      else match_records subnet (S i) records' matched seen
  end.

Fixpoint match_subnets (subnets : list IPNet) (records matched : list RR) (seen : gset nat) : list RR * gset nat :=
  match subnets with
  | [] => (matched, seen)
  | s :: subnets' => let '(matched, seen) := match_records s 0 records matched seen in match_subnets subnets' records matched seen
  end.

Fixpoint unseen_records (i : nat) (records : list RR) (seen : gset nat) : list RR :=
  match records with
  | [] => []
  | r :: records' => if decide (i ∈ seen) then unseen_records (S i) records' seen else r :: unseen_records (S i) records' seen
  end.

Definition sortBySubnetPriority (records : list RR) (subnets : list IPNet) : list RR :=
  let '(matched, seen) := match_subnets subnets records [] ∅ in
  matched ++ unseen_records 0 records seen.

Definition reorderRecords (records : list RR) (subnets : list IPNet) : list RR :=
  let b := foldl bucket (mkBuckets [] [] [] []) records in
  cname b ++ sortBySubnetPriority (address b) subnets ++ mx b ++ rest b.

Definition reorderPreferredSubnets (m : Msg) (subnets : list IPNet) : Msg :=
  mkMsg (Id m) (Response m) (Opcode m) (Authoritative m) (Truncated m) (RecursionDesired m) (RecursionAvailable m)
    (AuthenticatedData m) (CheckingDisabled m) (Rcode m) (Question m)
    (reorderRecords (Answer m) subnets) (Ns_ m) (reorderRecords (Extra m) subnets).

(** The function [setup] installs. *)
Definition prefer_shuffle (shuffle : Msg -> Msg) (preferSubnets : list IPNet) (res : Msg) : Msg :=
  match preferSubnets with
  | [] => shuffle res
  | _ => reorderPreferredSubnets (shuffle res) preferSubnets
  end.
