(* ===== verification/WeightedFacts.v ===== *)
(** * Theorems about weights and preferred networks

    The weights of a file are between 1 and 255 whatever is read; an address
    comes first for as many of the draws as its weight; the preferred networks
    order the addresses by the first network that has them, and the order is
    otherwise kept. *)

From Stdlib Require Import Ascii ZArith Lia.
From stdpp Require Import base numbers gmap strings list sorting.
From S2P Require Import Prelude GoStrings DnsTypes DnsLib Ip Serve Xfer Server Filters FilterFacts Hosts Register Weighted.

Import LoadBalance.
Local Open Scope Z_scope.

(** ** The weight file *)

Definition item_ok (it : weightItem) : Prop := 1 <= w_value it <= 255 /\ length (w_address it) = 16%nat.
Definition domains_ok (domains : gmap string (list weightItem)) : Prop :=
  map_Forall (fun d items => HasSuffix d dot = true /\ Forall item_ok items) domains.
Definition name_ok (dname : string) : Prop := dname = EmptyString \/ HasSuffix dname dot = true.

Lemma domains_ok_insert d items domains :
  HasSuffix d dot = true -> Forall item_ok items -> domains_ok domains -> domains_ok (<[d := items]> domains).
Proof. intros Hd Hi Hok. by apply map_Forall_insert_2. Qed.

Lemma domains_ok_default d domains : domains_ok domains -> Forall item_ok (default [] (domains !! d)).
Proof. intros Hok. destruct (domains !! d) eqn:E; [by apply (Hok d)|constructor]. Qed.

Lemma parse_line_ok dname domains l dname' domains' :
  name_ok dname -> domains_ok domains -> parse_line dname domains l = Ok (dname', domains') ->
  name_ok dname' /\ domains_ok domains'.
Proof.
  intros Hn Hd. unfold parse_line. case_decide; [by intros [= <- <-]|]. destruct (HasPrefix _ _); [by intros [= <- <-]|].
  destruct (Fields _) as [|f [|v [|]]]; try done.
  - case_decide; [done|]. intros [= <- <-]. set (d := if HasSuffix f dot then f else _).
    assert (HasSuffix d dot = true) as Hs by (unfold d; destruct (HasSuffix f dot) eqn:E; [done|apply HasSuffix_app]).
    split; [by right|]. case_decide; [done|]. by apply domains_ok_insert.
  - destruct (ParseIP f) as [ip|] eqn:Eip; [|done]. destruct (ParseUint v 8) as [x|] eqn:Ev; [|done].
    assert (1 <= x <= 255 -> (if decide (dname = EmptyString) then Err MissingDomain
              else Ok (dname, <[dname := default [] (domains !! dname) ++ [mkWeight ip x]]> domains)) = Ok (dname', domains') ->
            name_ok dname' /\ domains_ok domains') as Hk.
    { intros Hx. case_decide; [done|]. intros [= <- <-]. destruct Hn as [|Hn]; [done|]. split; [by right|].
      apply domains_ok_insert; [done| |done]. apply Forall_app. split; [by apply domains_ok_default|].
      repeat constructor; simpl; [lia..|by eapply ParseIP_length]. }
    pose proof (ParseUint_range _ _ _ Ev) as Hr. destruct x; [done| |]; apply Hk; lia.
Qed.

Lemma parse_lines_ok lines dname domains domains' :
  name_ok dname -> domains_ok domains -> parse_lines dname domains lines = Ok domains' -> domains_ok domains'.
Proof.
  revert dname domains. induction lines as [|l lines IH]; simpl; intros dname domains Hn Hd; [by intros [= <-]|].
  intros ([dn ds] & Hl & Hr)%bind_ok_inv. destruct (parse_line_ok _ _ _ _ _ Hn Hd Hl). by eapply IH.
Qed.

Lemma parseWeights_ok text domains : parseWeights text = Ok domains -> domains_ok domains.
Proof.
  unfold parseWeights. intros (ds & Hp & Hr)%bind_ok_inv. destruct (scan_failed _); [done|]. injection Hr as <-.
  eapply parse_lines_ok; [by left| |done]. apply map_Forall_empty.
Qed.

Section reload.
Variable md5_Sum : string -> Z.

Lemma updateWeights_ok w f : domains_ok (w_domains w) -> domains_ok (w_domains (updateWeights md5_Sum w f).2).
Proof.
  intros Hw. destruct f as [| |text]; [done..|]. simpl. case_decide; [done|].
  destruct (parseWeights text) eqn:E; simpl; [by eapply parseWeights_ok|done].
Qed.

Lemma weightedOnStartUp_updates w f : (weightedOnStartUp md5_Sum w f).2 = (updateWeights md5_Sum w f).2.
Proof. unfold weightedOnStartUp. by destruct (updateWeights md5_Sum w f) as [[[]|] w']. Qed.

Lemma periodicWeightUpdate_ok w files : domains_ok (w_domains w) -> domains_ok (w_domains (periodicWeightUpdate md5_Sum w files)).
Proof.
  unfold periodicWeightUpdate. destruct (w_reload w); [|done]. clear. revert w.
  induction files as [|f files IH]; simpl; intros w Hw; [done|]. by apply IH, updateWeights_ok.
Qed.

(** Whatever the weight file holds at the start and at each reload, the
    weights in use are between 1 and 255, are of 16-byte addresses and belong
    to names that end in a dot; a file that cannot be opened, read or parsed
    leaves the weights of the last good one. *)
Theorem weights_stay_valid reload files f :
  let w0 := mkWeighted reload 0 ∅ in
  let w := periodicWeightUpdate md5_Sum (weightedOnStartUp md5_Sum w0 f).2 files in
  domains_ok (w_domains w) /\
  (forall f', (updateWeights md5_Sum w f').1 <> None -> w_domains (updateWeights md5_Sum w f').2 = w_domains w).
Proof.
  simpl. split.
  - apply periodicWeightUpdate_ok. rewrite weightedOnStartUp_updates. apply updateWeights_ok, map_Forall_empty.
  - intros [| |text]; [done..|]. simpl. case_decide; [done|]. by destruct (parseWeights text).
Qed.

End reload.

(** ** The draw *)

Lemma address_weight_range w ar x : domains_ok (w_domains w) -> address_weight w ar = Ok x -> 1 <= x <= 255.
Proof.
  intros Hw (ip & _ & Hx)%bind_ok_inv. injection Hx as <-. pose proof (domains_ok_default (Name (Hdr ar)) _ Hw) as Hd.
  destruct (List.find _ _) as [it|] eqn:E; [|lia]. apply List.find_some in E as [Hin _].
  apply list_elem_of_In in Hin. rewrite Forall_forall in Hd. apply (Hd _ Hin).
Qed.

Lemma weigh_total w i l : Forall (fun ar => exists ip, record_ip ar = Ok ip) l -> exists ps, weigh w i l = Ok ps.
Proof.
  intros H. revert i. induction H as [|ar l [ip Hip] _ IH]; intros i; [by exists []|].
  destruct (IH (S i)) as [ps Hps]. simpl. unfold address_weight. rewrite Hip. simpl. rewrite Hps. by eexists.
Qed.

Lemma weigh_spec w i l ps :
  weigh w i l = Ok ps -> ps.*1 = seq i (length l) /\ Forall2 (fun ar p => address_weight w ar = Ok p.2) l ps.
Proof.
  revert i ps. induction l as [|ar l IH]; simpl; intros i ps; [intros [= <-]; by repeat constructor|].
  intros (x & Hx & (ps' & Hps & [= <-])%bind_ok_inv)%bind_ok_inv. destruct (IH _ _ Hps) as [E HF].
  split; [by rewrite fmap_cons, E|by constructor].
Qed.

Lemma weigh_lookup w l ps i ar : weigh w 0 l = Ok ps -> l !! i = Some ar -> exists x, address_weight w ar = Ok x /\ (i, x) ∈ ps.
Proof.
  intros [E HF]%weigh_spec Hi. destruct (Forall2_lookup_l _ _ _ _ _ HF Hi) as ([j x] & Hj & Hx). exists x. split; [done|].
  assert (ps.*1 !! i = Some j) as Hl by (by rewrite list_lookup_fmap, Hj). rewrite E in Hl.
  apply lookup_seq in Hl as [-> _]. by eapply list_elem_of_lookup_2.
Qed.

Lemma weigh_positive w l ps : domains_ok (w_domains w) -> weigh w 0 l = Ok ps -> Forall (fun p => 0 < p.2) ps.
Proof.
  intros Hw [_ HF]%weigh_spec. induction HF as [|ar p l ps Hx _ IH]; constructor; [|done].
  pose proof (address_weight_range _ _ _ Hw Hx). lia.
Qed.

Lemma wsum_perm l l' : l ≡ₚ l' -> wsum l = wsum l'.
Proof. induction 1; simpl; lia. Qed.

Lemma wsum_nonneg l : Forall (fun p => 0 < p.2) l -> 0 <= wsum l.
Proof. induction 1; simpl; lia. Qed.

Lemma pick_elem v s l i : pick v s l = Some i -> i ∈ l.*1.
Proof.
  revert s. induction l as [|[j x] l IH]; simpl; intros s; [done|].
  case_decide; [intros [= ->]; left|]. intros Hp%IH. by right.
Qed.

(** A draw below the sum picks one. *)
Lemma pick_total v s l : Forall (fun p => 0 < p.2) l -> s <= v < s + wsum l -> exists i, pick v s l = Some i.
Proof.
  intros H. revert s. induction H as [|[j x] l Hx _ IH]; simpl; intros s Hv; [lia|].
  case_decide; [by eexists|]. apply IH. lia.
Qed.

Lemma seqZ_split s x n : 0 <= x -> 0 <= n -> seqZ s (x + n) = seqZ s x ++ seqZ (s + x) n.
Proof. intros. by apply seqZ_app. Qed.

(** An item is picked by as many of the draws as its weight. *)
Lemma pick_share s l i x :
  NoDup l.*1 -> Forall (fun p => 0 < p.2) l -> (i, x) ∈ l ->
  length (filter (fun v => pick v s l = Some i) (seqZ s (wsum l))) = Z.to_nat x.
Proof.
  intros Hnd Hpos. revert s Hnd. induction Hpos as [|[j y] l Hy Hpos IH]; intros s Hnd Hin; [by apply elem_of_nil in Hin|].
  simpl in Hy, Hnd. apply NoDup_cons in Hnd as [Hj Hnd]. pose proof (wsum_nonneg _ Hpos) as Hw.
  change (wsum ((j, y) :: l)) with (y + wsum l). rewrite seqZ_split, filter_app, length_app by lia.
  assert (forall v, v ∈ seqZ s y -> pick v s ((j, y) :: l) = Some j) as H1.
  { intros v Hv%elem_of_seqZ. simpl. rewrite decide_True; [done|lia]. }
  assert (forall v, v ∈ seqZ (s + y) (wsum l) -> pick v s ((j, y) :: l) = pick v (s + y) l) as H2.
  { intros v Hv%elem_of_seqZ. simpl. rewrite decide_False; [done|lia]. }
  rewrite (filter_in_ext _ (fun v => Some j = Some i) (seqZ s y)) by (intros v Hv; by rewrite (H1 v Hv)).
  rewrite (filter_in_ext _ (fun v => pick v (s + y) l = Some i) (seqZ (s + y) _)) by (intros v Hv; by rewrite (H2 v Hv)).
  apply elem_of_cons in Hin as [[= -> ->]|Hin].
  - rewrite filter_all by (by apply Forall_true). rewrite length_seqZ, filter_none; [simpl; lia|].
    by intros v _ Hp%pick_elem.
  - assert (j <> i) as Hne by (intros ->; apply Hj, list_elem_of_fmap; by exists (i, x)).
    rewrite filter_none by congruence. simpl. by apply IH.
Qed.

Section share.
Variable sort_Slice : list (nat * Z) -> list (nat * Z).
Hypothesis sort_permutes : forall l, sort_Slice l ≡ₚ l.

Lemma topAddressIndex_eq rand w l ps :
  weigh w 0 l = Ok ps -> topAddressIndex sort_Slice rand w l = Ok (pick (rand (wsum ps)) 0 (sort_Slice ps)).
Proof. unfold topAddressIndex. by intros ->. Qed.

Lemma topAddressIndex_some rand w l ps :
  domains_ok (w_domains w) -> weigh w 0 l = Ok ps -> 0 <= rand (wsum ps) < wsum ps ->
  exists i ar, topAddressIndex sort_Slice rand w l = Ok (Some i) /\ l !! i = Some ar.
Proof.
  intros Hw Hl Hr. rewrite (topAddressIndex_eq _ _ _ _ Hl). destruct (weigh_spec _ _ _ _ Hl) as [E _].
  destruct (pick_total (rand (wsum ps)) 0 (sort_Slice ps)) as [i Hi].
  - rewrite sort_permutes. by eapply weigh_positive.
  - by rewrite (wsum_perm _ _ (sort_permutes ps)).
  - rewrite Hi. pose proof (pick_elem _ _ _ _ Hi) as Hin. rewrite sort_permutes, E in Hin. apply elem_of_seq in Hin.
    destruct (lookup_lt_is_Some_2 l i) as [ar Har]; [lia|]. by exists i, ar.
Qed.

(** The index a draw of [v] gives. *)
Definition drawn (w : weightedRR) (l : list RR) (v : Z) : option nat :=
  match topAddressIndex sort_Slice (fun _ => v) w l with Ok i => i | Err _ => None end.

Lemma drawn_share w l ps i ar x :
  domains_ok (w_domains w) -> weigh w 0 l = Ok ps -> l !! i = Some ar -> address_weight w ar = Ok x ->
  length (filter (fun v => drawn w l v = Some i) (seqZ 0 (wsum ps))) = Z.to_nat x.
Proof.
  intros Hw Hl Hi Hx. destruct (weigh_lookup _ _ _ _ _ Hl Hi) as (x' & Hx' & Hin). assert (x' = x) as -> by congruence.
  rewrite (filter_in_ext _ (fun v => pick v 0 (sort_Slice ps) = Some i)).
  - rewrite <-(wsum_perm _ _ (sort_permutes ps)). apply pick_share; rewrite sort_permutes; [|by eapply weigh_positive|done].
    destruct (weigh_spec _ _ _ _ Hl) as [-> _]. apply NoDup_seq.
  - intros v _. unfold drawn. by rewrite (topAddressIndex_eq _ _ _ _ Hl).
Qed.

Lemma swap_head (l : list RR) i ar : l !! i = Some ar -> head (match i with O => l | _ => swap l 0 i end) = Some ar.
Proof.
  intros Hi. destruct i as [|i]; [by destruct l|]. destruct l as [|a l]; [done|].
  unfold swap. rewrite Hi. reflexivity.
Qed.

Lemma setTopRecord_top rand w l i ar :
  topAddressIndex sort_Slice rand w l = Ok (Some i) -> l !! i = Some ar ->
  exists l', setTopRecord sort_Slice rand w l = Ok l' /\ l' ≡ₚ l /\ head l' = Some ar.
Proof.
  intros Ht Hi. unfold setTopRecord. rewrite Ht. eexists. split; [reflexivity|].
  pose proof (swap_head _ _ _ Hi) as Hh. destruct i as [|i]; [done|]. split; [|done].
  apply swap_perm; [lia|by eapply lookup_lt_Some].
Qed.

Lemma kinds r :
  (rr_type r = TypeCNAME /\ ~ is_rest r /\ ~ is_address r /\ rr_type r <> TypeMX) \/
  (rr_type r <> TypeCNAME /\ is_rest r /\ ~ is_address r /\ rr_type r <> TypeMX) \/
  (rr_type r <> TypeCNAME /\ ~ is_rest r /\ is_address r /\ rr_type r <> TypeMX) \/
  (rr_type r <> TypeCNAME /\ ~ is_rest r /\ ~ is_address r /\ rr_type r = TypeMX).
Proof.
  unfold is_rest, is_address, TypeCNAME, TypeMX, TypeA, TypeAAAA.
  destruct (decide (rr_type r = 5)), (decide (rr_type r = 15)), (decide (rr_type r = 1)), (decide (rr_type r = 28)); lia.
Qed.

Lemma buckets_perm rrs :
  filter (fun r => rr_type r = TypeCNAME) rrs ++ filter is_rest rrs ++ filter is_address rrs ++ filter (fun r => rr_type r = TypeMX) rrs ≡ₚ rrs.
Proof.
  induction rrs as [|r rrs IH]; [done|]. etransitivity; [|apply Permutation_skip, IH]. rewrite !filter_cons.
  destruct (kinds r) as [(?&?&?&?)|[(?&?&?&?)|[(?&?&?&?)|(?&?&?&?)]]];
    repeat first [rewrite decide_True by assumption | rewrite decide_False by assumption]; cbn [app];
    rewrite <-?Permutation_middle; done.
Qed.

Lemma arranged_addresses rrs l :
  l ≡ₚ filter is_address rrs ->
  filter is_address (filter (fun r => rr_type r = TypeCNAME) rrs ++ filter is_rest rrs ++ l ++ filter (fun r => rr_type r = TypeMX) rrs) = l.
Proof.
  intros Hl. rewrite !filter_app.
  rewrite (filter_none _ (filter _ rrs)), (filter_none _ (filter is_rest rrs)), (filter_none _ (filter (fun r => rr_type r = TypeMX) rrs)),
    (filter_all _ l), app_nil_r; [done|..].
  - rewrite Hl. apply Forall_forall. by intros r [? _]%list_elem_of_filter.
  - intros r [? _]%list_elem_of_filter. destruct (kinds r); naive_solver.
  - intros r [? _]%list_elem_of_filter. destruct (kinds r); naive_solver.
  - intros r [? _]%list_elem_of_filter. destruct (kinds r); naive_solver.
Qed.

Lemma weightedRoundRobin_out rand w rrs ps :
  domains_ok (w_domains w) -> weigh w 0 (filter is_address rrs) = Ok ps -> 0 <= rand (wsum ps) < wsum ps ->
  exists i ar out, topAddressIndex sort_Slice rand w (filter is_address rrs) = Ok (Some i) /\ filter is_address rrs !! i = Some ar /\
    weightedRoundRobin sort_Slice rand w rrs = Ok out /\ out ≡ₚ rrs /\ head (filter is_address out) = Some ar.
Proof.
  intros Hw Hl Hr. destruct (topAddressIndex_some _ _ _ _ Hw Hl Hr) as (i & ar & Ht & Hi).
  destruct (setTopRecord_top _ _ _ _ _ Ht Hi) as (l' & Hs & Hp & Hh).
  unfold weightedRoundRobin. rewrite buckets_spec. cbn [cname address mx rest app].
  destruct (filter is_address rrs) eqn:E; [done|]. rewrite <-E in *. rewrite Hs. cbn.
  do 3 eexists. split_and!; [done..| |].
  - rewrite Hp. apply buckets_perm.
  - by rewrite arranged_addresses.
Qed.

(** The address record that comes first after a draw of [v]. *)
Definition first_address (w : weightedRR) (rrs : list RR) (v : Z) : option RR :=
  match weightedRoundRobin sort_Slice (fun _ => v) w rrs with
  | Ok out => head (filter is_address out)
  | Err _ => None
  end.

(** C36. With valid weights and distinct addresses in an answer, every draw
    below the sum of the weights gives the records of the answer in a new
    order, and each address comes first for exactly as many of the draws as its
    weight: its share of the answers is its weight over the sum. *)
Theorem weighted_share w rrs :
  domains_ok (w_domains w) ->
  Forall (fun ar => exists ip, record_ip ar = Ok ip) (filter is_address rrs) ->
  NoDup (filter is_address rrs) ->
  exists ps, weigh w 0 (filter is_address rrs) = Ok ps /\
  (forall rand, 0 <= rand (wsum ps) < wsum ps -> exists out, weightedRoundRobin sort_Slice rand w rrs = Ok out /\ out ≡ₚ rrs) /\
  (forall ar x, ar ∈ filter is_address rrs -> address_weight w ar = Ok x ->
     length (filter (fun v => first_address w rrs v = Some ar) (seqZ 0 (wsum ps))) = Z.to_nat x).
Proof.
  intros Hw Hip Hnd. destruct (weigh_total w 0 _ Hip) as [ps Hl]. exists ps. split_and!; [done| |].
  - intros rand Hr. destruct (weightedRoundRobin_out _ _ _ _ Hw Hl Hr) as (i & ar & out & _ & _ & Ho & Hp & _). by exists out.
  - intros ar x [i Hi]%list_elem_of_lookup Hx. rewrite <-(drawn_share _ _ _ _ _ _ Hw Hl Hi Hx). f_equal.
    apply filter_in_ext. intros v Hv%elem_of_seqZ.
    destruct (weightedRoundRobin_out (fun _ => v) _ _ _ Hw Hl) as (j & a & out & Ht & Hj & Ho & _ & Hh); [lia|].
    unfold first_address, drawn. rewrite Ho, Ht, Hh. split; [|congruence].
    intros [= ->]. f_equal. by eapply NoDup_lookup.
Qed.

End share.

(** ** Preferred networks *)

(** The first network that has the address of a record. *)
Fixpoint rank (subnets : list IPNet) (r : RR) : nat :=
  match subnets with
  | [] => 0
  | s :: subnets' => if preferred s r then 0 else S (rank subnets' r)
  end.

Definition by_rank (subnets : list IPNet) (records : list RR) : list RR :=
  seq 0 (S (length subnets)) ≫= (fun k => filter (fun r => rank subnets r = k) records).

(** The positions in [seen] from [i] are those of the records with [P]. *)
Definition marks (i : nat) (records : list RR) (seen : gset nat) (P : RR -> bool) : Prop :=
  forall j r, records !! j = Some r -> (i + j)%nat ∈ seen <-> P r = true.

Lemma marks_cons i r records seen P : marks i (r :: records) seen P -> (i ∈ seen <-> P r = true) /\ marks (S i) records seen P.
Proof.
  intros H. split; [specialize (H 0%nat r eq_refl); by rewrite Nat.add_0_r in H|].
  intros j r' Hj. specialize (H (S j) r' Hj). by rewrite Nat.add_succ_r in H.
Qed.

Lemma match_records_spec s i records m seen P :
  marks i records seen P ->
  exists seen', match_records s i records m seen = (m ++ filter (fun r => P r = false /\ preferred s r = true) records, seen') /\
    (forall k, (k < i)%nat -> k ∈ seen' <-> k ∈ seen) /\ marks i records seen' (fun r => P r || preferred s r).
Proof.
  revert i m seen. induction records as [|r records IH]; intros i m seen Hm; [exists seen; simpl; by rewrite app_nil_r|].
  apply marks_cons in Hm as [Hi Hm]. cbn [match_records].
  assert (forall m' seen0, marks (S i) records seen0 P -> (i ∈ seen0 <-> P r || preferred s r = true) -> (forall k, (k < i)%nat -> k ∈ seen0 <-> k ∈ seen) ->
    exists seen', match_records s (S i) records m' seen0 = (m' ++ filter (fun r => P r = false /\ preferred s r = true) records, seen') /\
    (forall k, (k < i)%nat -> k ∈ seen' <-> k ∈ seen) /\ marks i (r :: records) seen' (fun r => P r || preferred s r)) as step.
  { intros m' seen0 Hm0 Hi0 Hk0. destruct (IH (S i) m' seen0 Hm0) as (seen' & E & Hk & Hm'). exists seen'. split_and!; [done| |].
    - intros k Hlt. rewrite Hk by lia. by apply Hk0.
    - intros [|j] r' Hj; [injection Hj as <-; rewrite Nat.add_0_r, Hk by lia; done|]. rewrite Nat.add_succ_r. by apply (Hm' j). }
  rewrite filter_cons. destruct (P r) eqn:EP.
  - rewrite (decide_True (P := i ∈ seen)) by tauto. rewrite decide_False by (by intros [? _]). by apply step.
  - rewrite (decide_False (P := i ∈ seen)) by (rewrite Hi; done). destruct (preferred s r) eqn:Es.
    + rewrite decide_True by done. rewrite (cons_middle r m (filter _ records)), (app_assoc m [r]). apply step; [|set_solver|intros; set_solver by lia].
      intros j r' Hj. rewrite <-(Hm j r' Hj). set_solver by lia.
    + rewrite decide_False by (by intros [_ ?]). apply step; [done|simpl; by rewrite Hi|done].
Qed.

Lemma rank_groups subnets records P m seen :
  marks 0 records seen P ->
  exists seen', match_subnets subnets records m seen =
      (m ++ (seq 0 (length subnets) ≫= fun k => filter (fun r => P r = false /\ rank subnets r = k) records), seen') /\
    marks 0 records seen' (fun r => P r || bool_decide (rank subnets r < length subnets)%nat).
Proof.
  revert P m seen. induction subnets as [|s subnets IH]; intros P m seen Hm.
  - exists seen. simpl. rewrite app_nil_r. split; [done|]. intros j r Hj. rewrite orb_false_r. by apply Hm.
  - destruct (match_records_spec s 0 records m seen P Hm) as (seen1 & E & _ & Hm1). cbn [match_subnets]. rewrite E.
    destruct (IH _ (m ++ filter (fun r => P r = false /\ preferred s r = true) records) _ Hm1) as (seen' & E' & Hm').
    exists seen'. rewrite E'. split.
    + f_equal. cbn [length seq]. rewrite bind_cons, <-app_assoc, <-fmap_S_seq, list_fmap_bind. f_equal. f_equal.
      * apply filter_in_ext. intros r _. simpl. destruct (preferred s r); naive_solver.
      * apply list_bind_ext; [|done]. intros k. apply filter_in_ext. intros r _. simpl.
        destruct (P r), (preferred s r); naive_solver.
    + intros j r Hj. rewrite (Hm' j r Hj). simpl. destruct (P r), (preferred s r); simpl; rewrite ?bool_decide_eq_true; intuition lia.
Qed.

Lemma unseen_records_spec i records seen P : marks i records seen P -> unseen_records i records seen = filter (fun r => P r = false) records.
Proof.
  revert i. induction records as [|r records IH]; intros i; [done|]. intros [Hi Hm]%marks_cons.
  cbn [unseen_records]. rewrite filter_cons, (IH _ Hm). destruct (P r); case_decide; naive_solver.
Qed.

Lemma rank_le subnets r : (rank subnets r <= length subnets)%nat.
Proof. induction subnets as [|s l IH]; simpl; [lia|]. destruct (preferred s r); lia. Qed.

Lemma sortBySubnetPriority_ranks records subnets : sortBySubnetPriority records subnets = by_rank subnets records.
Proof.
  unfold sortBySubnetPriority, by_rank. destruct (rank_groups subnets records (fun _ => false) [] ∅) as (seen & -> & Hm).
  { intros j r _. split; [set_solver|done]. }
  rewrite (unseen_records_spec _ _ _ _ Hm), seq_S, bind_app, bind_singleton. cbn [app]. f_equal.
  - apply list_bind_ext; [|done]. intros k. apply filter_in_ext. naive_solver.
  - apply filter_in_ext. intros r _. simpl. pose proof (rank_le subnets r). rewrite bool_decide_eq_false. lia.
Qed.

Lemma filter_lt_S (f : RR -> nat) n l :
  filter (fun r => f r < S n)%nat l ≡ₚ filter (fun r => f r < n)%nat l ++ filter (fun r => f r = n) l.
Proof.
  induction l as [|r l IH]; [done|]. rewrite !filter_cons.
  destruct (decide (f r < n)%nat), (decide (f r = n)), (decide (f r < S n)%nat); try lia; rewrite IH; [done| |done].
  apply Permutation_middle.
Qed.

Lemma groups_perm (f : RR -> nat) n l : (seq 0 n ≫= fun k => filter (fun r => f r = k) l) ≡ₚ filter (fun r => f r < n)%nat l.
Proof.
  induction n as [|n IH]; [simpl; rewrite filter_none; [done|lia]|].
  rewrite seq_S, bind_app, bind_singleton, IH. simpl. by rewrite filter_lt_S.
Qed.

Lemma by_rank_perm subnets l : by_rank subnets l ≡ₚ l.
Proof.
  unfold by_rank. rewrite groups_perm, filter_all; [done|]. apply Forall_true. intros r. pose proof (rank_le subnets r). lia.
Qed.

(** The records of a section with preferred networks are the aliases, the
    addresses grouped by the first network that has them, those of no network
    last, the mail exchangers and the others, each group in the order it had;
    no record is lost or added. *)
Theorem prefer_order rrs subnets :
  reorderRecords rrs subnets =
    filter (fun r => rr_type r = TypeCNAME) rrs ++ by_rank subnets (filter is_address rrs) ++
    filter (fun r => rr_type r = TypeMX) rrs ++ filter is_rest rrs /\
  reorderRecords rrs subnets ≡ₚ rrs.
Proof.
  unfold reorderRecords. rewrite buckets_spec. cbn [cname address mx rest app]. rewrite sortBySubnetPriority_ranks.
  split; [done|]. rewrite by_rank_perm. rewrite <-(buckets_perm rrs) at 5. apply Permutation_app_head.
  rewrite Permutation_app_comm, <-app_assoc, Permutation_app_comm, <-app_assoc. by rewrite Permutation_app_comm, <-app_assoc.
Qed.

(** ** Examples *)

Module WeightedSample.

Definition address_of (name : string) (last : Z) : RR := mkRR (mkHdr name TypeA ClassINET 30) (RA [192; 0; 2; last]).

Definition text : string :=
  "# weights" +:+ String newline ("example.org" +:+ String newline ("192.0.2.1 3" +:+ String newline ("192.0.2.2 2" +:+ String newline EmptyString))).

Definition sum (s : string) : Z := Z.of_nat (String.length s).

Definition w : weightedRR := (weightedOnStartUp sum (mkWeighted true 0 ∅) (Contents text)).2.

Definition answer : list RR := [address_of "example.org." 1; address_of "example.org." 2; address_of "example.org." 3].

Definition by_weight (p q : nat * Z) : Prop := q.2 <= p.2.
#[local] Instance by_weight_dec : RelDecision by_weight.
Proof. intros p q. unfold by_weight. apply _. Defined.

Definition sort : list (nat * Z) -> list (nat * Z) := merge_sort by_weight.

Lemma sort_perm l : sort l ≡ₚ l.
Proof. apply merge_sort_Permutation. Qed.

Lemma weights_read : w_domains w = {[ "example.org."%string := [mkWeight (v4_prefix ++ [192; 0; 2; 1]) 3; mkWeight (v4_prefix ++ [192; 0; 2; 2]) 2] ]}.
Proof. vm_compute. reflexivity. Qed.

Lemma w_ok : domains_ok (w_domains w).
Proof. unfold w. rewrite weightedOnStartUp_updates. apply updateWeights_ok, map_Forall_empty. Qed.

Lemma weighted_share_witness :
  length (filter (fun v => first_address sort w answer v = Some (address_of "example.org." 2)) (seqZ 0 6)) = 2%nat.
Proof.
  destruct (weighted_share sort sort_perm w answer) as (ps & Hps & _ & H).
  - apply w_ok.
  - repeat (constructor; [eexists; reflexivity|]). constructor.
  - refine (bool_decide_unpack _ _). vm_compute. exact I.
  - replace 6 with (wsum ps) by (vm_compute in Hps; injection Hps as <-; reflexivity).
    apply (H _ 2); [refine (bool_decide_unpack _ _); vm_compute; exact I|vm_compute; reflexivity].
Defined.

(** The weights of a name do not apply when the answer spells it with capital
    letters, or when the file does. *)
Lemma weights_need_case : address_weight w (address_of "example.org." 1) = Ok 3 /\ address_weight w (address_of "Example.org." 1) = Ok 1.
Proof. vm_compute. done. Qed.

Lemma preferred_first :
  reorderRecords answer [mkIPNet [192; 0; 2; 2] 31; mkIPNet [192; 0; 2; 0] 24] =
  [address_of "example.org." 2; address_of "example.org." 3; address_of "example.org." 1].
Proof. vm_compute. reflexivity. Qed.

End WeightedSample.
