(* ===== verification/Tsig.v ===== *)
(** * Signed requests (plugin/tsig)

    The handler refuses requests without a signature where one is required,
    answers those whose signature is wrong, and passes the others on without
    their signature, adding one to the reply.  The signature was checked by the
    server; its status is an argument. *)

From Stdlib Require Import Ascii ZArith Lia.
From stdpp Require Import base numbers gmap strings list.
From S2P Require Import Prelude DnsTypes DnsLib Ip Http Serve Xfer Server Filters.

Local Open Scope Z_scope.

Definition TypeTSIG : Z := 250.
Definition ClassANY : Z := 255.
Definition RcodeNotAuth : Z := 9.
Definition RcodeBadSig : Z := 16.
Definition RcodeBadKey : Z := 17.
Definition RcodeBadTime : Z := 18.

(** The record that signs a message, the last one of the additional section. *)
Class DnsTsig := { IsTsig : Msg -> option (RR_Header * TSIG) }.

Class DnsTsigSpec (T : DnsTsig) : Prop := {
  IsTsig_law m :
    IsTsig m = match last (Extra m) with
               | Some (mkRR h (RTSIG t)) => if decide (Rrtype h = TypeTSIG) then Some (h, t) else None
               | _ => None
               end }.

Inductive tsig_error : Type := ErrSecret | ErrTime | ErrOther.
#[export] Instance tsig_error_eq_dec : EqDecision tsig_error.
Proof. solve_decision. Defined.

Record TSIGServer := mkTSIGServer {
  ts_Zones : list string;
  ts_types : gset Z;
  ts_opcodes : gset Z;
  ts_allTypes : bool;
  ts_allOpcodes : bool }.

Definition tsigRequired (t : TSIGServer) (qtype opcode : Z) : bool :=
  (ts_allTypes t || bool_decide (qtype ∈ ts_types t)) || (ts_allOpcodes t || bool_decide (opcode ∈ ts_opcodes t)).

(** [hex.EncodeToString] of the last six bytes of a time. *)
Definition hex48 (now : Z) : string :=
  foldr (fun i s => hex_byte false (byte_chr (now / 256 ^ i)) +:+ s) EmptyString [5; 4; 3; 2; 1; 0].

Definition set_Error (e : Z) (t : TSIG) : TSIG :=
  mkTSIG (t_Algorithm t) (t_TimeSigned t) (t_Fudge t) (t_MACSize t) (t_MAC t) (t_OrigId t) e (t_OtherLen t) (t_OtherData t).

(** The messages written, the code returned, and the request as it is left. *)
Record tsig_served := mkServed { ts_written : list Msg; ts_code : result go_fault Z; ts_request : Msg }.

Section tsig.
Context {L : DnsLib} {OP : DnsOpt} {N : DnsNames} {T : DnsTsig}.
Variable SupportedOption : Z -> bool.
Variable now : Z.

(** The signature of a reply: the name of the key and the fields of the
    request's. *)
Definition reply_tsig (h : RR_Header) (t : TSIG) (m : Msg) : RR :=
  let badtime := bool_decide (t_Error t = RcodeBadTime) in
  mkRR (mkHdr (Name h) TypeTSIG ClassANY 0)
    (RTSIG (mkTSIG (t_Algorithm t) (if badtime then t_TimeSigned t else 0) 0 (t_MACSize t) (t_MAC t) (Id m) (t_Error t)
              (if badtime then 6 else 0) (if badtime then hex48 now else EmptyString))).

(** restoreTsigWriter.WriteMsg *)
Definition restore_WriteMsg (req : Msg) (reqTSIG : option (RR_Header * TSIG)) (m : Msg) : Msg :=
  let m := SizeAndDo SupportedOption req m in
  match reqTSIG, IsTsig m with
  | Some (h, t), None => set_Extra m (Extra m ++ [reply_tsig h t m])
  | _, _ => m
  end.

(** The last additional record goes, whatever it is. *)
Definition tsig_strip (r : Msg) : Msg := set_Extra r (removelast (Extra r)).

Definition tsig_fault (e : tsig_error) : Z :=
  match e with ErrSecret => RcodeBadKey | ErrTime => RcodeBadTime | ErrOther => RcodeBadSig end.

Definition tsig_ServeDNS (t : TSIGServer) (next : option Chain) (status : option tsig_error) (r : Msg) : tsig_served :=
  let pass := let '(m, res) := next_or_failure next r in mkServed (option_list m) res r in
  if decide (Matches (ts_Zones t) (Name_ r) = EmptyString) then pass
  else
    let tsigRR := IsTsig r in
    if negb (tsigRequired t (QType_ r) (Opcode r)) && bool_decide (tsigRR = None) then pass
    else
      match status with
      | Some e =>
          match tsigRR with
          | None => mkServed [] (Err NilDeref) r
          | Some (h, rr) =>
              let rr := set_Error (tsig_fault e) rr in
              let r := set_Extra r (removelast (Extra r) ++ [mkRR h (RTSIG rr)]) in
              mkServed [restore_WriteMsg r (Some (h, rr)) (SetRcode r RcodeNotAuth)] (Ok RcodeSuccess) r
          end
      | None =>
          let r := tsig_strip r in
          let refuse := fun (ms : list Msg) rc =>
            mkServed (ms ++ if ClientWrite rc then [] else [restore_WriteMsg r tsigRR (SetRcode r rc)]) (Ok RcodeSuccess) r in
          match tsigRR with
          | None => refuse [] RcodeRefused
          | Some _ =>
              let '(m, res) := next_or_failure next r in
              let ms := restore_WriteMsg r tsigRR <$> option_list m in
              match res with Ok rc => refuse ms rc | Err f => mkServed ms (Err f) r end
          end
      end.

End tsig.
