(* ===== verification/Transports.v ===== *)
(** * Encrypted transports: HTTPS, QUIC and gRPC

    How a request reaches the server and the reply its client over HTTPS
    (plugin/pkg/doh, core/dnsserver/https.go, server_https.go,
    server_https3.go), QUIC (quic.go, server_quic.go) and gRPC
    (server_grpc.go).  The multiplexer of Server.v is an argument, as the list
    of messages it writes to the client.  Bytes are strings. *)

From Stdlib Require Import Ascii ZArith Lia.
From stdpp Require Import base numbers gmap strings list.
From S2P Require Import Prelude GoStrings DnsTypes DnsLib Ip Http Serve Typify Xfer Server Tsig.

Local Open Scope Z_scope.

(** ** encoding/base64, URL alphabet without padding *)

Definition b64_char (d : Z) : ascii :=
  if decide (d < 26) then byte_chr (d + 65) else if decide (d < 52) then byte_chr (d + 71)
  else if decide (d < 62) then byte_chr (d - 4) else if decide (d = 62) then "-"%char else "_"%char.

Fixpoint RawURL_EncodeToString (s : string) : string :=
  match s with
  | EmptyString => EmptyString
  | String a EmptyString => String (b64_char (byte_of a / 4)) (str1 (b64_char (byte_of a mod 4 * 16)))
  | String a (String b EmptyString) =>
      String (b64_char (byte_of a / 4)) (String (b64_char (byte_of a mod 4 * 16 + byte_of b / 16)) (str1 (b64_char (byte_of b mod 16 * 4))))
  | String a (String b (String c s')) =>
      String (b64_char (byte_of a / 4)) (String (b64_char (byte_of a mod 4 * 16 + byte_of b / 16))
        (String (b64_char (byte_of b mod 16 * 4 + byte_of c / 64)) (String (b64_char (byte_of c mod 64)) (RawURL_EncodeToString s'))))
  end.

(** Four characters at a time; two or three may remain, of which the bits that
    are left over do not count. *)
Fixpoint raw_quads (s : string) : option string :=
  match s with
  | EmptyString => Some EmptyString
  | String a (String b EmptyString) =>
      x ← b64_digit a; y ← b64_digit b; Some (str1 (byte_chr (x * 4 + y / 16)))
  | String a (String b (String c EmptyString)) =>
      x ← b64_digit a; y ← b64_digit b; z ← b64_digit c;
      Some (String (byte_chr (x * 4 + y / 16)) (str1 (byte_chr (y * 16 + z / 4))))
  | String a (String b (String c (String d s'))) =>
      x ← b64_digit a; y ← b64_digit b; z ← b64_digit c; w ← b64_digit d; t ← raw_quads s';
      Some (String (byte_chr (x * 4 + y / 16)) (String (byte_chr (y * 16 + z / 4)) (String (byte_chr (z * 64 + w)) t)))
  | _ => None
  end.

Definition RawURL_DecodeString (s : string) : option string := raw_quads (drop_newlines s).

(** ** net/url *)

Definition cut_at (s : string) (c : ascii) : string * string :=
  match IndexByte s c with Some i => (take_str i s, drop_str (S i) s) | None => (s, EmptyString) end.

Definition unhex (c : ascii) : option Z :=
  let n := byte_of c in
  if decide (48 <= n <= 57) then Some (n - 48) else if decide (97 <= n <= 102) then Some (n - 87)
  else if decide (65 <= n <= 70) then Some (n - 55) else None.

Fixpoint QueryUnescape (s : string) : option string :=
  match s with
  | EmptyString => Some EmptyString
  | String c s' =>
      if decide (c = "%"%char) then
        match s' with
        | String a (String b s'') => x ← unhex a; y ← unhex b; t ← QueryUnescape s''; Some (String (byte_chr (x * 16 + y)) t)
        | _ => None
        end
      else t ← QueryUnescape s'; Some (String (if decide (c = "+"%char) then " "%char else c) t)
  end.

(** The values of a key in a query; a part that does not parse is passed
    over. *)
Definition query_pair (key : string) (part : string) : option string :=
  if decide (part = EmptyString \/ Contains part ";" = true) then None
  else
    let '(k, v) := cut_at part "=" in
    k ← QueryUnescape k; v ← QueryUnescape v; if decide (k = key) then Some v else None.

Definition query_values (raw key : string) : list string := omap (query_pair key) (Split raw "&").

Record URL := mkURL { u_Path : string; u_RawQuery : string }.

(** A byte below space, or delete. *)
Definition control_char (c : ascii) : bool := bool_decide (byte_of c < 32 \/ byte_of c = 127).

Section url.
(** What is before the query: scheme, host and path, of which the path. *)
Variable ParsePath : string -> option string.

Definition url_Parse (s : string) : option URL :=
  let u := (cut_at s "#").1 in
  if string_forall (fun c => negb (control_char c)) u
  then let '(rest, q) := cut_at u "?" in p ← ParsePath rest; Some (mkURL p q)
  else None.

End url.

(** ** plugin/pkg/doh *)

Definition MimeType : string := "application/dns-message".
Definition doh_Path : string := "/dns-query".
Definition maxDNSQuerySize : Z := 65536.
Definition maxBase64Len : Z := (maxDNSQuerySize * 8 + 5) / 6.

(** A request: no body is one that cannot be read. *)
Record http_Request := mkHttpRequest {
  hr_Method : string;
  hr_URL : URL;
  hr_Headers : list (string * string);
  hr_Body : option string;
  hr_RemoteAddr : string }.

Inductive doh_error : Type :=
| PackError | URLError | MethodNotAllowed (method : string) | NoQuery | MultipleQueries | QueryTooLarge
| BadBase64 | BodyError | UnpackError.

Section doh.
(** [Msg.Pack] and [Msg.Unpack] of the DNS library. *)
Variable Pack : Msg -> option string.
Variable Unpack : string -> option Msg.
Variable ParsePath : string -> option string.

Definition doh_headers : list (string * string) := [("Content-Type"%string, MimeType); ("Accept"%string, MimeType)].

Definition http_NewRequest (method url : string) (body : string) : result doh_error http_Request :=
  match url_Parse ParsePath url with
  | None => Err URLError
  | Some u => Ok (mkHttpRequest method u doh_headers (Some body) EmptyString)
  end.

(** The URL with its scheme. *)
Definition with_scheme (url : string) : string :=
  if negb (HasPrefix url "http://") && negb (HasPrefix url "https://") then "https://" +:+ url else url.

Definition NewRequest (method url : string) (m : Msg) : result doh_error http_Request :=
  match Pack m with
  | None => Err PackError
  | Some buf =>
      let url := with_scheme url in
      if decide (method = "GET") then http_NewRequest "GET" (url +:+ doh_Path +:+ "?dns=" +:+ RawURL_EncodeToString buf) EmptyString
      else if decide (method = "POST") then http_NewRequest "POST" (url +:+ doh_Path) buf
      else Err (MethodNotAllowed method)
  end.

Definition unpacked (buf : string) : result doh_error (Msg * string) :=
  match Unpack buf with Some m => Ok (m, buf) | None => Err UnpackError end.

(** [http.MaxBytesReader]: a body over the limit is an error. *)
Definition toMsgWire (body : option string) : result doh_error (Msg * string) :=
  match body with
  | None => Err BodyError
  | Some buf => if decide (maxDNSQuerySize < Z.of_nat (String.length buf)) then Err BodyError else unpacked buf
  end.

Definition base64ToMsgWire (b64 : string) : result doh_error (Msg * string) :=
  match RawURL_DecodeString b64 with None => Err BadBase64 | Some buf => unpacked buf end.

Definition requestToMsgGet (req : http_Request) : result doh_error (Msg * string) :=
  match query_values (u_RawQuery (hr_URL req)) "dns" with
  | [] => Err NoQuery
  | [b64] => if decide (maxBase64Len < Z.of_nat (String.length b64)) then Err QueryTooLarge else base64ToMsgWire b64
  | _ => Err MultipleQueries
  end.

Definition requestToMsgPost (req : http_Request) : result doh_error (Msg * string) := toMsgWire (hr_Body req).

Definition RequestToMsgWire (req : http_Request) : result doh_error (Msg * string) :=
  if decide (hr_Method req = "GET") then requestToMsgGet req
  else if decide (hr_Method req = "POST") then requestToMsgPost req
  else Err (MethodNotAllowed (hr_Method req)).

Definition RequestToMsg (req : http_Request) : result doh_error Msg := x ← RequestToMsgWire req; Ok x.1.

Definition ResponseToMsg (body : option string) : result doh_error Msg := x ← toMsgWire body; Ok x.1.

End doh.

(** ** Signatures of requests *)

Section servers.
Context {L : DnsLib} {T : DnsTsig}.
Variable Pack : Msg -> option string.
Variable Unpack : string -> option Msg.

(** [dns.TsigVerify] of the bytes received, with a secret. *)
Variable TsigVerify : string -> string -> option tsig_error.

(** The secrets of the server, by key name. *)
Variable tsigSecret : option (gmap string string).

(** The status of a request; the three servers have the same lines. *)
Definition tsig_status (raw : string) (msg : Msg) : option tsig_error :=
  match IsTsig msg with
  | None => None
  | Some (h, _) =>
      match tsigSecret with
      | None => Some ErrSecret
      | Some secrets => match secrets !! Name h with None => Some ErrSecret | Some secret => TsigVerify raw secret end
      end
  end.

(** The messages [Server.ServeDNS] writes for a client and a request with
    the status. *)
Variable ServeDNS : Client -> option tsig_error -> Msg -> list Msg.

(** ** HTTPS *)

(** The writer keeps the last message. *)
Definition doh_writer (written : list Msg) : option Msg := last written.

Record http_Reply := mkHttpReply { hp_Status : Z; hp_Headers : list (string * string); hp_Body : string }.

(** [http.Error]; the text of an error of the package is not modelled. *)
Definition http_Error (status : Z) : http_Reply := mkHttpReply status [] EmptyString.

(** The flag: over HTTP/3, whose client has a UDP address. *)
Definition serve_http (validRequest : http_Request -> bool) (now : Z) (http3 : bool) (r : http_Request) : http_Reply :=
  if negb (validRequest r) then http_Error 404
  else match RequestToMsgWire Unpack r with
       | Err _ => http_Error 400
       | Ok (msg, raw) =>
           match doh_writer (ServeDNS (mkClient (hr_RemoteAddr r) (negb http3)) (tsig_status raw msg) msg) with
           | None => http_Error 500
           | Some m =>
               let buf := default EmptyString (Pack m) in
               let age := MinimalTTL m (Typify (Some m) now).1 in
               mkHttpReply 200 [("Content-Type"%string, MimeType);
                                ("Cache-Control"%string, "max-age=" +:+ Itoa ((age / Second) mod 2 ^ 32));
                                ("Content-Length"%string, Itoa (Z.of_nat (String.length buf)))] buf
           end
       end.

(** server_https.go and server_https3.go, which differ in the address of the
    client. *)
Definition ServeHTTP (validRequest : http_Request -> bool) (now : Z) (r : http_Request) : http_Reply := serve_http validRequest now false r.
Definition ServeHTTP3 (validRequest : http_Request -> bool) (now : Z) (r : http_Request) : http_Reply := serve_http validRequest now true r.

(** Without a function of the configuration: the path. *)
Definition default_validator (r : http_Request) : bool := bool_decide (u_Path (hr_URL r) = doh_Path).

(** ** gRPC *)

Definition MaxMsgSize : Z := 65535.

Inductive grpc_error : Type := TooLarge | GrpcUnpack | NoPeer | GrpcPack.

(** The peer of the context, if it has a TCP address.  The writer starts with
    the request as its message. *)
Definition grpc_Query (peer : option Client) (in_ : string) : result grpc_error string :=
  if decide (MaxMsgSize < Z.of_nat (String.length in_)) then Err TooLarge
  else match Unpack in_ with
       | None => Err GrpcUnpack
       | Some msg =>
           match peer with
           | None => Err NoPeer
           | Some w =>
               let m := default msg (last (ServeDNS w (tsig_status in_ msg) msg)) in
               match Pack m with None => Err GrpcPack | Some packed => Ok packed end
           end
       end.

(** ** QUIC *)

(** What a stream delivers, and whether its end was signalled or it broke
    off. *)
Record stream := mkStream { st_bytes : string; st_fin : bool }.

Inductive read_error : Type := EOF | UnexpectedEOF | Broken | ZeroSize.

Fixpoint zero_bytes (n : nat) : string := match n with O => EmptyString | S n' => String (byte_chr 0) (zero_bytes n') end.

(** [io.ReadFull] into a buffer of zeros: the buffer, the rest and the
    error. *)
Definition ReadFull (n : nat) (s : stream) : string * stream * option read_error :=
  let len := String.length (st_bytes s) in
  if decide (n <= len)%nat then (take_str n (st_bytes s), mkStream (drop_str n (st_bytes s)) (st_fin s), None)
  else (st_bytes s +:+ zero_bytes (n - len), mkStream EmptyString (st_fin s),
        Some (if st_fin s then if decide (len = 0%nat) then EOF else UnexpectedEOF else Broken)).

Definition be16 (s : string) : Z :=
  match s with String a (String b _) => byte_of a * 256 + byte_of b | _ => 0 end.

(** The bytes and the error; the comparison of the size with the length of the
    buffer made for it never fails. *)
Definition readDOQMessage (s : stream) : option string * option read_error :=
  let '(sizeBuf, s, err) := ReadFull 2 s in
  match err with
  | Some e => (None, Some e)
  | None =>
      let size := be16 sizeBuf in
      if decide (size = 0) then (None, Some ZeroSize)
      else let '(buf, _, err) := ReadFull (Z.to_nat size) s in (Some buf, err)
  end.

Definition AddPrefix (b : string) : string :=
  let n := Z.of_nat (String.length b) in
  String (byte_chr (n / 256)) (String (byte_chr n) b).

Definition doq_valid (req : Msg) : bool :=
  bool_decide (Id req = 0) &&
  match IsEdns0 req with
  | None => true
  | Some o => match Data o with
              | ROPT opts => negb (existsb (fun opt => bool_decide (opt_code opt = EDNS0TCPKEEPALIVE)) opts)
              | _ => true
              end
  end.

Inductive doq_result : Type :=
| ProtocolError
| Streamed (bytes : string) (fin : bool).

(** The first message that can be packed ends the stream; writing on then
    fails. *)
Fixpoint doq_write (written : list Msg) : doq_result :=
  match written with
  | [] => Streamed EmptyString false
  | m :: written' => match Pack m with Some b => Streamed (AddPrefix b) true | None => doq_write written' end
  end.

Definition serveQUICStream (w : Client) (s : stream) : doq_result :=
  let '(buf, err) := readDOQMessage s in
  match err with
  | None | Some EOF =>
      match Unpack (default EmptyString buf) with
      | None => ProtocolError
      | Some req => if negb (doq_valid req) then ProtocolError else doq_write (ServeDNS w (tsig_status (default EmptyString buf) req) req)
      end
  | _ => ProtocolError
  end.

End servers.
