(* ===== verification/TransportFacts.v ===== *)
(** * Theorems about encrypted transports and signed requests

    A message survives its way into an HTTPS request and out of it, and into a
    QUIC stream and out of it; what is accepted is bounded; a reply that needs a
    signature of the request does not depend on the rest of the chain unless the
    signature was verified, over every transport. *)

From Stdlib Require Import Ascii ZArith Lia.
From stdpp Require Import base numbers gmap strings list.
From S2P Require Import Prelude GoStrings DnsTypes DnsLib Ip Http Serve Typify Xfer Server ServerFacts Filters FilterFacts Tsig Transports.

Local Open Scope Z_scope.

(** ** base64 *)

Lemma b64_digit_char d : 0 <= d < 64 -> b64_digit (b64_char d) = Some d.
Proof.
  intros Hd. assert (Forall (fun d => b64_digit (b64_char d) = Some d) (seqZ 0 64)) as HF by (refine (bool_decide_unpack _ _); vm_compute; exact I).
  rewrite Forall_forall in HF. apply HF, elem_of_seqZ. lia.
Qed.

(** A character of the alphabet is none of those with a meaning in a URL. *)
Definition plain (c : ascii) : bool :=
  bool_decide (is_Some (b64_digit c)).

Lemma plain_char d : 0 <= d < 64 -> plain (b64_char d) = true.
Proof. intros Hd. unfold plain. rewrite b64_digit_char by done. by apply bool_decide_true. Qed.

Lemma byte_chr_of c : byte_chr (byte_of c) = c.
Proof.
  unfold byte_chr. pose proof (byte_of_range c). rewrite Z.mod_small by lia.
  unfold byte_of. rewrite Nat2Z.id. apply ascii_nat_embedding.
Qed.

Lemma byte_chr_eq c z : z mod 256 = byte_of c -> byte_chr z = c.
Proof. intros E. rewrite <-(byte_chr_of c), <-E. unfold byte_chr. by rewrite Zmod_mod. Qed.

Lemma string_ind3 (P : string -> Prop) :
  P EmptyString -> (forall a, P (str1 a)) -> (forall a b, P (String a (str1 b))) ->
  (forall a b c s, P s -> P (String a (String b (String c s)))) -> forall s, P s.
Proof. intros H0 H1 H2 H3. fix IH 1. intros [|a [|b [|c s]]]; [apply H0|apply H1|apply H2|apply H3, IH]. Qed.

(** The four digits of three bytes. *)
Lemma digit_range a b c :
  let x := byte_of a in let y := byte_of b in let z := byte_of c in
  0 <= x / 4 < 64 /\ 0 <= x mod 4 * 16 < 64 /\ 0 <= x mod 4 * 16 + y / 16 < 64 /\ 0 <= y mod 16 * 4 < 64 /\
  0 <= y mod 16 * 4 + z / 64 < 64 /\ 0 <= z mod 64 < 64.
Proof.
  cbv zeta. pose proof (byte_of_range a). pose proof (byte_of_range b). pose proof (byte_of_range c).
  Z.div_mod_to_equations. lia.
Qed.

Lemma bytes_back a b c :
  let x := byte_of a in let y := byte_of b in let z := byte_of c in
  byte_chr (x / 4 * 4 + (x mod 4 * 16) / 16) = a /\
  byte_chr (x / 4 * 4 + (x mod 4 * 16 + y / 16) / 16) = a /\
  byte_chr ((x mod 4 * 16 + y / 16) * 16 + (y mod 16 * 4) / 4) = b /\
  byte_chr ((x mod 4 * 16 + y / 16) * 16 + (y mod 16 * 4 + z / 64) / 4) = b /\
  byte_chr ((y mod 16 * 4 + z / 64) * 64 + z mod 64) = c.
Proof.
  cbv zeta. pose proof (byte_of_range a). pose proof (byte_of_range b). pose proof (byte_of_range c).
  split_and!; apply byte_chr_eq; Z.div_mod_to_equations; lia.
Qed.

Lemma raw_quads_encode s : raw_quads (RawURL_EncodeToString s) = Some s.
Proof.
  induction s as [|a|a b|a b c s IH] using string_ind3; [done|..].
  - destruct (digit_range a a a) as (H1 & H2 & _). cbn [RawURL_EncodeToString raw_quads str1].
    rewrite !b64_digit_char by done. cbn. do 2 f_equal. by destruct (bytes_back a a a) as (-> & _).
  - destruct (digit_range a b b) as (H1 & _ & H3 & H4 & _). cbn [RawURL_EncodeToString raw_quads str1].
    rewrite !b64_digit_char by done. cbn. destruct (bytes_back a b b) as (_ & -> & -> & _). done.
  - destruct (digit_range a b c) as (H1 & _ & H3 & _ & H5 & H6). cbn [RawURL_EncodeToString raw_quads].
    rewrite !b64_digit_char by done. cbn -[raw_quads RawURL_EncodeToString]. rewrite IH. cbn.
    destruct (bytes_back a b c) as (_ & -> & _ & -> & ->). done.
Qed.

Lemma encode_plain s : string_forall plain (RawURL_EncodeToString s) = true.
Proof.
  induction s as [|a|a b|a b c s IH] using string_ind3; [done|..].
  - destruct (digit_range a a a) as (H1 & H2 & _). cbn [RawURL_EncodeToString string_forall str1]. by rewrite !plain_char.
  - destruct (digit_range a b b) as (H1 & _ & H3 & H4 & _). cbn [RawURL_EncodeToString string_forall str1]. by rewrite !plain_char.
  - destruct (digit_range a b c) as (H1 & _ & H3 & _ & H5 & H6). cbn [RawURL_EncodeToString string_forall]. by rewrite !plain_char, IH.
Qed.

Lemma encode_length s : Z.of_nat (String.length (RawURL_EncodeToString s)) = (4 * Z.of_nat (String.length s) + 2) / 3.
Proof.
  induction s as [|a|a b|a b c s IH] using string_ind3; [done..|]. cbn [RawURL_EncodeToString String.length].
  rewrite !Nat2Z.inj_succ, IH. Z.div_mod_to_equations. lia.
Qed.

Lemma raw_quads_length s t : raw_quads s = Some t -> (4 * String.length t <= 3 * String.length s)%nat.
Proof.
  revert s t. fix IH 1. intros [|a [|b [|c [|d s]]]] t; cbn [raw_quads].
  - intros [= <-]. done.
  - done.
  - intros (x & _ & (y & _ & [= <-])%bind_Some)%bind_Some. simpl. lia.
  - intros (x & _ & (y & _ & (z & _ & [= <-])%bind_Some)%bind_Some)%bind_Some. simpl. lia.
  - intros (x & _ & (y & _ & (z & _ & (w & _ & (u & Hu & [= <-])%bind_Some)%bind_Some)%bind_Some)%bind_Some)%bind_Some.
    apply IH in Hu. simpl. lia.
Qed.

Lemma drop_newlines_length s : (String.length (drop_newlines s) <= String.length s)%nat.
Proof. induction s as [|c s IH]; simpl; [done|]. case_decide; simpl; lia. Qed.

(** ** URLs *)

(** Characters that need no care in a URL, its query and its values. *)
Definition harmless (c : ascii) : bool :=
  negb (control_char c) && negb (bool_decide (c ∈ ["%"; "+"; "&"; ";"; "="; "#"; "?"]%char)).

Lemma plain_harmless c : plain c = true -> harmless c = true.
Proof. destruct c as [[] [] [] [] [] [] [] []]; vm_compute; congruence. Qed.

Lemma string_forall_impl (P Q : ascii -> bool) s : (forall c, P c = true -> Q c = true) -> string_forall P s = true -> string_forall Q s = true.
Proof. intros H. induction s as [|c s IH]; [done|]. cbn [string_forall]. rewrite !andb_true_iff. naive_solver. Qed.

Lemma encode_harmless s : string_forall harmless (RawURL_EncodeToString s) = true.
Proof. eapply string_forall_impl; [apply plain_harmless|apply encode_plain]. Qed.

Lemma harmless_cons c s : string_forall harmless (String c s) = true -> harmless c = true /\ string_forall harmless s = true.
Proof. cbn [string_forall]. by rewrite andb_true_iff. Qed.

Lemma harmless_ne c d : harmless c = true -> d ∈ ["%"; "+"; "&"; ";"; "="; "#"; "?"]%char -> c <> d.
Proof. unfold harmless. rewrite andb_true_iff, !negb_true_iff, bool_decide_eq_false. intros [_ H] Hd ->. done. Qed.

Lemma harmless_newline c : harmless c = true -> ~ (byte_of c = 10 \/ byte_of c = 13).
Proof. unfold harmless, control_char. rewrite andb_true_iff, !negb_true_iff, bool_decide_eq_false. lia. Qed.

Lemma drop_newlines_harmless s : string_forall harmless s = true -> drop_newlines s = s.
Proof.
  induction s as [|c s IH]; [done|]. intros [Hc Hs]%harmless_cons. simpl. rewrite decide_False by (by apply harmless_newline).
  by rewrite IH.
Qed.

Lemma QueryUnescape_harmless s : string_forall harmless s = true -> QueryUnescape s = Some s.
Proof.
  induction s as [|c s IH]; [done|]. intros [Hc Hs]%harmless_cons. cbn [QueryUnescape].
  rewrite decide_False by (apply harmless_ne; [done|set_solver]). rewrite (IH Hs). cbn.
  rewrite decide_False by (apply harmless_ne; [done|set_solver]). done.
Qed.

Lemma RawURL_roundtrip s : RawURL_DecodeString (RawURL_EncodeToString s) = Some s.
Proof. unfold RawURL_DecodeString. rewrite drop_newlines_harmless by apply encode_harmless. apply raw_quads_encode. Qed.

(** A separator that the text before it lacks. *)
Definition without (d : ascii) (s : string) : Prop := string_forall (fun c => negb (bool_decide (c = d))) s = true.

Lemma without_cons d c s : without d (String c s) <-> c <> d /\ without d s.
Proof. unfold without. cbn [string_forall]. by rewrite andb_true_iff, negb_true_iff, bool_decide_eq_false. Qed.

Lemma without_app d a b : without d (a +:+ b) <-> without d a /\ without d b.
Proof. unfold without. rewrite string_forall_app. apply andb_true_iff. Qed.

Lemma harmless_without d s : d ∈ ["%"; "+"; "&"; ";"; "="; "#"; "?"]%char -> string_forall harmless s = true -> without d s.
Proof.
  intros Hd. apply string_forall_impl. intros c Hc. apply negb_true_iff, bool_decide_eq_false. by apply harmless_ne.
Qed.

Lemma IndexByte_without s d : without d s -> IndexByte s d = None.
Proof. induction s as [|c s IH]; [done|]. intros [Hc Hs]%without_cons. simpl. by rewrite decide_False, IH. Qed.

Lemma IndexByte_sep a d b : without d a -> IndexByte (a +:+ String d b) d = Some (String.length a).
Proof.
  induction a as [|c a IH]; intros H; [simpl; by rewrite decide_True|]. apply without_cons in H as [Hc Ha].
  change (String c a +:+ String d b) with (String c (a +:+ String d b)). simpl. by rewrite decide_False, IH.
Qed.

Lemma cut_at_without s d : without d s -> cut_at s d = (s, EmptyString).
Proof. intros H. unfold cut_at. by rewrite IndexByte_without. Qed.

Lemma cut_at_sep a d b : without d a -> cut_at (a +:+ String d b) d = (a, b).
Proof.
  intros H. unfold cut_at. rewrite IndexByte_sep by done. rewrite take_str_app. f_equal.
  clear. induction a as [|c a IH]; [done|]. exact IH.
Qed.

Lemma Split_without s d : without d s -> Split s d = [s].
Proof. induction s as [|c s IH]; [done|]. intros [Hc Hs]%without_cons. simpl. by rewrite decide_False, IH. Qed.

Lemma Contains_without s d : without d s -> Contains s (str1 d) = false.
Proof.
  induction s as [|c s IH]; [done|]. intros [Hc Hs]%without_cons. cbn [Contains]. rewrite IH, orb_false_r by done.
  unfold HasPrefix. cbn. by rewrite bool_decide_false.
Qed.

Lemma query_values_dns s : string_forall harmless s = true -> query_values ("dns=" +:+ s) "dns" = [s].
Proof.
  intros Hs. assert (forall d, d ∈ ["&"; ";"]%char -> without d ("dns=" +:+ s)) as Hw.
  { intros d Hd. apply without_app. split; [|apply harmless_without; [set_solver|done]].
    apply elem_of_cons in Hd as [-> | ->%list_elem_of_singleton]; reflexivity. }
  unfold query_values. rewrite Split_without by (apply Hw; set_solver). cbn [omap list_omap].
  unfold query_pair. rewrite decide_False by (intros [H|H]; [done|]; change (Contains ("dns=" +:+ s) (str1 ";") = true) in H; rewrite Contains_without in H; [done|apply Hw; set_solver]).
  change ("dns=" +:+ s) with ("dns" +:+ String "=" s). rewrite cut_at_sep by done. rewrite (QueryUnescape_harmless s) by done. done.
Qed.

(** ** HTTPS requests *)

(** A URL without a query, a fragment or control characters. *)
Definition base_url (url : string) : bool := string_forall (fun c => negb (control_char c) && negb (bool_decide (c = "#"%char)) && negb (bool_decide (c = "?"%char))) url.

Lemma base_url_app a b : base_url (a +:+ b) = base_url a && base_url b.
Proof. apply string_forall_app. Qed.

Lemma base_url_parts url : base_url url = true -> without "#" url /\ without "?" url /\ string_forall (fun c => negb (control_char c)) url = true.
Proof. intros H. split_and!; revert H; apply string_forall_impl; intros c; rewrite !andb_true_iff; tauto. Qed.

Lemma with_scheme_base url : base_url url = true -> base_url (with_scheme url) = true.
Proof. intros H. unfold with_scheme. destruct (_ && _); [|done]. by rewrite base_url_app, H. Qed.

Section doh.
Variable Pack : Msg -> option string.
Variable Unpack : string -> option Msg.
Variable ParsePath : string -> option string.

Lemma url_Parse_base u p : base_url u = true -> ParsePath u = Some p -> url_Parse ParsePath u = Some (mkURL p EmptyString).
Proof.
  intros (H1 & H2 & H3)%base_url_parts Hp. unfold url_Parse. rewrite cut_at_without by done. cbn [fst].
  rewrite H3, cut_at_without by done. by rewrite Hp.
Qed.

Lemma url_Parse_query u p q :
  base_url u = true -> ParsePath u = Some p -> without "#" q -> string_forall (fun c => negb (control_char c)) q = true ->
  url_Parse ParsePath (u +:+ String "?" q) = Some (mkURL p q).
Proof.
  intros (H1 & H2 & H3)%base_url_parts Hp Hq Hc. unfold url_Parse.
  rewrite cut_at_without by (apply without_app; split; [done|]; by apply without_cons). cbn [fst].
  rewrite string_forall_app, H3. cbn [string_forall]. rewrite Hc. cbn [andb]. rewrite cut_at_sep by done. by rewrite Hp.
Qed.

(** C28. A message that is made into a request for a server over HTTPS, as the
    query of a GET or the body of a POST, is read from it with its bytes, for
    every message of at most 64 KB and every URL without a query: the size
    limits of both methods agree, and the encoding needs no escapes. *)
Theorem doh_roundtrip method url m buf p :
  Pack m = Some buf -> Unpack buf = Some m -> Z.of_nat (String.length buf) <= maxDNSQuerySize ->
  method ∈ ["GET"; "POST"]%string -> base_url url = true -> ParsePath (with_scheme url +:+ doh_Path) = Some p ->
  exists req, NewRequest Pack ParsePath method url m = Ok req /\ hr_Method req = method /\ u_Path (hr_URL req) = p /\
    RequestToMsgWire Unpack req = Ok (m, buf).
Proof.
  intros HP HU Hl Hm Hu Hp. unfold NewRequest. rewrite HP. pose proof (with_scheme_base url Hu) as Hs.
  assert (base_url (with_scheme url +:+ doh_Path) = true) as Hb by (by rewrite base_url_app, Hs).
  pose proof (encode_harmless buf) as He. unfold http_NewRequest.
  apply elem_of_cons in Hm as [-> | ->%list_elem_of_singleton].
  - rewrite decide_True by done.
    replace (with_scheme url +:+ doh_Path +:+ "?dns=" +:+ RawURL_EncodeToString buf)
      with ((with_scheme url +:+ doh_Path) +:+ String "?" ("dns=" +:+ RawURL_EncodeToString buf)) by (by rewrite str_app_assoc).
    rewrite (url_Parse_query _ p); [|done|done|..].
    + eexists. split; [reflexivity|]. split_and!; [done..|]. unfold RequestToMsgWire, requestToMsgGet. cbn [hr_Method hr_URL u_RawQuery].
      rewrite decide_True, query_values_dns by done. rewrite decide_False.
      * unfold base64ToMsgWire, unpacked. by rewrite RawURL_roundtrip, HU.
      * rewrite encode_length. unfold maxBase64Len, maxDNSQuerySize in *. Z.div_mod_to_equations. lia.
    + apply without_app. split; [done|]. apply harmless_without; [set_solver|done].
    + rewrite string_forall_app. cbn. revert He. apply string_forall_impl. intros c. unfold harmless. rewrite andb_true_iff. tauto.
  - rewrite decide_False, decide_True by done. rewrite (url_Parse_base _ p) by done. eexists. split; [reflexivity|].
    split_and!; [done..|]. unfold RequestToMsgWire. cbn [hr_Method]. rewrite decide_False, decide_True by done.
    unfold requestToMsgPost, toMsgWire. cbn [hr_Body]. rewrite decide_False by lia. unfold unpacked. by rewrite HU.
Qed.

(** What is accepted, by either method, is at most 64 KB of bytes that unpack
    to the message. *)
Theorem doh_bounded req m raw :
  RequestToMsgWire Unpack req = Ok (m, raw) -> Z.of_nat (String.length raw) <= maxDNSQuerySize /\ Unpack raw = Some m.
Proof.
  assert (forall buf, unpacked Unpack buf = Ok (m, raw) -> buf = raw /\ Unpack raw = Some m) as Hu.
  { intros buf. unfold unpacked. destruct (Unpack buf) eqn:E; [|done]. intros [= -> ->]. done. }
  unfold RequestToMsgWire, requestToMsgGet, requestToMsgPost, toMsgWire, base64ToMsgWire.
  case_decide; [|case_decide; [|done]].
  - destruct (query_values _ _) as [|b64 [|]]; [done| |done]. case_decide as Hlen; [done|].
    destruct (RawURL_DecodeString b64) as [buf|] eqn:E; [|done]. intros [-> ?]%Hu. split; [|done].
    apply raw_quads_length in E. pose proof (drop_newlines_length b64). unfold maxBase64Len, maxDNSQuerySize in *.
    Z.div_mod_to_equations. lia.
  - destruct (hr_Body req) as [buf|]; [|done]. case_decide; [done|]. intros [-> ?]%Hu. split; [lia|done].
Qed.

End doh.

(** ** QUIC streams *)

Lemma ReadFull_app a b fin : ReadFull (String.length a) (mkStream (a +:+ b) fin) = (a, mkStream b fin, None).
Proof.
  unfold ReadFull. cbn [st_bytes st_fin]. rewrite decide_True by (rewrite str_length_app; lia).
  by rewrite take_str_app, drop_str_app.
Qed.

Lemma prefix_size b : Z.of_nat (String.length b) < 65536 -> be16 (take_str 2 (AddPrefix b)) = Z.of_nat (String.length b).
Proof.
  intros Hl. unfold AddPrefix. set (n := Z.of_nat (String.length b)) in *. cbn [take_str be16].
  assert (forall z, byte_of (byte_chr z) = z mod 256) as Hb.
  { intros z. unfold byte_chr, byte_of. rewrite nat_ascii_embedding; pose proof (Z.mod_pos_bound z 256); lia. }
  rewrite !Hb. assert (0 <= n) by lia. Z.div_mod_to_equations. lia.
Qed.

(** What is written with its prefix is read back, whatever follows it. *)
Theorem doq_roundtrip b rest fin :
  0 < Z.of_nat (String.length b) < 65536 -> readDOQMessage (mkStream (AddPrefix b +:+ rest) fin) = (Some b, None).
Proof.
  intros Hl. pose proof (prefix_size b) as Hs. specialize (Hs ltac:(lia)). unfold AddPrefix in *. set (n := Z.of_nat (String.length b)) in *.
  unfold readDOQMessage. change (String (byte_chr (n / 256)) (String (byte_chr n) b) +:+ rest) with (String (byte_chr (n / 256)) (str1 (byte_chr n)) +:+ (b +:+ rest)).
  change 2%nat with (String.length (String (byte_chr (n / 256)) (str1 (byte_chr n)))) at 1. rewrite ReadFull_app.
  change (be16 (String (byte_chr (n / 256)) (str1 (byte_chr n))) = n) in Hs. rewrite Hs, decide_False by lia.
  unfold n. rewrite Nat2Z.id. by rewrite ReadFull_app.
Qed.

(** ** Signed requests *)

Section tsig.
Context {L : DnsLib} {OP : DnsOpt} {N : DnsNames} {T : DnsTsig} {TS : DnsTsigSpec T} {LS : DnsLibSpec L}.
Variable SupportedOption : Z -> bool.
Variable now : Z.

Implicit Types (r m : Msg) (t : TSIGServer).

(** The request is for a zone of the plugin and has to be signed. *)
Definition must_sign t r : Prop := Matches (ts_Zones t) (Name_ r) <> EmptyString /\ tsigRequired t (QType_ r) (Opcode r) = true.

Lemma tsig_closed t r status next next' :
  must_sign t r -> IsTsig r = None \/ status <> None ->
  tsig_ServeDNS SupportedOption now t next status r = tsig_ServeDNS SupportedOption now t next' status r.
Proof.
  intros [Hz Hr] Hs. unfold tsig_ServeDNS. rewrite !(decide_False (P := Matches _ _ = _)) by done. rewrite Hr. cbn [negb andb].
  destruct status; [done|]. destruct Hs as [->|]; done.
Qed.

Lemma IsTsig_last m h rr : Rrtype h = TypeTSIG -> forall ex, Extra m = ex ++ [mkRR h (RTSIG rr)] -> IsTsig m = Some (h, rr).
Proof. intros Hh ex He. rewrite IsTsig_law, He, last_snoc. by rewrite decide_True. Qed.

(** The signature that goes with a reply, if the request has one. *)
Lemma restore_signed req h rr m : IsTsig (restore_WriteMsg SupportedOption now req (Some (h, rr)) m) <> None.
Proof.
  unfold restore_WriteMsg. destruct (IsTsig (SizeAndDo _ _ _)) eqn:E; [congruence|].
  unfold reply_tsig. erewrite IsTsig_last; [| |reflexivity]; done.
Qed.

(** A reply of the plugin to a request it handles. *)
Theorem tsig_answers t next status r :
  opt_protocol next -> Matches (ts_Zones t) (Name_ r) <> EmptyString -> tsigRequired t (QType_ r) (Opcode r) = true \/ IsTsig r <> None ->
  (status <> None -> IsTsig r <> None) ->
  let out := tsig_ServeDNS SupportedOption now t next status r in
  (exists m, ts_written out = [m] /\ ts_code out = Ok RcodeSuccess /\ (IsTsig r <> None -> IsTsig m <> None)) \/
  (exists f, ts_written out = [] /\ ts_code out = Err f /\ status = None /\ (next_or_failure next (tsig_strip r)).2 = Err f).
Proof.
  intros Hn Hz Hreq Hst. cbv zeta. unfold tsig_ServeDNS. rewrite (decide_False (P := Matches _ _ = _)) by done.
  replace (negb (tsigRequired t (QType_ r) (Opcode r)) && bool_decide (IsTsig r = None)) with false
    by (destruct Hreq as [->|Hr]; [done|]; by rewrite (bool_decide_false (IsTsig r = None)), andb_false_r by done).
  destruct status as [e|].
  - destruct (IsTsig r) as [[h rr]|]; [|by destruct Hst]. left. eexists. split_and!; [reflexivity|done|]. intros _.
    apply restore_signed.
  - destruct (IsTsig r) as [[h rr]|].
    + pose proof (next_or_failure_protocol next Hn (tsig_strip r)) as Hp. destruct (next_or_failure next (tsig_strip r)) as [m [rc|f]].
      * left. destruct (ClientWrite rc), m as [m|];
          [|by destruct (proj2 Hp eq_refl)|discriminate (proj1 Hp (mk_is_Some _ _ eq_refl))|];
          (eexists; split_and!; [reflexivity|done|]; intros _; apply restore_signed).
      * subst m. right. by exists f.
    + left. cbn. eexists. split_and!; [reflexivity|done|done].
Qed.

(** ** Signed requests over the transports *)

Section transports.
Variable Pack : Msg -> option string.
Variable Unpack : string -> option Msg.
Variable TsigVerify : string -> string -> option tsig_error.
Variable tsigSecret : option (gmap string string).

(** The bytes are signed with a key the server has. *)
Definition verified (raw : string) r : Prop :=
  exists h rr secrets secret, IsTsig r = Some (h, rr) /\ tsigSecret = Some secrets /\ secrets !! Name h = Some secret /\ TsigVerify raw secret = None.

Lemma tsig_status_verified raw r : tsig_status TsigVerify tsigSecret raw r = None -> IsTsig r = None \/ verified raw r.
Proof.
  unfold tsig_status, verified. destruct (IsTsig r) as [[h rr]|]; [|by left]. destruct tsigSecret as [secrets|]; [|done].
  destruct (secrets !! Name h) as [secret|] eqn:E; [|done]. intros Hv. right. by exists h, rr, secrets, secret.
Qed.

(** [Server.ServeDNS] of a server whose sites all begin with the plugin and
    go on with [next], each as its configuration has it: the checks, the
    choice of the site, the plugin, and the writer that fits replies to the
    client.  The plugin changes the request in place: what is written after it
    is written for the changed request.  A panic in debug mode, which ends the
    process, leaves what was written before it. *)
Definition followed_sites (next : Config -> Chain) (hs : list Site) : list Site :=
  (fun h => mkSite (site_config h) (Some (next (site_config h)))) <$> hs.

Definition followed (next : Config -> Chain) (s : Server) : Server :=
  mkServer (followed_sites next <$> zones s) (debug s) (classChaos s).

(** Which site a request goes to does not depend on what the sites do. *)
Inductive chosen : Type := NoPlugins | Chosen (c : Config) | Kept (ds : option Config).

Definition chosen_chain (next : Config -> Chain) (x : chosen) : routed :=
  match x with NoPlugins => Refused | Chosen c => To (next c) | Kept ds => Searching (next <$> ds) end.

Lemma scan_followed w r is_ds hs ds :
  exists x, forall next, scan w r is_ds (followed_sites next hs) (next <$> ds) = chosen_chain next x.
Proof.
  revert ds. induction hs as [|h hs IH]; intros ds; [by exists (Kept ds)|]. cbn.
  destruct (passAllFilterFuncs _ _ _); [|apply IH]. destruct is_ds; [apply (IH (Some (site_config h)))|by exists (Chosen (site_config h))].
Qed.

Lemma route_loop_followed fuel s w r is_ds q off ds :
  exists x, forall next, route_loop fuel (followed next s) w r is_ds q off (next <$> ds) = match x with Ok x => Ok (chosen_chain next x) | Err e => Err e end.
Proof.
  revert off ds. induction fuel as [|fuel IH]; intros off ds; [by eexists (Err _)|].
  destruct (scan_followed w r is_ds (default [] (zones s !! drop_str off q)) ds) as [x Hx].
  assert (forall next, scan w r is_ds (default [] (zones (followed next s) !! drop_str off q)) (next <$> ds) = chosen_chain next x) as Hscan.
  { intros next. rewrite <-Hx. cbn. rewrite lookup_fmap. by destruct (zones s !! drop_str off q). }
  cbn [route_loop]. destruct x as [|c|ds'].
  - exists (Ok NoPlugins). intros next. by rewrite Hscan.
  - exists (Ok (Chosen c)). intros next. by rewrite Hscan.
  - destruct (NextLabel q off) as [off' []] eqn:En.
    + exists (Ok (Kept ds')). intros next. by rewrite Hscan.
    + destruct (IH off' ds') as [x Hl]. exists x. intros next. rewrite Hscan. apply Hl.
Qed.

Lemma scan_root_followed w r hs :
  exists x, forall next, scan_root w r (followed_sites next hs) = next <$> x.
Proof.
  induction hs as [|h hs [x IH]]; [by exists None|]. cbn. destruct (passAllFilterFuncs _ _ _); [by exists (Some (site_config h))|by exists x].
Qed.

Lemma route_followed s w r q :
  exists x, forall next, route (followed next s) w r q = match x with Ok c => Ok (next <$> c) | Err e => Err e end.
Proof.
  unfold route. destruct (route_loop_followed (S (String.length (ToLower (QName q)))) s w r (bool_decide (Qtype q = TypeDS)) (ToLower (QName q)) 0 None) as [x Hx].
  cbn [fmap option_fmap option_map] in Hx.
  destruct (scan_root_followed w r (default [] (zones s !! dot))) as [y Hy].
  exists (match x with
          | Ok NoPlugins => Ok None | Ok (Chosen c) | Ok (Kept (Some c)) => Ok (Some c) | Ok (Kept None) => Ok y
          | Err e => Err e
          end).
  intros next. rewrite Hx. destruct x as [[|c|[c|]]|e]; [done..| |done]. cbn. rewrite <-Hy, lookup_fmap. by destruct (zones s !! dot).
Qed.

Definition signed_serve (s : Server) t (next : Config -> Chain) (w : Client) (status : option tsig_error) r : list Msg :=
  let write r m := (ScrubWrite SupportedOption w r m).1 in
  let failure r rc := errorMsg SupportedOption r rc in
  match Question r with
  | [] => [failure r RcodeServerFailure]
  | q :: _ =>
      if negb (classChaos s) && bool_decide (Qclass q <> ClassINET) then [failure r RcodeRefused]
      else match bad_version r with
           | Some m => [m]
           | None =>
               match route (followed next s) w r q with
               | Err _ => if debug s then [] else [write r (failure r RcodeServerFailure)]
               | Ok None => [write r (failure r RcodeRefused)]
               | Ok (Some c) =>
                   let out := tsig_ServeDNS SupportedOption now t (Some c) status r in
                   let r := ts_request out in
                   (write r <$> ts_written out) ++
                   match ts_code out with
                   | Ok rc => if ClientWrite rc then [] else [write r (failure r rc)]
                   | Err _ => if debug s then [] else [write r (failure r RcodeServerFailure)]
                   end
               end
           end
  end.

Lemma unverified_closed s t raw r next next' w :
  must_sign t r -> ~ verified raw r ->
  signed_serve s t next w (tsig_status TsigVerify tsigSecret raw r) r =
  signed_serve s t next' w (tsig_status TsigVerify tsigSecret raw r) r.
Proof.
  intros Hm Hv. unfold signed_serve. destruct (Question r) as [|q qs]; [done|].
  destruct (route_followed s w r q) as [x Hx]. rewrite !Hx. destruct x as [[c|]|]; [|done..]. cbn [fmap option_fmap option_map].
  rewrite (tsig_closed t r _ (Some (next c)) (Some (next' c)) Hm); [done|].
  destruct (tsig_status TsigVerify tsigSecret raw r) eqn:E; [by right|]. left. by destruct (tsig_status_verified _ _ E).
Qed.

(** C31. A request that has to be signed gets a reply in which the rest of the
    chain has no part, unless the bytes it came in are signed with a secret of
    the server: over HTTPS, HTTP/3, gRPC and QUIC the reply is the same
    whatever follows the tsig plugin, on every server whose sites begin with
    it, from the checks of the server to the writer that fits replies to the
    client. *)
Theorem transports_authenticate s t next next' msg raw :
  must_sign t msg -> ~ verified raw msg ->
  (forall valid time req, RequestToMsgWire Unpack req = Ok (msg, raw) ->
     ServeHTTP Pack Unpack TsigVerify tsigSecret (signed_serve s t next) valid time req =
     ServeHTTP Pack Unpack TsigVerify tsigSecret (signed_serve s t next') valid time req /\
     ServeHTTP3 Pack Unpack TsigVerify tsigSecret (signed_serve s t next) valid time req =
     ServeHTTP3 Pack Unpack TsigVerify tsigSecret (signed_serve s t next') valid time req) /\
  (forall peer, Unpack raw = Some msg ->
     grpc_Query Pack Unpack TsigVerify tsigSecret (signed_serve s t next) peer raw =
     grpc_Query Pack Unpack TsigVerify tsigSecret (signed_serve s t next') peer raw) /\
  (forall w st, (readDOQMessage st).1 = Some raw -> Unpack raw = Some msg ->
     serveQUICStream Pack Unpack TsigVerify tsigSecret (signed_serve s t next) w st =
     serveQUICStream Pack Unpack TsigVerify tsigSecret (signed_serve s t next') w st).
Proof.
  intros Hm Hv. split_and!.
  - intros valid time req Hr. unfold ServeHTTP, ServeHTTP3, serve_http. destruct (negb (valid req)); [done|]. rewrite Hr.
    by rewrite !(unverified_closed s t raw msg next next' _ Hm Hv).
  - intros peer Hu. unfold grpc_Query. case_decide; [done|]. rewrite Hu. destruct peer as [w|]; [|done].
    by rewrite (unverified_closed s t raw msg next next' _ Hm Hv).
  - intros w st Hs Hu. unfold serveQUICStream. destruct (readDOQMessage st) as [buf err]. simpl in Hs. subst buf. change (default EmptyString (Some raw)) with raw.
    rewrite Hu. by rewrite (unverified_closed s t raw msg next next' w Hm Hv).
Qed.

End transports.
End tsig.

(** ** Examples *)

Module TransportSample.
#[local] Existing Instances Plain.names Plain.names_spec PlainLib.lib PlainLib.lib_spec list_order ServerSample.opt.
Import ServerSample.

Definition tsig_of (m : Msg) : option (RR_Header * TSIG) :=
  match last (Extra m) with
  | Some (mkRR h (RTSIG t)) => if decide (Rrtype h = TypeTSIG) then Some (h, t) else None
  | _ => None
  end.
Definition tsigs : DnsTsig := {| IsTsig := tsig_of |}.
#[local] Existing Instance tsigs.
#[local] Instance tsigs_spec : DnsTsigSpec tsigs.
Proof. split. reflexivity. Qed.

Definition ask (extra : list RR) : Msg :=
  mkMsg 0 false 0 false false true false false false 0 [mkQ "www.example.org." TypeA ClassINET] [] [] extra.

Definition key_record (mac : string) : RR :=
  mkRR (mkHdr "key.example.org." TypeTSIG ClassANY 0) (RTSIG (mkTSIG "hmac-sha256." 1000 300 32 mac 0 0 0 EmptyString)).

Definition secured : TSIGServer := mkTSIGServer ["example.org."] ∅ ∅ true false.
Definition secrets : option (gmap string string) := Some {[ "key.example.org." := "secret" ]}.

(** Bytes are signed if they end in the secret. *)
Definition ends_in (raw secret : string) : option tsig_error := if HasSuffix raw secret then None else Some ErrOther.

(** A chain that answers. *)
Definition answering : option Chain := Some (fun r => (Some (SetReply r), Ok RcodeSuccess)).

(** A code with one message, and one with another. *)
Definition pack (m : Msg) : option string := Some (if decide (Rcode m = RcodeSuccess) then "answered" else "refused").
Definition unpack (extra : list RR) (s : string) : option Msg := Some (ask extra).

(** A server with one site, and a chain that does not answer. *)
Definition one_site : Server := NewServer [mkConfig "example.org." [] [] false].
Definition answers (c : Config) : Chain := fun r => (Some (SetReply r), Ok RcodeSuccess).
Definition fails (c : Config) : Chain := fun r => (None, Err NilDeref).
Definition secured_serve (next : Config -> Chain) := signed_serve none_supported 0 one_site secured next.

Lemma transports_authenticate_witness :
  grpc_Query pack (unpack []) ends_in secrets (secured_serve answers) (Some asker) "query" =
  grpc_Query pack (unpack []) ends_in secrets (secured_serve fails) (Some asker) "query".
Proof.
  apply (transports_authenticate none_supported 0 pack (unpack []) ends_in secrets one_site secured answers fails (ask []) "query").
  - split; vm_compute; [discriminate|reflexivity].
  - intros (h & rr & ? & ? & Hh & _). vm_compute in Hh. discriminate.
  - reflexivity.
Defined.

(** Signed with the secret, the request is answered. *)
Lemma signed_answered :
  grpc_Query pack (unpack [key_record "mac"]) ends_in secrets (secured_serve answers) (Some asker) "query:secret" = Ok "answered" /\
  grpc_Query pack (unpack [key_record "mac"]) ends_in secrets (secured_serve answers) (Some asker) "query" = Ok "refused".
Proof. vm_compute. done. Qed.

Lemma doh_roundtrip_witness :
  exists req, NewRequest (fun _ => Some "wire format") (fun s => Some doh_Path) "GET" "dns.example.org" (ask []) = Ok req /\ hr_Method req = "GET" /\
    u_Path (hr_URL req) = doh_Path /\ RequestToMsgWire (unpack []) req = Ok (ask [], "wire format").
Proof.
  apply (doh_roundtrip (fun _ => Some "wire format") (unpack []) (fun s => Some doh_Path) "GET" "dns.example.org" (ask []) "wire format" doh_Path);
    [reflexivity|reflexivity|vm_compute; discriminate|left|reflexivity|reflexivity].
Defined.

(** The signature of a reply over HTTPS, QUIC and gRPC has the code of the
    request's own signature: nothing computes that of the reply. *)
Lemma reply_not_signed mac :
  secured_serve answers asker None (ask [key_record mac]) =
  [set_Extra (SetReply (ask [])) [mkRR (mkHdr "key.example.org." TypeTSIG ClassANY 0) (RTSIG (mkTSIG "hmac-sha256." 0 0 32 mac 0 0 0 EmptyString))]].
Proof. vm_compute. reflexivity. Qed.

(** A request that has to be signed and is not loses its last additional
    record, here that of EDNS: the reply has none. *)
Lemma edns_stripped :
  let opt := mkRR (mkHdr dot TypeOPT 1232 0) (ROPT []) in
  let out := tsig_ServeDNS none_supported 0 secured answering None (ask [opt]) in
  Extra <$> ts_written out = [[]] /\ Extra (ts_request out) = [].
Proof. vm_compute. done. Qed.

(** Where the chain writes nothing, as when a request is dropped, a client of
    gRPC gets its request back. *)
Lemma grpc_echoes : grpc_Query pack (unpack []) ends_in secrets (fun _ _ _ => []) (Some asker) "query" = Ok "answered" /\ Response (ask []) = false.
Proof. vm_compute. done. Qed.

(** A stream that ends after its length is served as a message of zeros. *)
Lemma prefix_alone :
  let s := mkStream (String (byte_chr 0) (str1 (byte_chr 12))) true in
  readDOQMessage s = (Some (zero_bytes 12), Some EOF) /\
  serveQUICStream pack (unpack []) ends_in None (fun _ _ r => [SetReply r]) asker s = Streamed (AddPrefix "answered") true.
Proof. vm_compute. done. Qed.

(** Of several messages, as a transfer writes them, HTTPS sends the last. *)
Lemma last_message_only :
  hp_Body (ServeHTTP pack (unpack []) ends_in None (fun _ _ r => [SetRcode r RcodeRefused; SetReply r]) (fun _ => true) 0
    (mkHttpRequest "POST" (mkURL doh_Path EmptyString) [] (Some "query") "192.0.2.1:443")) = "answered".
Proof. vm_compute. reflexivity. Qed.

End TransportSample.
