(* ===== verification/Autopath.v ===== *)
(** * Search paths on the server (plugin/autopath)

    The handler tries the names that a client would try in turn and answers
    with the first that exists.  The rest of the chain also says whether it
    returned an error, which ends the search.  Theorems and examples follow the
    definitions. *)

From Stdlib Require Import Ascii ZArith Lia.
From stdpp Require Import base numbers gmap strings list.
From S2P Require Import Prelude DnsTypes DnsLib Ip Serve Xfer Server Filters Kubernetes.

Local Open Scope Z_scope.

(** What was written, the code and whether there was an error. *)
Definition ErrChain : Type := Msg -> option Msg * result go_fault (Z * bool).

Record AutoPathPlugin := mkAutoPath { ap_Zones : list string; ap_search : list string; ap_searchFunc : option (Msg -> list string) }.

(** ** cname.go *)

Definition set_Answer (m : Msg) (an : list RR) : Msg :=
  mkMsg (Id m) (Response m) (Opcode m) (Authoritative m) (Truncated m) (RecursionDesired m) (RecursionAvailable m)
    (AuthenticatedData m) (CheckingDisabled m) (Rcode m) (Question m) an (Ns_ m) (Extra m).

(** The first record of another name. *)
Definition other_name (original : string) (an : list RR) : option RR := List.find (fun a => negb (EqualFold original (rr_name a))) an.

Definition cnamer (m : Msg) (original : string) : result go_fault Msg :=
  let m := match other_name original (Answer m) with
           | Some a => set_Answer m (mkRR (mkHdr original TypeCNAME ClassINET (rr_ttl a)) (RCNAME (rr_name a)) :: Answer m)
           | None => m
           end in
  set_first_name m original.

(** ** The handler *)

Section autopath.
Context {L : DnsLib} {N : DnsNames}.
Variable next : ErrChain.

Definition firstInSearchPath (name first : string) : bool := bool_decide (name = first) || IsSubDomain first name.

(** [first]: the reply and code of the first name tried. *)
Fixpoint search_loop (base origQName : string) (ar : Msg) (searchpath : list string) (first : option (option Msg * Z))
  : option Msg * result go_fault (Z * bool) :=
  match searchpath with
  | [] =>
      let '(firstReply, firstRcode) := default (None, 0) first in
      (if ClientWrite firstRcode then firstReply else None, Ok (firstRcode, false))
  | s :: searchpath' =>
      match set_first_name ar (base +:+ "." +:+ s) with
      | Err f => (None, Err f)
      | Ok ar =>
          match next ar with
          | (_, Err f) => (None, Err f)
          | (_, Ok (rcode, true)) => (None, Ok (rcode, true))
          | (m, Ok (rcode, false)) =>
              let first := Some (default (m, rcode) first) in
              if negb (ClientWrite rcode) then search_loop base origQName ar searchpath' first
              else match m with
                   | None => (None, Err NilDeref)
                   | Some msg =>
                       if decide (Rcode msg = RcodeNameError) then search_loop base origQName ar searchpath' first
                       else match cnamer msg origQName with
                            | Err f => (None, Err f)
                            | Ok msg => (Some msg, Ok (rcode, false))
                            end
                   end
          end
      end
  end.

Definition autopath_ServeDNS (a : AutoPathPlugin) (r : Msg) : option Msg * result go_fault (Z * bool) :=
  if decide (Matches (ap_Zones a) (Name_ r) = EmptyString) then next r
  else
    let searchpath := match ap_searchFunc a with Some f => f r | None => ap_search a end in
    match searchpath with
    | [] => next r
    | first :: _ =>
        if negb (firstInSearchPath (Name_ r) first) then next r
        else match TrimZone (QName_ r) first with
             | Err _ => (None, Ok (RcodeServerFailure, true))
             | Ok base => search_loop base (QName_ r) r searchpath None
             end
    end.

End autopath.

(** ** Theorems *)

Lemma set_first_name_again m n n' x : set_first_name m n = Ok x -> set_first_name x n' = set_first_name m n'.
Proof. unfold set_first_name. destruct (Question m); [done|]. by intros [= <-]. Qed.

Section search.
Context {L : DnsLib} {N : DnsNames}.
Variable next : ErrChain.

(** What the rest of the chain does with one of the names. *)
Definition attempt (r : Msg) (base s : string) : option Msg * result go_fault (Z * bool) :=
  match set_first_name r (base +:+ "." +:+ s) with Ok ar => next ar | Err f => (None, Err f) end.

(** It declined, or wrote that the name does not exist. *)
Definition missing (x : option Msg * result go_fault (Z * bool)) : Prop :=
  exists m rc, x = (m, Ok (rc, false)) /\ (ClientWrite rc = true -> exists msg, m = Some msg /\ Rcode msg = RcodeNameError).

Lemma search_skip r base o ar l1 l2 first :
  (forall n, set_first_name ar n = set_first_name r n) -> Forall (fun s => missing (attempt r base s)) l1 ->
  exists ar', (forall n, set_first_name ar' n = set_first_name r n) /\
    search_loop next base o ar (l1 ++ l2) first =
    search_loop next base o ar' l2 (match l1 with
                                    | [] => first
                                    | s :: _ => match attempt r base s with (m, Ok (rc, _)) => Some (default (m, rc) first) | _ => None end
                                    end).
Proof.
  intros Har HF. revert ar first Har. induction HF as [|s l1 (m & rc & E & Hm) HF IH]; intros ar first Har; [by exists ar|].
  cbn [app search_loop]. unfold attempt in E |- *. rewrite Har. destruct (set_first_name r (base +:+ "." +:+ s)) as [x|] eqn:Ex; [|done].
  rewrite E. assert (forall n, set_first_name x n = set_first_name r n) as Hx by (intros n; by eapply set_first_name_again).
  destruct (IH x (Some (default (m, rc) first)) Hx) as (ar' & Har' & Hl).
  assert (match l1 with [] => Some (default (m, rc) first)
          | s :: _ => match attempt r base s with (m', Ok (rc', _)) => Some (default (m', rc') (Some (default (m, rc) first))) | _ => None end
          end = Some (default (m, rc) first)) as Hf.
  { destruct l1 as [|s' l1]; [done|]. apply Forall_cons in HF as [(m' & rc' & -> & _) _]. done. }
  rewrite Hf in Hl. exists ar'. split; [done|].
  destruct (ClientWrite rc) eqn:Ec; cbn [negb]; [|done]. destruct (Hm eq_refl) as (msg & -> & Hr). by rewrite decide_True.
Qed.

(** The names are tried in the order of the search path.  The reply is that of
    the first name that exists, made to fit the question; if none exists it is
    that of the first name, which is the one the client asked for. *)
Theorem autopath_answers a r base first l :
  Matches (ap_Zones a) (Name_ r) <> EmptyString ->
  (match ap_searchFunc a with Some f => f r | None => ap_search a end) = first :: l ->
  firstInSearchPath (Name_ r) first = true -> TrimZone (QName_ r) first = Ok base ->
  (forall l1 s l2 m m' rc, first :: l = l1 ++ s :: l2 -> Forall (fun s => missing (attempt r base s)) l1 ->
     attempt r base s = (Some m, Ok (rc, false)) -> ClientWrite rc = true -> Rcode m <> RcodeNameError ->
     cnamer m (QName_ r) = Ok m' -> autopath_ServeDNS next a r = (Some m', Ok (rc, false))) /\
  (Forall (fun s => missing (attempt r base s)) (first :: l) ->
     exists m rc, attempt r base first = (m, Ok (rc, false)) /\
       autopath_ServeDNS next a r = (if ClientWrite rc then m else None, Ok (rc, false))).
Proof.
  intros Hz Hs Hf Hb.
  assert (autopath_ServeDNS next a r = search_loop next base (QName_ r) r (first :: l) None) as ->.
  { unfold autopath_ServeDNS. rewrite decide_False by done. cbv zeta. rewrite Hs, Hf, Hb. done. }
  split.
  - intros l1 s l2 m m' rc -> HF Ha Hc Hr Hm.
    destruct (search_skip r base (QName_ r) r l1 (s :: l2) None (fun _ => eq_refl) HF) as (ar & Har & ->).
    unfold attempt in Ha. cbn [search_loop]. rewrite Har. destruct (set_first_name r _); [|done]. rewrite Ha, Hc. cbn [negb].
    rewrite decide_False by done. by rewrite Hm.
  - intros HF. destruct (search_skip r base (QName_ r) r (first :: l) [] None (fun _ => eq_refl) HF) as (ar & _ & H).
    rewrite app_nil_r in H. rewrite H. apply Forall_cons in HF as [(m & rc & E & _) _]. rewrite E. by exists m, rc.
Qed.

End search.

(** ** Examples *)

Module AutopathSample.
#[local] Existing Instances Plain.names PlainLib.lib.

Definition ask (name : string) : Msg := mkMsg 7 false 0 false false true false false false 0 [mkQ name TypeA ClassINET] [] [] [].
Definition path : AutoPathPlugin := mkAutoPath ["example.org."] ["example.org."; "com."; EmptyString] None.

(** Only one name exists. *)
Definition only (name : string) (an : list RR) : ErrChain := fun r =>
  (Some (if decide (ToLower (QName_ r) = name) then set_Answer (SetReply r) an else SetRcode r RcodeNameError), Ok (RcodeSuccess, false)).

Definition a_record (name : string) : RR := mkRR (mkHdr name TypeA ClassINET 60) (RA [192; 0; 2; 1]).
Definition alias (name target : string) : RR := mkRR (mkHdr name TypeCNAME ClassINET 60) (RCNAME target).

(** Found with the second element of the path. *)
Lemma autopath_answers_witness :
  exists m', autopath_ServeDNS (only "www.com." [a_record "www.com."]) path (ask "www.example.org.") = (Some m', Ok (RcodeSuccess, false)) /\
    Question m' = [mkQ "www.example.org." TypeA ClassINET] /\ Answer m' = [alias "www.example.org." "www.com."; a_record "www.com."].
Proof.
  eexists. split; [|split; [|]].
  - eapply (proj1 (@autopath_answers PlainLib.lib Plain.names (only "www.com." [a_record "www.com."]) path (ask "www.example.org.") "www" "example.org." ["com."; EmptyString]
      ltac:(vm_compute; discriminate) eq_refl ltac:(vm_compute; reflexivity) ltac:(vm_compute; reflexivity)) ["example.org."] "com." [EmptyString]);
      [reflexivity| |vm_compute; reflexivity|vm_compute; reflexivity|vm_compute; discriminate|vm_compute; reflexivity].
    repeat constructor. do 2 eexists. split; [vm_compute; reflexivity|]. intros _. eexists. split; reflexivity.
  - reflexivity.
  - reflexivity.
Defined.

(** A name that is an alias itself gets its alias twice. *)
Lemma alias_doubled :
  let www := [alias "www.example.org." "web.example.org."; a_record "web.example.org."] in
  match autopath_ServeDNS (only "www.example.org." www) path (ask "www.example.org.") with
  | (Some m, _) => Answer m
  | _ => []
  end = alias "www.example.org." "web.example.org." :: www.
Proof. vm_compute. reflexivity. Qed.

(** When no name exists, the question of the reply has the case of the search
    path and not that of the client. *)
Lemma case_lost :
  match autopath_ServeDNS (only "none." []) path (ask "www.EXAMPLE.org.") with
  | (Some m, _) => Question m
  | _ => []
  end = [mkQ "www.example.org." TypeA ClassINET].
Proof. vm_compute. reflexivity. Qed.

End AutopathSample.
