(* ===== verification/Dnssec.v ===== *)
(** * Signing replies (plugin/dnssec)

    The plugin signs the replies that pass it, proves that names do not exist
    with NSEC records made up for the question, and keeps signatures in a cache
    by the hash of what they sign.  The signature itself and the text of a
    record are the DNS library's. *)

From Stdlib Require Import Ascii ZArith Lia.
From stdpp Require Import base numbers gmap strings list.
From S2P Require Import Prelude DnsTypes DnsLib Ip FileZone Serve ShardCache Typify Xfer Server Filters.

Local Open Scope Z_scope.

Definition TypeHIP : Z := 55.
Definition TypeLOC : Z := 29.
Definition TypeCERT : Z := 37.
Definition TypeSSHFP : Z := 44.
Definition TypeDNSKEY : Z := 48.
Definition TypeTLSA : Z := 52.
Definition TypeOPENPGPKEY : Z := 61.
Definition TypeSPF : Z := 99.

(** ** Keys (dnskey.go, rrsig.go) *)

(** The public record and its tag. *)
Record DNSKEY := mkDNSKEY { k_K : RR; k_tag : Z }.

Definition key_flags (k : DNSKEY) : Z := match Data (k_K k) with RDNSKEY flags _ _ _ => flags | _ => 0 end.
Definition key_algorithm (k : DNSKEY) : Z := match Data (k_K k) with RDNSKEY _ _ alg _ => alg | _ => 0 end.

Definition isZSK (k : DNSKEY) : bool := bool_decide (Z.land (key_flags k) 256 = 256) && bool_decide (Z.land (key_flags k) 1 = 0).
Definition isKSK (k : DNSKEY) : bool := bool_decide (Z.land (key_flags k) 256 = 256) && bool_decide (Z.land (key_flags k) 1 = 1).

Definition origTTL : Z := 3600.

(** An RRSIG record before it is signed. *)
Record sig_fields := mkSig {
  s_Algorithm : Z; s_KeyTag : Z; s_SignerName : string; s_Ttl : Z; s_OrigTtl : Z; s_Inception : Z; s_Expiration : Z }.

Definition newRRSIG (k : DNSKEY) (signerName : string) (ttl incep expir : Z) : sig_fields :=
  mkSig (key_algorithm k) (k_tag k) signerName ttl origTTL incep expir.

Definition set_group (m : gmap (string * Z) (list RR)) (r : RR) : gmap (string * Z) (list RR) :=
  if decide (rr_type r = TypeRRSIG \/ rr_type r = TypeOPT) then m
  else <[(rr_name r, rr_type r) := default [] (m !! (rr_name r, rr_type r)) ++ [r]]> m.

Definition rrSets (rrs : list RR) : gmap (string * Z) (list RR) := foldl set_group ∅ rrs.

(** ** The signer (dnssec.go) *)

Record Dnssec := mkDnssec { d_zones : list string; d_keys : list DNSKEY; d_splitkeys : bool }.

Abbreviation SigCache := (Cache (list RR)).

Definition eightDays : Z := 8 * 24 * 3600 * Second.
Definition twoDays : Z := 2 * 24 * 3600 * Second.

(** Times in nanoseconds; the seconds of a signature are 32 bits wide. *)
Definition incepExpir (now : Z) : Z * Z := (u32 ((now - 3 * 3600 * Second) / Second), u32 ((now + eightDays) / Second)).

Section dnssec.
Context {L : DnsLib} {N : DnsNames} {MO : MapOrder}.

(** [RR.String], and [RRSIG.Sign] with the private key. *)
Variable RRString : RR -> string.
Variable SignWith : DNSKEY -> sig_fields -> list RR -> option RR.

Definition rr_hash (rrs : list RR) : Z := Hash (flat_map (fun rr => bytes (RRString rr)) rrs).

(** Signatures that are about to end count as a miss. *)
Definition sig_get (now key : Z) (c : SigCache) : option (list RR) :=
  match Get key c with
  | Some s => if forallb (fun rr => ValidityPeriod rr (now + twoDays)) s then Some s else None
  | None => None
  end.

Definition suitable (d : Dnssec) (rrs : list RR) (k : DNSKEY) : bool :=
  if d_splitkeys d then
    match rrs with
    | rr :: _ => if decide (rr_type rr = TypeDNSKEY) then isKSK k else isZSK k
    | [] => isZSK k
    end
  else true.

Fixpoint sign_keys (d : Dnssec) (keys : list DNSKEY) (rrs : list RR) (signerName : string) (ttl incep expir : Z) : option (list RR) :=
  match keys with
  | [] => Some []
  | k :: keys' =>
      if suitable d rrs k then
        sig ← SignWith k (newRRSIG k signerName ttl incep expir) rrs;
        sigs ← sign_keys d keys' rrs signerName ttl incep expir;
        Some (sig :: sigs)
      else sign_keys d keys' rrs signerName ttl incep expir
  end.

Definition dnssec_sign (d : Dnssec) (now : Z) (c : SigCache) (rrs : list RR) (signerName : string) (ttl : Z) : option (list RR) * SigCache :=
  let '(incep, expir) := incepExpir now in
  let k := rr_hash rrs in
  match sig_get now k c with
  | Some sgs => (Some sgs, c)
  | None =>
      match sign_keys d (d_keys d) rrs signerName ttl incep expir with
      | None => (None, c)
      | Some [] => (Some [], c)
      | Some sigs => (Some sigs, (Add k sigs c).2)
      end
  end.

(** ** NSEC records (black_lies.go) *)

Definition delegationBitmap : list Z :=
  [TypeA; TypeNS; TypeHINFO; TypeTXT; TypeAAAA; TypeLOC; TypeSRV; TypeCERT; TypeSSHFP; TypeRRSIG; TypeNSEC; TypeTLSA; TypeHIP; TypeOPENPGPKEY; TypeSPF].
Definition zoneBitmap : list Z :=
  [TypeA; TypeHINFO; TypeTXT; TypeAAAA; TypeLOC; TypeSRV; TypeCERT; TypeSSHFP; TypeRRSIG; TypeNSEC; TypeTLSA; TypeHIP; TypeOPENPGPKEY; TypeSPF].
Definition apexBitmap : list Z :=
  [TypeA; TypeNS; TypeSOA; TypeHINFO; TypeMX; TypeTXT; TypeAAAA; TypeLOC; TypeSRV; TypeCERT; TypeSSHFP; TypeRRSIG; TypeNSEC; TypeDNSKEY; TypeTLSA; TypeHIP; TypeOPENPGPKEY; TypeSPF].

(** [filter14] and [filter18]: the list without the first [t]. *)
Fixpoint remove_first (t : Z) (l : list Z) : list Z :=
  match l with [] => [] | x :: l' => if decide (x = t) then l' else x :: remove_first t l' end.

Definition filter_bitmap (t : Z) (bitmap : list Z) (mt : mtype) : list Z :=
  if decide ((mt <> NoData /\ mt <> NameError) \/ t = TypeNSEC) then bitmap else remove_first t bitmap.

(** The zone is that of the state. *)
Definition nsec_record (res : Msg) (zone : string) (mt : mtype) (ttl : Z) : result go_fault RR :=
  let hdr := mkHdr (QName_ res) TypeNSEC ClassINET ttl in
  let next := if decide (QName_ res = dot) then "\000." else "\000." +:+ QName_ res in
  if decide (Name_ res = zone) then Ok (mkRR hdr (RNSEC next (filter_bitmap (QType_ res) apexBitmap mt)))
  else if decide (mt = Delegation) then
    match SplitDomainName (QName_ res) with
    | [] => Err IndexOutOfRange
    | l :: ls => Ok (mkRR hdr (RNSEC (JoinStr ((l +:+ "\000") :: ls) "." +:+ ".") delegationBitmap))
    end
  else if decide (QType_ res = TypeDS) then Ok (mkRR hdr (RNSEC next delegationBitmap))
  else Ok (mkRR hdr (RNSEC next (filter_bitmap (QType_ res) zoneBitmap mt))).

(** The signatures and the record; no error is [Some]. *)
Definition nsec (d : Dnssec) (now : Z) (c : SigCache) (res : Msg) (zone : string) (mt : mtype) (ttl : Z) : result go_fault (option (list RR) * SigCache) :=
  rr ← nsec_record res zone mt ttl;
  let '(sigs, c) := dnssec_sign d now c [rr] zone ttl in
  Ok ((fun s => s ++ [rr]) <$> sigs, c).

(** ** Replies *)

Definition set_sections (m : Msg) (rc : Z) (an ns ex : list RR) : Msg :=
  mkMsg (Id m) (Response m) (Opcode m) (Authoritative m) (Truncated m) (RecursionDesired m) (RecursionAvailable m)
    (AuthenticatedData m) (CheckingDisabled m) rc (Question m) an ns ex.

(** The groups of one section in turn; a group that cannot be signed is passed
    over. *)
Fixpoint sign_groups (d : Dnssec) (now : Z) (c : SigCache) (zone : string) (groups : list ((string * Z) * list RR)) (rrs : list RR) : list RR * SigCache :=
  match groups with
  | [] => (rrs, c)
  | (_, g) :: groups' =>
      let ttl := match g with rr :: _ => rr_ttl rr | [] => 0 end in
      let '(sigs, c) := dnssec_sign d now c g zone ttl in
      sign_groups d now c zone groups' (rrs ++ default [] sigs)
  end.

Definition sign_section (d : Dnssec) (now : Z) (c : SigCache) (zone : string) (rrs : list RR) : list RR * SigCache :=
  sign_groups d now c zone (map_range (rrSets rrs)) rrs.

Definition sign_delegation (d : Dnssec) (now : Z) (c : SigCache) (zone : string) (res : Msg) : result go_fault (Msg * SigCache) :=
  match Ns_ res with
  | [] => Ok (res, c)
  | ns0 :: _ =>
      let ttl := rr_ttl ns0 in
      x ← match filter (fun rr => rr_type rr = TypeDS) (Ns_ res) with
          | [] => nsec d now c res zone Delegation ttl
          | ds => Ok (dnssec_sign d now c ds zone ttl)
          end;
      Ok (set_sections res (Rcode res) (Answer res) (Ns_ res ++ default [] x.1) (Extra res), x.2)
  end.

Definition sign_denial (d : Dnssec) (now : Z) (c : SigCache) (zone : string) (res : Msg) (mt : mtype) : result go_fault (Msg * SigCache) :=
  match Ns_ res with
  | [soa] =>
      if decide (rr_type soa = TypeSOA) then
        let ttl := rr_ttl soa in
        let '(sigs, c) := dnssec_sign d now c [soa] zone ttl in
        x ← nsec d now c res zone mt ttl;
        let ns := [soa] ++ default [] sigs ++ default [] x.1 in
        Ok (if decide (1 < length ns)%nat then
              if decide (QType_ res = TypeNSEC)
              then set_sections res RcodeSuccess (drop (length ns - 2) ns) [] (Extra res)
              else set_sections res RcodeSuccess (Answer res) ns (Extra res)
            else set_sections res (Rcode res) (Answer res) ns (Extra res), x.2)
      else Ok (res, c)
  | _ => Ok (res, c)
  end.

Definition dnssec_Sign (d : Dnssec) (now : Z) (c : SigCache) (zone : string) (res : Msg) : result go_fault (Msg * SigCache) :=
  match (Typify (Some res) now).1 with
  | Delegation => sign_delegation d now c zone res
  | NameError => sign_denial d now c zone res NameError
  | NoData => sign_denial d now c zone res NoData
  | _ =>
      let '(an, c) := sign_section d now c zone (Answer res) in
      let '(ns, c) := sign_section d now c zone (Ns_ res) in
      let '(ex, c) := sign_section d now c zone (Extra res) in
      Ok (set_sections res (Rcode res) an ns ex, c)
  end.

(** ** The handler (handler.go, responsewriter.go) *)

Definition getDNSKEY (d : Dnssec) (now : Z) (c : SigCache) (r : Msg) (zone : string) (do : bool) : Msg * SigCache :=
  let keys := (fun k => set_name zone (k_K k)) <$> d_keys d in
  let m := SetReply r in
  let reply an := set_sections m (Rcode m) an (Ns_ m) (Extra m) in
  if do then let '(sigs, c) := dnssec_sign d now c keys zone 3600 in (reply (keys ++ default [] sigs), c)
  else (reply keys, c).

(** ResponseWriter.WriteMsg *)
Definition dnssec_WriteMsg (d : Dnssec) (now : Z) (c : SigCache) (res : Msg) : result go_fault (Msg * SigCache) :=
  let zone := Matches (d_zones d) (Name_ res) in
  if decide (zone = EmptyString) then Ok (res, c) else dnssec_Sign d now c zone res.

Definition set_Authoritative (m : Msg) : Msg :=
  mkMsg (Id m) (Response m) (Opcode m) true (Truncated m) (RecursionDesired m) (RecursionAvailable m)
    (AuthenticatedData m) (CheckingDisabled m) (Rcode m) (Question m) (Answer m) (Ns_ m) (Extra m).

Definition dnssec_ServeDNS (d : Dnssec) (next : option Chain) (now : Z) (c : SigCache) (r : Msg) : (option Msg * result go_fault Z) * SigCache :=
  let pass := (next_or_failure next r, c) in
  if decide (Matches (d_zones d) (Name_ r) = EmptyString) then pass
  else if decide (QType_ r = TypeDNSKEY /\ Name_ r ∈ d_zones d) then
    let '(m, c) := getDNSKEY d now c r (Name_ r) (Do r) in ((Some (set_Authoritative m), Ok RcodeSuccess), c)
  else if Do r then
    match next_or_failure next r with
    | (Some m, res) =>
        match dnssec_WriteMsg d now c m with
        | Ok (m, c) => ((Some m, res), c)
        | Err f => ((None, Err f), c)
        end
    | none => (none, c)
    end
  else pass.

(** [periodicClean]: what a tick removes. *)
Definition clean_tick (now : Z) (c : SigCache) : SigCache :=
  Walk (fun items key =>
    (if forallb (fun rr => ValidityPeriod rr (now + twoDays)) (default [] (items !! key)) then items else delete key items, true)) c.

End dnssec.
