(* ===== verification/DnssecFacts.v ===== *)
(** * Theorems about signing replies

    Every record set of a reply is signed with every key that is to sign it
    unless the library fails to, and the signatures sent are valid for two days
    at least, also those from the cache, which were made for a set with the
    same hash and for one of the plugin's zones; a denial names the question
    and does not list its type. *)

From Stdlib Require Import Ascii ZArith Lia.
From stdpp Require Import base numbers gmap strings list.
From S2P Require Import Prelude DnsTypes DnsLib Ip FileZone Serve ShardCache Typify Xfer Server Filters Dnssec.

Local Open Scope Z_scope.

(** ** Record sets *)

(** The records of one name and type, of those that are signed. *)
Definition rrset_of (rrs : list RR) (n : string) (ty : Z) : list RR :=
  filter (fun r => rr_name r = n /\ rr_type r = ty /\ rr_type r <> TypeRRSIG /\ rr_type r <> TypeOPT) rrs.

Lemma rrSets_from m rrs n ty :
  foldl set_group m rrs !! (n, ty) =
  match default [] (m !! (n, ty)) ++ rrset_of rrs n ty with
  | [] => m !! (n, ty)
  | l => Some l
  end.
Proof.
  revert m. induction rrs as [|r rrs IH]; intros m.
  { unfold rrset_of. simpl. rewrite app_nil_r. by destruct (m !! (n, ty)) as [[|]|]. }
  cbn [foldl]. rewrite IH. unfold set_group, rrset_of. rewrite filter_cons.
  destruct (decide (rr_type r = TypeRRSIG \/ rr_type r = TypeOPT)) as [Ht|Ht].
  { rewrite (decide_False (P := rr_name r = n /\ _)) by naive_solver. done. }
  rewrite lookup_insert. destruct (decide ((rr_name r, rr_type r) = (n, ty))) as [E|E].
  - rewrite decide_True by naive_solver. injection E as -> ->. cbn [default from_option id]. rewrite <-app_assoc. cbn [app].
    by destruct (default [] (m !! (n, ty))).
  - by rewrite (decide_False (P := rr_name r = n /\ _)) by naive_solver.
Qed.

Lemma rrSets_lookup rrs n ty g : rrSets rrs !! (n, ty) = Some g <-> g = rrset_of rrs n ty /\ g <> [].
Proof.
  unfold rrSets. rewrite rrSets_from, lookup_empty. cbn [default from_option id app]. destruct (rrset_of rrs n ty); naive_solver.
Qed.

(** ** Signatures *)

Section facts.
Context {L : DnsLib} {N : DnsNames} {MO : MapOrder}.
Variable RRString : RR -> string.
Variable SignWith : DNSKEY -> sig_fields -> list RR -> option RR.

(** A signature has the times it was made with, and is valid between them; the
    library compares within 68 years. *)
Hypothesis SignWith_times : forall k s rrs sig, SignWith k s rrs = Some sig -> exists ty, Data sig = RRRSIG ty (s_Inception s) (s_Expiration s).
Hypothesis ValidityPeriod_law : forall rr ty i e t, Data rr = RRRSIG ty i e -> 0 <= t ->
  Z.abs (i - t / Second) < 2 ^ 31 -> Z.abs (e - t / Second) < 2 ^ 31 -> ValidityPeriod rr t = true <-> i <= t / Second <= e.

Variable d : Dnssec.

Implicit Types (c : SigCache) (now : Z) (rrs sigs : list RR) (zone : string).

(** Until 2038. *)
Definition time_ok now : Prop := 3 * 3600 * Second <= now /\ now + eightDays < 2 ^ 31 * Second.

(** Signatures of a set made at a time for one of the zones. *)
Definition made (t : Z) rrs sigs : Prop :=
  exists zone ttl, zone ∈ d_zones d /\ sign_keys SignWith d (d_keys d) rrs zone ttl (incepExpir t).1 (incepExpir t).2 = Some sigs.

Definition cache_ok now c : Prop :=
  (exists lim, cache_wf lim c) /\
  forall k sigs, Get k c = Some sigs -> exists rrs t, rr_hash RRString rrs = k /\ time_ok t /\ t <= now /\ made t rrs sigs.

(** Valid for two days from [now] on. *)
Definition fresh now rrs : Prop := forall sig t, sig ∈ rrs -> now <= t <= now + twoDays -> ValidityPeriod sig t = true.

(** What is sent for a set: signatures of a set with its hash. *)
Definition signed now rrs sigs : Prop :=
  exists rrs' t, rr_hash RRString rrs' = rr_hash RRString rrs /\ t <= now /\ made t rrs' sigs /\ fresh now sigs.

(** The library fails to sign a set with one of the keys. *)
Definition unsigned now zone rrs ttl : Prop :=
  exists k, k ∈ d_keys d /\ suitable d rrs k = true /\ SignWith k (newRRSIG k zone ttl (incepExpir now).1 (incepExpir now).2) rrs = None.

Lemma unsigned_never now zone rrs ttl :
  (forall k s rrs, k ∈ d_keys d -> is_Some (SignWith k s rrs)) -> ~ unsigned now zone rrs ttl.
Proof. intros H (k & Hk & _ & E). destruct (H k (newRRSIG k zone ttl (incepExpir now).1 (incepExpir now).2) rrs Hk). congruence. Qed.

Lemma cache_ok_mono now now' c : now <= now' -> cache_ok now c -> cache_ok now' c.
Proof.
  intros Hn [Hw Hc]. split; [done|]. intros k sigs (rrs & t & ? & ? & ? & ?)%Hc. exists rrs, t. split_and!; done || lia.
Qed.

Lemma sign_keys_times keys rrs z ttl i e sigs sig :
  sign_keys SignWith d keys rrs z ttl i e = Some sigs -> sig ∈ sigs -> exists ty, Data sig = RRRSIG ty i e.
Proof.
  revert sigs. induction keys as [|k keys IH]; simpl; intros sigs; [intros [= <-]; by intros ?%elem_of_nil|].
  destruct (suitable d rrs k); [|by apply IH].
  intros (s & Hs & (ss & Hss & [= <-])%bind_Some)%bind_Some. intros [->|Hin]%elem_of_cons; [by apply SignWith_times in Hs|by eapply IH].
Qed.

Lemma sign_keys_none keys rrs z ttl i e :
  sign_keys SignWith d keys rrs z ttl i e = None ->
  exists k, k ∈ keys /\ suitable d rrs k = true /\ SignWith k (newRRSIG k z ttl i e) rrs = None.
Proof.
  induction keys as [|k keys IH]; simpl; [done|]. destruct (suitable d rrs k) eqn:Es.
  - destruct (SignWith k _ rrs) as [sig|] eqn:E; [|intros _; exists k; split_and!; [left|done|done]].
    simpl. destruct (sign_keys _ _ keys _ _ _ _ _) as [ss|]; [done|]. intros _. destruct (IH eq_refl) as (k' & ? & ? & ?). exists k'.
    split_and!; [by right|done|done].
  - intros (k' & ? & ? & ?)%IH. exists k'. split_and!; [by right|done|done].
Qed.

Lemma incepExpir_range t : time_ok t ->
  incepExpir t = ((t - 3 * 3600 * Second) / Second, (t + eightDays) / Second) /\
  0 <= (t - 3 * 3600 * Second) / Second /\ (t + eightDays) / Second < 2 ^ 31 /\ (t - 3 * 3600 * Second) / Second <= t / Second <= (t + eightDays) / Second.
Proof.
  unfold time_ok, incepExpir, eightDays, u32, Second. intros [H1 H2].
  assert (0 <= (t - 3 * 3600 * 1000000000) / 1000000000 /\ (t + 8 * 24 * 3600 * 1000000000) / 1000000000 < 2 ^ 31 /\
    (t - 3 * 3600 * 1000000000) / 1000000000 <= t / 1000000000 <= (t + 8 * 24 * 3600 * 1000000000) / 1000000000) as H
    by (Z.div_mod_to_equations; lia).
  rewrite !Z.mod_small by lia. done.
Qed.

Lemma made_valid t rrs sigs sig t' :
  time_ok t -> made t rrs sigs -> sig ∈ sigs -> 0 <= t' / Second < 2 ^ 31 ->
  ValidityPeriod sig t' = true <-> (t - 3 * 3600 * Second) / Second <= t' / Second <= (t + eightDays) / Second.
Proof.
  intros Ht (zone & ttl & _ & Hm) Hin Ht'. destruct (incepExpir_range t Ht) as (E & H1 & H2 & H3). rewrite E in Hm.
  destruct (sign_keys_times _ _ _ _ _ _ _ _ Hm Hin) as [ty Hd]. simpl in Hd. apply (ValidityPeriod_law _ _ _ _ _ Hd); [unfold Second in Ht'; Z.div_mod_to_equations; lia|lia..].
Qed.

(** The times in question. *)
Lemma two_days now t : time_ok now -> now <= t <= now + twoDays ->
  0 <= t / Second < 2 ^ 31 /\ now / Second <= t / Second <= (now + twoDays) / Second /\ (now + twoDays) / Second <= (now + eightDays) / Second.
Proof. unfold time_ok, eightDays, twoDays, Second. intros. Z.div_mod_to_equations. lia. Qed.

Lemma made_now_fresh now rrs sigs : time_ok now -> made now rrs sigs -> fresh now sigs.
Proof.
  intros Hn Hm sig t Hin Ht. destruct (two_days now t Hn Ht) as (H1 & H2 & H3). apply (made_valid now rrs sigs sig t Hn Hm Hin H1).
  destruct (incepExpir_range now Hn) as (_ & _ & _ & H4). lia.
Qed.

Lemma made_kept_fresh t now rrs sigs :
  time_ok t -> time_ok now -> t <= now -> made t rrs sigs -> forallb (fun rr => ValidityPeriod rr (now + twoDays)) sigs = true -> fresh now sigs.
Proof.
  intros Ht Hn Hle Hm Hv sig t' Hin Ht'. destruct (two_days now t' Hn Ht') as (H1 & H2 & H3). apply (made_valid t rrs sigs sig t' Ht Hm Hin H1).
  rewrite forallb_forall in Hv. apply list_elem_of_In in Hin as Hin'. specialize (Hv sig Hin').
  assert (now <= now + twoDays <= now + twoDays) as Hr by (unfold twoDays, Second; lia).
  apply (made_valid t rrs sigs sig (now + twoDays) Ht Hm Hin) in Hv; [|by apply (two_days now (now + twoDays) Hn)].
  assert ((t - 3 * 3600 * Second) / Second <= now / Second) by (unfold Second in *; Z.div_mod_to_equations; lia). lia.
Qed.

Lemma dnssec_sign_spec now c rrs zone ttl :
  zone ∈ d_zones d -> time_ok now -> cache_ok now c ->
  cache_ok now (dnssec_sign RRString SignWith d now c rrs zone ttl).2 /\
  match (dnssec_sign RRString SignWith d now c rrs zone ttl).1 with
  | Some sigs => signed now rrs sigs
  | None => unsigned now zone rrs ttl
  end.
Proof.
  intros Hz Hn [[lim Hw] Hc]. unfold dnssec_sign. destruct (incepExpir now) as [i e] eqn:Ei.
  destruct (sig_get now (rr_hash RRString rrs) c) as [sgs|] eqn:Eg.
  - unfold sig_get in Eg. destruct (Get _ c) as [s|] eqn:E; [|done]. destruct (forallb _ s) eqn:Ev; [|done]. injection Eg as ->.
    split; [split; [by exists lim|done]|]. destruct (Hc _ _ E) as (rrs' & t & Hh & Ht & Hle & Hm).
    exists rrs', t. split_and!; [done|done|done|by eapply made_kept_fresh].
  - destruct (sign_keys SignWith d (d_keys d) rrs zone ttl i e) as [sigs|] eqn:Es; cbn [fst snd].
    2: { split; [split; [by exists lim|done]|]. unfold unsigned. rewrite Ei. by apply sign_keys_none. }
    assert (made now rrs sigs) as Hm by (exists zone, ttl; by rewrite Ei).
    assert (signed now rrs sigs) as Hs by (exists rrs, now; split_and!; [done|lia|done|by eapply made_now_fresh]).
    destruct sigs as [|sig sigs]; cbn [fst snd]; [split; [split; [by exists lim|done]|done]|]. split; [|done].
    split; [exists lim; by apply Add_wf|]. intros k x Hx. destruct (Get_Add lim _ _ _ _ _ Hw Hx) as [[-> ->]|Hx']; [|by apply Hc].
    exists rrs, now. split_and!; done || lia.
Qed.

(** ** Sections *)

(** What is added for a set in a list of records. *)
Definition covered now zone (out : list RR) (g : list RR) : Prop :=
  (exists sigs, signed now g sigs /\ sigs ⊆ out) \/ exists ttl, unsigned now zone g ttl.

Lemma sign_groups_spec now c zone groups rrs :
  zone ∈ d_zones d -> time_ok now -> cache_ok now c ->
  let '(out, c') := sign_groups RRString SignWith d now c zone groups rrs in
  cache_ok now c' /\ (exists sigs, out = rrs ++ sigs /\ fresh now sigs /\ Forall (fun x => covered now zone sigs x.2) groups).
Proof.
  intros Hz Hn Hc. revert c rrs Hc. induction groups as [|[key g] groups IH]; intros c rrs Hc; cbn [sign_groups].
  { split; [done|]. exists []. split_and!; [by rewrite app_nil_r| |constructor]. intros sig t Hin. by apply elem_of_nil in Hin. }
  set (ttl := match g with rr :: _ => rr_ttl rr | [] => 0 end).
  destruct (dnssec_sign_spec now c g zone ttl Hz Hn Hc) as [Hc' Hs].
  destruct (dnssec_sign RRString SignWith d now c g zone ttl) as [sigs c'] eqn:E. simpl in Hc', Hs.
  specialize (IH c' (rrs ++ default [] sigs) Hc'). destruct (sign_groups _ _ _ _ _ _ _ _) as [out c'']. destruct IH as (Hc'' & sigs' & -> & Hf & HC).
  split; [done|]. exists (default [] sigs ++ sigs'). split; [by rewrite app_assoc|]. split.
  - intros sig t [Hin|Hin]%elem_of_app; [|by apply Hf]. destruct sigs as [sigs|]; [|by apply elem_of_nil in Hin].
    destruct Hs as (_ & _ & _ & _ & _ & Hfr). by apply Hfr.
  - constructor.
    + simpl. destruct sigs as [sigs|]; [left; exists sigs; split; [done|set_solver]|right; by exists ttl].
    + eapply Forall_impl; [exact HC|]. intros x [(s & Hs' & Hsub)|]; [left; exists s; split; [done|set_solver]|by right].
Qed.

Lemma sign_keys_each keys rrs z ttl i e sigs k :
  sign_keys SignWith d keys rrs z ttl i e = Some sigs -> k ∈ keys -> suitable d rrs k = true ->
  exists sig, sig ∈ sigs /\ SignWith k (newRRSIG k z ttl i e) rrs = Some sig.
Proof.
  revert sigs. induction keys as [|k' keys IH]; simpl; intros sigs Hs Hk Hsuit; [by apply elem_of_nil in Hk|].
  apply elem_of_cons in Hk as [<-|Hk].
  - rewrite Hsuit in Hs. apply bind_Some in Hs as (sig & Hsig & (ss & _ & [= <-])%bind_Some). exists sig. split; [left|done].
  - destruct (suitable d rrs k'); [|by apply IH]. apply bind_Some in Hs as (sig & _ & (ss & Hss & [= <-])%bind_Some).
    destruct (IH ss Hss Hk Hsuit) as (s & Hin & E). exists s. split; [by right|done].
Qed.

(** A section with signatures: the records in front, and for each set of them
    and each key that is to sign it a signature, of the set or of one with the
    same hash, for one of the zones; or none for the set, which the library
    failed to sign with one of the keys. *)
Definition section_signed zone now (rrs out : list RR) : Prop :=
  exists sigs, out = rrs ++ sigs /\ fresh now sigs /\
  forall n ty, rrset_of rrs n ty <> [] ->
    (exists signer g t, signer ∈ d_zones d /\ rr_hash RRString g = rr_hash RRString (rrset_of rrs n ty) /\ t <= now /\
      forall k, k ∈ d_keys d -> suitable d g k = true ->
        exists sig ttl, sig ∈ sigs /\ SignWith k (newRRSIG k signer ttl (incepExpir t).1 (incepExpir t).2) g = Some sig) \/
    exists ttl, unsigned now zone (rrset_of rrs n ty) ttl.

Lemma sign_section_signed now c zone rrs :
  zone ∈ d_zones d -> time_ok now -> cache_ok now c ->
  cache_ok now (sign_section RRString SignWith d now c zone rrs).2 /\
  section_signed zone now rrs (sign_section RRString SignWith d now c zone rrs).1.
Proof.
  intros Hz Hn Hc. unfold sign_section. pose proof (sign_groups_spec now c zone (map_range (rrSets rrs)) rrs Hz Hn Hc) as H.
  destruct (sign_groups _ _ _ _ _ _ _ _) as [out c']. destruct H as (Hc' & sigs & -> & Hf & HC). split; [done|]. exists sigs. split_and!; [done|done|].
  intros n ty Hg. rewrite Forall_forall in HC.
  assert (covered now zone sigs (rrset_of rrs n ty)) as [Hs|?]; [|left|by right].
  { apply (HC ((n, ty), rrset_of rrs n ty)). apply elem_of_map_range, rrSets_lookup. done. }
  destruct Hs as (ss & (g & t & Hh & Hle & (signer & ttl & Hsg & Hm) & _) & Hsub). exists signer, g, t. split_and!; [done..|].
  intros k Hk Hs. destruct (sign_keys_each _ _ _ _ _ _ _ k Hm Hk Hs) as (sig & Hin & E). exists sig, ttl. split; [by apply Hsub|done].
Qed.

(** ** Replies *)

Lemma nsec_ok now c res zone mt ttl x :
  zone ∈ d_zones d -> time_ok now -> cache_ok now c -> nsec RRString SignWith d now c res zone mt ttl = Ok x -> cache_ok now x.2.
Proof.
  intros Hz Hn Hc (rr & _ & E)%bind_ok_inv. destruct (dnssec_sign_spec now c [rr] zone ttl Hz Hn Hc) as [Hc' _].
  destruct (dnssec_sign _ _ _ _ _ _ _ _) as [sigs c']. by injection E as <-.
Qed.

(** Every reply leaves the cache in order. *)
Lemma dnssec_Sign_ok now c zone res m c' :
  zone ∈ d_zones d -> time_ok now -> cache_ok now c -> dnssec_Sign RRString SignWith d now c zone res = Ok (m, c') -> cache_ok now c'.
Proof.
  intros Hz Hn Hc. unfold dnssec_Sign.
  assert (forall mt, sign_denial RRString SignWith d now c zone res mt = Ok (m, c') -> cache_ok now c') as Hd.
  { intros mt. unfold sign_denial. destruct (Ns_ res) as [|soa [|]]; [by intros [= <- <-]| |by intros [= <- <-]].
    case_decide; [|by intros [= <- <-]]. cbv zeta. destruct (dnssec_sign_spec now c [soa] zone (rr_ttl soa) Hz Hn Hc) as [Hc1 _].
    destruct (dnssec_sign _ _ _ _ _ _ _ _) as [sigs c1]. intros (x & Hx & E)%bind_ok_inv. apply nsec_ok in Hx; [|done..]. by injection E as _ <-. }
  assert (sign_delegation RRString SignWith d now c zone res = Ok (m, c') -> cache_ok now c') as Hg.
  { unfold sign_delegation. destruct (Ns_ res) as [|ns0 ns]; [by intros [= <- <-]|]. cbv zeta.
    intros (x & Hx & E)%bind_ok_inv. injection E as _ <-. destruct (filter _ _) as [|ds l]; [by apply nsec_ok in Hx|].
    injection Hx as <-. by apply dnssec_sign_spec. }
  destruct (Typify (Some res) now).1; try exact Hg; try apply Hd.
  all: destruct (sign_section_signed now c zone (Answer res) Hz Hn Hc) as [Hc1 _]; destruct (sign_section _ _ _ _ c _ _) as [an c1].
  all: destruct (sign_section_signed now c1 zone (Ns_ res) Hz Hn Hc1) as [Hc2 _]; destruct (sign_section _ _ _ _ c1 _ _) as [ns c2].
  all: destruct (sign_section_signed now c2 zone (Extra res) Hz Hn Hc2) as [Hc3 _]; destruct (sign_section _ _ _ _ c2 _ _) as [ex c3].
  all: intros [= _ <-]; exact Hc3.
Qed.

Lemma Matches_elem q : Matches (d_zones d) q <> EmptyString -> Matches (d_zones d) q ∈ d_zones d.
Proof. unfold Matches. destruct (matches_loop_spec (d_zones d) q EmptyString) as ([?|[? _]] & _); done. Qed.

Lemma dnssec_ServeDNS_ok next now c r :
  time_ok now -> cache_ok now c -> cache_ok now (dnssec_ServeDNS RRString SignWith d next now c r).2.
Proof.
  intros Hn Hc. unfold dnssec_ServeDNS. case_decide; [done|]. case_decide as Hk.
  { unfold getDNSKEY. destruct (Do r); [|done]. destruct (dnssec_sign_spec now c ((fun k => set_name (Name_ r) (k_K k)) <$> d_keys d) (Name_ r) 3600 (proj2 Hk) Hn Hc) as [Hc' _].
    by destruct (dnssec_sign _ _ _ _ _ _ _ _) as [sigs c']. }
  destruct (Do r); [|done]. destruct (next_or_failure next r) as [[m|] res]; [|done].
  destruct (dnssec_WriteMsg _ _ _ _ _ m) as [[m' c']|] eqn:E; [|done]. simpl. unfold dnssec_WriteMsg in E.
  case_decide as Hz; [by injection E as _ <-|]. apply (dnssec_Sign_ok _ _ _ _ _ _ (Matches_elem _ Hz) Hn Hc E).
Qed.

(** A walk that only takes elements away. *)
Lemma walk_keys_sub {T} (f : gmap Z T -> Z -> gmap Z T * bool) keys m :
  (forall m k, (f m k).1 ⊆ m) -> walk_keys f keys m ⊆ m.
Proof.
  intros Hf. revert m. induction keys as [|k keys IH]; intros m; simpl; [done|]. specialize (Hf m k) as H1.
  destruct (f m k) as [m' []]; simpl in H1; [|exact H1]. etrans; [apply IH|exact H1].
Qed.

Lemma Walk_ok now f c : (forall m k, (f m k).1 ⊆ m) -> cache_ok now c -> cache_ok now (Walk f c).
Proof.
  intros Hf [[lim (H4 & Hl & Hs)] Hc]. assert (forall s : shard (list RR), items (shard_Walk f s) ⊆ items s) as Hsub by (intros s; by apply walk_keys_sub).
  split.
  - exists lim. unfold Walk. split_and!; [done|by rewrite length_fmap|]. intros i s (s0 & -> & Hi)%list_lookup_fmap_Some.
    destruct (Hs _ _ Hi) as (E1 & E2 & E3). split_and!; [done| |].
    + pose proof (map_subseteq_size _ _ (Hsub s0)). lia.
    + intros k el Hel. eapply E3, lookup_weaken; [exact Hel|apply Hsub].
  - intros k sigs. unfold Get, Walk. rewrite list_lookup_fmap. destruct (c !! shard_of k) as [s|] eqn:Ek; [|done]. simpl. intros Hg.
    apply (Hc k). unfold Get. rewrite Ek. simpl. eapply lookup_weaken; [exact Hg|apply Hsub].
Qed.

(** The cache of a running server, by its clock: it starts empty, requests are
    served with any plugin after this one, and the cleaner ticks. *)
Inductive history : Z -> SigCache -> Prop :=
| h_new now size : history now (New size)
| h_wait now now' c : now <= now' -> history now c -> history now' c
| h_serve next now c r : time_ok now -> history now c -> history now (dnssec_ServeDNS RRString SignWith d next now c r).2
| h_clean now c : history now c -> history now (clean_tick now c).

Lemma history_ok now c : history now c -> cache_ok now c.
Proof.
  induction 1 as [now size|now now' c Hle _ IH|next now c r Hn _ IH|now c _ IH].
  - split; [eexists; apply New_wf|]. intros k sigs. rewrite (Get_contents _ _ _ (New_wf size)), New_contents, lookup_empty. done.
  - by eapply cache_ok_mono.
  - by apply dnssec_ServeDNS_ok.
  - apply Walk_ok; [|done]. intros m k. destruct (forallb _ _); simpl; [done|]. apply delete_subseteq.
Qed.

(** C12. Replies are signed.  For a plugin whose cache was empty at the start,
    after any requests and cleanings, a reply with records for a name in one of
    its zones (one that is not a delegation, a name error or empty) is sent
    with signatures added to each section.  All of them are valid for the next
    two days, also those from the cache.  For every record set there is, with
    every key that is to sign it, a signature made by the library from a set
    with the same hash, for one of the plugin's zones; or the library failed to
    sign the set with one of the keys, and none is added for it.  The cache is
    keyed by the 64-bit hash of the records alone: the theorem does not exclude
    that two sets have the same hash, or that the signature was made for
    another zone of the plugin ([wrong_signer]).  Times are before 2038, and a
    signature is taken to be valid from its inception to its expiration. *)
Theorem dnssec_signs now c res zone :
  time_ok now -> history now c -> Matches (d_zones d) (Name_ res) = zone -> zone <> EmptyString ->
  (Typify (Some res) now).1 ∉ [Delegation; NameError; NoData] ->
  exists m c', dnssec_WriteMsg RRString SignWith d now c res = Ok (m, c') /\
    section_signed zone now (Answer res) (Answer m) /\ section_signed zone now (Ns_ res) (Ns_ m) /\ section_signed zone now (Extra res) (Extra m).
Proof.
  intros Hn Hc%history_ok Hz Hne Ht. assert (zone ∈ d_zones d) as Hzd by (rewrite <-Hz in Hne |- *; by apply Matches_elem).
  assert (dnssec_WriteMsg RRString SignWith d now c res =
    (let '(an, c) := sign_section RRString SignWith d now c zone (Answer res) in
     let '(ns, c) := sign_section RRString SignWith d now c zone (Ns_ res) in
     let '(ex, c) := sign_section RRString SignWith d now c zone (Extra res) in
     Ok (set_sections res (Rcode res) an ns ex, c))) as ->.
  { unfold dnssec_WriteMsg, dnssec_Sign. rewrite Hz, decide_False by done. destruct (Typify (Some res) now).1; try done; exfalso; apply Ht; set_solver. }
  destruct (sign_section_signed now c zone (Answer res) Hzd Hn Hc) as [Hc1 H1]. destruct (sign_section _ _ _ _ c _ _) as [an c1].
  destruct (sign_section_signed now c1 zone (Ns_ res) Hzd Hn Hc1) as [Hc2 H2]. destruct (sign_section _ _ _ _ c1 _ _) as [ns c2].
  destruct (sign_section_signed now c2 zone (Extra res) Hzd Hn Hc2) as [Hc3 H3]. destruct (sign_section _ _ _ _ c2 _ _) as [ex c3].
  do 2 eexists. split; [reflexivity|]. done.
Qed.

(** ** Denials *)

Lemma remove_first_elem t l : NoDup l -> t ∉ remove_first t l.
Proof.
  induction 1 as [|x l Hx _ IH]; simpl; [apply not_elem_of_nil|]. case_decide as E; [by subst|].
  apply not_elem_of_cons. split; [congruence|done].
Qed.

Lemma filter_bitmap_elem t bitmap mt : NoDup bitmap -> mt = NoData \/ mt = NameError -> t <> TypeNSEC -> t ∉ filter_bitmap t bitmap mt.
Proof. intros Hd Hm Ht. unfold filter_bitmap. rewrite decide_False by naive_solver. by apply remove_first_elem. Qed.

(** The record is that of the question, and its types are not. *)
Lemma nsec_record_denies res zone mt ttl :
  mt = NoData \/ mt = NameError -> QType_ res <> TypeNSEC ->
  exists next bitmap, nsec_record res zone mt ttl = Ok (mkRR (mkHdr (QName_ res) TypeNSEC ClassINET ttl) (RNSEC next bitmap)) /\ QType_ res ∉ bitmap.
Proof.
  intros Hm Ht. unfold nsec_record.
  assert (NoDup apexBitmap /\ NoDup zoneBitmap) as [H1 H2] by (split; refine (bool_decide_unpack _ _); vm_compute; exact I).
  case_decide; [do 2 eexists; split; [reflexivity|by apply filter_bitmap_elem]|].
  rewrite (decide_False (P := mt = Delegation)) by (by intros ->; destruct Hm).
  case_decide as Hds; [|do 2 eexists; split; [reflexivity|by apply filter_bitmap_elem]].
  do 2 eexists. split; [reflexivity|]. rewrite Hds. refine (bool_decide_unpack _ _). vm_compute. exact I.
Qed.

(** A name or type that does not exist.  The reply becomes one without error
    that has the SOA record and a record of the name asked for, which does not
    list the type, with signatures of both that are valid for two days, when
    the library does not fail to sign. *)
Theorem dnssec_denies now c res soa mt zone :
  (forall k s rrs, k ∈ d_keys d -> is_Some (SignWith k s rrs)) -> zone ∈ d_zones d ->
  time_ok now -> history now c -> (Typify (Some res) now).1 = mt -> mt = NoData \/ mt = NameError -> QType_ res <> TypeNSEC ->
  Ns_ res = [soa] -> rr_type soa = TypeSOA ->
  exists m c' sigs sigs' next bitmap,
    let nsec := mkRR (mkHdr (QName_ res) TypeNSEC ClassINET (rr_ttl soa)) (RNSEC next bitmap) in
    dnssec_Sign RRString SignWith d now c zone res = Ok (m, c') /\ Rcode m = RcodeSuccess /\
    Ns_ m = [soa] ++ sigs ++ sigs' ++ [nsec] /\ (QType_ res ∉ bitmap) /\ signed now [soa] sigs /\ signed now [nsec] sigs'.
Proof.
  intros Hsign Hz Hn Hc%history_ok Hty Hm Hq Hns Hs. destruct (nsec_record_denies res zone mt (rr_ttl soa) Hm Hq) as (next & bitmap & En & Hb).
  assert (dnssec_Sign RRString SignWith d now c zone res = sign_denial RRString SignWith d now c zone res mt) as ->
    by (unfold dnssec_Sign; rewrite Hty; by destruct Hm as [-> | ->]).
  unfold sign_denial. rewrite Hns, decide_True by done. cbv zeta.
  destruct (dnssec_sign_spec now c [soa] zone (rr_ttl soa) Hz Hn Hc) as [Hc1 H1].
  destruct (dnssec_sign _ _ _ _ c _ _ _) as [sigs c1] eqn:E1. cbn [fst snd] in Hc1, H1. unfold nsec. rewrite En. cbn [mbind result_bind].
  set (rr := mkRR _ (RNSEC next bitmap)) in *. destruct (dnssec_sign_spec now c1 [rr] zone (rr_ttl soa) Hz Hn Hc1) as [Hc2 H2].
  destruct (dnssec_sign _ _ _ _ c1 _ _ _) as [sigs' c2] eqn:E2. cbn [fst snd] in Hc2, H2.
  destruct sigs as [sigs|]; [|by apply (unsigned_never _ _ _ _ Hsign) in H1].
  destruct sigs' as [sigs'|]; [|by apply (unsigned_never _ _ _ _ Hsign) in H2].
  eexists _, _, sigs, sigs', next, bitmap. cbv zeta. fold rr.
  split; [cbn; rewrite decide_True by (rewrite !length_app; simpl; lia); rewrite (decide_False (P := QType_ res = TypeNSEC)) by done; reflexivity|].
  done.
Qed.

End facts.

(** ** Examples *)

Module DnssecSample.
#[local] Existing Instances Plain.names PlainLib.lib list_order.

Definition key : DNSKEY := mkDNSKEY (mkRR (mkHdr "example.org." TypeDNSKEY ClassINET 3600) (RDNSKEY 257 3 13 "key")) 1.
Definition d : Dnssec := mkDnssec ["example.org."; "sub.example.org."] [key] false.

(** A signature that shows its signer as its name. *)
Definition sign_with (k : DNSKEY) (s : sig_fields) (rrs : list RR) : option RR :=
  Some (mkRR (mkHdr (s_SignerName s) TypeRRSIG ClassINET (s_Ttl s))
          (RRRSIG (match rrs with rr :: _ => rr_type rr | [] => 0 end) (s_Inception s) (s_Expiration s))).

Definition now : Z := 1700000000 * Second.

Definition www : RR := mkRR (mkHdr "www.example.org." TypeA ClassINET 60) (RA [192; 0; 2; 1]).
Definition reply (name : string) (an ns : list RR) : Msg := mkMsg 7 true 0 true false true false false false 0 [mkQ name TypeA ClassINET] an ns [].

Lemma sign_with_times k s rrs sig : sign_with k s rrs = Some sig -> exists ty, Data sig = RRRSIG ty (s_Inception s) (s_Expiration s).
Proof. intros [= <-]. by eexists. Qed.

Lemma validity_law rr ty i e t : Data rr = RRRSIG ty i e -> 0 <= t ->
  Z.abs (i - t / Second) < 2 ^ 31 -> Z.abs (e - t / Second) < 2 ^ 31 -> ValidityPeriod rr t = true <-> i <= t / Second <= e.
Proof.
  intros E Ht _ _. cbn [ValidityPeriod PlainLib.lib]. rewrite E, bool_decide_eq_true. change (10 ^ 9) with Second.
  rewrite Z.quot_div_nonneg by (unfold Second; lia). done.
Qed.

(** The second of two equal replies: its signature comes from the cache. *)
Definition query : Msg := mkMsg 7 false 0 false false true false false false 0 [mkQ "www.example.org." TypeA ClassINET] [] []
  [mkRR (mkHdr dot TypeOPT 4096 32768) (ROPT [])].
Definition served : SigCache :=
  (dnssec_ServeDNS rr_name sign_with d (Some (fun _ => (Some (reply "www.example.org." [www] []), Ok 0))) now (New 10000) query).2.

Lemma dnssec_signs_witness :
  Len served = 1 /\
  exists m c', dnssec_WriteMsg rr_name sign_with d (now + Second) served (reply "www.example.org." [www] []) = Ok (m, c') /\
    section_signed rr_name sign_with d "example.org." (now + Second) [www] (Answer m).
Proof.
  split; [vm_compute; reflexivity|].
  destruct (dnssec_signs rr_name sign_with sign_with_times validity_law d (now + Second) served (reply "www.example.org." [www] []) "example.org.")
    as (m & c' & E & H & _).
  - split; vm_compute; [discriminate|reflexivity].
  - apply h_wait with now; [vm_compute; discriminate|]. apply h_serve; [split; vm_compute; [discriminate|reflexivity]|]. apply h_new.
  - vm_compute. reflexivity.
  - discriminate.
  - vm_compute. intros H. apply list_elem_of_In in H. simpl in H. destruct H as [|[|[|[]]]]; discriminate.
  - exists m, c'. split; [exact E|exact H].
Defined.

(** An alias to a name of another zone is answered with both records, signed
    for the zone of the question; the signature of the second one is then
    found for a question in its own zone. *)
Definition host : RR := mkRR (mkHdr "www.sub.example.org." TypeA ClassINET 60) (RA [192; 0; 2; 2]).
Definition alias : RR := mkRR (mkHdr "www.example.org." TypeCNAME ClassINET 60) (RCNAME "www.sub.example.org.").

Lemma wrong_signer :
  match dnssec_WriteMsg rr_name sign_with d now (New 10000) (reply "www.example.org." [alias; host] []) with
  | Ok (_, c) =>
      match dnssec_WriteMsg rr_name sign_with d now c (reply "www.sub.example.org." [host] []) with
      | Ok (m, _) => rr_name <$> Answer m
      | _ => []
      end
  | _ => []
  end = ["www.sub.example.org."; "example.org."].
Proof. vm_compute. reflexivity. Qed.

(** The proof that a delegation is not signed is a record of the name asked
    for and not of the delegation. *)
Lemma delegation_not_named :
  let ns := mkRR (mkHdr "sub.example.org." TypeNS ClassINET 60) (RNS "ns.sub.example.org.") in
  match dnssec_WriteMsg rr_name sign_with (mkDnssec ["example.org."] [key] false) now (New 10000) (reply "www.sub.example.org." [] [ns]) with
  | Ok (m, _) => rr_name <$> filter (fun rr => rr_type rr = TypeNSEC) (Ns_ m)
  | _ => []
  end = ["www.sub.example.org."].
Proof. vm_compute. reflexivity. Qed.

End DnssecSample.
